(** * jmap_ical: conversion between iCalendar VEVENTs and JSCalendar events

    A shallow embedding of [imap/jmap_ical.c].  C functions become Rocq
    functions of the same name.  State that the C code mutates through
    pointers (the conversion context, the iCalendar component under
    construction) is passed explicitly and returned.  A [NULL] pointer is
    [None].  Code that would dereference [NULL] returns [None] in the
    [option] monad ("the call does not return").

    Layout:
    - [CString], [Jansson], [Ical], [Ctx]: the libc string routines, the
      JSON values of jansson, the component tree of libical, and the
      conversion context with its property-path tracker;
    - the collaborators that are not modelled, as records of functions;
    - iCalendar to JSCalendar: participants, times, alerts, the event;
    - JSCalendar to iCalendar: dates, recurrence rules, participants,
      overrides, the event;
    - [Parts]: the converters of single members: keywords, relatedTo,
      locale, description, links, locations, alerts and participants;
    - sample inputs and the vocabulary of the statements;
    - properties, grouped by the part of the converter they speak about. *)

From Stdlib Require Import ZArith String Ascii List Bool Lia DecimalString.
From stdpp Require Import base option list gmap strings.

Local Open Scope string_scope.
Local Open Scope Z_scope.

(* ===================================================================== *)
(** ** libc strings *)
(* ===================================================================== *)

Module CString.

Definition isupper (c : ascii) : bool :=
  let n := nat_of_ascii c in (65 <=? n)%nat && (n <=? 90)%nat.

Definition islower (c : ascii) : bool :=
  let n := nat_of_ascii c in (97 <=? n)%nat && (n <=? 122)%nat.

Definition isdigit (c : ascii) : bool :=
  let n := nat_of_ascii c in (48 <=? n)%nat && (n <=? 57)%nat.

Definition isalpha (c : ascii) : bool := isupper c || islower c.

Definition isascii (c : ascii) : bool := (nat_of_ascii c <? 128)%nat.

Definition tolower (c : ascii) : ascii :=
  if isupper c then ascii_of_nat (nat_of_ascii c + 32) else c.

Definition toupper (c : ascii) : ascii :=
  if islower c then ascii_of_nat (nat_of_ascii c - 32) else c.

Fixpoint strmap (f : ascii -> ascii) (s : string) : string :=
  match s with
  | EmptyString => EmptyString
  | String c r => String (f c) (strmap f r)
  end.

(** [lcase] / [ucase] (lib/util.c): in-place case folding. *)
Definition lcase : string -> string := strmap tolower.
Definition ucase : string -> string := strmap toupper.

(** [streq a b] is [!strcmp(a, b)]. *)
Definition streq (a b : string) : bool := String.eqb a b.

(** [strcaseeq a b] is [!strcasecmp(a, b)]. *)
Definition strcaseeq (a b : string) : bool := String.eqb (lcase a) (lcase b).

(** The first [n] bytes of [s] (all of it when shorter). *)
Fixpoint strprefix (n : nat) (s : string) : string :=
  match n, s with
  | S n', String c r => String c (strprefix n' r)
  | _, _ => EmptyString
  end.

(** [s + n] for [n <= strlen(s)]. *)
Fixpoint strdrop (n : nat) (s : string) : string :=
  match n, s with
  | S n', String _ r => strdrop n' r
  | _, _ => s
  end.

(** [strncaseeq a b n] is [!strncasecmp(a, b, n)]. *)
Definition strncaseeq (a b : string) (n : nat) : bool :=
  strcaseeq (strprefix n a) (strprefix n b).

(** [strchr s c]: the offset of the first [c] in [s], [None] for [NULL]. *)
Fixpoint strchr (s : string) (c : ascii) : option nat :=
  match s with
  | EmptyString => None
  | String d r =>
      if Ascii.eqb d c then Some O
      else match strchr r c with
           | Some i => Some (S i)
           | None => None
           end
  end.

Definition strlen (s : string) : nat := String.length s.

(** ["%zu"] and ["%d"] of [printf]. *)
Definition print_size_t (n : nat) : string :=
  NilEmpty.string_of_uint (Nat.to_uint n).

Definition print_int (z : Z) : string :=
  NilEmpty.string_of_int (Z.to_int z).

(** The value of a C [int] holding the 64-bit [json_int_t] [z]
    (two's complement truncation to 32 bits). *)
Definition int_of_json_int (z : Z) : Z :=
  let m := z mod 4294967296 in
  if m <? 2147483648 then m else m - 4294967296.


End CString.
Export CString.

(* ===================================================================== *)
(** ** jansson *)
(* ===================================================================== *)

(** JSON values.  Members of an object are kept in iteration order, which
  for jansson (2.8 and later) is the order of first insertion.  A
  [json_t *] that may be [NULL] is an [option json_t].  Real numbers do
  not occur in the parts of the converter modelled here. *)
#[warnings="-register-all"]
Inductive json_t : Type :=
| json_null
| json_true
| json_false
| json_integer (v : Z)
| json_string (s : string)
| json_array (items : list json_t)
| json_object (members : list (string * json_t)).

Module Jansson.

Definition json_boolean (b : bool) : json_t :=
  if b then json_true else json_false.

Definition json_is_null (j : option json_t) : bool :=
  match j with Some json_null => true | _ => false end.

Definition json_is_true (j : option json_t) : bool :=
  match j with Some json_true => true | _ => false end.

Definition json_is_false (j : option json_t) : bool :=
  match j with Some json_false => true | _ => false end.

Definition json_is_boolean (j : option json_t) : bool :=
  json_is_true j || json_is_false j.

Definition json_is_string (j : option json_t) : bool :=
  match j with Some (json_string _) => true | _ => false end.

Definition json_is_integer (j : option json_t) : bool :=
  match j with Some (json_integer _) => true | _ => false end.

Definition json_is_object (j : option json_t) : bool :=
  match j with Some (json_object _) => true | _ => false end.

Definition json_is_array (j : option json_t) : bool :=
  match j with Some (json_array _) => true | _ => false end.

(** [JNOTNULL(item)] of json_support.h:
    [((item) ? (json_is_null(item) == 0) : 0)]. *)
Definition JNOTNULL (j : option json_t) : bool :=
  match j with
  | None => false
  | Some json_null => false
  | Some _ => true
  end.

Definition json_string_value (j : option json_t) : option string :=
  match j with Some (json_string s) => Some s | _ => None end.

Definition json_integer_value (j : option json_t) : Z :=
  match j with Some (json_integer v) => v | _ => 0 end.

Definition json_boolean_value (j : option json_t) : bool := json_is_true j.

(** Lookup in a member list. *)
Fixpoint members_get (m : list (string * json_t)) (key : string)
  : option json_t :=
  match m with
  | [] => None
  | (k, v) :: r => if String.eqb k key then Some v else members_get r key
  end.

(** Insert or replace, keeping the position of an existing key. *)
Fixpoint members_set (m : list (string * json_t)) (key : string)
                     (v : json_t) : list (string * json_t) :=
  match m with
  | [] => [(key, v)]
  | (k, w) :: r =>
      if String.eqb k key then (k, v) :: r
      else (k, w) :: members_set r key v
  end.

Definition members_del (m : list (string * json_t)) (key : string)
  : list (string * json_t) :=
  List.filter (fun kv => negb (String.eqb (fst kv) key)) m.

Definition members_of (j : option json_t) : list (string * json_t) :=
  match j with Some (json_object m) => m | _ => [] end.

Definition items_of (j : option json_t) : list json_t :=
  match j with Some (json_array l) => l | _ => [] end.

Definition json_object_get (j : option json_t) (key : string)
  : option json_t :=
  members_get (members_of j) key.

Definition json_object_size (j : option json_t) : nat :=
  List.length (members_of j).

Definition json_array_size (j : option json_t) : nat :=
  List.length (items_of j).

Definition json_array_get (j : option json_t) (i : nat) : option json_t :=
  items_of j !! i.

(** [json_object_set_new(obj, key, v)] on an object. *)
Definition json_object_set_new (obj : json_t) (key : string) (v : json_t)
  : json_t :=
  match obj with
  | json_object m => json_object (members_set m key v)
  | _ => obj
  end.

Definition json_object_del (obj : json_t) (key : string) : json_t :=
  match obj with
  | json_object m => json_object (members_del m key)
  | _ => obj
  end.

(** [json_object_update(obj, other)]: every member of [other] is set in
    [obj]. *)
Definition json_object_update (obj : json_t) (other : json_t) : json_t :=
  fold_left (fun o kv => json_object_set_new o (fst kv) (snd kv))
            (members_of (Some other)) obj.

(** The key at [json_object_iter(obj)]: the first member's key. *)
Definition json_object_iter_key_first (j : option json_t) : option string :=
  match members_of j with
  | [] => None
  | (k, _) :: _ => Some k
  end.

(** The formats of [json_unpack] that the converter uses. *)
Inductive unpack_fmt := FMT_b | FMT_s | FMT_o | FMT_i | FMT_I.

(** [json_unpack(j, fmt, dst)] returns 0. *)
Definition json_unpack_ok (j : json_t) (fmt : unpack_fmt) : bool :=
  match fmt with
  | FMT_b => json_is_boolean (Some j)
  | FMT_s => json_is_string (Some j)
  | FMT_o => true
  | FMT_i | FMT_I => json_is_integer (Some j)
  end.

(** [json_equal]: values of the same type with the same content; two
    objects are equal when they have the same size and every member of the
    first has an equal member under its key in the second. *)
Fixpoint json_equal (json1 json2 : json_t) : bool :=
  match json1, json2 with
  | json_null, json_null | json_true, json_true | json_false, json_false => true
  | json_integer v1, json_integer v2 => v1 =? v2
  | json_string s1, json_string s2 => String.eqb s1 s2
  | json_array l1, json_array l2 =>
      (fix array_equal (l1 l2 : list json_t) : bool :=
         match l1, l2 with
         | [], [] => true
         | x1 :: r1, x2 :: r2 => json_equal x1 x2 && array_equal r1 r2
         | _, _ => false
         end) l1 l2
  | json_object m1, json_object m2 =>
      (List.length m1 =? List.length m2)%nat
      && (fix object_equal (m : list (string * json_t)) : bool :=
            match m with
            | [] => true
            | (key, value1) :: r =>
                match members_get m2 key with
                | Some value2 => json_equal value1 value2
                | None => false
                end && object_equal r
            end) m1
  | _, _ => false
  end.

End Jansson.
Export Jansson.

(* ===================================================================== *)
(** ** libical *)
(* ===================================================================== *)

(** The component tree of libical, with the structs of its public headers.
    Enumerated values (ACTION, RELTYPE) are kept as their iCalendar text;
    enumerated parameters that the converter switches on are enumerations.
    The calendar arithmetic of libical is not modelled: it is taken from a
    [library] record further down. *)
Module Ical.

(** [icaltimezone *].  The UTC singleton is told apart by pointer
    comparison in the C code. *)
Inductive icaltimezone :=
| utc_timezone
| builtin_timezone (location : string).

Definition icaltimezone_eqb (a b : icaltimezone) : bool :=
  match a, b with
  | utc_timezone, utc_timezone => true
  | builtin_timezone x, builtin_timezone y => String.eqb x y
  | _, _ => false
  end.

Definition zone_eqb (a b : option icaltimezone) : bool :=
  match a, b with
  | None, None => true
  | Some x, Some y => icaltimezone_eqb x y
  | _, _ => false
  end.

Record icaltimetype := mk_icaltime {
  year : Z; month : Z; day : Z; hour : Z; minute : Z; second : Z;
  is_date : bool;
  zone : option icaltimezone }.

Definition icaltime_null_time : icaltimetype :=
  mk_icaltime 0 0 0 0 0 0 false None.

Definition icaltime_is_null_time (t : icaltimetype) : bool :=
  (second t + minute t + hour t + day t + month t + year t =? 0).

Definition icaltime_is_utc (t : icaltimetype) : bool :=
  zone_eqb (zone t) (Some utc_timezone).

Record icaldurationtype := mk_icalduration {
  is_neg : Z;
  days : Z; weeks : Z; hours : Z; minutes : Z; seconds : Z }.

Definition icaldurationtype_null_duration : icaldurationtype :=
  mk_icalduration 0 0 0 0 0 0.

Definition icaldurationtype_as_int (d : icaldurationtype) : Z :=
  (seconds d + 60 * (minutes d + 60 * (hours d + 24 * (days d + 7 * weeks d))))
  * (if is_neg d =? 1 then -1 else 1).

Definition icaldurationtype_is_null_duration (d : icaldurationtype) : bool :=
  (icaldurationtype_as_int d =? 0).

Record icaltriggertype := mk_icaltrigger {
  trigger_time : icaltimetype;
  trigger_duration : icaldurationtype }.

Inductive icalparameter_cutype :=
| ICAL_CUTYPE_X | ICAL_CUTYPE_INDIVIDUAL | ICAL_CUTYPE_GROUP
| ICAL_CUTYPE_RESOURCE | ICAL_CUTYPE_ROOM | ICAL_CUTYPE_UNKNOWN
| ICAL_CUTYPE_NONE.

Inductive icalparameter_role :=
| ICAL_ROLE_X | ICAL_ROLE_CHAIR | ICAL_ROLE_REQPARTICIPANT
| ICAL_ROLE_OPTPARTICIPANT | ICAL_ROLE_NONPARTICIPANT | ICAL_ROLE_NONE.

Inductive icalparameter_partstat :=
| ICAL_PARTSTAT_X | ICAL_PARTSTAT_NEEDSACTION | ICAL_PARTSTAT_ACCEPTED
| ICAL_PARTSTAT_DECLINED | ICAL_PARTSTAT_TENTATIVE | ICAL_PARTSTAT_DELEGATED
| ICAL_PARTSTAT_COMPLETED | ICAL_PARTSTAT_INPROCESS | ICAL_PARTSTAT_NONE.

Inductive icalparameter_rsvp :=
| ICAL_RSVP_X | ICAL_RSVP_TRUE | ICAL_RSVP_FALSE | ICAL_RSVP_NONE.

Inductive icalparameter_related :=
| ICAL_RELATED_X | ICAL_RELATED_START | ICAL_RELATED_END | ICAL_RELATED_NONE.

Inductive icalparameter_kind :=
| ICAL_CN_PARAMETER | ICAL_EMAIL_PARAMETER | ICAL_CUTYPE_PARAMETER
| ICAL_ROLE_PARAMETER | ICAL_PARTSTAT_PARAMETER | ICAL_RSVP_PARAMETER
| ICAL_DELEGATEDTO_PARAMETER | ICAL_DELEGATEDFROM_PARAMETER
| ICAL_MEMBER_PARAMETER | ICAL_RELATED_PARAMETER | ICAL_RELTYPE_PARAMETER
| ICAL_TZID_PARAMETER | ICAL_LANGUAGE_PARAMETER | ICAL_X_PARAMETER
| ICAL_FMTTYPE_PARAMETER | ICAL_SIZE_PARAMETER | ICAL_LABEL_PARAMETER.

(** A property parameter.  The string of a DELEGATED-TO parameter is an
    [option]: [icalparameter_get_delegatedto] may return [NULL] and the
    converter tests for it.  A RELTYPE parameter carries the string that
    [icalparameter_get_xvalue] returns, [NULL] for the values libical
    enumerates. *)
Inductive icalparameter :=
| param_cn (v : string)
| param_email (v : string)
| param_cutype (v : icalparameter_cutype)
| param_role (v : icalparameter_role)
| param_partstat (v : icalparameter_partstat)
| param_rsvp (v : icalparameter_rsvp)
| param_delegatedto (v : option string)
| param_delegatedfrom (v : string)
| param_member (v : string)
| param_related (v : icalparameter_related)
| param_reltype (xvalue : option string)
| param_tzid (v : string)
| param_language (v : string)
| param_x (xname xvalue : string)
| param_fmttype (v : string)
| param_size (v : string)
| param_label (v : string).

Definition icalparameter_isa (p : icalparameter) : icalparameter_kind :=
  match p with
  | param_cn _ => ICAL_CN_PARAMETER
  | param_email _ => ICAL_EMAIL_PARAMETER
  | param_cutype _ => ICAL_CUTYPE_PARAMETER
  | param_role _ => ICAL_ROLE_PARAMETER
  | param_partstat _ => ICAL_PARTSTAT_PARAMETER
  | param_rsvp _ => ICAL_RSVP_PARAMETER
  | param_delegatedto _ => ICAL_DELEGATEDTO_PARAMETER
  | param_delegatedfrom _ => ICAL_DELEGATEDFROM_PARAMETER
  | param_member _ => ICAL_MEMBER_PARAMETER
  | param_related _ => ICAL_RELATED_PARAMETER
  | param_reltype _ => ICAL_RELTYPE_PARAMETER
  | param_tzid _ => ICAL_TZID_PARAMETER
  | param_language _ => ICAL_LANGUAGE_PARAMETER
  | param_x _ _ => ICAL_X_PARAMETER
  | param_fmttype _ => ICAL_FMTTYPE_PARAMETER
  | param_size _ => ICAL_SIZE_PARAMETER
  | param_label _ => ICAL_LABEL_PARAMETER
  end.

Definition icalparameter_kind_eqb (a b : icalparameter_kind) : bool :=
  match a, b with
  | ICAL_CN_PARAMETER, ICAL_CN_PARAMETER
  | ICAL_EMAIL_PARAMETER, ICAL_EMAIL_PARAMETER
  | ICAL_CUTYPE_PARAMETER, ICAL_CUTYPE_PARAMETER
  | ICAL_ROLE_PARAMETER, ICAL_ROLE_PARAMETER
  | ICAL_PARTSTAT_PARAMETER, ICAL_PARTSTAT_PARAMETER
  | ICAL_RSVP_PARAMETER, ICAL_RSVP_PARAMETER
  | ICAL_DELEGATEDTO_PARAMETER, ICAL_DELEGATEDTO_PARAMETER
  | ICAL_DELEGATEDFROM_PARAMETER, ICAL_DELEGATEDFROM_PARAMETER
  | ICAL_MEMBER_PARAMETER, ICAL_MEMBER_PARAMETER
  | ICAL_RELATED_PARAMETER, ICAL_RELATED_PARAMETER
  | ICAL_RELTYPE_PARAMETER, ICAL_RELTYPE_PARAMETER
  | ICAL_TZID_PARAMETER, ICAL_TZID_PARAMETER
  | ICAL_LANGUAGE_PARAMETER, ICAL_LANGUAGE_PARAMETER
  | ICAL_X_PARAMETER, ICAL_X_PARAMETER
  | ICAL_FMTTYPE_PARAMETER, ICAL_FMTTYPE_PARAMETER
  | ICAL_SIZE_PARAMETER, ICAL_SIZE_PARAMETER
  | ICAL_LABEL_PARAMETER, ICAL_LABEL_PARAMETER => true
  | _, _ => false
  end.

Inductive icalproperty_kind :=
| ICAL_ACKNOWLEDGED_PROPERTY | ICAL_ACTION_PROPERTY | ICAL_ATTENDEE_PROPERTY
| ICAL_CALSCALE_PROPERTY | ICAL_CATEGORIES_PROPERTY
| ICAL_CLASS_PROPERTY | ICAL_COLOR_PROPERTY
| ICAL_CREATED_PROPERTY | ICAL_DESCRIPTION_PROPERTY | ICAL_DTEND_PROPERTY
| ICAL_DTSTAMP_PROPERTY | ICAL_DTSTART_PROPERTY | ICAL_DURATION_PROPERTY
| ICAL_EXDATE_PROPERTY | ICAL_METHOD_PROPERTY | ICAL_ORGANIZER_PROPERTY
| ICAL_PRIORITY_PROPERTY | ICAL_PRODID_PROPERTY | ICAL_RDATE_PROPERTY
| ICAL_RECURRENCEID_PROPERTY | ICAL_RELATEDTO_PROPERTY | ICAL_RRULE_PROPERTY
| ICAL_SEQUENCE_PROPERTY | ICAL_STATUS_PROPERTY | ICAL_SUMMARY_PROPERTY
| ICAL_TRANSP_PROPERTY | ICAL_TRIGGER_PROPERTY | ICAL_UID_PROPERTY
| ICAL_VERSION_PROPERTY | ICAL_X_PROPERTY | ICAL_OTHER_PROPERTY
| ICAL_ATTACH_PROPERTY | ICAL_URL_PROPERTY | ICAL_LOCATION_PROPERTY
| ICAL_GEO_PROPERTY | ICAL_CONFERENCE_PROPERTY.

Definition icalproperty_kind_eqb (a b : icalproperty_kind) : bool :=
  match a, b with
  | ICAL_ACKNOWLEDGED_PROPERTY, ICAL_ACKNOWLEDGED_PROPERTY
  | ICAL_ACTION_PROPERTY, ICAL_ACTION_PROPERTY
  | ICAL_ATTENDEE_PROPERTY, ICAL_ATTENDEE_PROPERTY
  | ICAL_CALSCALE_PROPERTY, ICAL_CALSCALE_PROPERTY
  | ICAL_CATEGORIES_PROPERTY, ICAL_CATEGORIES_PROPERTY
  | ICAL_CLASS_PROPERTY, ICAL_CLASS_PROPERTY
  | ICAL_COLOR_PROPERTY, ICAL_COLOR_PROPERTY
  | ICAL_CREATED_PROPERTY, ICAL_CREATED_PROPERTY
  | ICAL_DESCRIPTION_PROPERTY, ICAL_DESCRIPTION_PROPERTY
  | ICAL_DTEND_PROPERTY, ICAL_DTEND_PROPERTY
  | ICAL_DTSTAMP_PROPERTY, ICAL_DTSTAMP_PROPERTY
  | ICAL_DTSTART_PROPERTY, ICAL_DTSTART_PROPERTY
  | ICAL_DURATION_PROPERTY, ICAL_DURATION_PROPERTY
  | ICAL_EXDATE_PROPERTY, ICAL_EXDATE_PROPERTY
  | ICAL_METHOD_PROPERTY, ICAL_METHOD_PROPERTY
  | ICAL_ORGANIZER_PROPERTY, ICAL_ORGANIZER_PROPERTY
  | ICAL_PRIORITY_PROPERTY, ICAL_PRIORITY_PROPERTY
  | ICAL_PRODID_PROPERTY, ICAL_PRODID_PROPERTY
  | ICAL_RDATE_PROPERTY, ICAL_RDATE_PROPERTY
  | ICAL_RECURRENCEID_PROPERTY, ICAL_RECURRENCEID_PROPERTY
  | ICAL_RELATEDTO_PROPERTY, ICAL_RELATEDTO_PROPERTY
  | ICAL_RRULE_PROPERTY, ICAL_RRULE_PROPERTY
  | ICAL_SEQUENCE_PROPERTY, ICAL_SEQUENCE_PROPERTY
  | ICAL_STATUS_PROPERTY, ICAL_STATUS_PROPERTY
  | ICAL_SUMMARY_PROPERTY, ICAL_SUMMARY_PROPERTY
  | ICAL_TRANSP_PROPERTY, ICAL_TRANSP_PROPERTY
  | ICAL_TRIGGER_PROPERTY, ICAL_TRIGGER_PROPERTY
  | ICAL_UID_PROPERTY, ICAL_UID_PROPERTY
  | ICAL_VERSION_PROPERTY, ICAL_VERSION_PROPERTY
  | ICAL_X_PROPERTY, ICAL_X_PROPERTY
  | ICAL_OTHER_PROPERTY, ICAL_OTHER_PROPERTY
  | ICAL_ATTACH_PROPERTY, ICAL_ATTACH_PROPERTY
  | ICAL_URL_PROPERTY, ICAL_URL_PROPERTY
  | ICAL_LOCATION_PROPERTY, ICAL_LOCATION_PROPERTY
  | ICAL_GEO_PROPERTY, ICAL_GEO_PROPERTY
  | ICAL_CONFERENCE_PROPERTY, ICAL_CONFERENCE_PROPERTY => true
  | _, _ => false
  end.

Inductive icalproperty_status :=
| ICAL_STATUS_NONE | ICAL_STATUS_TENTATIVE | ICAL_STATUS_CONFIRMED
| ICAL_STATUS_CANCELLED.

Inductive icalproperty_transp :=
| ICAL_TRANSP_NONE | ICAL_TRANSP_OPAQUE | ICAL_TRANSP_TRANSPARENT.

Inductive icalproperty_class :=
| ICAL_CLASS_NONE | ICAL_CLASS_PUBLIC | ICAL_CLASS_PRIVATE
| ICAL_CLASS_CONFIDENTIAL.

(** [icalproperty_method]; [ICAL_METHOD_NONE] is the absence of a value,
    the others are named by their iCalendar text. *)
Inductive icalproperty_method :=
| ICAL_METHOD_NONE
| ICAL_METHOD (name : string).

(** The value of a property.  [val_none] is a property without a value, as
    [icalproperty_new] builds it; an ATTACH value holds the URL that
    [icalattach_new_from_url] was given. *)
Inductive icalvalue :=
| val_text (s : string)
| val_integer (v : Z)
| val_boolean (b : bool)
| val_datetime (t : icaltimetype)
| val_duration (d : icaldurationtype)
| val_trigger (tr : icaltriggertype)
| val_recur (rule : string)
| val_status (s : icalproperty_status)
| val_transp (s : icalproperty_transp)
| val_class (s : icalproperty_class)
| val_method (s : icalproperty_method)
| val_uri (s : string)
| val_attach (url : string)
| val_none.

Record icalproperty := mk_icalproperty {
  prop_kind : icalproperty_kind;
  prop_x_name : string;
  prop_value : icalvalue;
  prop_params : list icalparameter }.

Inductive icalcomponent_kind :=
| ICAL_VCALENDAR_COMPONENT | ICAL_VEVENT_COMPONENT | ICAL_VALARM_COMPONENT
| ICAL_VTIMEZONE_COMPONENT | ICAL_OTHER_COMPONENT.

Definition icalcomponent_kind_eqb (a b : icalcomponent_kind) : bool :=
  match a, b with
  | ICAL_VCALENDAR_COMPONENT, ICAL_VCALENDAR_COMPONENT
  | ICAL_VEVENT_COMPONENT, ICAL_VEVENT_COMPONENT
  | ICAL_VALARM_COMPONENT, ICAL_VALARM_COMPONENT
  | ICAL_VTIMEZONE_COMPONENT, ICAL_VTIMEZONE_COMPONENT
  | ICAL_OTHER_COMPONENT, ICAL_OTHER_COMPONENT => true
  | _, _ => false
  end.

#[warnings="-register-all"]
Inductive icalcomponent :=
| mk_icalcomponent (kind : icalcomponent_kind)
                   (props : list icalproperty)
                   (comps : list icalcomponent).

Definition icalcomponent_isa (c : icalcomponent) : icalcomponent_kind :=
  match c with mk_icalcomponent k _ _ => k end.

Definition comp_props (c : icalcomponent) : list icalproperty :=
  match c with mk_icalcomponent _ p _ => p end.

Definition comp_comps (c : icalcomponent) : list icalcomponent :=
  match c with mk_icalcomponent _ _ s => s end.

(** [icalproperty_new(kind)] followed by [icalproperty_set_value], or one of
    the typed constructors [icalproperty_new_<kind>(v)]. *)
Definition icalproperty_new_value (k : icalproperty_kind) (v : icalvalue)
  : icalproperty :=
  mk_icalproperty k EmptyString v [].

Definition icalproperty_add_parameter (p : icalproperty) (a : icalparameter)
  : icalproperty :=
  mk_icalproperty (prop_kind p) (prop_x_name p) (prop_value p)
                  (prop_params p ++ [a]).

(** The parameters that [icalproperty_get_first_parameter] and
    [icalproperty_get_next_parameter] enumerate for a kind. *)
Definition params_of_kind (p : icalproperty) (k : icalparameter_kind)
  : list icalparameter :=
  List.filter (fun a => icalparameter_kind_eqb (icalparameter_isa a) k)
              (prop_params p).

Definition icalproperty_get_first_parameter
    (p : icalproperty) (k : icalparameter_kind) : option icalparameter :=
  head (params_of_kind p k).

(** The properties that [icalcomponent_get_first_property] and
    [icalcomponent_get_next_property] enumerate for a kind. *)
Definition props_of_kind (c : icalcomponent) (k : icalproperty_kind)
  : list icalproperty :=
  List.filter (fun p => icalproperty_kind_eqb (prop_kind p) k) (comp_props c).

Definition icalcomponent_get_first_property
    (c : icalcomponent) (k : icalproperty_kind) : option icalproperty :=
  head (props_of_kind c k).

Definition comps_of_kind (c : icalcomponent) (k : icalcomponent_kind)
  : list icalcomponent :=
  List.filter (fun s => icalcomponent_kind_eqb (icalcomponent_isa s) k)
              (comp_comps c).

Definition icalcomponent_add_property (c : icalcomponent) (p : icalproperty)
  : icalcomponent :=
  mk_icalcomponent (icalcomponent_isa c) (comp_props c ++ [p]) (comp_comps c).

Definition icalcomponent_add_component (c s : icalcomponent)
  : icalcomponent :=
  mk_icalcomponent (icalcomponent_isa c) (comp_props c) (comp_comps c ++ [s]).

Definition icalcomponent_new (k : icalcomponent_kind) : icalcomponent :=
  mk_icalcomponent k [] [].

(** [icalcomponent_get_dtstart]: the null time without a DTSTART. *)
Definition icalcomponent_get_dtstart (c : icalcomponent) : icaltimetype :=
  match icalcomponent_get_first_property c ICAL_DTSTART_PROPERTY with
  | Some p => match prop_value p with
              | val_datetime t => t
              | _ => icaltime_null_time
              end
  | None => icaltime_null_time
  end.

(** [icalproperty_new(kind)]: a property without a value. *)
Definition icalproperty_new (k : icalproperty_kind) : icalproperty :=
  mk_icalproperty k EmptyString val_none [].

(** [icalproperty_set_value(prop, value)]; libical returns at once when
    [value] is [NULL]. *)
Definition icalproperty_set_value (p : icalproperty) (v : option icalvalue)
  : icalproperty :=
  match v with
  | Some v => mk_icalproperty (prop_kind p) (prop_x_name p) v (prop_params p)
  | None => p
  end.

(** What [icalparameter_string_to_enum] returns, as far as the converter
    switches on it: an enumerator of CUTYPE, one of PARTSTAT, or another
    number. *)
Inductive icalparameter_enum :=
| enum_cutype (v : icalparameter_cutype)
| enum_partstat (v : icalparameter_partstat)
| enum_other.

(** The value kinds that the converter hands to
    [icalvalue_new_from_string]. *)
Inductive icalvalue_kind := ICAL_TEXT_VALUE | ICAL_URI_VALUE.

(** The fields of [struct tm] that the converter reads. *)
Record tm := mk_tm {
  tm_sec : Z; tm_min : Z; tm_hour : Z;
  tm_mday : Z; tm_mon : Z; tm_year : Z }.

End Ical.
Export Ical.

(* ===================================================================== *)
(** ** Conversion context and property-path tracker *)
(* ===================================================================== *)

Module Ctx.

Definition JMAPICAL_READ_MODE : Z := 0.
Definition JMAPICAL_WRITE_MODE : Z := Z.shiftl 1 0.
Definition JMAPICAL_EXC_MODE : Z := Z.shiftl 1 8.

(** Modelled from the spec: the error codes of jmap_ical.h, which is not
    part of the sources at hand.  The spec lists
    [ErrorKind ∈ {Success, Callback, Memory, ICal, Props, UID, Unknown}];
    [JMAPICAL_SUCCESS] is the code 0 that the C code tests with
    [err->code]. *)
Inductive jmapical_errcode :=
| JMAPICAL_SUCCESS
| JMAPICAL_ERROR_CALLBACK
| JMAPICAL_ERROR_MEMORY
| JMAPICAL_ERROR_ICAL
| JMAPICAL_ERROR_PROPS
| JMAPICAL_ERROR_UID
| JMAPICAL_ERROR_UNKNOWN.

Definition errcode_is_set (c : jmapical_errcode) : bool :=
  match c with JMAPICAL_SUCCESS => false | _ => true end.

Record jmapical_err_t := mk_err {
  code : jmapical_errcode;
  props : option json_t }.

(** [xzmalloc(sizeof(jmapical_err_t))]. *)
Definition err_zero : jmapical_err_t := mk_err JMAPICAL_SUCCESS None.

(** [struct context].  [err] is the struct that [ctx->err] points to;
    [err_owned] tells whether it is the context's own ([ctx->_err]) or the
    caller's.  [invalid] holds the members of the JSON object
    [ctx->invalid]; [propstr] is the path stack, top last. *)
Record context_t := mk_context {
  err : jmapical_err_t;
  err_owned : bool;
  mode : Z;
  invalid : list (string * json_t);
  propstr : list string;
  wantprops : option json_t;
  master : option icalcomponent;
  tzid_start : option string;
  is_allday : Z;
  uid : option string;
  tzstart_old : option icaltimezone;
  tzstart : option icaltimezone;
  tzend_old : option icaltimezone;
  tzend : option icaltimezone }.

Definition context_new (wantprops : option json_t)
                       (err : option jmapical_err_t) (mode : Z) : context_t :=
  {| err := match err with Some e => e | None => err_zero end;
     err_owned := match err with Some _ => false | None => true end;
     mode := mode;
     invalid := [];
     propstr := [];
     wantprops := wantprops;
     master := None;
     tzid_start := None;
     is_allday := 0;
     uid := None;
     tzstart_old := None;
     tzstart := None;
     tzend_old := None;
     tzend := None |}.

Definition set_err (ctx : context_t) (e : jmapical_err_t) : context_t :=
  mk_context e (err_owned ctx) (mode ctx) (invalid ctx) (propstr ctx)
    (wantprops ctx) (master ctx) (tzid_start ctx) (is_allday ctx) (uid ctx)
    (tzstart_old ctx) (tzstart ctx) (tzend_old ctx) (tzend ctx).

Definition set_err_code (ctx : context_t) (c : jmapical_errcode) : context_t :=
  set_err ctx (mk_err c (props (err ctx))).

Definition set_invalid (ctx : context_t) (m : list (string * json_t))
  : context_t :=
  mk_context (err ctx) (err_owned ctx) (mode ctx) m (propstr ctx)
    (wantprops ctx) (master ctx) (tzid_start ctx) (is_allday ctx) (uid ctx)
    (tzstart_old ctx) (tzstart ctx) (tzend_old ctx) (tzend ctx).

Definition set_propstr (ctx : context_t) (s : list string) : context_t :=
  mk_context (err ctx) (err_owned ctx) (mode ctx) (invalid ctx) s
    (wantprops ctx) (master ctx) (tzid_start ctx) (is_allday ctx) (uid ctx)
    (tzstart_old ctx) (tzstart ctx) (tzend_old ctx) (tzend ctx).

Definition set_wantprops (ctx : context_t) (w : option json_t) : context_t :=
  mk_context (err ctx) (err_owned ctx) (mode ctx) (invalid ctx) (propstr ctx)
    w (master ctx) (tzid_start ctx) (is_allday ctx) (uid ctx)
    (tzstart_old ctx) (tzstart ctx) (tzend_old ctx) (tzend ctx).

Definition set_tzid_start (ctx : context_t) (t : option string) : context_t :=
  mk_context (err ctx) (err_owned ctx) (mode ctx) (invalid ctx) (propstr ctx)
    (wantprops ctx) (master ctx) t (is_allday ctx) (uid ctx)
    (tzstart_old ctx) (tzstart ctx) (tzend_old ctx) (tzend ctx).

Definition set_is_allday (ctx : context_t) (b : Z) : context_t :=
  mk_context (err ctx) (err_owned ctx) (mode ctx) (invalid ctx) (propstr ctx)
    (wantprops ctx) (master ctx) (tzid_start ctx) b (uid ctx)
    (tzstart_old ctx) (tzstart ctx) (tzend_old ctx) (tzend ctx).

Definition set_uid (ctx : context_t) (u : option string) : context_t :=
  mk_context (err ctx) (err_owned ctx) (mode ctx) (invalid ctx) (propstr ctx)
    (wantprops ctx) (master ctx) (tzid_start ctx) (is_allday ctx) u
    (tzstart_old ctx) (tzstart ctx) (tzend_old ctx) (tzend ctx).

Definition set_tzstart_old (ctx : context_t) (z : option icaltimezone)
  : context_t :=
  mk_context (err ctx) (err_owned ctx) (mode ctx) (invalid ctx) (propstr ctx)
    (wantprops ctx) (master ctx) (tzid_start ctx) (is_allday ctx) (uid ctx)
    z (tzstart ctx) (tzend_old ctx) (tzend ctx).

Definition set_tzstart (ctx : context_t) (z : option icaltimezone)
  : context_t :=
  mk_context (err ctx) (err_owned ctx) (mode ctx) (invalid ctx) (propstr ctx)
    (wantprops ctx) (master ctx) (tzid_start ctx) (is_allday ctx) (uid ctx)
    (tzstart_old ctx) z (tzend_old ctx) (tzend ctx).

Definition set_tzend_old (ctx : context_t) (z : option icaltimezone)
  : context_t :=
  mk_context (err ctx) (err_owned ctx) (mode ctx) (invalid ctx) (propstr ctx)
    (wantprops ctx) (master ctx) (tzid_start ctx) (is_allday ctx) (uid ctx)
    (tzstart_old ctx) (tzstart ctx) z (tzend ctx).

Definition set_tzend (ctx : context_t) (z : option icaltimezone)
  : context_t :=
  mk_context (err ctx) (err_owned ctx) (mode ctx) (invalid ctx) (propstr ctx)
    (wantprops ctx) (master ctx) (tzid_start ctx) (is_allday ctx) (uid ctx)
    (tzstart_old ctx) (tzstart ctx) (tzend_old ctx) z.

Definition wantprop (ctx : context_t) (name : string) : bool :=
  match wantprops ctx with
  | None => true
  | Some w =>
      match json_object_get (Some w) name with Some _ => true | None => false end
  end.

(** Modelled from the spec: [json_pointer_needsencode] and
    [json_pointer_encode] of lib/json_support.c, which is not part of the
    sources at hand.  The spec says: "Segments that contain [/] or [~] are
    encoded per JSON Pointer ([~] as [~0], [/] as [~1])". *)
Definition json_pointer_needsencode (s : string) : bool :=
  match strchr s "/"%char, strchr s "~"%char with
  | None, None => false
  | _, _ => true
  end.

Fixpoint json_pointer_encode (s : string) : string :=
  match s with
  | EmptyString => EmptyString
  | String c r =>
      if Ascii.eqb c "~"%char then String "~"%char (String "0"%char (json_pointer_encode r))
      else if Ascii.eqb c "/"%char then String "~"%char (String "1"%char (json_pointer_encode r))
      else String c (json_pointer_encode r)
  end.

Definition encode_segment (name : string) : string :=
  if json_pointer_needsencode name then json_pointer_encode name else name.

(** [strarray_push] appends, [strarray_pop] removes the last entry: the
    tracker relies on that (a pop must undo the latest push). *)
Definition strarray_push (a : list string) (s : string) : list string :=
  a ++ [s].

Definition strarray_pop (a : list string) : list string := removelast a.

Definition beginprop_key (ctx : context_t) (name key : string) : context_t :=
  set_propstr ctx
    (strarray_push (propstr ctx)
       (encode_segment name ++ "/" ++ encode_segment key)).

Definition beginprop_idx (ctx : context_t) (name : string) (idx : nat)
  : context_t :=
  set_propstr ctx
    (strarray_push (propstr ctx)
       (encode_segment name ++ "/" ++ print_size_t idx)).

Definition beginprop (ctx : context_t) (name : string) : context_t :=
  set_propstr ctx (strarray_push (propstr ctx) (encode_segment name)).

(** [endprop] asserts that the stack is not empty. *)
Definition endprop (ctx : context_t) : context_t :=
  set_propstr ctx (strarray_pop (propstr ctx)).

(** The segments joined by ["/"]. *)
Fixpoint join_path (segs : list string) : string :=
  match segs with
  | [] => EmptyString
  | [s] => s
  | s :: r => s ++ "/" ++ join_path r
  end.

(** [encodeprop(ctx, name)]; [name = None] is a [NULL] name.  The result is
    [None] ([NULL]) when there is neither a name nor a path. *)
Definition encodeprop (ctx : context_t) (name : option string)
  : option string :=
  match name, propstr ctx with
  | None, [] => None
  | None, segs => Some (join_path segs)
  | Some n, segs => Some (join_path (propstr (beginprop ctx n)))
  end.

(** [invalidprop(ctx, name)]: [json_object_set_new] refuses a [NULL] key,
    so nothing is recorded when [encodeprop] gives [NULL]. *)
Definition invalidprop (ctx : context_t) (name : option string) : context_t :=
  match encodeprop ctx name with
  | Some p => set_invalid ctx (members_set (invalid ctx) p json_null)
  | None => ctx
  end.

(** [invalidprop_append(ctx, props)]: every string of the array [props] is
    recorded below the current path.  [buf_setcstr] and [buf_appendcstr] take
    the length of their argument, so a [NULL] current path or a member that
    is not a string is a [NULL] dereference. *)
Fixpoint invalidprop_append_items (ctx : context_t) (items : list json_t)
  : option context_t :=
  match items with
  | [] => Some ctx
  | val :: rest =>
      match encodeprop ctx None, json_string_value (Some val) with
      | Some tmp, Some raw =>
          invalidprop_append_items
            (set_invalid ctx (members_set (invalid ctx) (tmp ++ "/" ++ raw) json_null))
            rest
      | _, _ => None
      end
  end.

Definition invalidprop_append (ctx : context_t) (props : option json_t)
  : option context_t :=
  invalidprop_append_items ctx (items_of props).

Definition have_invalid_props (ctx : context_t) : bool :=
  (0 <? json_object_size (Some (json_object (invalid ctx))))%nat.

Definition invalid_prop_count (ctx : context_t) : nat :=
  json_object_size (Some (json_object (invalid ctx))).

(** [get_invalid_props]: the keys of [ctx->invalid] in the order the object
    iterates over them, [NULL] when there is none. *)
Definition get_invalid_props (ctx : context_t) : option json_t :=
  let props := map (fun kv => json_string (fst kv)) (invalid ctx) in
  match props with
  | [] => None
  | _ => Some (json_array props)
  end.

(** [readprop(ctx, from, name, is_mandatory, fmt, dst)]: the return value
    and the context.  The value written to [dst] is the member itself,
    which the caller reads according to [fmt]. *)
Definition readprop (ctx : context_t) (from : option json_t) (name : string)
                    (is_mandatory : bool) (fmt : unpack_fmt)
  : Z * context_t :=
  let jval := json_object_get from name in
  let r :=
    match jval with
    | None => if is_mandatory then -1 else 0
    | Some j => if json_unpack_ok j fmt then 1 else -2
    end in
  (r, if r <? 0 then invalidprop ctx (Some name) else ctx).

End Ctx.
Export Ctx.

(* ===================================================================== *)
(** ** Collaborators outside the converter *)
(* ===================================================================== *)

(** Library routines that the converter calls and that are not modelled:
    the SHA-1 digest, libical's calendar arithmetic, parsing and printing,
    the time zone database, the JSON patch engine, the address
    canonicalizer, the clock, and the user and the annotation of the HTTP
    session.  Every definition below takes them as the record [L]; the
    theorems hold for every such record. *)
Record library := mk_library {
  (** [bin_to_hex(xsha1(val))], 40 lower-case hex digits *)
  sha1_hex : string -> string;
  address_canonicalise : string -> option string;
  (** [parsenum(s, &s, strlen(s), &res) == 0] gives [Some res] *)
  parsenum : string -> option Z;
  (** [icalvalue_as_ical_string] of a value that is not a text *)
  icalvalue_as_ical_string : icalvalue -> string;
  icalproperty_as_ical_string : icalproperty -> string;
  icalcomponent_as_ical_string : icalcomponent -> string;
  icaltime_from_string : string -> icaltimetype;
  icaltime_as_timet : icaltimetype -> Z;
  (** [time_to_rfc3339]: [None] when it writes nothing *)
  time_to_rfc3339 : Z -> option string;
  icaltime_is_valid_time : icaltimetype -> bool;
  icaltime_convert_to_zone : icaltimetype -> option icaltimezone -> icaltimetype;
  icaltime_subtract : icaltimetype -> icaltimetype -> icaldurationtype;
  icaltime_add : icaltimetype -> icaldurationtype -> icaltimetype;
  icaldurationtype_as_ical_string_r : icaldurationtype -> string;
  icaltime_as_ical_string : icaltimetype -> string;
  icaldurationtype_from_string : string -> icaldurationtype;
  icaltimezone_get_builtin_timezone : string -> option icaltimezone;
  icaltimezone_get_location : icaltimezone -> string;
  (** [icalcomponent_get_dtend], which derives the end of a VEVENT from
      its DTEND or from its DTSTART and DURATION: a function of the
      properties of the component *)
  icalcomponent_get_dtend : list icalproperty -> icaltimetype;
  (** [strptime(buf, "%Y-%m-%dT%H:%M:%S", &tm)] when it consumes all of
      [buf], and [strftime(s, 18, "%Y%m%dT%H%M%S", &tm)] *)
  strptime_localdate : string -> option tm;
  strftime_ical : tm -> string;
  (** [jmap_patchobject_apply(base, patch)], [None] for [NULL] *)
  jmap_patchobject_apply : json_t -> json_t -> option json_t;
  icalcomponent_add_required_timezones : icalcomponent -> icalcomponent;
  (** [icaltime_current_time_with_zone(utc)] *)
  icaltime_current_time_utc : icaltimetype;
  (** [icaltime_from_timet_with_zone(time(NULL), 0, utc)] *)
  icaltime_from_time_now : icaltimetype;
  CYRUS_VERSION : string;
  icalenum_string_to_method : string -> icalproperty_method;
  (** [icalrecur_string_to_weekday(s) != ICAL_NO_WEEKDAY] *)
  icalrecur_is_weekday : string -> bool;
  (** [icalrecurrencetype_from_string(s).freq != ICAL_NO_RECURRENCE] *)
  icalrecur_has_freq : string -> bool;
  (** [sscanf(s, "%2d%c%c", &val, &leap, &dummy)]: the number of items
      matched, and [val] and [leap] (0 when not assigned) *)
  sscanf_month : string -> Z * Z * ascii;
  (** [strcmpsafe(a, b) == 0] of lib/util, which takes [NULL] strings *)
  strcmpsafe : option string -> option string -> bool;
  icalparameter_string_to_enum : string -> icalparameter_enum;
  (** [icalvalue_new_from_string(kind, s)], [None] for [NULL] *)
  icalvalue_new_from_string : icalvalue_kind -> string -> option icalvalue;
  (** the global [httpd_userid], [None] for [NULL] *)
  httpd_userid : option string;
  (** the buffer that [annotatemore_lookupmask] fills for the annotation
      [calendar-user-address-set] of the calendar home of [httpd_userid],
      when the call returns 0 *)
  calendar_user_address_set : option string
}.

(** [sha1key] *)
Definition sha1key (L : library) (val : string) : string := sha1_hex L val.

(** Modelled from the spec: the names of the x-parameters and x-properties,
    defined in jmap_ical.h, which is not part of the sources at hand.  The
    spec lists them under "iCalendar X-names used as the stable interchange
    vocabulary". *)
Definition JMAPICAL_XPARAM_ID : string := "X-JMAP-ID".
Definition JMAPICAL_XPARAM_ROLE : string := "X-JMAP-ROLE".
Definition JMAPICAL_XPARAM_RSVP_URI : string := "X-JMAP-RSVP-URI".
Definition JMAPICAL_XPARAM_LINKID : string := "X-JMAP-LINKID".
Definition JMAPICAL_XPARAM_SEQUENCE : string := "X-JMAP-SEQUENCE".
Definition JMAPICAL_XPARAM_DTSTAMP : string := "X-JMAP-DTSTAMP".
Definition JMAPICAL_XPARAM_LOCATIONID : string := "X-JMAP-LOCATIONID".
Definition JMAPICAL_XPROP_USEDEFALERTS : string := "X-JMAP-USEDEFAULTALERTS".
Definition JMAPICAL_XPARAM_TITLE : string := "X-JMAP-TITLE".
Definition JMAPICAL_XPARAM_CID : string := "X-JMAP-CID".
Definition JMAPICAL_XPARAM_REL : string := "X-JMAP-REL".
Definition JMAPICAL_XPARAM_DISPLAY : string := "X-JMAP-DISPLAY".
Definition JMAPICAL_XPARAM_DESCRIPTION : string := "X-JMAP-DESCRIPTION".
Definition JMAPICAL_XPARAM_TZID : string := "X-JMAP-TZID".
Definition JMAPICAL_XPARAM_GEO : string := "X-JMAP-GEO".
Definition JMAPICAL_XPROP_LOCATION : string := "X-JMAP-LOCATION".

(** [icalproperty_get_value_as_string] *)
Definition icalproperty_get_value_as_string (L : library) (p : icalproperty)
  : string :=
  match prop_value p with
  | val_text s => s
  | v => icalvalue_as_ical_string L v
  end.

(** [icalcomponent_get_uid] of a VEVENT or VALARM: [NULL] without a UID
    property. *)
Definition icalcomponent_get_uid (L : library) (c : icalcomponent)
  : option string :=
  match icalcomponent_get_first_property c ICAL_UID_PROPERTY with
  | Some p => Some (icalproperty_get_value_as_string L p)
  | None => None
  end.

(** The x-parameters of a property, in order. *)
Definition xparams (p : icalproperty) : list (string * string) :=
  omap (fun a => match a with
                 | param_x n v => Some (n, v)
                 | _ => None
                 end) (prop_params p).

(** [get_icalxparam_value] *)
Definition get_icalxparam_value (p : icalproperty) (name : string)
  : option string :=
  match List.filter (fun nv => strcaseeq (fst nv) name) (xparams p) with
  | [] => None
  | (_, v) :: _ => Some v
  end.

(** [remove_icalxparam] *)
Definition remove_icalxparam (p : icalproperty) (name : string)
  : icalproperty :=
  mk_icalproperty (prop_kind p) (prop_x_name p) (prop_value p)
    (List.filter (fun a => match a with
                           | param_x n _ => negb (strcaseeq n name)
                           | _ => true
                           end) (prop_params p)).

(** [set_icalxparam] *)
Definition set_icalxparam (p : icalproperty) (name val : string) (purge : bool)
  : icalproperty :=
  icalproperty_add_parameter
    (if purge then remove_icalxparam p name else p) (param_x name val).

(** [get_icalxprop_value]: the value of the first x-property called
    [name]. *)
Definition get_icalxprop_value (L : library) (c : icalcomponent)
                               (name : string) : option string :=
  match List.filter (fun p => strcaseeq (prop_x_name p) name)
                    (props_of_kind c ICAL_X_PROPERTY) with
  | [] => None
  | p :: _ => Some (icalproperty_get_value_as_string L p)
  end.

(** [remove_icalprop] *)
Definition remove_icalprop (c : icalcomponent) (k : icalproperty_kind)
  : icalcomponent :=
  mk_icalcomponent (icalcomponent_isa c)
    (List.filter (fun p => negb (icalproperty_kind_eqb (prop_kind p) k))
                 (comp_props c))
    (comp_comps c).

(** [remove_icalxprop] *)
Definition remove_icalxprop (c : icalcomponent) (name : string)
  : icalcomponent :=
  mk_icalcomponent (icalcomponent_isa c)
    (List.filter (fun p => negb (icalproperty_kind_eqb (prop_kind p) ICAL_X_PROPERTY
                                 && strcaseeq (prop_x_name p) name))
                 (comp_props c))
    (comp_comps c).

(** [mailaddr_from_uri].  With a [?] in the address the C code cuts the
    address into [tmp] and then canonicalises [uri] all the same. *)
Definition mailaddr_from_uri (L : library) (uri : option string)
  : option string :=
  match uri with
  | None => None
  | Some u =>
      if negb (strncaseeq u "mailto:" 7) then None
      else address_canonicalise L (strdrop 7 u)
  end.

(** [normalized_uri]: the scheme, up to the first colon, in lower case. *)
Definition normalized_uri (uri : string) : string :=
  match strchr uri ":"%char with
  | None => uri
  | Some col => lcase (strprefix col uri) ++ strdrop col uri
  end.

(** [mailaddr_to_uri] *)
Definition mailaddr_to_uri (addr : string) : string := "mailto:" ++ addr.

(** [match_uri] *)
Definition match_uri (uri1 uri2 : string) : bool :=
  match strchr uri1 ":"%char, strchr uri2 ":"%char with
  | None, None => streq uri1 uri2
  | Some col1, Some col2 =>
      if (col1 =? col2)%nat
      then strncaseeq uri1 uri2 col1
           && streq (strdrop col1 uri1) (strdrop col1 uri2)
      else false
  | _, _ => false
  end.

(** [tz_from_tzid] *)
Definition tz_from_tzid (L : library) (tzid : option string)
  : option icaltimezone :=
  match tzid with
  | None => None
  | Some t =>
      if streq t "Etc/UTC" || streq t "UTC" then Some utc_timezone
      else icaltimezone_get_builtin_timezone L t
  end.

(** [utcdate_from_icaltime_r] *)
Definition utcdate_from_icaltime_r (L : library) (t : icaltimetype)
  : option string :=
  time_to_rfc3339 L (icaltime_as_timet L t).

(** [json_string(s)] of a possibly [NULL] string, and [json_object_set_new]
    of a possibly [NULL] value: jansson refuses [NULL] and leaves the object
    as it is. *)
Definition json_string_opt (s : option string) : option json_t :=
  match s with Some x => Some (json_string x) | None => None end.

Definition json_object_set_new_opt (obj : json_t) (key : string)
                                   (v : option json_t) : json_t :=
  match v with
  | Some x => json_object_set_new obj key x
  | None => obj
  end.

(* ===================================================================== *)
(** ** iCalendar to JSCalendar: participants *)
(* ===================================================================== *)

Section Participants_from_ical.
Context (L : library).

(** One RSVP-URI x-parameter of [rsvpto_from_ical]: a value [method:uri]
    with a second colon sets [method], any other value sets ["web"]. *)
Definition rsvpto_add_uri (rsvpTo : list (string * json_t)) (val : string)
  : list (string * json_t) :=
  match strchr val ":"%char with
  | None => members_set rsvpTo "web" (json_string val)
  | Some col1 =>
      match strchr (strdrop (S col1) val) ":"%char with
      | None => members_set rsvpTo "web" (json_string val)
      | Some _ =>
          members_set rsvpTo (strprefix col1 val)
                      (json_string (strdrop (S col1) val))
      end
  end.

(** [rsvpto_from_ical] *)
Definition rsvpto_from_ical (prop : icalproperty) : json_t :=
  let uris :=
    map snd (List.filter (fun nv => strcaseeq (fst nv) JMAPICAL_XPARAM_RSVP_URI)
                         (xparams prop)) in
  let rsvpTo := fold_left rsvpto_add_uri uris [] in
  let caladdress := icalproperty_get_value_as_string L prop in
  let caladdress_is_defined :=
    existsb (fun kv => match json_string_value (Some (snd kv)) with
                       | Some u => match_uri caladdress u
                       | None => false
                       end) rsvpTo in
  let rsvpTo :=
    if caladdress_is_defined then rsvpTo
    else if strncaseeq caladdress "mailto:" 7
         then members_set rsvpTo "imip" (json_string caladdress)
         else members_set rsvpTo "other" (json_string caladdress) in
  match rsvpTo with
  | [] => json_null
  | _ => json_object rsvpTo
  end.

(** The [participationStatus] loop of [participant_from_ical].
    [Some r] is the value of [partstat] when the [while] loop is left
    ([r = None] for [NULL]); [None] means the loop is never left, which
    happens when [icalparameter_get_delegatedto] gives [NULL]: the
    [continue] then repeats the iteration unchanged.  [fuel] bounds the
    iterations; [depth] grows with every other [continue], so
    [65 - depth] iterations are enough. *)
Fixpoint partstat_loop (fuel : nat) (prop partstat_prop : icalproperty)
    (attendee_by_uri : gmap string icalproperty) (depth : Z)
  : option (option string) :=
  match fuel with
  | O => None
  | S fuel' =>
      match icalproperty_get_first_parameter partstat_prop ICAL_PARTSTAT_PARAMETER with
      | Some (param_partstat pst) =>
          match pst with
          | ICAL_PARTSTAT_ACCEPTED => Some (Some "accepted")
          | ICAL_PARTSTAT_DECLINED => Some (Some "declined")
          | ICAL_PARTSTAT_TENTATIVE => Some (Some "tentative")
          | ICAL_PARTSTAT_NEEDSACTION => Some (Some "needs-action")
          | ICAL_PARTSTAT_DELEGATED =>
              (* Follow the delegate chain *)
              match icalproperty_get_first_parameter prop ICAL_DELEGATEDTO_PARAMETER with
              | Some (param_delegatedto to) =>
                  match to with
                  | None => None
                  | Some to =>
                      match attendee_by_uri !! normalized_uri to with
                      | Some next =>
                          let depth := depth + 1 in
                          if depth >? 64 then Some (Some "none")
                          else partstat_loop fuel' prop next attendee_by_uri depth
                      | None => Some (Some "none")
                      end
                  end
              | _ => Some (Some "none")
              end
          | _ => Some (Some "none")
          end
      | _ => Some None
      end
  end.

(** The [delegatedTo] / [delegatedFrom] object: the ids of the URIs that
    are known attendees. *)
Definition delegate_ids (id_by_uri : gmap string string) (uris : list string)
  : list (string * json_t) :=
  fold_left (fun o uri => match id_by_uri !! normalized_uri uri with
                          | Some id => members_set o id json_true
                          | None => o
                          end) uris [].

(** [obj] with the member [key] set to the object [m] unless [m] is empty. *)
Definition set_unless_empty (obj : json_t) (key : string)
                            (m : list (string * json_t)) : json_t :=
  match m with
  | [] => obj
  | _ => json_object_set_new obj key (json_object m)
  end.

(** [participant_from_ical]; [None] when the call does not return. *)
Definition participant_from_ical (prop : icalproperty)
    (attendee_by_uri : gmap string icalproperty)
    (id_by_uri : gmap string string)
    (orga : option icalproperty) : option json_t :=
  let p := json_object [] in
  (* sendTo *)
  let sendTo := rsvpto_from_ical prop in
  let p := json_object_set_new p "sendTo" sendTo in
  (* email *)
  let email :=
    match icalproperty_get_first_parameter prop ICAL_EMAIL_PARAMETER with
    | Some (param_email v) => Some v
    | _ =>
        match json_object_get (Some sendTo) "imip" with
        | Some imip => mailaddr_from_uri L (json_string_value (Some imip))
        | None => None
        end
    end in
  let p := json_object_set_new p "email"
             (match email with Some e => json_string e | None => json_null end) in
  (* name *)
  let name :=
    match icalproperty_get_first_parameter prop ICAL_CN_PARAMETER with
    | Some (param_cn v) => v
    | _ => EmptyString
    end in
  let p := json_object_set_new p "name" (json_string name) in
  (* kind *)
  let p :=
    match icalproperty_get_first_parameter prop ICAL_CUTYPE_PARAMETER with
    | Some (param_cutype cutype) =>
        json_object_set_new p "kind"
          (json_string match cutype with
                       | ICAL_CUTYPE_INDIVIDUAL => "individual"
                       | ICAL_CUTYPE_GROUP => "group"
                       | ICAL_CUTYPE_RESOURCE => "resource"
                       | ICAL_CUTYPE_ROOM => "location"
                       | _ => "unknown"
                       end)
    | _ => p
    end in
  (* attendance *)
  let ical_role :=
    match icalproperty_get_first_parameter prop ICAL_ROLE_PARAMETER with
    | Some (param_role r) => r
    | _ => ICAL_ROLE_REQPARTICIPANT
    end in
  let p :=
    match icalproperty_get_first_parameter prop ICAL_ROLE_PARAMETER with
    | Some (param_role r) =>
        json_object_set_new p "attendance"
          (json_string match r with
                       | ICAL_ROLE_REQPARTICIPANT => "required"
                       | ICAL_ROLE_OPTPARTICIPANT => "optional"
                       | ICAL_ROLE_NONPARTICIPANT => "none"
                       | _ => "required"
                       end)
    | _ => p
    end in
  (* roles *)
  let roles :=
    fold_left (fun o nv => members_set o (lcase (snd nv)) json_true)
      (List.filter (fun nv => streq (fst nv) JMAPICAL_XPARAM_ROLE) (xparams prop))
      [] in
  let roles :=
    match members_get roles "owner" with
    | Some _ => roles
    | None =>
        let o := match orga with
                 | Some og => icalproperty_get_value_as_string L og
                 | None => EmptyString
                 end in
        let a := icalproperty_get_value_as_string L prop in
        if strcaseeq o a
        then members_set (members_set roles "owner" json_true) "attendee" json_true
        else roles
    end in
  let roles :=
    match ical_role with
    | ICAL_ROLE_CHAIR => members_set roles "chair" json_true
    | _ => roles
    end in
  let roles :=
    match roles with
    | [] => members_set roles "attendee" json_true
    | _ => roles
    end in
  let p := json_object_set_new p "roles" (json_object roles) in
  (* locationId *)
  let p :=
    match get_icalxparam_value prop JMAPICAL_XPARAM_LOCATIONID with
    | Some locid => json_object_set_new p "locationId" (json_string locid)
    | None => p
    end in
  (* participationStatus *)
  partstat ← partstat_loop 65 prop prop attendee_by_uri 0;
  let p :=
    match partstat with
    | Some s => if negb (streq s "none")
                then json_object_set_new p "participationStatus" (json_string s)
                else p
    | None => p
    end in
  (* expectReply *)
  let p :=
    match icalproperty_get_first_parameter prop ICAL_RSVP_PARAMETER with
    | Some (param_rsvp val) =>
        json_object_set_new p "expectReply"
          (json_boolean match val with ICAL_RSVP_TRUE => true | _ => false end)
    | _ => p
    end in
  (* delegatedTo: normalized_uri reads its argument, which must not be NULL *)
  to_uris ← mapM (fun a => match a with
                            | param_delegatedto v => v
                            | _ => None
                            end)
                 (params_of_kind prop ICAL_DELEGATEDTO_PARAMETER);
  let p := set_unless_empty p "delegatedTo" (delegate_ids id_by_uri to_uris) in
  (* delegatedFrom *)
  let from_uris :=
    omap (fun a => match a with
                   | param_delegatedfrom v => Some v
                   | _ => None
                   end)
         (params_of_kind prop ICAL_DELEGATEDFROM_PARAMETER) in
  let p := set_unless_empty p "delegatedFrom" (delegate_ids id_by_uri from_uris) in
  (* memberOf *)
  let member_uris :=
    omap (fun a => match a with
                   | param_member v => Some v
                   | _ => None
                   end)
         (params_of_kind prop ICAL_MEMBER_PARAMETER) in
  let memberOf :=
    fold_left (fun o uri =>
                 let uri := normalized_uri uri in
                 let id := match id_by_uri !! uri with
                           | Some id => id
                           | None => sha1key L uri
                           end in
                 members_set o id json_true) member_uris [] in
  let p := set_unless_empty p "memberOf" memberOf in
  (* linkIds *)
  let linkIds :=
    fold_left (fun o nv => members_set o (lcase (snd nv)) json_true)
      (List.filter (fun nv => streq (fst nv) JMAPICAL_XPARAM_LINKID) (xparams prop))
      [] in
  let p := set_unless_empty p "linkIds" linkIds in
  (* scheduleSequence *)
  let p :=
    match get_icalxparam_value prop JMAPICAL_XPARAM_SEQUENCE with
    | Some xval =>
        match parsenum L xval with
        | Some res => json_object_set_new p "scheduleSequence" (json_integer res)
        | None => p
        end
    | None => p
    end in
  (* scheduleUpdated *)
  let p :=
    match get_icalxparam_value prop JMAPICAL_XPARAM_DTSTAMP with
    | Some xval =>
        let dtstamp := icaltime_from_string L xval in
        if negb (icaltime_is_null_time dtstamp) && negb (is_date dtstamp)
           && zone_eqb (zone dtstamp) (Some utc_timezone)
        then json_object_set_new_opt p "scheduleUpdated"
               (json_string_opt (utcdate_from_icaltime_r L dtstamp))
        else p
    | None => p
    end in
  Some p.

(** [participant_from_icalorganizer] *)
Definition participant_from_icalorganizer (orga : icalproperty) : json_t :=
  let jorga := json_object [] in
  (* name *)
  let name :=
    match icalproperty_get_first_parameter orga ICAL_CN_PARAMETER with
    | Some (param_cn v) => v
    | _ => EmptyString
    end in
  let jorga := json_object_set_new jorga "name" (json_string name) in
  (* roles *)
  let jorga := json_object_set_new jorga "roles" (json_object [("owner", json_true)]) in
  (* sendTo, email *)
  let caladdress := icalproperty_get_value_as_string L orga in
  if strncaseeq caladdress "mailto:" 7 then
    let jorga := json_object_set_new jorga "sendTo"
                   (json_object [("imip", json_string caladdress)]) in
    json_object_set_new_opt jorga "email"
      (json_string_opt (mailaddr_from_uri L (Some caladdress)))
  else
    let jorga := json_object_set_new jorga "sendTo"
                   (json_object [("other", json_string caladdress)]) in
    json_object_set_new jorga "email" json_null.

(** The id of an ATTENDEE or ORGANIZER: its X-JMAP-ID, else the digest of
    its normalized URI. *)
Definition participant_id (prop : icalproperty) (uri : string) : string :=
  match get_icalxparam_value prop JMAPICAL_XPARAM_ID with
  | Some id => id
  | None => sha1key L uri
  end.

(** The two hash tables of [participants_from_ical]; [hash_insert] replaces
    the value of a key that is already there. *)
Definition attendees_by_uri (attendees : list icalproperty)
  : gmap string icalproperty :=
  fold_left (fun t prop =>
               <[normalized_uri (icalproperty_get_value_as_string L prop) := prop]> t)
            attendees ∅.

Definition ids_by_uri (attendees : list icalproperty) : gmap string string :=
  fold_left (fun t prop =>
               let uri := normalized_uri (icalproperty_get_value_as_string L prop) in
               <[uri := participant_id prop uri]> t)
            attendees ∅.

(** The second loop of [participants_from_ical]: one participant per
    ATTENDEE, under the id of its URI. *)
Fixpoint participants_of_attendees (todo : list icalproperty)
    (attendee_by_uri : gmap string icalproperty) (id_by_uri : gmap string string)
    (orga : option icalproperty) (participants : list (string * json_t))
  : option (list (string * json_t)) :=
  match todo with
  | [] => Some participants
  | prop :: rest =>
      let uri := normalized_uri (icalproperty_get_value_as_string L prop) in
      p ← participant_from_ical prop attendee_by_uri id_by_uri orga;
      participants_of_attendees rest attendee_by_uri id_by_uri orga
        match id_by_uri !! uri with
        | Some id => members_set participants id p
        | None => participants  (* json_object_set_new refuses a NULL key *)
        end
  end.

(** [participants_from_ical]; [None] when the call does not return. *)
Definition participants_from_ical (ctx : context_t) (comp : icalcomponent)
  : option json_t :=
  let attendees := props_of_kind comp ICAL_ATTENDEE_PROPERTY in
  let attendee_by_uri := attendees_by_uri attendees in
  let id_by_uri := ids_by_uri attendees in
  match attendees with
  | [] => Some json_null  (* goto done *)
  | _ =>
      let orga := icalcomponent_get_first_property comp ICAL_ORGANIZER_PROPERTY in
      participants ← participants_of_attendees attendees attendee_by_uri
                        id_by_uri orga [];
      let participants :=
        match orga with
        | Some og =>
            let uri := normalized_uri (icalproperty_get_value_as_string L og) in
            match attendee_by_uri !! uri with
            | None =>
                (* Add a default participant for the organizer. *)
                members_set participants (participant_id og uri)
                            (participant_from_icalorganizer og)
            | Some _ => participants
            end
        | None => participants
        end in
      Some match participants with
           | [] => json_null
           | _ => json_object participants
           end
  end.

End Participants_from_ical.

(* ===================================================================== *)
(** ** Time zones of DTSTART and DTEND *)
(* ===================================================================== *)

Section Times.
Context (L : library).

(** [tzid_from_icalprop]: the Olson TZID, if any, of a property. *)
Definition tzid_from_icalprop (prop : icalproperty) (guess : bool)
  : option string :=
  match icalproperty_get_first_parameter prop ICAL_TZID_PARAMETER with
  | Some (param_tzid tzid) =>
      (* Check if the tzid already corresponds to an Olson name. *)
      match tz_from_tzid L (Some tzid) with
      | None =>
          if guess then
            (* Try to guess the timezone. *)
            let dt := match prop_value prop with
                      | val_datetime t => t
                      | _ => icaltime_null_time
                      end in
            match zone dt with
            | Some z =>
                let tzid := icaltimezone_get_location L z in
                match tz_from_tzid L (Some tzid) with
                | Some _ => Some tzid
                | None => None
                end
            | None => None
            end
          else Some tzid
      | Some _ => Some tzid
      end
  | _ =>
      let dt := match prop_value prop with
                | val_datetime t => t
                | _ => icaltime_null_time
                end in
      if icaltime_is_valid_time L dt && icaltime_is_utc dt
      then Some "Etc/UTC" else None
  end.

(** [tzid_from_ical] *)
Definition tzid_from_ical (comp : icalcomponent) (kind : icalproperty_kind)
  : option string :=
  match icalcomponent_get_first_property comp kind with
  | None => None
  | Some prop => tzid_from_icalprop prop true
  end.

Definition with_zone (t : icaltimetype) (z : option icaltimezone) : icaltimetype :=
  mk_icaltime (year t) (month t) (day t) (hour t) (minute t) (second t)
              (is_date t) z.

(** [dtstart_from_ical] *)
Definition dtstart_from_ical (comp : icalcomponent) : icaltimetype :=
  let dt := icalcomponent_get_dtstart comp in
  match zone dt with
  | Some _ => dt
  | None =>
      match tzid_from_ical comp ICAL_DTSTART_PROPERTY with
      | Some tzid => with_zone dt (tz_from_tzid L (Some tzid))
      | None => dt
      end
  end.

(** [dtend_from_ical] *)
Definition dtend_from_ical (comp : icalcomponent) : icaltimetype :=
  let dt := icalcomponent_get_dtend L (comp_props comp) in
  match zone dt with
  | Some _ => dt
  | None =>
      match icalcomponent_get_first_property comp ICAL_DTEND_PROPERTY with
      | Some prop =>
          match tzid_from_icalprop prop true with
          | Some tzid => with_zone dt (tz_from_tzid L (Some tzid))
          | None => dt
          end
      | None => with_zone dt (zone (dtstart_from_ical comp))
      end
  end.

End Times.

(* ===================================================================== *)
(** ** iCalendar to JSCalendar: alerts *)
(* ===================================================================== *)

Section Alerts_from_ical.
Context (L : library).

(** The pointer arrays of lib/ptrarray.c, which is not part of the sources
    at hand: [ptrarray_push] and [ptrarray_append] add an entry at the end,
    and [ptrarray_pop] removes the last entry and returns it ([NULL] on an
    empty array), in the same way as [strarray_pop], on which the path
    tracker relies as a stack. *)
Definition ptrarray_push {A} (a : list A) (x : A) : list A := a ++ [x].

Definition ptrarray_pop {A} (a : list A) : option (A * list A) :=
  match rev a with
  | [] => None
  | x :: r => Some (x, rev r)
  end.

(** How the first loop of [alerts_from_ical] files one VALARM. *)
Inductive alarm_class :=
| alarm_ignored             (* ACTION is NONE *)
| alarm_regular             (* pushed on [alarms] *)
| alarm_snooze (uid : string) (* entered in [snoozes] under [uid] *).

(** The body of the first loop.  [None]: [strcasecmp] is handed the [NULL]
    x-value of a RELTYPE parameter that has none. *)
Definition classify_alarm (alarm : icalcomponent) : option alarm_class :=
  let is_none :=
    match icalcomponent_get_first_property alarm ICAL_ACTION_PROPERTY with
    | Some prop =>
        strcaseeq (icalproperty_get_value_as_string L prop) "NONE"
    | None => false
    end in
  if is_none then Some alarm_ignored
  else
    match icalcomponent_get_first_property alarm ICAL_RELATEDTO_PROPERTY with
    | None => Some alarm_regular
    | Some prop =>
        let uid := icalproperty_get_value_as_string L prop in
        if (strlen uid =? 0)%nat then Some alarm_regular
        else
          match icalproperty_get_first_parameter prop ICAL_RELTYPE_PARAMETER with
          | Some (param_reltype (Some xvalue)) =>
              if strcaseeq xvalue "SNOOZE" then Some (alarm_snooze uid)
              else Some alarm_regular
          | Some (param_reltype None) => None
          | _ => Some alarm_regular
          end
    end.

(** The first loop: the regular alarms in the order they were pushed, and
    the snoozes by the uid of the alarm they snooze. *)
Fixpoint split_alarms (valarms : list icalcomponent)
    (alarms : list icalcomponent) (snoozes : gmap string icalcomponent)
  : option (list icalcomponent * gmap string icalcomponent) :=
  match valarms with
  | [] => Some (alarms, snoozes)
  | alarm :: rest =>
      c ← classify_alarm alarm;
      match c with
      | alarm_ignored => split_alarms rest alarms snoozes
      | alarm_regular => split_alarms rest (ptrarray_push alarms alarm) snoozes
      | alarm_snooze uid => split_alarms rest alarms (<[uid := alarm]> snoozes)
      end
  end.

(** [icalproperty_get_trigger] *)
Definition icalproperty_get_trigger (prop : icalproperty) : icaltriggertype :=
  match prop_value prop with
  | val_trigger tr => tr
  | _ => mk_icaltrigger icaltime_null_time icaldurationtype_null_duration
  end.

Definition with_is_neg (d : icaldurationtype) (n : Z) : icaldurationtype :=
  mk_icalduration n (days d) (weeks d) (hours d) (minutes d) (seconds d).

(** One turn of the second loop of [alerts_from_ical], for the alarm that
    [ptrarray_pop] returned.  The path of the alert is pushed at the start;
    only the turn that skips the alarm pops it again. *)
Definition alert_from_alarm (comp : icalcomponent)
    (snoozes : gmap string icalcomponent)
    (st : context_t * list (string * json_t)) (alarm : icalcomponent)
  : context_t * list (string * json_t) :=
  let '(ctx, alerts) := st in
  let alert := json_object [] in
  (* alert id *)
  let id := match icalcomponent_get_uid L alarm with
            | None => sha1key L (icalcomponent_as_ical_string L alarm)
            | Some id => id
            end in
  let ctx := beginprop_key ctx "alerts" id in
  (* Determine TRIGGER and RELATED parameter *)
  let prop := icalcomponent_get_first_property alarm ICAL_TRIGGER_PROPERTY in
  let trigger :=
    match prop with
    | Some prop => icalproperty_get_trigger prop
    | None => mk_icaltrigger icaltime_null_time icaldurationtype_null_duration
    end in
  let param :=
    match prop with
    | Some prop => icalproperty_get_first_parameter prop ICAL_RELATED_PARAMETER
    | None => None
    end in
  let related :=
    match param with
    | Some (param_related r) => r
    | _ => ICAL_RELATED_START
    end in
  let unsupported :=
    match param, related with
    | Some _, ICAL_RELATED_START | Some _, ICAL_RELATED_END => false
    | Some _, _ => true
    | None, _ => false
    end in
  if unsupported then (endprop ctx, alerts)
  else
    (* Determine duration between alarm and start/end *)
    let duration :=
      if negb (icaldurationtype_is_null_duration (trigger_duration trigger))
         || icaltime_is_null_time (trigger_time trigger)
      then trigger_duration trigger
      else
        let ttrg := icaltime_convert_to_zone L (trigger_time trigger) (Some utc_timezone) in
        let tref :=
          match related with
          | ICAL_RELATED_START =>
              icaltime_convert_to_zone L (dtstart_from_ical L comp) (Some utc_timezone)
          | _ =>
              icaltime_convert_to_zone L (dtend_from_ical L comp) (Some utc_timezone)
          end in
        icaltime_subtract L ttrg tref in
    (* action *)
    let action :=
      match icalcomponent_get_first_property alarm ICAL_ACTION_PROPERTY with
      | Some prop =>
          if strcaseeq (icalproperty_get_value_as_string L prop) "EMAIL"
          then "email" else "display"
      | None => "display"
      end in
    let alert := json_object_set_new alert "action" (json_string action) in
    (* relativeTo *)
    let relative_to :=
      if negb (is_neg duration =? 0)
      then match related with
           | ICAL_RELATED_START => "before-start"
           | _ => "before-end"
           end
      else match related with
           | ICAL_RELATED_START => "after-start"
           | _ => "after-end"
           end in
    let alert := json_object_set_new alert "relativeTo" (json_string relative_to) in
    (* offset *)
    let duration := with_is_neg duration 0 in
    let offset := icaldurationtype_as_ical_string_r L duration in
    let alert := json_object_set_new alert "offset" (json_string offset) in
    (* acknowledged *)
    let alert :=
      match icalcomponent_get_first_property alarm ICAL_ACKNOWLEDGED_PROPERTY with
      | Some prop =>
          let t := match prop_value prop with
                   | val_datetime t => t
                   | _ => icaltime_null_time
                   end in
          if icaltime_is_valid_time L t
          then json_object_set_new_opt alert "acknowledged"
                 (json_string_opt (utcdate_from_icaltime_r L t))
          else alert
      | None => alert
      end in
    (* snoozed *)
    let alert :=
      match icalcomponent_get_uid L alarm with
      | Some uid =>
          match snoozes !! uid with
          | Some snooze =>
              match icalcomponent_get_first_property snooze ICAL_TRIGGER_PROPERTY with
              | Some prop =>
                  let t := trigger_time (icalproperty_get_trigger prop) in
                  if negb (icaltime_is_null_time t) && icaltime_is_valid_time L t
                  then json_object_set_new_opt alert "snoozed"
                         (json_string_opt (utcdate_from_icaltime_r L t))
                  else alert
              | None => alert
              end
          | None => alert
          end
      | None => alert
      end in
    (* [alerts] holds the alert object itself, so it shows the members set
       after [json_object_set_new(alerts, id, alert)] too *)
    (ctx, members_set alerts id alert).

(** The second loop: [ptrarray_pop] hands out the alarms last to first. *)
Definition alerts_of_alarms (comp : icalcomponent)
    (snoozes : gmap string icalcomponent) (ctx : context_t)
    (alarms : list icalcomponent) : context_t * list (string * json_t) :=
  fold_left (alert_from_alarm comp snoozes) (rev alarms) (ctx, []).

(** [alerts_from_ical]: the context and the alerts; [None] when the call
    does not return. *)
Definition alerts_from_ical (ctx : context_t) (comp : icalcomponent)
  : option (context_t * json_t) :=
  '(alarms, snoozes) ← split_alarms (comps_of_kind comp ICAL_VALARM_COMPONENT) [] ∅;
  let '(ctx, alerts) := alerts_of_alarms comp snoozes ctx alarms in
  Some (ctx, match alerts with
             | [] => json_null
             | _ => json_object alerts
             end).

End Alerts_from_ical.

(* ===================================================================== *)
(** ** iCalendar to JSCalendar: the event *)
(* ===================================================================== *)

(** Functions of the read direction that are not modelled in detail: each
    builds the JSON value of one event property from the component.  They
    leave the context as they found it (those that use the path stack pop
    what they push). *)
Record from_ical_parts := mk_from_ical_parts {
  relatedto_from_ical : context_t -> icalcomponent -> json_t;
  keywords_from_ical : context_t -> icalcomponent -> json_t;
  links_from_ical : context_t -> icalcomponent -> json_t;
  locale_from_ical : context_t -> icalcomponent -> json_t;
  (** [locations_from_ical(ctx, comp, links)]: the locations and the
      links object it filled *)
  locations_from_ical : context_t -> icalcomponent -> json_t * json_t;
  virtuallocations_from_ical : context_t -> icalcomponent -> json_t;
  duration_from_ical : icalcomponent -> json_t;
  recurrence_from_ical : context_t -> icalcomponent -> json_t;
  (** [overrides_from_ical(ctx, comp, event)] *)
  overrides_from_ical : context_t -> icalcomponent -> json_t -> json_t
}.

Section Event_from_ical.
Context (L : library) (P : from_ical_parts).

Fixpoint strip_trailing_Z (s : string) : string :=
  match s with
  | EmptyString => EmptyString
  | String c EmptyString => if Ascii.eqb c "Z"%char then EmptyString else s
  | String c r => String c (strip_trailing_Z r)
  end.

(** [localdate_from_icaltime_r], through [timet_to_localdate]. *)
Definition localdate_from_icaltime_r (t : icaltimetype) : option string :=
  match time_to_rfc3339 L (icaltime_as_timet L t) with
  | Some s => Some (strip_trailing_Z s)
  | None => None
  end.

(** The date-time value of the first property of a kind, as a UTC date
    string: the ["created"] and ["updated"] members. *)
Definition utcdate_member (comp : icalcomponent) (kind : icalproperty_kind)
  : json_t :=
  match icalcomponent_get_first_property comp kind with
  | Some prop =>
      let t := match prop_value prop with
               | val_datetime t => t
               | _ => icaltime_null_time
               end in
      match utcdate_from_icaltime_r L t with
      | Some s => json_string s
      | None => json_null
      end
  | None => json_null
  end.

(** [icalcomponent_get_sequence]: 0 without a SEQUENCE property. *)
Definition icalcomponent_get_sequence (comp : icalcomponent) : Z :=
  match icalcomponent_get_first_property comp ICAL_SEQUENCE_PROPERTY with
  | Some prop => match prop_value prop with val_integer v => v | _ => 0 end
  | None => 0
  end.

Definition icalcomponent_get_status (comp : icalcomponent)
  : icalproperty_status :=
  match icalcomponent_get_first_property comp ICAL_STATUS_PROPERTY with
  | Some prop => match prop_value prop with
                 | val_status s => s
                 | _ => ICAL_STATUS_NONE
                 end
  | None => ICAL_STATUS_NONE
  end.

Definition icalcomponent_get_method (ical : icalcomponent)
  : icalproperty_method :=
  match icalcomponent_get_first_property ical ICAL_METHOD_PROPERTY with
  | Some prop => match prop_value prop with
                 | val_method m => m
                 | _ => ICAL_METHOD_NONE
                 end
  | None => ICAL_METHOD_NONE
  end.

(** [json_object_set_new(event, name, v)] under [if (cond)]. *)
Definition set_if (cond : bool) (event : json_t) (name : string) (v : json_t)
  : json_t :=
  if cond then json_object_set_new event name v else event.

(** The filter at the end of [calendarevent_from_ical]: the members named
    by [wantprops], in the order of [wantprops]. *)
Definition filter_wanted (wantprops : json_t) (event : json_t) : json_t :=
  fold_left (fun tmp kv =>
               json_object_set_new_opt tmp (fst kv)
                 (json_object_get (Some event) (fst kv)))
            (members_of (Some wantprops)) (json_object []).

(** [calendarevent_from_ical(ctx, comp)], with [ical] the parent of [comp]
    ([icalcomponent_get_parent]).  Returns the context and the event;
    [None] when the call does not return. *)
Definition calendarevent_from_ical (ctx : context_t)
    (ical : option icalcomponent) (comp : icalcomponent)
  : option (context_t * json_t) :=
  let is_exc := match master ctx with Some _ => true | None => false end in
  (* Fetch all properties if recurrenceOverrides are requested *)
  let fetch_all :=
    match wantprops ctx with
    | Some _ => wantprop ctx "recurrenceOverrides" && negb is_exc
    | None => false
    end in
  let saved_wantprops := if fetch_all then wantprops ctx else None in
  let ctx := if fetch_all then set_wantprops ctx None else ctx in
  let event := json_object [("@type", json_string "jsevent")] in
  (* Always determine the event's start timezone. *)
  let ctx := set_tzid_start ctx (tzid_from_ical L comp ICAL_DTSTART_PROPERTY) in
  (* Always determine isAllDay to set start, end and timezone fields. *)
  let ctx := set_is_allday ctx
               (if is_date (icalcomponent_get_dtstart comp) then 1 else 0) in
  let ctx :=
    match tzid_start ctx with
    | Some _ => if negb (is_allday ctx =? 0) then set_tzid_start ctx None else ctx
    | None => ctx
    end in
  (* isAllDay *)
  let event := set_if (wantprop ctx "isAllDay" && negb is_exc) event "isAllDay"
                 (json_boolean (negb (is_allday ctx =? 0))) in
  (* uid *)
  let uid := icalcomponent_get_uid L comp in
  let event :=
    match uid with
    | Some u => set_if (negb is_exc) event "uid" (json_string u)
    | None => event
    end in
  let ctx := match Ctx.uid ctx with
             | None => set_uid ctx uid
             | Some _ => ctx
             end in
  (* relatedTo *)
  let event := set_if (wantprop ctx "relatedTo" && negb is_exc) event "relatedTo"
                 (relatedto_from_ical P ctx comp) in
  (* prodId *)
  let prodid :=
    match ical with
    | Some ical =>
        match icalcomponent_get_first_property ical ICAL_PRODID_PROPERTY with
        | Some prop => Some (icalproperty_get_value_as_string L prop)
        | None => None
        end
    | None => None
    end in
  let event := set_if (wantprop ctx "prodId" && negb is_exc) event "prodId"
                 (match prodid with Some s => json_string s | None => json_null end) in
  (* created *)
  let event := set_if (wantprop ctx "created") event "created"
                 (utcdate_member comp ICAL_CREATED_PROPERTY) in
  (* updated *)
  let event := set_if (wantprop ctx "updated") event "updated"
                 (utcdate_member comp ICAL_DTSTAMP_PROPERTY) in
  (* sequence *)
  let event := set_if (wantprop ctx "sequence") event "sequence"
                 (json_integer (icalcomponent_get_sequence comp)) in
  (* priority *)
  let event :=
    match icalcomponent_get_first_property comp ICAL_PRIORITY_PROPERTY with
    | Some prop =>
        set_if (wantprop ctx "priority") event "priority"
          (json_integer match prop_value prop with val_integer v => v | _ => 0 end)
    | None => event
    end in
  (* title *)
  let event := set_if (wantprop ctx "title") event "title"
                 (json_string
                    match icalcomponent_get_first_property comp ICAL_SUMMARY_PROPERTY with
                    | Some prop => icalproperty_get_value_as_string L prop
                    | None => EmptyString
                    end) in
  (* description *)
  let desc :=
    match icalcomponent_get_first_property comp ICAL_DESCRIPTION_PROPERTY with
    | Some prop => icalproperty_get_value_as_string L prop
    | None => EmptyString
    end in
  let event := set_if (wantprop ctx "description") event "description"
                 (json_string desc) in
  let event := set_if (wantprop ctx "descriptionContentType") event
                 "descriptionContentType" (json_string "text/plain") in
  (* method *)
  let event :=
    match ical with
    | Some ical =>
        match icalcomponent_get_method ical with
        | ICAL_METHOD name =>
            set_if (wantprop ctx "method") event "method" (json_string (lcase name))
        | ICAL_METHOD_NONE => event
        end
    | None => event
    end in
  (* color *)
  let event :=
    match icalcomponent_get_first_property comp ICAL_COLOR_PROPERTY with
    | Some prop =>
        set_if (wantprop ctx "color") event "color"
          (json_string (icalproperty_get_value_as_string L prop))
    | None => event
    end in
  (* keywords *)
  let event := set_if (wantprop ctx "keywords") event "keywords"
                 (keywords_from_ical P ctx comp) in
  (* links *)
  let event := set_if (wantprop ctx "links") event "links"
                 (links_from_ical P ctx comp) in
  (* locale *)
  let event := set_if (wantprop ctx "locale") event "locale"
                 (locale_from_ical P ctx comp) in
  (* locations *)
  let event :=
    if wantprop ctx "locations" then
      let '(locations, links) := locations_from_ical P ctx comp in
      let event := json_object_set_new event "locations" locations in
      if (0 <? json_object_size (Some links))%nat then
        if JNOTNULL (json_object_get (Some event) "links") then
          match json_object_get (Some event) "links" with
          | Some old => json_object_set_new event "links" (json_object_update old links)
          | None => event
          end
        else json_object_set_new event "links" links
      else event
    else event in
  (* virtualLocations *)
  let event := set_if (wantprop ctx "virtualLocations") event "virtualLocations"
                 (virtuallocations_from_ical P ctx comp) in
  (* start *)
  let event :=
    if wantprop ctx "start" then
      json_object_set_new_opt event "start"
        (json_string_opt (localdate_from_icaltime_r (icalcomponent_get_dtstart comp)))
    else event in
  (* timeZone *)
  let event := set_if (wantprop ctx "timeZone") event "timeZone"
                 (match tzid_start ctx with
                  | Some tzid => if is_allday ctx =? 0 then json_string tzid else json_null
                  | None => json_null
                  end) in
  (* duration *)
  let event := set_if (wantprop ctx "duration") event "duration"
                 (duration_from_ical P comp) in
  (* recurrenceRule *)
  let event := set_if (wantprop ctx "recurrenceRule" && negb is_exc) event
                 "recurrenceRule" (recurrence_from_ical P ctx comp) in
  (* status *)
  let event :=
    match icalcomponent_get_status comp with
    | ICAL_STATUS_TENTATIVE =>
        set_if (wantprop ctx "status") event "status" (json_string "tentative")
    | ICAL_STATUS_CONFIRMED =>
        set_if (wantprop ctx "status") event "status" (json_string "confirmed")
    | ICAL_STATUS_CANCELLED =>
        set_if (wantprop ctx "status") event "status" (json_string "cancelled")
    | ICAL_STATUS_NONE => event
    end in
  (* freeBusyStatus *)
  let fbs :=
    match icalcomponent_get_first_property comp ICAL_TRANSP_PROPERTY with
    | Some prop => match prop_value prop with
                   | val_transp ICAL_TRANSP_TRANSPARENT => "free"
                   | _ => "busy"
                   end
    | None => "busy"
    end in
  let event := set_if (wantprop ctx "freeBusyStatus") event "freeBusyStatus"
                 (json_string fbs) in
  (* privacy *)
  let prv :=
    match icalcomponent_get_first_property comp ICAL_CLASS_PROPERTY with
    | Some prop => match prop_value prop with
                   | val_class ICAL_CLASS_CONFIDENTIAL => "secret"
                   | val_class ICAL_CLASS_PRIVATE => "private"
                   | _ => "public"
                   end
    | None => "public"
    end in
  let event := set_if (wantprop ctx "privacy") event "privacy" (json_string prv) in
  (* replyTo *)
  let event :=
    match icalcomponent_get_first_property comp ICAL_ORGANIZER_PROPERTY with
    | Some prop =>
        set_if (wantprop ctx "replyTo" && negb is_exc) event "replyTo"
          (rsvpto_from_ical L prop)
    | None => event
    end in
  (* participants *)
  event ←
    (if wantprop ctx "participants" then
       participants ← participants_from_ical L ctx comp;
       Some (json_object_set_new event "participants" participants)
     else Some event);
  (* useDefaultAlerts *)
  let event :=
    match get_icalxprop_value L comp JMAPICAL_XPROP_USEDEFALERTS with
    | Some v =>
        set_if (wantprop ctx "useDefaultAlerts" && strcaseeq v "true") event
          "useDefaultAlerts" json_true
    | None => event
    end in
  (* alerts *)
  '(ctx, event) ←
    (if wantprop ctx "alerts" then
       '(ctx, alerts) ← alerts_from_ical L ctx comp;
       Some (ctx, json_object_set_new event "alerts" alerts)
     else Some (ctx, event));
  (* recurrenceOverrides - must be last to generate patches *)
  let event := set_if (wantprop ctx "recurrenceOverrides" && negb is_exc) event
                 "recurrenceOverrides" (overrides_from_ical P ctx comp event) in
  (* Remove all properties that weren't requested by the caller. *)
  let event :=
    match saved_wantprops with
    | Some w => filter_wanted w event
    | None => event
    end in
  let ctx := set_wantprops ctx saved_wantprops in
  Some (ctx, event).

(** Is [comp] a main VEVENT for [jmapical_tojmap_all]: it has a UID and no
    RECURRENCE-ID. *)
Definition is_main_vevent (comp : icalcomponent) : bool :=
  match icalcomponent_get_first_property comp ICAL_RECURRENCEID_PROPERTY with
  | Some _ => false
  | None => match icalcomponent_get_uid L comp with
            | Some _ => true
            | None => false
            end
  end.

(** The conversion loop of [jmapical_tojmap_all]: each VEVENT that
    [ptrarray_pop] returns is converted in a context of its own and
    appended to [events]. *)
Fixpoint convert_todo (ical : icalcomponent) (props : option json_t)
    (err : option jmapical_err_t) (popped : list icalcomponent)
    (events : list json_t) : option (list json_t) :=
  match popped with
  | [] => Some events
  | comp :: rest =>
      let ctx := context_new props err JMAPICAL_READ_MODE in
      '(_, obj) ← calendarevent_from_ical ctx (Some ical) comp;
      convert_todo ical props err rest (events ++ [obj])
  end.

(** [jmapical_tojmap_all]: the array of events; [None] when the call does
    not return. *)
Definition jmapical_tojmap_all (ical : icalcomponent) (props : option json_t)
    (err : option jmapical_err_t) : option json_t :=
  (* Locate all main VEVENTs. *)
  let vevents := comps_of_kind ical ICAL_VEVENT_COMPONENT in
  let todo := fold_left (fun todo comp =>
                           if is_main_vevent comp then ptrarray_push todo comp
                           else todo) vevents [] in
  (* magic promote to toplevel for the first item *)
  let todo :=
    match head vevents, todo with
    | Some firstcomp, [] => ptrarray_push todo firstcomp
    | _, _ => todo
    end in
  match todo with
  | [] => Some (json_array [])
  | _ =>
      (* Convert the VEVENTs to JMAP: ptrarray_pop takes them last to first *)
      events ← convert_todo ical props err (rev todo) [];
      Some (json_array events)
  end.

(** [jmapical_tojmap]: the event or [NULL]; [None] when the call does not
    return. *)
Definition jmapical_tojmap (ical : icalcomponent) (props : option json_t)
    (err : option jmapical_err_t) : option (option json_t) :=
  jsevents ← jmapical_tojmap_all ical props err;
  Some (if (0 <? json_array_size (Some jsevents))%nat
        then json_array_get (Some jsevents) 0
        else None).

End Event_from_ical.

(* ===================================================================== *)
(** ** JSCalendar to iCalendar: dates, start and end *)
(* ===================================================================== *)

Section Dates_to_ical.
Context (L : library).

(** [localdate_to_icaltime(buf, &dt, tz, is_allday)]: [Some dt] when it
    returns non-zero. *)
Definition localdate_to_icaltime (buf : string) (tz : option icaltimezone)
    (is_allday : Z) : option icaltimetype :=
  match strptime_localdate L buf with
  | None => None
  | Some tm =>
      if negb (is_allday =? 0)
         && (negb (tm_sec tm =? 0) || negb (tm_min tm =? 0) || negb (tm_hour tm =? 0))
      then None
      else
        let is_utc := zone_eqb tz (Some utc_timezone) in
        let s := strftime_ical L tm ++ (if is_utc then "Z" else EmptyString) in
        let tmp := icaltime_from_string L s in
        if icaltime_is_null_time tmp then None
        else Some (mk_icaltime (year tmp) (month tmp) (day tmp)
                               (hour tmp) (minute tmp) (second tmp)
                               (negb (is_allday =? 0)
                                && match tz with None => true | Some _ => false end)
                               tz)
  end.

(** [utcdate_to_icaltime] *)
Definition utcdate_to_icaltime (src : string) : option icaltimetype :=
  let len := strlen src in
  if (len =? 0)%nat then None
  else if negb (streq (strdrop (len - 1) src) "Z") then None
  else localdate_to_icaltime (strprefix (len - 1) src) (Some utc_timezone) 0.

(** The property that [dtprop_to_ical] builds. *)
Definition dtprop_new (dt : icaltimetype) (tz : option icaltimezone)
    (kind : icalproperty_kind) : icalproperty :=
  let prop := icalproperty_new_value kind (val_datetime dt) in
  match tz with
  | Some z =>
      if negb (icaltime_is_utc dt)
      then icalproperty_add_parameter prop
             (param_tzid (icaltimezone_get_location L z))
      else prop
  | None => prop
  end.

(** [dtprop_to_ical(comp, dt, tz, purge, kind)], with [finish] standing for
    what the caller does to the returned property afterwards. *)
Definition dtprop_to_ical_then (comp : icalcomponent) (dt : icaltimetype)
    (tz : option icaltimezone) (purge : bool) (kind : icalproperty_kind)
    (finish : icalproperty -> icalproperty) : icalcomponent :=
  (* Purge existing property. *)
  let comp := if purge then remove_icalprop comp kind else comp in
  (* Resolve DTEND/DURATION conflicts. *)
  let comp :=
    match kind with
    | ICAL_DTEND_PROPERTY => remove_icalprop comp ICAL_DURATION_PROPERTY
    | ICAL_DURATION_PROPERTY => remove_icalprop comp ICAL_DTEND_PROPERTY
    | _ => comp
    end in
  (* Set the new property. *)
  icalcomponent_add_property comp (finish (dtprop_new dt tz kind)).

Definition dtprop_to_ical (comp : icalcomponent) (dt : icaltimetype)
    (tz : option icaltimezone) (purge : bool) (kind : icalproperty_kind)
  : icalcomponent :=
  dtprop_to_ical_then comp dt tz purge kind (fun prop => prop).

(** [xjmapid_to_ical] *)
Definition xjmapid_to_ical (prop : icalproperty) (id : string) : icalproperty :=
  icalproperty_add_parameter prop (param_x JMAPICAL_XPARAM_ID id).

(** libical's [icalcomponent_set_<kind>(comp, v)]: the value of the first
    property of the kind is replaced; without one, a property is added. *)
Fixpoint set_first_value (props : list icalproperty) (kind : icalproperty_kind)
    (v : icalvalue) : list icalproperty :=
  match props with
  | [] => [icalproperty_new_value kind v]
  | p :: r =>
      if icalproperty_kind_eqb (prop_kind p) kind
      then mk_icalproperty (prop_kind p) (prop_x_name p) v (prop_params p) :: r
      else p :: set_first_value r kind v
  end.

Definition icalcomponent_set_value (comp : icalcomponent)
    (kind : icalproperty_kind) (v : icalvalue) : icalcomponent :=
  mk_icalcomponent (icalcomponent_isa comp)
    (set_first_value (comp_props comp) kind v) (comp_comps comp).

(** [icalcomponent_set_uid(comp, v)] does nothing for a [NULL] string. *)
Definition icalcomponent_set_uid (comp : icalcomponent) (v : option string)
  : icalcomponent :=
  match v with
  | Some u => icalcomponent_set_value comp ICAL_UID_PROPERTY (val_text u)
  | None => comp
  end.

Definition icaldurationtype_is_bad_duration (d : icaldurationtype) : bool :=
  (is_neg d =? -1).

(** [location_is_endtimezone] *)
Definition location_is_endtimezone (loc : json_t) : bool :=
  match json_string_value (json_object_get (Some loc) "rel") with
  | None => false
  | Some rel =>
      match json_object_get (Some loc) "timeZone" with
      | Some _ => streq rel "end"
      | None => false
      end
  end.

Definition is_some {A} (o : option A) : bool :=
  match o with Some _ => true | None => false end.

(** [startend_to_ical]; [None] when the [assert] on the time zones
    fails. *)
Definition startend_to_ical (ctx : context_t) (comp : icalcomponent)
    (event : json_t) : option (context_t * icalcomponent) :=
  (* Determine current timezone *)
  let ctx := set_tzstart_old ctx
               (tz_from_tzid L (tzid_from_ical L comp ICAL_DTSTART_PROPERTY)) in
  (* Read new timezone *)
  let ctx :=
    if negb (json_is_null (json_object_get (Some event) "timeZone")) then
      let '(pe, ctx) := readprop ctx (Some event) "timeZone"
                          (is_allday ctx =? 0) FMT_s in
      if pe >? 0 then
        (* Lookup the new timezone. *)
        let ctx := set_tzstart ctx
                     (tz_from_tzid L (json_string_value
                                        (json_object_get (Some event) "timeZone"))) in
        match tzstart ctx with
        | None => invalidprop ctx (Some "timeZone")
        | Some _ => ctx
        end
      else if pe =? 0 then set_tzstart ctx (tzstart_old ctx)
      else ctx
    else set_tzstart ctx None in
  let ctx := set_tzstart_old ctx (tzstart ctx) in
  (* Determine current end timezone *)
  let ctx :=
    match tzid_from_ical L comp ICAL_DTEND_PROPERTY with
    | Some tzid => set_tzend_old ctx (tz_from_tzid L (Some tzid))
    | None => set_tzend_old ctx (tzstart_old ctx)
    end in
  (* Read new end timezone *)
  let locations := json_object_get (Some event) "locations" in
  let endzone :=
    if JNOTNULL locations
    then head (List.filter (fun kv => location_is_endtimezone (snd kv))
                           (members_of locations))
    else None in
  let endzoneid := match endzone with Some (id, _) => Some id | None => None end in
  let ctx :=
    if JNOTNULL locations then
      (* Pick the first location with timeZone and rel=end *)
      match endzone with
      | Some (id, loc) =>
          (* Prepare prefix for error reporting *)
          let ctx := beginprop_key ctx "locations" id in
          let timeZone := json_object_get (Some loc) "timeZone" in
          let ctx :=
            if negb (json_is_null timeZone) then
              match json_string_value timeZone with
              | Some tzid => set_tzend ctx (tz_from_tzid L (Some tzid))
              | None => invalidprop ctx (Some "timeZone")
              end
            else
              (* The end timeZone is set to floating time *)
              set_tzend ctx None in
          (* Make sure that both timezones are either floating time or not *)
          let ctx :=
            if negb (Bool.eqb (is_some (tzstart ctx)) (is_some (tzend ctx)))
            then invalidprop ctx (Some "timeZone") else ctx in
          (* allDay requires floating time *)
          let ctx :=
            if negb (is_allday ctx =? 0) && is_some (tzend ctx)
            then invalidprop ctx (Some "timeZone") else ctx in
          endprop ctx
      | None => ctx
      end
    else if json_is_null locations then set_tzend ctx None
    else set_tzend ctx (tzend_old ctx) in
  let ctx := set_tzend_old ctx
               (match endzoneid with Some _ => tzend ctx | None => tzstart ctx end) in
  let ctx := match endzoneid with
             | Some _ => ctx
             | None => set_tzend ctx (tzend_old ctx)
             end in
  (* Read new duration *)
  let '(pe, ctx) := readprop ctx (Some event) "duration" false FMT_s in
  let dur :=
    if pe >? 0 then
      match json_string_value (json_object_get (Some event) "duration") with
      | Some val => icaldurationtype_from_string L val
      | None => icaldurationtype_null_duration
      end
    else icaldurationtype_null_duration in
  let ctx :=
    if (pe >? 0) && icaldurationtype_is_bad_duration dur
    then invalidprop ctx (Some "duration") else ctx in
  let ctx :=
    if negb (is_allday ctx =? 0)
       && negb (icaldurationtype_is_bad_duration dur)
       && (negb (hours dur =? 0) || negb (minutes dur =? 0) || negb (seconds dur =? 0))
    then invalidprop ctx (Some "duration") else ctx in
  (* Determine current start *)
  let dtstart_old := dtstart_from_ical L comp in
  (* Read new start *)
  let '(pe, ctx) := readprop ctx (Some event) "start" true FMT_s in
  let parsed :=
    if pe >? 0 then
      match json_string_value (json_object_get (Some event) "start") with
      | Some val => localdate_to_icaltime val (tzstart ctx) (is_allday ctx)
      | None => None
      end
    else None in
  let ctx :=
    if pe >? 0
    then match parsed with
         | Some _ => ctx
         | None => invalidprop ctx (Some "start")
         end
    else ctx in
  let dtstart := match parsed with Some dt => dt | None => dtstart_old end in
  (* Bail out for property errors *)
  if have_invalid_props ctx then Some (ctx, comp)
  else
    (* Either all timezones float or none *)
    if negb (Bool.eqb (is_some (tzstart ctx)) (is_some (tzend ctx))) then None
    else
      (* Purge and rebuild start and end *)
      let comp := remove_icalprop comp ICAL_DTSTART_PROPERTY in
      let comp := remove_icalprop comp ICAL_DTEND_PROPERTY in
      let comp := remove_icalprop comp ICAL_DURATION_PROPERTY in
      let comp := dtprop_to_ical comp dtstart (tzstart ctx) true ICAL_DTSTART_PROPERTY in
      if negb (zone_eqb (tzstart ctx) (tzend ctx)) then
        (* Add DTEND *)
        let dtend := icaltime_add L dtstart dur in
        let dtend := icaltime_convert_to_zone L dtend (tzend ctx) in
        match endzoneid with
        | Some id =>
            Some (ctx, dtprop_to_ical_then comp dtend (tzend ctx) true
                         ICAL_DTEND_PROPERTY (fun prop => xjmapid_to_ical prop id))
        | None => None
        end
      else
        (* Add DURATION *)
        Some (ctx, icalcomponent_set_value comp ICAL_DURATION_PROPERTY
                     (val_duration dur)).

End Dates_to_ical.

(* ===================================================================== *)
(** ** JSCalendar to iCalendar: recurrence rule *)
(* ===================================================================== *)

Section Recurrence_to_ical.
Context (L : library).

(** [int_to_ical] *)
Definition int_to_ical (buf : string) (val : Z) : string :=
  buf ++ print_int val.

(** ["%+lld"] of [printf] *)
Definition print_signed (z : Z) : string :=
  if z <? 0 then print_int z else "+" ++ print_int z.

(** One turn of the loop of [recurrence_byX_to_ical], for the element [j]
    at index [i]. *)
Definition recurrence_byX_element (lower upper : option Z) (allowZero : bool)
    (fieldName : string) (conv : string -> Z -> string)
    (st : context_t * string) (i : nat) (j : json_t) : context_t * string :=
  let '(ctx, buf) := st in
  let val := int_of_json_int (json_integer_value (Some j)) in
  let err := if json_unpack_ok j FMT_i then 0 else -1 in
  let err := if (err =? 0) && negb allowZero && (val =? 0) then 1 else err in
  let err :=
    if (err =? 0)
       && (match lower with Some l => val <? l | None => false end
           || match upper with Some u => val >? u | None => false end)
    then 2 else err in
  if negb (err =? 0) then
    let ctx := beginprop_idx ctx fieldName i in
    let ctx := invalidprop ctx None in
    (endprop ctx, buf)
  else
    (* Prepend leading comma, if not first parameter value. *)
    let buf := if (0 <? i)%nat then buf ++ "," else buf in
    (* Convert the byX value to ical. *)
    (ctx, conv buf val).

(** A loop over the elements of an array with their indices, from [i]
    on. *)
Fixpoint fold_indexed {A St} (f : St -> nat -> A -> St) (i : nat) (l : list A)
    (s : St) : St :=
  match l with
  | [] => s
  | x :: r => fold_indexed f (S i) r (f s i x)
  end.

(** [recurrence_byX_to_ical] *)
Definition recurrence_byX_to_ical (ctx : context_t) (byX : option json_t)
    (buf : string) (tag : string) (lower upper : option Z) (allowZero : bool)
    (fieldName : string) (conv : string -> Z -> string) : context_t * string :=
  (* Make sure there is at least one entry. *)
  if (json_array_size byX =? 0)%nat then (invalidprop ctx (Some fieldName), buf)
  else
    (* Convert the array. *)
    let buf := buf ++ ";" ++ tag ++ "=" in
    fold_indexed (recurrence_byX_element lower upper allowZero fieldName conv)
                 0%nat (items_of byX) (ctx, buf).

(** A [byX] member of [recurrence_to_ical]: it is converted when [readprop]
    finds it. *)
Definition recurrence_byX_member (recur : json_t) (member tag : string)
    (lower upper : Z) (allowZero : bool) (fieldName : string)
    (st : context_t * string) : context_t * string :=
  let '(ctx, buf) := st in
  let '(pe, ctx) := readprop ctx (Some recur) member false FMT_o in
  if pe >? 0
  then recurrence_byX_to_ical ctx (json_object_get (Some recur) member) buf tag
         (Some lower) (Some upper) allowZero fieldName int_to_ical
  else (ctx, buf).

(** One element of [byDay]. *)
Definition recurrence_byday_element (st : context_t * string) (i : nat)
    (bd : json_t) : context_t * string :=
  let '(ctx, buf) := st in
  let ctx := beginprop_idx ctx "byDay" i in
  (* day *)
  let '(pe, ctx) := readprop ctx (Some bd) "day" true FMT_s in
  let day :=
    if pe >? 0
    then match json_string_value (json_object_get (Some bd) "day") with
         | Some s => Some (ucase s)
         | None => None
         end
    else None in
  let ctx :=
    match day with
    | Some d => if icalrecur_is_weekday L d then ctx
                else invalidprop ctx (Some "day")
    | None => ctx
    end in
  (* nthOfPeriod *)
  let '(pe, ctx) := readprop ctx (Some bd) "nthOfPeriod" false FMT_I in
  let nth := if pe >? 0 then json_integer_value (json_object_get (Some bd) "nthOfPeriod")
             else 0 in
  let ctx := if (pe >? 0) && (nth =? 0)
             then invalidprop ctx (Some "nthOfPeriod") else ctx in
  (* Bail out for property errors *)
  if have_invalid_props ctx then (endprop ctx, buf)
  else
    (* Append day *)
    let buf := if (0 <? i)%nat then buf ++ "," else buf in
    let buf := if negb (nth =? 0) then buf ++ print_signed nth else buf in
    let buf := match day with Some d => buf ++ d | None => buf end in
    (endprop ctx, buf).

(** One element of [byMonth]. *)
Definition recurrence_bymonth_element (st : context_t * string) (i : nat)
    (jval : json_t) : context_t * string :=
  let '(ctx, buf) := st in
  let bad ctx := endprop (invalidprop (beginprop_idx ctx "byMonth" i) None) in
  match json_string_value (Some jval) with
  | None => (bad ctx, buf)
  | Some s =>
      let '(matched, val, leap) := sscanf_month L s in
      if (matched <? 1) || (matched >? 2)
         || (negb (Ascii.eqb leap zero) && negb (Ascii.eqb leap "L"%char))
         || (val <? 1)
      then (bad ctx, buf)
      else
        let buf := if (0 <? i)%nat then buf ++ "," else buf in
        let buf := buf ++ print_int val in
        let buf := if negb (Ascii.eqb leap zero) then buf ++ "L" else buf in
        (ctx, buf)
  end.

(** The part of [recurrence_to_ical] between [beginprop] and the check
    for property errors: the members of [recur] are read and printed into
    the buffer [buf], which starts out empty. *)
Definition recurrence_rule_to_ical (ctx : context_t) (recur : json_t)
  : context_t * string :=
  let buf := EmptyString in
  (* frequency *)
  let '(pe, ctx) := readprop ctx (Some recur) "frequency" true FMT_s in
  let buf :=
    if pe >? 0
    then match json_string_value (json_object_get (Some recur) "frequency") with
         | Some freq => buf ++ "FREQ=" ++ lcase freq
         | None => buf
         end
    else buf in
  (* interval *)
  let '(pe, ctx) := readprop ctx (Some recur) "interval" false FMT_i in
  let interval :=
    if pe >? 0
    then int_of_json_int (json_integer_value (json_object_get (Some recur) "interval"))
    else 1 in
  let buf := if (pe >? 0) && (interval >? 1)
             then buf ++ ";INTERVAL=" ++ print_int interval else buf in
  let ctx := if (pe >? 0) && negb (interval >? 1) && (interval <? 1)
             then invalidprop ctx (Some "interval") else ctx in
  (* skip *)
  let '(pe, ctx) := readprop ctx (Some recur) "skip" false FMT_s in
  let skip := if pe >? 0
              then json_string_value (json_object_get (Some recur) "skip")
              else None in
  let skip_set := (pe >? 0) && match skip with
                               | Some s => (0 <? strlen s)%nat
                               | None => false
                               end in
  let buf :=
    match skip with
    | Some s => if skip_set then buf ++ ";SKIP=" ++ ucase s else buf
    | None => buf
    end in
  let ctx := if negb skip_set && (pe >? 0)
             then invalidprop ctx (Some "skip") else ctx in
  (* rscale *)
  let '(pe, ctx) := readprop ctx (Some recur) "rscale" (is_some skip) FMT_s in
  let rscale := if pe >? 0
                then json_string_value (json_object_get (Some recur) "rscale")
                else None in
  let rscale_set := (pe >? 0) && match rscale with
                                 | Some s => (0 <? strlen s)%nat
                                 | None => false
                                 end in
  let buf :=
    match rscale with
    | Some s => if rscale_set then buf ++ ";RSCALE=" ++ ucase s else buf
    | None => buf
    end in
  let ctx := if negb rscale_set && (pe >? 0)
             then invalidprop ctx (Some "rscale") else ctx in
  (* firstDayOfWeek *)
  let '(pe, ctx) := readprop ctx (Some recur) "firstDayOfWeek" false FMT_s in
  let '(ctx, buf) :=
    if pe >? 0
    then match json_string_value (json_object_get (Some recur) "firstDayOfWeek") with
         | Some firstday =>
             let tmp := ucase firstday in
             if icalrecur_is_weekday L tmp then (ctx, buf ++ ";WKST=" ++ tmp)
             else (invalidprop ctx (Some "firstDayOfWeek"), buf)
         | None => (ctx, buf)
         end
    else (ctx, buf) in
  (* byDay *)
  let byday := json_object_get (Some recur) "byDay" in
  let '(ctx, buf) :=
    if (0 <? json_array_size byday)%nat
    then fold_indexed recurrence_byday_element 0%nat (items_of byday)
                      (ctx, buf ++ ";BYDAY=")
    else match byday with
         | Some _ => (invalidprop ctx (Some "byDay"), buf)
         | None => (ctx, buf)
         end in
  (* byDate *)
  let st := recurrence_byX_member recur "byDate" "BYDATE" (-31) 31 false
              "byDate" (ctx, buf) in
  (* byMonth *)
  let '(ctx, buf) := st in
  let '(pe, ctx) := readprop ctx (Some recur) "byMonth" false FMT_o in
  let bymonth := json_object_get (Some recur) "byMonth" in
  let st :=
    if (pe >? 0) && (0 <? json_array_size bymonth)%nat
    then fold_indexed recurrence_bymonth_element 0%nat (items_of bymonth)
                      (ctx, buf ++ ";BYMONTH=")
    else (ctx, buf) in
  (* byYearDay *)
  let st := recurrence_byX_member recur "byYearDay" "BYYEARDAY" (-366) 366 false
              "byYearDay" st in
  (* byWeekNo *)
  let st := recurrence_byX_member recur "byWeekNo" "BYWEEKNO" (-53) 53 false
              "byWeekNo" st in
  (* byHour *)
  let st := recurrence_byX_member recur "byHour" "BYHOUR" 0 23 true
              "byHour" st in
  (* byMinute *)
  let st := recurrence_byX_member recur "byMinute" "BYMINUTE" 0 59 true
              "byMinute" st in
  (* bySecond *)
  let st := recurrence_byX_member recur "bySecond" "BYSECOND" 0 59 true
              "bySecond" st in
  (* bySetPosition *)
  let st := recurrence_byX_member recur "bySetPosition" "BYSETPOS" 0 59 true
              "bySetPos" st in
  let '(ctx, buf) := st in
  let ctx :=
    if is_some (json_object_get (Some recur) "count")
       && is_some (json_object_get (Some recur) "until")
    then invalidprop (invalidprop ctx (Some "count")) (Some "until")
    else ctx in
  (* count *)
  let '(pe, ctx) := readprop ctx (Some recur) "count" false FMT_i in
  let count := int_of_json_int (json_integer_value (json_object_get (Some recur) "count")) in
  let '(ctx, buf) :=
    if pe >? 0 then
      if (count >? 0) && negb (is_some (json_object_get (Some recur) "until"))
      then (ctx, buf ++ ";COUNT=" ++ print_int count)
      else (invalidprop ctx (Some "count"), buf)
    else (ctx, buf) in
  (* until *)
  let '(pe, ctx) := readprop ctx (Some recur) "until" false FMT_s in
  let '(ctx, buf) :=
    if pe >? 0 then
      match json_string_value (json_object_get (Some recur) "until") with
      | Some until =>
          match localdate_to_icaltime L until (tzstart ctx) (is_allday ctx) with
          | Some dtloc =>
              let dt := icaltime_convert_to_zone L dtloc (Some utc_timezone) in
              (ctx, buf ++ ";UNTIL=" ++ icaltime_as_ical_string L dt)
          | None => (invalidprop ctx (Some "until"), buf)
          end
      | None => (ctx, buf)
      end
    else (ctx, buf) in
  (ctx, buf).

(** [recurrence_to_ical] *)
Definition recurrence_to_ical (ctx : context_t) (comp : icalcomponent)
    (recur : option json_t) : context_t * icalcomponent :=
  (* Purge existing RRULE. *)
  let comp := remove_icalprop comp ICAL_RRULE_PROPERTY in
  match recur with
  | None | Some json_null => (ctx, comp)
  | Some recur =>
      let ctx := beginprop ctx "recurrenceRule" in
      let '(ctx, buf) := recurrence_rule_to_ical ctx recur in
      let '(ctx, comp) :=
        if negb (have_invalid_props ctx) then
          (* Add RRULE to component *)
          if icalrecur_has_freq L buf
          then (ctx, icalcomponent_add_property comp
                       (icalproperty_new_value ICAL_RRULE_PROPERTY (val_recur buf)))
          else
            (* Messed up the RRULE value. That's an error. *)
            (invalidprop (set_err_code ctx JMAPICAL_ERROR_UNKNOWN) None, comp)
        else (ctx, comp) in
      (endprop ctx, comp)
  end.

End Recurrence_to_ical.

(* ===================================================================== *)
(** ** JSCalendar to iCalendar: participants *)
(* ===================================================================== *)

(** The converters of single members that [calendarevent_to_ical] calls, as
    a record: the definitions below work for any such record, and
    [source_to_ical_parts] further down is the one of the source.  Each
    takes the context and the VEVENT under construction and returns both;
    [None] when the call does not return. *)
Record to_ical_parts := mk_to_ical_parts {
  relatedto_to_ical :
    context_t -> icalcomponent -> json_t -> option (context_t * icalcomponent);
  (** [description_to_ical(ctx, comp, desc, desc_content_type)] *)
  description_to_ical :
    context_t -> icalcomponent -> string -> option string ->
    option (context_t * icalcomponent);
  (** [links_to_ical(ctx, comp, links, propname)] *)
  links_to_ical :
    context_t -> icalcomponent -> json_t -> string ->
    option (context_t * icalcomponent);
  (** [locations_to_ical(ctx, comp, locations, links)] *)
  locations_to_ical :
    context_t -> icalcomponent -> json_t -> option json_t ->
    option (context_t * icalcomponent);
  virtuallocations_to_ical :
    context_t -> icalcomponent -> json_t -> option (context_t * icalcomponent);
  alerts_to_ical :
    context_t -> icalcomponent -> json_t -> option (context_t * icalcomponent);
  (** [participant_to_ical(ctx, comp, id, jpart, participants, links,
      orga_uri, caladdress_by_participant_id)]; it builds the ATTENDEE with
      [icalproperty_new_attendee(hash_lookup(id, caladdress_by_participant_id))] *)
  participant_to_ical :
    context_t -> icalcomponent -> string -> json_t -> option json_t ->
    option json_t -> option string -> gmap string string ->
    option (context_t * icalcomponent)
}.

Section Participants_to_ical.
Context (L : library) (S : to_ical_parts).

Definition is_jmapid_char (c : ascii) : bool :=
  isdigit c || islower c || isupper c
  || Ascii.eqb c "-"%char || Ascii.eqb c "_"%char.

Fixpoint string_forallb (f : ascii -> bool) (s : string) : bool :=
  match s with
  | EmptyString => true
  | String c r => f c && string_forallb f r
  end.

(** [is_valid_jmapid]: the loop stops at the first of 256 bytes that is
    not allowed; the string is valid when the loop ran over all of it. *)
Definition is_valid_jmapid (s : option string) : bool :=
  match s with
  | None => false
  | Some s =>
      string_forallb is_jmapid_char (strprefix 256 s)
      && (0 <? strlen s)%nat && (strlen s <=? 256)%nat
  end.

(** [is_valid_rsvpmethod] *)
Definition is_valid_rsvpmethod (s : option string) : bool :=
  match s with
  | None => false
  | Some s => string_forallb (fun c => isascii c && isalpha c) s
              && (0 <? strlen s)%nat
  end.

(** The CALADDRESS that the first loop of [participants_to_ical] computes
    for the participant [jval].  The outer [None]: the C code hands a
    [NULL] string to [xstrdup] or to [buf_appendcstr], which read it.  The
    inner [None]: [caladdress] stays [NULL] and the participant is reported
    later. *)
Definition caladdress_of_participant (jval : json_t) : option (option string) :=
  let sendTo := json_object_get (Some jval) "sendTo" in
  if is_some (json_object_get sendTo "imip") then
    caladdress ← json_string_value (json_object_get sendTo "imip");
    Some (Some caladdress)
  else if is_some (json_object_get sendTo "other") then
    caladdress ← json_string_value (json_object_get sendTo "imip");
    Some (Some caladdress)
  else if (0 <? json_object_size sendTo)%nat then
    anymethod ← json_object_iter_key_first sendTo;
    caladdress ← json_string_value (json_object_get sendTo anymethod);
    Some (Some caladdress)
  else if is_some (json_object_get (Some jval) "email") then
    addr ← json_string_value (json_object_get (Some jval) "email");
    Some (Some (mailaddr_to_uri addr))
  else Some None.

(** The table [caladdress_by_participant_id]. *)
Fixpoint caladdress_table (participants : list (string * json_t))
    (table : gmap string string) : option (gmap string string) :=
  match participants with
  | [] => Some table
  | (key, jval) :: rest =>
      if negb (is_valid_jmapid (Some key)) then caladdress_table rest table
      else
        caladdress ← caladdress_of_participant jval;
        match caladdress with
        | None => caladdress_table rest table (* reported later as error *)
        | Some a => caladdress_table rest (<[key := a]> table)
        end
  end.

(** The last loop of [participants_to_ical]. *)
Fixpoint participants_loop (todo : list (string * json_t))
    (participants links : option json_t) (orga_uri : option string)
    (table : gmap string string) (ctx : context_t) (comp : icalcomponent)
  : option (context_t * icalcomponent) :=
  match todo with
  | [] => Some (ctx, comp)
  | (key, jval) :: rest =>
      let ctx := beginprop_key ctx "participants" key in
      if negb (is_valid_jmapid (Some key)) then
        participants_loop rest participants links orga_uri table
          (endprop (invalidprop ctx None)) comp
      else
        match table !! key with
        | None =>
            participants_loop rest participants links orga_uri table
              (endprop (invalidprop (invalidprop ctx (Some "sendTo")) (Some "email")))
              comp
        | Some _ =>
            (* Map participant to iCalendar *)
            '(ctx, comp) ← participant_to_ical S ctx comp key jval participants
                              links orga_uri table;
            participants_loop rest participants links orga_uri table
              (endprop ctx) comp
        end
  end.

(** [participants_to_ical]; [None] when the call does not return. *)
Definition participants_to_ical (ctx : context_t) (comp : icalcomponent)
    (event : json_t) : option (context_t * icalcomponent) :=
  (* Purge existing ATTENDEEs and ORGANIZER *)
  let comp := remove_icalprop comp ICAL_ATTENDEE_PROPERTY in
  let comp := remove_icalprop comp ICAL_ORGANIZER_PROPERTY in
  (* If participants are set, replyTo must be set *)
  let replyTo := json_object_get (Some event) "replyTo" in
  let ctx := if JNOTNULL replyTo && (json_object_size replyTo =? 0)%nat
             then invalidprop ctx (Some "replyTo") else ctx in
  let participants := json_object_get (Some event) "participants" in
  let ctx := if JNOTNULL participants && (json_object_size participants =? 0)%nat
             then invalidprop ctx (Some "participants") else ctx in
  if negb (Bool.eqb (JNOTNULL replyTo) (JNOTNULL participants)) then
    Some (invalidprop (invalidprop ctx (Some "replyTo")) (Some "participants"), comp)
  else if negb (JNOTNULL replyTo) then Some (ctx, comp)
  else
    (* OK, there's both replyTo and participants set. *)
    (* Parse replyTo *)
    let ctx := beginprop ctx "replyTo" in
    let ctx :=
      fold_left (fun ctx kv =>
                   if negb (is_valid_rsvpmethod (Some (fst kv)))
                      || negb (json_is_string (Some (snd kv)))
                   then invalidprop ctx (Some (fst kv)) else ctx)
                (members_of replyTo) ctx in
    let ctx := endprop ctx in
    (* Map participant ids to their iCalendar CALADDRESS *)
    table ← caladdress_table (members_of participants) ∅;
    (* Pick the ORGANIZER URI *)
    let orga_method :=
      if is_some (json_object_get replyTo "imip") then Some "imip"
      else if is_some (json_object_get replyTo "other") then Some "other"
      else json_object_iter_key_first replyTo in
    let orga_uri :=
      match orga_method with
      | Some m => json_string_value (json_object_get replyTo m)
      | None => None
      end in
    (* Create the ORGANIZER property; libical returns NULL for a NULL URI *)
    let orga :=
      match orga_uri with
      | Some u => Some (icalproperty_new_value ICAL_ORGANIZER_PROPERTY (val_text u))
      | None => None
      end in
    (* Keep track of the RSVP URIs and their method *)
    keep ←
      (if (1 <? json_object_size replyTo)%nat then Some true
       else
         m ← orga_method;   (* strcmp reads orga_method *)
         Some (negb (streq m "imip") && negb (streq m "other")));
    orga ←
      (if keep : bool then
         fold_left (fun orga kv =>
                      orga ← orga;
                      uri ← json_string_value (Some (snd kv));
                      Some (match orga with
                            | Some o =>
                                Some (set_icalxparam o JMAPICAL_XPARAM_RSVP_URI
                                        (fst kv ++ ":" ++ uri) false)
                            | None => None
                            end))
                   (members_of replyTo) (Some orga)
       else Some orga);
    let comp := match orga with
                | Some o => icalcomponent_add_property comp o
                | None => comp
                end in
    (* Process participants *)
    let links := json_object_get (Some event) "links" in
    participants_loop (members_of participants) participants links orga_uri
                      table ctx comp.

(** [keywords_to_ical] *)
Definition keywords_to_ical (ctx : context_t) (comp : icalcomponent)
    (keywords : json_t) : context_t * icalcomponent :=
  (* Purge existing keywords from component *)
  let comp := remove_icalprop comp ICAL_CATEGORIES_PROPERTY in
  (* Add keywords *)
  fold_left (fun st kv =>
               let '(ctx, comp) := st in
               match snd kv with
               | json_true =>
                   (ctx, icalcomponent_add_property comp
                           (icalproperty_new_value ICAL_CATEGORIES_PROPERTY
                              (val_text (fst kv))))
               | _ =>
                   (endprop (invalidprop (beginprop ctx "keywords") (Some (fst kv))),
                    comp)
               end)
            (members_of (Some keywords)) (ctx, comp).

(** The first property of a kind, changed by [f]. *)
Fixpoint update_first (props : list icalproperty) (kind : icalproperty_kind)
    (f : icalproperty -> icalproperty) : list icalproperty :=
  match props with
  | [] => []
  | p :: r =>
      if icalproperty_kind_eqb (prop_kind p) kind then f p :: r
      else p :: update_first r kind f
  end.

(** [set_language_icalprop] *)
Definition set_language_icalprop (comp : icalcomponent)
    (kind : icalproperty_kind) (lang : option string) : icalcomponent :=
  mk_icalcomponent (icalcomponent_isa comp)
    (update_first (comp_props comp) kind
       (fun prop =>
          let params :=
            List.filter (fun a => negb (icalparameter_kind_eqb (icalparameter_isa a)
                                                              ICAL_LANGUAGE_PARAMETER))
                        (prop_params prop) in
          mk_icalproperty (prop_kind prop) (prop_x_name prop) (prop_value prop)
            match lang with
            | Some l => params ++ [param_language l]
            | None => params
            end))
    (comp_comps comp).

End Participants_to_ical.

(* ===================================================================== *)
(** ** JSCalendar to iCalendar: overrides and the event *)
(* ===================================================================== *)

Section Event_to_ical.
Context (L : library) (P : from_ical_parts) (S : to_ical_parts).

(** The keys that make [overrides_to_ical] ignore a patch. *)
Definition is_forbidden_patch_key (key : string) : bool :=
  streq key "uid" || streq key "relatedTo" || streq key "prodId"
  || streq key "isAllDay" || streq key "recurrenceRule"
  || streq key "recurrenceOverrides" || streq key "replyTo"
  || streq key "participantId".

(** [icalcomponent_get_recurrenceid]: the null time without a
    RECURRENCE-ID. *)
Definition icalcomponent_get_recurrenceid (comp : icalcomponent) : icaltimetype :=
  match icalcomponent_get_first_property comp ICAL_RECURRENCEID_PROPERTY with
  | Some p => match prop_value p with
              | val_datetime t => t
              | _ => icaltime_null_time
              end
  | None => icaltime_null_time
  end.

(** The cache [recurs] of [overrides_to_ical]: the VEVENTs of the parent
    other than [comp], by the LocalDate of their recurrence id.  [None]:
    [hash_insert] is handed a [NULL] key. *)
Fixpoint index_exceptions (excomps : list icalcomponent)
    (recurs : gmap string icalcomponent) : option (gmap string icalcomponent) :=
  match excomps with
  | [] => Some recurs
  | excomp :: rest =>
      t ← localdate_from_icaltime_r L (icalcomponent_get_recurrenceid excomp);
      index_exceptions rest (<[t := excomp]> recurs)
  end.

(** The state of the loop of [overrides_to_ical]: the context, the parent
    VCALENDAR (without [comp]), the main VEVENT and the cache. *)
Record overrides_state := mk_overrides_state {
  os_ctx : context_t;
  os_ical : option icalcomponent;
  os_comp : icalcomponent;
  os_recurs : gmap string icalcomponent }.

(** One turn of the loop of [overrides_to_ical], for the override [id].
    [convert] is [calendarevent_to_ical] as it runs on an exception.  A
    patch with a forbidden key leaves the loop body by [continue], before
    [endprop]. *)
Definition override_to_ical
    (convert : context_t -> icalcomponent -> json_t ->
               option (context_t * icalcomponent))
    (master : json_t) (st : overrides_state) (id : string) (override : json_t)
  : option overrides_state :=
  let ctx := beginprop_key (os_ctx st) "recurrenceOverrides" id in
  let ical := os_ical st in
  let comp := os_comp st in
  let recurs := os_recurs st in
  match localdate_to_icaltime L id (tzstart ctx) (is_allday ctx) with
  | None =>
      Some (mk_overrides_state (endprop (invalidprop ctx None)) ical comp recurs)
  | Some start =>
      match json_object_get (Some override) "excluded" with
      | Some excluded =>
          if (json_object_size (Some override) =? 1)%nat && json_is_true (Some excluded)
          then
            (* Add EXDATE *)
            Some (mk_overrides_state (endprop ctx) ical
                    (dtprop_to_ical L comp start (tzstart ctx) false ICAL_EXDATE_PROPERTY)
                    recurs)
          else
            Some (mk_overrides_state (endprop (invalidprop ctx (Some id))) ical comp recurs)
      | None =>
          if (json_object_size (Some override) =? 0)%nat then
            (* Add RDATE *)
            Some (mk_overrides_state (endprop ctx) ical
                    (dtprop_to_ical L comp start (tzstart ctx) false ICAL_RDATE_PROPERTY)
                    recurs)
          else
            (* Add VEVENT exception *)
            let ignore :=
              existsb (fun kv => is_forbidden_patch_key (fst kv))
                      (members_of (Some override)) in
            if ignore then Some (mk_overrides_state ctx ical comp recurs)
            else
              (* If the override doesn't have a custom start date, use
                 the LocalDate in the recurrenceOverrides object key *)
              let override :=
                match json_object_get (Some override) "start" with
                | Some _ => override
                | None => json_object_set_new override "start" (json_string id)
                end in
              (* Create overridden event from patch and master event *)
              match jmap_patchobject_apply L master override with
              | None =>
                  Some (mk_overrides_state (endprop (invalidprop ctx None)) ical comp recurs)
              | Some ex =>
                  (* Lookup or create the VEVENT for this override *)
                  let excomp :=
                    match recurs !! id with
                    | Some excomp => excomp
                    | None =>
                        remove_icalprop
                          (remove_icalprop
                             (remove_icalprop comp ICAL_RDATE_PROPERTY)
                             ICAL_EXDATE_PROPERTY)
                          ICAL_RRULE_PROPERTY
                    end in
                  let recurs := delete id recurs in
                  let excomp := dtprop_to_ical L excomp start (tzstart ctx) true
                                  ICAL_RECURRENCEID_PROPERTY in
                  (* Convert the override event to iCalendar *)
                  let toctx := context_new None (Some (err ctx))
                                 (Z.lor (mode ctx) JMAPICAL_EXC_MODE) in
                  '(toctx, excomp) ← convert toctx excomp ex;
                  (* toctx->err and ctx->err are the same struct *)
                  let ctx := set_err ctx (err toctx) in
                  ctx ← (if have_invalid_props toctx
                         then invalidprop_append ctx (get_invalid_props toctx)
                         else Some ctx);
                  (* Add the exception *)
                  let ical := match ical with
                              | Some i => Some (icalcomponent_add_component i excomp)
                              | None => None
                              end in
                  Some (mk_overrides_state (endprop ctx) ical comp recurs)
              end
      end
  end.

Fixpoint overrides_loop
    (convert : context_t -> icalcomponent -> json_t ->
               option (context_t * icalcomponent))
    (master : json_t) (todo : list (string * json_t)) (st : overrides_state)
  : option overrides_state :=
  match todo with
  | [] => Some st
  | (id, override) :: rest =>
      st ← override_to_ical convert master st id override;
      overrides_loop convert master rest st
  end.

Definition without_vevents (ical : icalcomponent) : icalcomponent :=
  mk_icalcomponent (icalcomponent_isa ical) (comp_props ical)
    (List.filter (fun c => negb (icalcomponent_kind_eqb (icalcomponent_isa c)
                                                       ICAL_VEVENT_COMPONENT))
                 (comp_comps ical)).

(** [overrides_to_ical(ctx, comp, overrides)], with [ical] the parent of
    [comp] without [comp]; [None] when the call does not return. *)
Definition overrides_to_ical
    (convert : context_t -> icalcomponent -> json_t ->
               option (context_t * icalcomponent))
    (ctx : context_t) (ical : option icalcomponent) (comp : icalcomponent)
    (overrides : json_t)
  : option (context_t * option icalcomponent * icalcomponent) :=
  (* Purge EXDATE, RDATE *)
  let comp := remove_icalprop comp ICAL_RDATE_PROPERTY in
  let comp := remove_icalprop comp ICAL_EXDATE_PROPERTY in
  (* Move VEVENT exceptions to a cache *)
  recurs ← index_exceptions
             (match ical with
              | Some i => comps_of_kind i ICAL_VEVENT_COMPONENT
              | None => []
              end) ∅;
  let ical := match ical with
              | Some i => Some (without_vevents i)
              | None => None
              end in
  if json_is_null (Some overrides) then Some (ctx, ical, comp)
  else
    (* Convert current master event to JMAP *)
    let fromctx := context_new None None JMAPICAL_READ_MODE in
    '(_, master) ← calendarevent_from_ical L P fromctx
                      (match ical with
                       | Some i => Some (icalcomponent_add_component i comp)
                       | None => None
                       end) comp;
    let master := json_object_del master "recurrenceRule" in
    let master := json_object_del master "recurrenceOverrides" in
    st ← overrides_loop convert master (members_of (Some overrides))
           (mk_overrides_state ctx ical comp recurs);
    Some (os_ctx st, os_ical st, os_comp st).

Definition is_exc_mode (ctx : context_t) : bool :=
  negb (Z.land (mode ctx) JMAPICAL_EXC_MODE =? 0).

Definition on_parent (ical : option icalcomponent)
    (f : icalcomponent -> icalcomponent) : option icalcomponent :=
  match ical with Some i => Some (f i) | None => None end.

(** The state that [calendarevent_to_ical] works on: the context, the
    parent VCALENDAR of the VEVENT (without the VEVENT itself; [None] for a
    VEVENT that is not attached) and the VEVENT. *)
Record wstate := mk_wstate {
  w_ctx : context_t;
  w_ical : option icalcomponent;
  w_comp : icalcomponent }.

Definition with_ctx (st : wstate) (ctx : context_t) : wstate :=
  mk_wstate ctx (w_ical st) (w_comp st).

Definition with_comp (st : wstate) (comp : icalcomponent) : wstate :=
  mk_wstate (w_ctx st) (w_ical st) comp.

Definition with_ctx_comp (st : wstate) (r : context_t * icalcomponent) : wstate :=
  mk_wstate (fst r) (w_ical st) (snd r).

(** A member that is handed to a sub-converter when it is [null] or, as
    [accept] says, of the right shape, and invalid otherwise. *)
Definition convert_member (event : json_t) (name : string)
    (accept : option json_t -> bool)
    (f : context_t -> icalcomponent -> json_t -> option (context_t * icalcomponent))
    (st : wstate) : option wstate :=
  let '(pe, ctx) := readprop (w_ctx st) (Some event) name false FMT_o in
  if pe >? 0 then
    match json_object_get (Some event) name with
    | Some j =>
        if json_is_null (Some j) || accept (Some j)
        then with_ctx_comp st <$> f ctx (w_comp st) j
        else Some (with_ctx st (invalidprop ctx (Some name)))
    | None => Some (with_ctx st ctx)
    end
  else Some (with_ctx st ctx).

Definition has_members (j : option json_t) : bool :=
  (0 <? json_object_size j)%nat.

(** The blocks of [calendarevent_to_ical], in the order of the C function
    and under the names of its comments.  Each takes the event and the
    state and returns the state; [None] when it does not return. *)

Definition to_ical_excluded (event : json_t) (st : wstate) : option wstate :=
  Some match json_object_get (Some event) "excluded" with
       | Some excluded =>
           if negb (json_is_false (Some excluded))
           then with_ctx st (invalidprop (w_ctx st) (Some "excluded"))
           else st
       | None => st
       end.

Definition to_ical_uid (event : json_t) (st : wstate) : option wstate :=
  Some (with_comp st (icalcomponent_set_uid (w_comp st) (uid (w_ctx st)))).

Definition to_ical_type (event : json_t) (st : wstate) : option wstate :=
  let ctx := w_ctx st in
  let jtype := json_object_get (Some event) "@type" in
  Some (with_ctx st
          (if JNOTNULL jtype && json_is_string jtype then
             match json_string_value jtype with
             | Some t => if negb (streq t "jsevent")
                         then invalidprop ctx (Some "@type") else ctx
             | None => ctx
             end
           else if JNOTNULL jtype then invalidprop ctx (Some "@type")
           else ctx)).

Definition to_ical_isAllDay (event : json_t) (st : wstate) : option wstate :=
  let '(pe, ctx) := readprop (w_ctx st) (Some event) "isAllDay" true FMT_b in
  Some (with_ctx st
          (if pe >? 0
           then set_is_allday ctx
                  (if json_is_true (json_object_get (Some event) "isAllDay")
                   then 1 else 0)
           else ctx)).

(** start, duration, timeZone *)
Definition to_ical_startend (event : json_t) (st : wstate) : option wstate :=
  with_ctx_comp st <$> startend_to_ical L (w_ctx st) (w_comp st) event.

Definition to_ical_relatedTo (event : json_t) (st : wstate) : option wstate :=
  convert_member event "relatedTo" has_members (relatedto_to_ical S) st.

Definition to_ical_prodId (is_exc : bool) (event : json_t) (st : wstate)
  : option wstate :=
  if negb is_exc && negb (json_is_null (json_object_get (Some event) "prodId"))
  then
    let '(pe, ctx) := readprop (w_ctx st) (Some event) "prodId" false FMT_s in
    let val :=
      match json_string_value (json_object_get (Some event) "prodId") with
      | Some v => v
      | None =>
          (* Use same product id like jcal.c *)
          "-//CyrusJMAP.org/Cyrus " ++ CYRUS_VERSION L ++ "//EN"
      end in
    (* Set PRODID in the VCALENDAR *)
    Some (mk_wstate ctx
            (on_parent (w_ical st)
               (fun i => icalcomponent_add_property
                           (remove_icalprop i ICAL_PRODID_PROPERTY)
                           (icalproperty_new_value ICAL_PRODID_PROPERTY (val_text val))))
            (w_comp st))
  else Some st.

Definition to_ical_created (event : json_t) (st : wstate) : option wstate :=
  Some (with_comp st
          (dtprop_to_ical L (w_comp st) (icaltime_current_time_utc L)
             (Some utc_timezone) true ICAL_CREATED_PROPERTY)).

Definition to_ical_updated (event : json_t) (st : wstate) : option wstate :=
  Some (with_comp st
          (dtprop_to_ical L (w_comp st) (icaltime_current_time_utc L)
             (Some utc_timezone) true ICAL_DTSTAMP_PROPERTY)).

Definition to_ical_sequence (event : json_t) (st : wstate) : option wstate :=
  Some (with_comp st
          (icalcomponent_set_value (w_comp st) ICAL_SEQUENCE_PROPERTY (val_integer 0))).

Definition to_ical_priority (event : json_t) (st : wstate) : option wstate :=
  let jprio := json_object_get (Some event) "priority" in
  Some (if (json_integer_value jprio >=? 0) || (json_integer_value jprio <=? 9)
        then with_comp st
               (icalcomponent_add_property (w_comp st)
                  (icalproperty_new_value ICAL_PRIORITY_PROPERTY
                     (val_integer (int_of_json_int (json_integer_value jprio)))))
        else if JNOTNULL jprio
             then with_ctx st (invalidprop (w_ctx st) (Some "priority"))
             else st).

Definition to_ical_title (event : json_t) (st : wstate) : option wstate :=
  let '(pe, ctx) := readprop (w_ctx st) (Some event) "title" true FMT_s in
  Some (mk_wstate ctx (w_ical st)
          (if pe >? 0
           then match json_string_value (json_object_get (Some event) "title") with
                | Some val =>
                    icalcomponent_set_value (w_comp st) ICAL_SUMMARY_PROPERTY
                      (val_text val)
                | None => w_comp st
                end
           else w_comp st)).

(** description and descriptionContentType *)
Definition to_ical_description (event : json_t) (st : wstate) : option wstate :=
  let '(pe, ctx) := readprop (w_ctx st) (Some event) "descriptionContentType"
                      false FMT_s in
  let desc_content_type :=
    json_string_value (json_object_get (Some event) "descriptionContentType") in
  let '(pe, ctx) := readprop ctx (Some event) "description" false FMT_s in
  if pe >? 0 then
    match json_string_value (json_object_get (Some event) "description") with
    | Some desc =>
        if (0 <? strlen desc)%nat
        then with_ctx_comp st
               <$> description_to_ical S ctx (w_comp st) desc desc_content_type
        else Some (with_ctx st ctx)
    | None => Some (with_ctx st ctx)
    end
  else Some (with_ctx st ctx).

Definition to_ical_method (event : json_t) (st : wstate) : option wstate :=
  let '(pe, ctx) := readprop (w_ctx st) (Some event) "method" false FMT_s in
  Some (if pe >? 0 then
          match json_string_value (json_object_get (Some event) "method") with
          | Some method =>
              match icalenum_string_to_method L method with
              | ICAL_METHOD_NONE => with_ctx st (invalidprop ctx (Some "method"))
              | icalmethod =>
                  mk_wstate ctx
                    (on_parent (w_ical st)
                       (fun i => icalcomponent_set_value i ICAL_METHOD_PROPERTY
                                   (val_method icalmethod)))
                    (w_comp st)
              end
          | None => with_ctx st ctx
          end
        else with_ctx st ctx).

Definition to_ical_color (event : json_t) (st : wstate) : option wstate :=
  let '(pe, ctx) := readprop (w_ctx st) (Some event) "color" false FMT_s in
  Some (mk_wstate ctx (w_ical st)
          (if pe >? 0 then
             match json_string_value (json_object_get (Some event) "color") with
             | Some val =>
                 if (0 <? strlen val)%nat
                 then icalcomponent_add_property (w_comp st)
                        (icalproperty_new_value ICAL_COLOR_PROPERTY (val_text val))
                 else w_comp st
             | None => w_comp st
             end
           else w_comp st)).

Definition to_ical_keywords (event : json_t) (st : wstate) : option wstate :=
  convert_member event "keywords" json_is_object
    (fun ctx comp j => Some (keywords_to_ical ctx comp j)) st.

Definition to_ical_links (event : json_t) (st : wstate) : option wstate :=
  convert_member event "links" has_members
    (fun ctx comp j => links_to_ical S ctx comp j "links") st.

Definition to_ical_locale (event : json_t) (st : wstate) : option wstate :=
  let comp := w_comp st in
  Some (if negb (json_is_null (json_object_get (Some event) "locale")) then
          let '(pe, ctx) := readprop (w_ctx st) (Some event) "locale" false FMT_s in
          if pe >? 0 then
            let comp := set_language_icalprop comp ICAL_SUMMARY_PROPERTY None in
            let comp := set_language_icalprop comp ICAL_DESCRIPTION_PROPERTY None in
            match json_string_value (json_object_get (Some event) "locale") with
            | Some val =>
                mk_wstate ctx (w_ical st)
                  (if (0 <? strlen val)%nat
                   then set_language_icalprop comp ICAL_SUMMARY_PROPERTY (Some val)
                   else comp)
            | None => mk_wstate ctx (w_ical st) comp
            end
          else with_ctx st ctx
        else
          with_comp st
            (set_language_icalprop
               (set_language_icalprop comp ICAL_SUMMARY_PROPERTY None)
               ICAL_DESCRIPTION_PROPERTY None)).

Definition to_ical_locations (event : json_t) (st : wstate) : option wstate :=
  convert_member event "locations" has_members
    (fun ctx comp j =>
       locations_to_ical S ctx comp j (json_object_get (Some event) "links")) st.

Definition to_ical_virtualLocations (event : json_t) (st : wstate)
  : option wstate :=
  convert_member event "virtualLocations" has_members
    (virtuallocations_to_ical S) st.

Definition to_ical_recurrenceRule (is_exc : bool) (event : json_t) (st : wstate)
  : option wstate :=
  let '(pe, ctx) := readprop (w_ctx st) (Some event) "recurrenceRule" false FMT_o in
  Some (if (pe >? 0) && negb is_exc
        then with_ctx_comp st
               (recurrence_to_ical L ctx (w_comp st)
                  (json_object_get (Some event) "recurrenceRule"))
        else with_ctx st ctx).

Definition to_ical_status (event : json_t) (st : wstate) : option wstate :=
  let '(pe, ctx) := readprop (w_ctx st) (Some event) "status" false FMT_s in
  let '(ctx, status) :=
    if pe >? 0 then
      match json_string_value (json_object_get (Some event) "status") with
      | Some val =>
          if streq val "confirmed" then (ctx, ICAL_STATUS_CONFIRMED)
          else if streq val "cancelled" then (ctx, ICAL_STATUS_CANCELLED)
          else if streq val "tentative" then (ctx, ICAL_STATUS_TENTATIVE)
          else (invalidprop ctx (Some "status"), ICAL_STATUS_NONE)
      | None => (ctx, ICAL_STATUS_NONE)
      end
    else if pe =? 0 then (ctx, ICAL_STATUS_CONFIRMED)
    else (ctx, ICAL_STATUS_NONE) in
  Some (mk_wstate ctx (w_ical st)
          match status with
          | ICAL_STATUS_NONE => w_comp st
          | _ => icalcomponent_set_value
                   (remove_icalprop (w_comp st) ICAL_STATUS_PROPERTY)
                   ICAL_STATUS_PROPERTY (val_status status)
          end).

Definition to_ical_freeBusyStatus (event : json_t) (st : wstate)
  : option wstate :=
  let '(pe, ctx) := readprop (w_ctx st) (Some event) "freeBusyStatus" false FMT_s in
  let '(ctx, v) :=
    if pe >? 0 then
      match json_string_value (json_object_get (Some event) "freeBusyStatus") with
      | Some val =>
          if streq val "free" then (ctx, ICAL_TRANSP_TRANSPARENT)
          else if streq val "busy" then (ctx, ICAL_TRANSP_OPAQUE)
          else (invalidprop ctx (Some "freeBusyStatus"), ICAL_TRANSP_NONE)
      | None => (ctx, ICAL_TRANSP_NONE)
      end
    else (ctx, ICAL_TRANSP_NONE) in
  Some (mk_wstate ctx (w_ical st)
          match v with
          | ICAL_TRANSP_NONE => w_comp st
          | _ => icalcomponent_set_value (w_comp st) ICAL_TRANSP_PROPERTY
                   (val_transp v)
          end).

Definition to_ical_privacy (event : json_t) (st : wstate) : option wstate :=
  let '(pe, ctx) := readprop (w_ctx st) (Some event) "privacy" false FMT_s in
  let '(ctx, v) :=
    if pe >? 0 then
      match json_string_value (json_object_get (Some event) "privacy") with
      | Some val =>
          if streq val "public" then (ctx, ICAL_CLASS_PUBLIC)
          else if streq val "private" then (ctx, ICAL_CLASS_PRIVATE)
          else if streq val "secret" then (ctx, ICAL_CLASS_CONFIDENTIAL)
          else (invalidprop ctx (Some "privacy"), ICAL_CLASS_NONE)
      | None => (ctx, ICAL_CLASS_NONE)
      end
    else (ctx, ICAL_CLASS_NONE) in
  Some (mk_wstate ctx (w_ical st)
          match v with
          | ICAL_CLASS_NONE => w_comp st
          | _ => icalcomponent_set_value (w_comp st) ICAL_CLASS_PROPERTY
                   (val_class v)
          end).

(** replyTo and participants *)
Definition to_ical_participants (event : json_t) (st : wstate) : option wstate :=
  with_ctx_comp st <$> participants_to_ical S (w_ctx st) (w_comp st) event.

Definition to_ical_useDefaultAlerts (event : json_t) (st : wstate)
  : option wstate :=
  let '(pe, ctx) := readprop (w_ctx st) (Some event) "useDefaultAlerts" false FMT_b in
  Some (mk_wstate ctx (w_ical st)
          (if pe >? 0 then
             let comp := remove_icalxprop (w_comp st) JMAPICAL_XPROP_USEDEFALERTS in
             if json_is_true (json_object_get (Some event) "useDefaultAlerts")
             then icalcomponent_add_property comp
                    (mk_icalproperty ICAL_X_PROPERTY JMAPICAL_XPROP_USEDEFALERTS
                                     (val_boolean true) [])
             else comp
           else w_comp st)).

Definition to_ical_alerts (event : json_t) (st : wstate) : option wstate :=
  convert_member event "alerts" has_members (alerts_to_ical S) st.

(** recurrenceOverrides - must be last to apply patches *)
Definition to_ical_recurrenceOverrides
    (convert : context_t -> icalcomponent -> json_t ->
               option (context_t * icalcomponent))
    (is_exc : bool) (event : json_t) (st : wstate) : option wstate :=
  let '(pe, ctx) := readprop (w_ctx st) (Some event) "recurrenceOverrides"
                      false FMT_o in
  if (pe >? 0) && negb is_exc then
    match json_object_get (Some event) "recurrenceOverrides" with
    | Some overrides =>
        (fun r : context_t * option icalcomponent * icalcomponent =>
           mk_wstate (fst (fst r)) (snd (fst r)) (snd r))
          <$> overrides_to_ical convert ctx (w_ical st) (w_comp st) overrides
    | None => Some (with_ctx st ctx)
    end
  else Some (with_ctx st ctx).

(** The end of [calendarevent_to_ical]: it returns when there are property
    errors, and checks otherwise that either both organizer and attendees
    are null, or neither are. *)
Definition to_ical_sanity (event : json_t) (st : wstate) : option wstate :=
  let ctx := w_ctx st in
  let comp := w_comp st in
  Some (if have_invalid_props ctx then st
        else if negb (Bool.eqb
                        (is_some (icalcomponent_get_first_property comp
                                    ICAL_ORGANIZER_PROPERTY))
                        (is_some (icalcomponent_get_first_property comp
                                    ICAL_ATTENDEE_PROPERTY)))
             then with_ctx st (invalidprop (invalidprop ctx (Some "replyTo"))
                                           (Some "participants"))
             else st).

(** The blocks after [icalcomponent_set_sequence(comp, 0)]. *)
Definition blocks_after_sequence
    (convert : context_t -> icalcomponent -> json_t ->
               option (context_t * icalcomponent))
    (is_exc : bool) : list (json_t -> wstate -> option wstate) :=
  [ to_ical_priority; to_ical_title; to_ical_description; to_ical_method;
    to_ical_color; to_ical_keywords; to_ical_links; to_ical_locale;
    to_ical_locations; to_ical_virtualLocations;
    to_ical_recurrenceRule is_exc; to_ical_status; to_ical_freeBusyStatus;
    to_ical_privacy; to_ical_participants; to_ical_useDefaultAlerts;
    to_ical_alerts; to_ical_recurrenceOverrides convert is_exc;
    to_ical_sanity ].

(** The blocks up to and including it. *)
Definition blocks_to_sequence (is_exc : bool)
  : list (json_t -> wstate -> option wstate) :=
  [ to_ical_excluded; to_ical_uid; to_ical_type; to_ical_isAllDay;
    to_ical_startend; to_ical_relatedTo; to_ical_prodId is_exc;
    to_ical_created; to_ical_updated; to_ical_sequence ].

(** The blocks run one after the other. *)
Fixpoint run_blocks (blocks : list (json_t -> wstate -> option wstate))
    (event : json_t) (st : wstate) : option wstate :=
  match blocks with
  | [] => Some st
  | b :: rest => b event st ≫= run_blocks rest event
  end.

(** [calendarevent_to_ical(ctx, comp, event)], with [ical] the parent of
    [comp] and [convert] the conversion that [overrides_to_ical] runs on
    exceptions.  [is_exc] is read from the mode once, at the start.  [None]
    when the call does not return. *)
Definition calendarevent_to_ical_with
    (convert : context_t -> icalcomponent -> json_t ->
               option (context_t * icalcomponent))
    (ctx : context_t) (ical : option icalcomponent) (comp : icalcomponent)
    (event : json_t)
  : option (context_t * option icalcomponent * icalcomponent) :=
  let is_exc := is_exc_mode ctx in
  st ← run_blocks (blocks_to_sequence is_exc ++ blocks_after_sequence convert is_exc)
         event (mk_wstate ctx ical comp);
  Some (w_ctx st, w_ical st, w_comp st).

(** [calendarevent_to_ical] on an exception VEVENT: it is not attached to a
    VCALENDAR, and it runs in [JMAPICAL_EXC_MODE], where the overrides are
    not read, so the nested conversion is never called. *)
Definition calendarevent_to_ical_exception (ctx : context_t)
    (comp : icalcomponent) (event : json_t)
  : option (context_t * icalcomponent) :=
  '(ctx, _, comp) ← calendarevent_to_ical_with (fun _ _ _ => None)
                       ctx None comp event;
  Some (ctx, comp).

(** [calendarevent_to_ical] *)
Definition calendarevent_to_ical (ctx : context_t) (ical : option icalcomponent)
    (comp : icalcomponent) (event : json_t)
  : option (context_t * option icalcomponent * icalcomponent) :=
  calendarevent_to_ical_with calendarevent_to_ical_exception ctx ical comp event.

(** The VCALENDAR [ical] with the VEVENT [comp] as its first
    sub-component. *)
Definition attach_first (ical comp : icalcomponent) : icalcomponent :=
  mk_icalcomponent (icalcomponent_isa ical) (comp_props ical)
                   (comp :: comp_comps ical).

(** The VCALENDAR that [jmapical_toical] creates. *)
Definition new_vcalendar : icalcomponent :=
  let ical := icalcomponent_new ICAL_VCALENDAR_COMPONENT in
  let ical := icalcomponent_add_property ical
                (icalproperty_new_value ICAL_VERSION_PROPERTY (val_text "2.0")) in
  icalcomponent_add_property ical
    (icalproperty_new_value ICAL_CALSCALE_PROPERTY (val_text "GREGORIAN")).

(** The VEVENT that [jmapical_toical] creates. *)
Definition new_vevent : icalcomponent :=
  let now := icaltime_from_time_now L in
  let comp := icalcomponent_new ICAL_VEVENT_COMPONENT in
  let comp := icalcomponent_set_value comp ICAL_SEQUENCE_PROPERTY (val_integer 0) in
  let comp := icalcomponent_set_value comp ICAL_DTSTAMP_PROPERTY (val_datetime now) in
  icalcomponent_add_property comp
    (icalproperty_new_value ICAL_CREATED_PROPERTY (val_datetime now)).

(** The context that [jmapical_toical] converts in. *)
Definition toical_context (obj : json_t) (err : option jmapical_err_t)
  : context_t :=
  let ctx := context_new None err JMAPICAL_WRITE_MODE in
  set_uid ctx (json_string_value (json_object_get (Some obj) "uid")).

(** [jmapical_toical(obj, err)]: the returned VCALENDAR ([None] for
    [NULL]) and the caller's error struct after the call ([None] when the
    caller passed [NULL]).  The outer [None]: the call does not return. *)
Definition jmapical_toical (obj : json_t) (err : option jmapical_err_t)
  : option (option icalcomponent * option jmapical_err_t) :=
  (* Create a new VCALENDAR. *)
  let ical := new_vcalendar in
  (* Create a new VEVENT. *)
  let comp := new_vevent in
  (* Convert the JMAP calendar event to ical. *)
  let ctx := toical_context obj err in
  match uid ctx with
  | None =>
      Some (None,
            match err with
            | Some e => Some (mk_err JMAPICAL_ERROR_UID (props e))
            | None => None
            end)
  | Some _ =>
      '(ctx, ical, comp) ← calendarevent_to_ical ctx (Some ical) comp obj;
      let ical :=
        match ical with
        | Some i => Some (icalcomponent_add_required_timezones L (attach_first i comp))
        | None => None
        end in
      (* Bubble up any property errors. *)
      let '(ctx, ical) :=
        if have_invalid_props ctx && is_some err
        then (set_err ctx (mk_err JMAPICAL_ERROR_PROPS (get_invalid_props ctx)), None)
        else (ctx, ical) in
      (* Free erroneous ical data *)
      let ical := if errcode_is_set (code (Ctx.err ctx)) then None else ical in
      Some (ical, match err with
                  | Some _ => Some (Ctx.err ctx)
                  | None => None
                  end)
  end.

End Event_to_ical.

(* ===================================================================== *)
(** ** Sub-converters of single members *)
(* ===================================================================== *)

(** Converters that [from_ical_parts] and [to_ical_parts] take as fields,
    embedded from their source.  They live in a module of their own since
    the fields of the records have their names. *)
Module Parts.

(** [icalproperty_get_categories(prop)]: [icalvalue_get_text] of the value,
    which is the string of a TEXT value; [None] for a value of another
    type, whose storage is then read as a string. *)
Definition icalproperty_get_categories (prop : icalproperty) : option string :=
  match prop_value prop with
  | val_text s => Some s
  | _ => None
  end.

(** [keywords_from_ical]; [None] when a CATEGORIES property does not hold
    a text. *)
Definition keywords_from_ical (ctx : context_t) (comp : icalcomponent)
  : option json_t :=
  ret ← fold_left (fun ret prop =>
                     ret ← ret;
                     keyword ← icalproperty_get_categories prop;
                     Some (members_set ret keyword json_true))
                  (props_of_kind comp ICAL_CATEGORIES_PROPERTY) (Some []);
  Some (if (json_object_size (Some (json_object ret)) =? 0)%nat
        then json_null
        else json_object ret).

(** The inner loop of [relatedto_from_ical]: the relation types of a
    RELATED-TO property, in lower case. *)
Definition relation_from_ical (prop : icalproperty) : list (string * json_t) :=
  fold_left (fun relation param =>
               match param with
               | param_reltype (Some reltype) =>
                   if (0 <? strlen reltype)%nat
                   then members_set relation (lcase reltype) json_true
                   else relation
               | _ => relation
               end)
            (params_of_kind prop ICAL_RELTYPE_PARAMETER) [].

(** [relatedto_from_ical] *)
Definition relatedto_from_ical (L : library) (ctx : context_t)
    (comp : icalcomponent) : json_t :=
  let ret :=
    fold_left
      (fun ret prop =>
         let uid := icalproperty_get_value_as_string L prop in
         if (strlen uid =? 0)%nat then ret
         else
           let relation := relation_from_ical prop in
           let relation :=
             if (json_object_size (Some (json_object relation)) =? 0)%nat
             then json_null
             else json_object relation in
           members_set ret uid (json_object [("relation", relation)]))
      (props_of_kind comp ICAL_RELATEDTO_PROPERTY) [] in
  if (json_object_size (Some (json_object ret)) =? 0)%nat
  then json_null
  else json_object ret.

(** The inner loop of [relatedto_to_ical] over the members of [relation]. *)
Definition relation_to_ical (ctx : context_t) (prop : icalproperty)
    (relation : option json_t) : context_t * icalproperty :=
  fold_left
    (fun st kv =>
       let '(ctx, prop) := st in
       match snd kv with
       | json_true =>
           (ctx, icalproperty_add_parameter prop
                   (param_reltype (Some (ucase (fst kv)))))
       | _ =>
           (endprop (invalidprop (beginprop_key ctx "relation" (fst kv)) None),
            prop)
       end)
    (members_of relation) (ctx, prop).

(** [relatedto_to_ical(ctx, comp, relatedTo)]; [relatedTo = None] is a
    [NULL] pointer. *)
Definition relatedto_to_ical (ctx : context_t) (comp : icalcomponent)
    (relatedTo : option json_t) : context_t * icalcomponent :=
  (* Purge existing relatedTo properties from component *)
  let comp := remove_icalprop comp ICAL_RELATEDTO_PROPERTY in
  if negb (JNOTNULL relatedTo) then (ctx, comp)
  else
    (* Add relatedTo *)
    fold_left
      (fun st kv =>
         let '(ctx, comp) := st in
         let uid := fst kv in
         let relationObj := Some (snd kv) in
         let relation := json_object_get relationObj "relation" in
         let ctx := beginprop_key ctx "relatedTo" uid in
         let '(ctx, comp) :=
           if (0 <? json_object_size relation)%nat then
             let prop := icalproperty_new_value ICAL_RELATEDTO_PROPERTY
                           (val_text uid) in
             let '(ctx, prop) := relation_to_ical ctx prop relation in
             (ctx, icalcomponent_add_property comp prop)
           else if negb (JNOTNULL relation) then
             (ctx, icalcomponent_add_property comp
                     (icalproperty_new_value ICAL_RELATEDTO_PROPERTY
                        (val_text uid)))
           else if negb (json_is_object relation) then
             (invalidprop ctx (Some "relation"), comp)
           else if (json_object_size relationObj =? 0)%nat then
             (invalidprop ctx None, comp)
           else (ctx, comp) in
         (endprop ctx, comp))
      (members_of relatedTo) (ctx, comp).

(** [locale_from_ical] *)
Definition locale_from_ical (ctx : context_t) (comp : icalcomponent) : json_t :=
  let sum := icalcomponent_get_first_property comp ICAL_SUMMARY_PROPERTY in
  let dsc := icalcomponent_get_first_property comp ICAL_DESCRIPTION_PROPERTY in
  let param :=
    match sum with
    | Some sum => icalproperty_get_first_parameter sum ICAL_LANGUAGE_PARAMETER
    | None => None
    end in
  let param :=
    match param, dsc with
    | None, Some dsc => icalproperty_get_first_parameter dsc ICAL_LANGUAGE_PARAMETER
    | _, _ => param
    end in
  match param with
  | Some (param_language lang) => json_string lang
  | _ => json_null
  end.

(** *** description, links *)

(** [readprop(ctx, from, name, is_mandatory, "s", &s)]: the context, and
    the string [s] when the call returns a positive number. *)
Definition readprop_string (ctx : context_t) (from : option json_t)
    (name : string) (is_mandatory : bool) : context_t * option string :=
  let '(pe, ctx) := readprop ctx from name is_mandatory FMT_s in
  (ctx, if pe >? 0 then json_string_value (json_object_get from name) else None).

(** A string member that is read only [if (JNOTNULL(json_object_get(from,
    name)))]. *)
Definition readprop_string_if_set (ctx : context_t) (from : option json_t)
    (name : string) : context_t * option string :=
  if JNOTNULL (json_object_get from name)
  then readprop_string ctx from name false
  else (ctx, None).

(** [description_to_ical] *)
Definition description_to_ical (ctx : context_t) (comp : icalcomponent)
    (desc : string) (content_type : option string)
  : context_t * icalcomponent :=
  let comp := remove_icalprop comp ICAL_DESCRIPTION_PROPERTY in
  let ctx :=
    match content_type with
    | Some content_type =>
        if negb (strcaseeq content_type "TEXT/PLAIN")
        then invalidprop ctx (Some "descriptionContentType")
        else ctx
    | None => ctx
    end in
  (ctx, icalcomponent_set_value comp ICAL_DESCRIPTION_PROPERTY (val_text desc)).

(** The loop of [is_valid_regrel]; [first] says that [p == rel]. *)
Fixpoint regrel_chars (first : bool) (p : string) : bool :=
  match p with
  | EmptyString => true
  | String c r =>
      (islower c || isdigit c
       || (Ascii.eqb c "."%char && negb first)
       || (Ascii.eqb c "-"%char && negb first))
      && regrel_chars false r
  end.

(** [is_valid_regrel]: RFC 8288, section 3.3, reg-rel-type. *)
Definition is_valid_regrel (rel : string) : bool :=
  regrel_chars true rel && (0 <? strlen rel)%nat.

(** One turn of the loop of [links_to_ical], for the link [id]. *)
Definition link_to_ical (L : library) (propname : string)
    (ctx : context_t) (comp : icalcomponent) (id : string)
    (link : option json_t) : context_t * icalcomponent :=
  let ctx := beginprop_key ctx propname id in
  if negb (is_valid_jmapid (Some id)) then (endprop (invalidprop ctx None), comp)
  else
    let '(ctx, href) := readprop_string ctx link "href" true in
    let '(ctx, href) :=
      match href with
      | Some h => if (strlen h =? 0)%nat
                  then (invalidprop ctx (Some "href"), None)
                  else (ctx, Some h)
      | None => (ctx, None)
      end in
    let '(ctx, mtype) := readprop_string_if_set ctx link "type" in
    let '(ctx, title) := readprop_string_if_set ctx link "title" in
    let '(ctx, cid) := readprop_string_if_set ctx link "cid" in
    let '(ctx, display) := readprop_string_if_set ctx link "display" in
    let '(ctx, size) :=
      if JNOTNULL (json_object_get link "size") then
        let '(pe, ctx) := readprop ctx link "size" false FMT_I in
        if pe >? 0 then
          let size := json_integer_value (json_object_get link "size") in
          (if size <? 0 then invalidprop ctx (Some "size") else ctx, size)
        else (ctx, -1)
      else (ctx, -1) in
    let '(ctx, rel) := readprop_string ctx link "rel" false in
    let ctx :=
      match rel with
      | Some r => if negb (is_valid_regrel r)
                  then invalidprop ctx (Some "rel") else ctx
      | None => ctx
      end in
    let comp :=
      match href with
      | Some href =>
          if negb (have_invalid_props ctx) then
            (* Build iCalendar property *)
            let prop :=
              if strcmpsafe L rel (Some "describedby")
                 && negb (is_some (icalcomponent_get_first_property
                                     comp ICAL_URL_PROPERTY))
                 && (json_object_size link =? 2)%nat
              then icalproperty_set_value (icalproperty_new ICAL_URL_PROPERTY)
                                          (Some (val_uri href))
              else icalproperty_new_value ICAL_ATTACH_PROPERTY (val_attach href) in
            (* type *)
            let prop :=
              match mtype with
              | Some t => icalproperty_add_parameter prop (param_fmttype t)
              | None => prop
              end in
            (* title *)
            let prop :=
              match title with
              | Some t => set_icalxparam prop JMAPICAL_XPARAM_TITLE t true
              | None => prop
              end in
            (* cid *)
            let prop :=
              match cid with
              | Some c => set_icalxparam prop JMAPICAL_XPARAM_CID c true
              | None => prop
              end in
            (* size *)
            let prop :=
              if 0 <=? size
              then icalproperty_add_parameter prop (param_size (print_int size))
              else prop in
            (* rel *)
            let prop :=
              match rel with
              | Some r => if negb (streq r "enclosure")
                          then set_icalxparam prop JMAPICAL_XPARAM_REL r true
                          else prop
              | None => prop
              end in
            (* Set custom id *)
            let prop := set_icalxparam prop JMAPICAL_XPARAM_ID id true in
            (* display *)
            let prop :=
              match display with
              | Some d => set_icalxparam prop JMAPICAL_XPARAM_DISPLAY d true
              | None => prop
              end in
            (* Add ATTACH property. *)
            icalcomponent_add_property comp prop
          else comp
      | None => comp
      end in
    (endprop ctx, comp).

(** [links_to_ical] *)
Definition links_to_ical (L : library) (ctx : context_t) (comp : icalcomponent)
    (links : option json_t) (propname : string) : context_t * icalcomponent :=
  (* Purge existing attachments *)
  let comp := remove_icalprop comp ICAL_ATTACH_PROPERTY in
  let comp := remove_icalprop comp ICAL_URL_PROPERTY in
  fold_left (fun st kv =>
               link_to_ical L propname (fst st) (snd st) (fst kv) (Some (snd kv)))
            (members_of links) (ctx, comp).

(** *** alerts *)

(** [icalcomponent_get_summary] and [icalcomponent_get_description]: the
    text of the first property of the kind, [Some None] for [NULL].
    [None]: the value is of another type, whose storage is then read as a
    string. *)
Definition icalcomponent_get_text (comp : icalcomponent)
    (kind : icalproperty_kind) : option (option string) :=
  match icalcomponent_get_first_property comp kind with
  | None => Some None
  | Some prop =>
      match prop_value prop with
      | val_text s => Some (Some s)
      | val_none => Some None
      | _ => None
      end
  end.

(** The recipient of an email alert: the annotation when it was found and
    is a mailto URI, and else the user of the session.  [strconcat] stops
    at its first [NULL] argument. *)
Definition alert_recipient (L : library) : string :=
  let user := "mailto:" ++ match httpd_userid L with
                           | Some u => u
                           | None => EmptyString
                           end in
  match calendar_user_address_set L with
  | Some buf => if (7 <? strlen buf)%nat && strncaseeq buf "mailto:" 7
                then buf else user
  | None => user
  end.

(** One turn of the loop of [alerts_to_ical], for the alert [id]. *)
Definition alert_to_ical (L : library) (ctx : context_t) (comp : icalcomponent)
    (id : string) (alert : option json_t)
  : option (context_t * icalcomponent) :=
  let ctx := beginprop_key ctx "alerts" id in
  if negb (is_valid_jmapid (Some id))
  then Some (endprop (invalidprop ctx None), comp)
  else
    let alarm := icalcomponent_new ICAL_VALARM_COMPONENT in
    let alarm := icalcomponent_set_uid alarm (Some id) in
    (* offset *)
    let '(ctx, s) := readprop_string ctx alert "offset" true in
    let duration :=
      match s with
      | Some s => icaldurationtype_from_string L s
      | None => icaldurationtype_null_duration
      end in
    let ctx :=
      match s with
      | Some _ => if icaldurationtype_is_bad_duration duration
                  then invalidprop ctx (Some "offset") else ctx
      | None => ctx
      end in
    (* relativeTo *)
    let '(ctx, s) := readprop_string ctx alert "relativeTo" false in
    let '(ctx, rel, is_neg) :=
      match s with
      | Some s =>
          if streq s "before-start" then (ctx, ICAL_RELATED_START, 1)
          else if streq s "after-start" then (ctx, ICAL_RELATED_START, 0)
          else if streq s "before-end" then (ctx, ICAL_RELATED_END, 1)
          else if streq s "after-end" then (ctx, ICAL_RELATED_END, 0)
          else (invalidprop ctx (Some "relativeTo"), ICAL_RELATED_START, 1)
      | None => (ctx, ICAL_RELATED_START, 1)
      end in
    let trigger := mk_icaltrigger icaltime_null_time (with_is_neg duration is_neg) in
    (* Add TRIGGER *)
    let prop := icalproperty_new_value ICAL_TRIGGER_PROPERTY (val_trigger trigger) in
    let prop := icalproperty_add_parameter prop (param_related rel) in
    let alarm := icalcomponent_add_property alarm prop in
    (* snoozed *)
    let '(ctx, s) := readprop_string ctx alert "snoozed" false in
    let '(ctx, comp) :=
      match s with
      | Some s =>
          match utcdate_to_icaltime L s with
          | Some time =>
              let snooze := icalcomponent_new ICAL_VALARM_COMPONENT in
              (* Add RELATED-TO *)
              let snooze := remove_icalprop snooze ICAL_UID_PROPERTY in
              let prop := icalproperty_new_value ICAL_RELATEDTO_PROPERTY
                            (val_text id) in
              let prop := icalproperty_add_parameter prop
                            (param_reltype (Some "SNOOZE")) in
              let snooze := icalcomponent_add_property snooze prop in
              (* Add TRIGGER *)
              let prop := icalproperty_new_value ICAL_TRIGGER_PROPERTY
                            (val_trigger
                               (mk_icaltrigger time icaldurationtype_null_duration)) in
              let snooze := icalcomponent_add_property snooze prop in
              (ctx, icalcomponent_add_component comp snooze)
          | None => (invalidprop ctx (Some "snoozed"), comp)
          end
      | None => (ctx, comp)
      end in
    (* acknowledged *)
    let '(ctx, s) := readprop_string ctx alert "acknowledged" false in
    let '(ctx, alarm) :=
      match s with
      | Some s =>
          match utcdate_to_icaltime L s with
          | Some t =>
              (ctx, icalcomponent_add_property alarm
                      (icalproperty_new_value ICAL_ACKNOWLEDGED_PROPERTY
                         (val_datetime t)))
          | None => (invalidprop ctx (Some "acknowledged"), alarm)
          end
      | None => (ctx, alarm)
      end in
    (* action *)
    let '(ctx, s) := readprop_string ctx alert "action" false in
    let '(ctx, is_email) :=
      match s with
      | Some s =>
          if streq s "email" then (ctx, true)
          else if streq s "display" then (ctx, false)
          else (invalidprop ctx (Some "action"), false)
      | None => (ctx, false)
      end in
    let alarm := icalcomponent_add_property alarm
                   (icalproperty_new_value ICAL_ACTION_PROPERTY
                      (val_text (if is_email then "EMAIL" else "DISPLAY"))) in
    alarm ←
      (if is_email then
         (* ATTENDEE *)
         let alarm := icalcomponent_add_property alarm
                        (icalproperty_new_value ICAL_ATTENDEE_PROPERTY
                           (val_text (alert_recipient L))) in
         (* SUMMARY *)
         summary ← icalcomponent_get_text comp ICAL_SUMMARY_PROPERTY;
         let summary := match summary with
                        | Some s => s
                        | None => "Your event alert"
                        end in
         Some (icalcomponent_add_property alarm
                 (icalproperty_new_value ICAL_SUMMARY_PROPERTY (val_text summary)))
       else Some alarm);
    (* DESCRIPTION is required for both email and display *)
    description ← icalcomponent_get_text comp ICAL_DESCRIPTION_PROPERTY;
    let description := match description with
                       | Some s => s
                       | None => EmptyString
                       end in
    let alarm := icalcomponent_add_property alarm
                   (icalproperty_new_value ICAL_DESCRIPTION_PROPERTY
                      (val_text description)) in
    Some (endprop ctx, icalcomponent_add_component comp alarm).

(** [alerts_to_ical]; [None] when the call does not return. *)
Definition alerts_to_ical (L : library) (ctx : context_t) (comp : icalcomponent)
    (alerts : option json_t) : option (context_t * icalcomponent) :=
  (* Purge all VALARMs. *)
  let comp :=
    mk_icalcomponent (icalcomponent_isa comp) (comp_props comp)
      (List.filter (fun c => negb (icalcomponent_kind_eqb (icalcomponent_isa c)
                                                         ICAL_VALARM_COMPONENT))
                   (comp_comps comp)) in
  if negb (JNOTNULL alerts) then Some (ctx, comp)
  else
    fold_left (fun st kv =>
                 st ← st;
                 alert_to_ical L (fst st) (snd st) (fst kv) (Some (snd kv)))
              (members_of alerts) (Some (ctx, comp)).

(** *** locations, virtualLocations *)

(** The test of [validate_location] on a member that has to be a string
    when it is set. *)
Definition validate_string (loc : option json_t) (ctx : context_t)
    (name : string) : context_t :=
  let jval := json_object_get loc name in
  if JNOTNULL jval && negb (json_is_string jval)
  then invalidprop ctx (Some name) else ctx.

(** [validate_location]: the return value and the context. *)
Definition validate_location (L : library) (ctx : context_t)
    (loc links : option json_t) : bool * context_t :=
  let invalid_cnt := invalid_prop_count ctx in
  (* At least one property other than rel MUST be set *)
  if (json_object_size loc =? 0)%nat
     || ((json_object_size loc =? 1)%nat && is_some (json_object_get loc "rel"))
  then (false, invalidprop ctx None)
  else
    let ctx := validate_string loc ctx "name" in
    let ctx := validate_string loc ctx "description" in
    let ctx := validate_string loc ctx "rel" in
    let ctx := validate_string loc ctx "coordinates" in
    let jval := json_object_get loc "timeZone" in
    let ctx :=
      match json_string_value jval with
      | Some tzid => if negb (is_some (tz_from_tzid L (Some tzid)))
                     then invalidprop ctx (Some "timeZone") else ctx
      | None => if JNOTNULL jval
                then invalidprop ctx (Some "timeZone") else ctx
      end in
    (* linkIds *)
    let linkids := json_object_get loc "linkIds" in
    let ctx :=
      if JNOTNULL linkids && json_is_object linkids then
        fold_left (fun ctx kv =>
                     if negb (is_valid_jmapid (Some (fst kv)))
                        || negb (is_some (json_object_get links (fst kv)))
                        || negb (json_is_true (Some (snd kv)))
                     then endprop (invalidprop
                                     (beginprop_key ctx "linkIds" (fst kv)) None)
                     else ctx)
                  (members_of linkids) ctx
      else if JNOTNULL linkids then invalidprop ctx (Some "linkIds")
      else ctx in
    (* Location is invalid, if any invalid property has been added *)
    ((invalid_prop_count ctx =? invalid_cnt)%nat, ctx).

(** [set_icalxparam(prop, name, s, 0)] under [if (s)]. *)
Definition set_icalxparam_if (prop : icalproperty) (name : string)
    (s : option string) : icalproperty :=
  match s with
  | Some s => set_icalxparam prop name s false
  | None => prop
  end.

(** [location_to_ical].  A [NULL] name makes [icalvalue_new_from_string]
    return [NULL], and the property is left without a value. *)
Definition location_to_ical (L : library) (comp : icalcomponent) (id : string)
    (loc : option json_t) : icalcomponent :=
  let name := json_string_value (json_object_get loc "name") in
  let rel := json_string_value (json_object_get loc "rel") in
  (* Gracefully handle bogus values *)
  let rel := match rel with
             | Some r => if streq r "unknown" then None else Some r
             | None => None
             end in
  (* Determine which property kind to use for this location. *)
  let prop :=
    if negb (is_some (icalcomponent_get_first_property comp ICAL_LOCATION_PROPERTY))
    then icalproperty_new ICAL_LOCATION_PROPERTY
    else mk_icalproperty ICAL_X_PROPERTY JMAPICAL_XPROP_LOCATION val_none [] in
  (* Keep user-supplied location id *)
  let prop := xjmapid_to_ical prop id in
  (* name, rel *)
  let val := name ≫= icalvalue_new_from_string L ICAL_TEXT_VALUE in
  let prop := icalproperty_set_value prop val in
  let prop := set_icalxparam_if prop JMAPICAL_XPARAM_REL rel in
  (* description, timeZone, coordinates *)
  let prop := set_icalxparam_if prop JMAPICAL_XPARAM_DESCRIPTION
                (json_string_value (json_object_get loc "description")) in
  let prop := set_icalxparam_if prop JMAPICAL_XPARAM_TZID
                (json_string_value (json_object_get loc "timeZone")) in
  let prop := set_icalxparam_if prop JMAPICAL_XPARAM_GEO
                (json_string_value (json_object_get loc "coordinates")) in
  (* linkIds *)
  let prop :=
    fold_left (fun prop kv =>
                 set_icalxparam prop JMAPICAL_XPARAM_LINKID (fst kv) false)
              (members_of (json_object_get loc "linkIds")) prop in
  icalcomponent_add_property comp prop.

(** [locations_to_ical] *)
Definition locations_to_ical (L : library) (ctx : context_t)
    (comp : icalcomponent) (locations links : option json_t)
  : context_t * icalcomponent :=
  (* Purge existing locations *)
  let comp := remove_icalprop comp ICAL_LOCATION_PROPERTY in
  let comp := remove_icalprop comp ICAL_GEO_PROPERTY in
  let comp := remove_icalxprop comp JMAPICAL_XPROP_LOCATION in
  let comp := remove_icalxprop comp "X-APPLE-STRUCTURED-LOCATION" in
  (* Bail out if no location needs to be set *)
  if negb (JNOTNULL locations) then (ctx, comp)
  else
    (* Add locations *)
    fold_left
      (fun st kv =>
         let '(ctx, comp) := st in
         let id := fst kv in
         let ctx := beginprop_key ctx "locations" id in
         (* Validate the location id *)
         if negb (is_valid_jmapid (Some id))
         then (endprop (invalidprop ctx None), comp)
         (* Ignore end timeZone locations *)
         else if location_is_endtimezone (snd kv) then (endprop ctx, comp)
         else
           (* Validate location *)
           let '(valid, ctx) := validate_location L ctx (Some (snd kv)) links in
           if negb valid then (endprop ctx, comp)
           else
             (* Add location *)
             (endprop ctx, location_to_ical L comp id (Some (snd kv))))
      (members_of locations) (ctx, comp).

(** [virtuallocations_to_ical].  The test before the name is the one of the
    uri; [icalparameter_new_label] returns [NULL] for a [NULL] name, and a
    [NULL] parameter is not added. *)
Definition virtuallocations_to_ical (L : library) (ctx : context_t)
    (comp : icalcomponent) (locations : option json_t)
  : context_t * icalcomponent :=
  let comp := remove_icalprop comp ICAL_CONFERENCE_PROPERTY in
  if negb (JNOTNULL locations) then (ctx, comp)
  else
    fold_left
      (fun st kv =>
         let '(ctx, comp) := st in
         let id := fst kv in
         let loc := Some (snd kv) in
         let ctx := beginprop_key ctx "virtualLocations" id in
         (* Validate the location id *)
         if negb (is_valid_jmapid (Some id))
         then (endprop (invalidprop ctx None), comp)
         else
           let prop := icalproperty_new ICAL_CONFERENCE_PROPERTY in
           let prop := xjmapid_to_ical prop id in
           (* uri *)
           let juri := json_object_get loc "uri" in
           let '(ctx, prop) :=
             match json_string_value juri with
             | Some uri =>
                 (ctx, icalproperty_set_value prop
                         (icalvalue_new_from_string L ICAL_URI_VALUE uri))
             | None => (invalidprop ctx (Some "uri"), prop)
             end in
           (* name *)
           let jname := json_object_get loc "name" in
           let '(ctx, prop) :=
             if json_is_string juri then
               (ctx, match json_string_value jname with
                     | Some name => icalproperty_add_parameter prop (param_label name)
                     | None => prop
                     end)
             else (invalidprop ctx (Some "uri"), prop) in
           (* description *)
           let jdescription := json_object_get loc "description" in
           let '(ctx, prop) :=
             match json_string_value jdescription with
             | Some desc =>
                 (ctx, set_icalxparam prop JMAPICAL_XPARAM_DESCRIPTION desc false)
             | None =>
                 (if JNOTNULL jdescription
                  then invalidprop ctx (Some "description") else ctx, prop)
             end in
           (endprop ctx, icalcomponent_add_property comp prop))
      (members_of locations) (ctx, comp).

(** *** participants *)

Definition is_reqparticipant (role : icalparameter_role) : bool :=
  match role with ICAL_ROLE_REQPARTICIPANT => true | _ => false end.

(** [participant_roles_to_ical]: the context and the ATTENDEE. *)
Definition participant_roles_to_ical (ctx : context_t) (prop : icalproperty)
    (roles : option json_t) (ical_role : icalparameter_role) (is_replyto : bool)
  : context_t * icalproperty :=
  if (json_object_size roles =? 0)%nat then (invalidprop ctx (Some "roles"), prop)
  else
    let ctx :=
      fold_left (fun ctx kv =>
                   if negb (json_is_true (Some (snd kv)))
                   then endprop (invalidprop (beginprop_key ctx "roles" (fst kv))
                                             None)
                   else ctx)
                (members_of roles) ctx in
    let has_owner := json_is_true (json_object_get roles "owner") in
    let has_chair := json_is_true (json_object_get roles "chair") in
    let has_attendee := json_is_true (json_object_get roles "attendee") in
    let xroles_count := Z.of_nat (json_object_size roles) in
    (* Try to map roles to iCalendar without falling back to X-ROLE *)
    let xroles_count :=
      if has_chair && is_reqparticipant ical_role
      then xroles_count - 1 else xroles_count in
    let xroles_count :=
      if has_owner && is_replyto then xroles_count - 1 else xroles_count in
    let xroles_count :=
      if has_attendee then xroles_count - 1 else xroles_count in
    if xroles_count =? 0 then
      (* No need to set X-ROLE parameters on this ATTENDEE *)
      (ctx, if has_chair
            then icalproperty_add_parameter prop (param_role ICAL_ROLE_CHAIR)
            else prop)
    else
      (* Map roles to X-ROLE *)
      (ctx,
       fold_left (fun prop kv =>
                    (* Try to use standard CHAIR role *)
                    if strcaseeq (fst kv) "CHAIR" && is_reqparticipant ical_role
                    then icalproperty_add_parameter prop (param_role ICAL_ROLE_CHAIR)
                    else set_icalxparam prop JMAPICAL_XPARAM_ROLE (fst kv) false)
                 (members_of roles) prop).

(** The start of [participant_equals]: a participant without [sendTo] but
    with a string [email] gets the [sendTo] of that address. *)
Definition with_sendTo_of_email (jpart : json_t) : json_t :=
  if negb (JNOTNULL (json_object_get (Some jpart) "sendTo")) then
    match json_string_value (json_object_get (Some jpart) "email") with
    | Some email =>
        json_object_set_new jpart "sendTo"
          (json_object [("imip", json_string ("mailto:" ++ email))])
    | None => jpart
    end
  else jpart.

(** The copy that [participant_equals] compares: without [sendTo], without
    the members that have their default value, and without [null]
    members. *)
Definition without_defaults (L : library) (jpart : json_t) : json_t :=
  let jval := json_object_del jpart "sendTo" in
  (* Remove default values *)
  let jval :=
    if strcmpsafe L (json_string_value (json_object_get (Some jval) "name"))
                    (Some EmptyString)
    then json_object_del jval "name" else jval in
  let jval :=
    if strcmpsafe L (json_string_value
                       (json_object_get (Some jval) "participationStatus"))
                    (Some "needs-action")
    then json_object_del jval "participationStatus" else jval in
  let jval :=
    if strcmpsafe L (json_string_value (json_object_get (Some jval) "attendance"))
                    (Some "required")
    then json_object_del jval "attendance" else jval in
  let jval :=
    if negb (json_boolean_value (json_object_get (Some jval) "expectReply"))
    then json_object_del jval "expectReply" else jval in
  let jval :=
    if json_integer_value (json_object_get (Some jval) "scheduleSequence") =? 0
    then json_object_del jval "scheduleSequence" else jval in
  (* Unify JSON null to NULL *)
  fold_left (fun jval kv =>
               if json_is_null (Some (snd kv)) then json_object_del jval (fst kv)
               else jval)
            (members_of (Some jval)) jval.

(** [participant_equals].  The [sendTo] that its start sets is set in the
    participants themselves; neither is read again by the converter. *)
Definition participant_equals (L : library) (jpart1 jpart2 : json_t) : bool :=
  (* Special-case sendTo URI values *)
  let jpart1 := with_sendTo_of_email jpart1 in
  let jpart2 := with_sendTo_of_email jpart2 in
  let jsendTo1 := json_object_get (Some jpart1) "sendTo" in
  let jsendTo2 := json_object_get (Some jpart2) "sendTo" in
  if negb (json_object_size jsendTo1 =? json_object_size jsendTo2)%nat then false
  else if JNOTNULL jsendTo1
          && negb (forallb
                     (fun kv =>
                        match json_object_get jsendTo2 (fst kv) with
                        | Some juri2 =>
                            match json_string_value (Some (snd kv)),
                                  json_string_value (Some juri2) with
                            | Some uri1, Some uri2 => match_uri uri1 uri2
                            | _, _ => false
                            end
                        | None => false
                        end)
                     (members_of jsendTo1))
  then false
  else json_equal (without_defaults L jpart1) (without_defaults L jpart2).

(** The ATTENDEE under construction, the context, and the VEVENT, whose
    first ORGANIZER the C code changes through the pointer [orga]. *)
Record part_state := mk_part_state {
  ps_ctx : context_t;
  ps_prop : icalproperty;
  ps_comp : icalcomponent }.

(** A change of the property that [orga] points to. *)
Definition on_organizer (comp : icalcomponent)
    (f : icalproperty -> icalproperty) : icalcomponent :=
  mk_icalcomponent (icalcomponent_isa comp)
    (update_first (comp_props comp) ICAL_ORGANIZER_PROPERTY f)
    (comp_comps comp).

(** [icalproperty_add_parameter] on the ATTENDEE and, for the organizer,
    on the ORGANIZER as well. *)
Definition add_parameter_both (is_orga : bool) (st : part_state)
    (param : icalparameter) : part_state :=
  mk_part_state (ps_ctx st)
    (icalproperty_add_parameter (ps_prop st) param)
    (if is_orga
     then on_organizer (ps_comp st)
            (fun orga => icalproperty_add_parameter orga param)
     else ps_comp st).

Definition with_ps_ctx (st : part_state) (ctx : context_t) : part_state :=
  mk_part_state ctx (ps_prop st) (ps_comp st).

Definition with_ps_prop (st : part_state) (prop : icalproperty) : part_state :=
  mk_part_state (ps_ctx st) prop (ps_comp st).

(** A member that is invalid when it is set and not of the wanted type. *)
Definition invalid_if_set (st : part_state) (j : option json_t) (name : string)
  : part_state :=
  if JNOTNULL j then with_ps_ctx st (invalidprop (ps_ctx st) (Some name)) else st.

(** The blocks of [participant_to_ical], under the names of its
    comments. *)

(* name *)
Definition participant_name (is_orga : bool) (jpart : option json_t)
    (st : part_state) : part_state :=
  let jname := json_object_get jpart "name" in
  match json_string_value jname with
  | Some name => add_parameter_both is_orga st (param_cn name)
  | None => invalid_if_set st jname "name"
  end.

(* sendTo *)
Definition participant_sendTo (jpart : option json_t) (st : part_state)
  : part_state :=
  let sendTo := json_object_get jpart "sendTo" in
  if (0 <? json_object_size sendTo)%nat then
    let ctx := beginprop (ps_ctx st) "sendTo" in
    (* Only set RSVP URI x-params if not trivial *)
    let set_rsvp_uris :=
      if (1 <? json_object_size sendTo)%nat then true
      else
        match json_object_iter_key_first sendTo with
        | Some method => negb (streq method "imip") && negb (streq method "other")
        | None => false
        end in
    (* Process RSVP URIs *)
    let '(ctx, prop) :=
      fold_left
        (fun cp kv =>
           let '(ctx, prop) := cp in
           match json_string_value (Some (snd kv)) with
           | Some uri =>
               if negb (is_valid_rsvpmethod (Some (fst kv)))
               then (invalidprop ctx (Some (fst kv)), prop)
               else if negb set_rsvp_uris then (ctx, prop)
               else (ctx, set_icalxparam prop JMAPICAL_XPARAM_RSVP_URI
                            (fst kv ++ ":" ++ uri) false)
           | None => (invalidprop ctx (Some (fst kv)), prop)
           end)
        (members_of sendTo) (ctx, ps_prop st) in
    mk_part_state (endprop ctx) prop (ps_comp st)
  else invalid_if_set st sendTo "sendTo".

(* email *)
Definition participant_email (L : library) (is_orga : bool)
    (jpart : option json_t) (st : part_state) : part_state :=
  let jemail := json_object_get jpart "email" in
  match json_string_value jemail with
  | Some email =>
      let uri := icalproperty_get_value_as_string L (ps_prop st) in
      if negb (match_uri uri email)
      then add_parameter_both is_orga st (param_email email)
      else st
  | None => invalid_if_set st jemail "email"
  end.

(* kind *)
Definition participant_kind (L : library) (jpart : option json_t)
    (st : part_state) : part_state :=
  let kind := json_object_get jpart "kind" in
  match json_string_value kind with
  | Some k =>
      let tmp := ucase k in
      let cu := if streq tmp "LOCATION" then enum_cutype ICAL_CUTYPE_ROOM
                else icalparameter_string_to_enum L tmp in
      match cu with
      | enum_cutype cu =>
          match cu with
          | ICAL_CUTYPE_INDIVIDUAL | ICAL_CUTYPE_GROUP
          | ICAL_CUTYPE_RESOURCE | ICAL_CUTYPE_ROOM =>
              with_ps_prop st
                (icalproperty_add_parameter (ps_prop st) (param_cutype cu))
          | _ => st (* ignore *)
          end
      | _ => st (* ignore *)
      end
  | None => invalid_if_set st kind "kind"
  end.

(** The [ical_role] that the block of [attendance] computes. *)
Definition attendance_role (jpart : option json_t) : icalparameter_role :=
  match json_string_value (json_object_get jpart "attendance") with
  | Some s =>
      if strcaseeq s "required" then ICAL_ROLE_REQPARTICIPANT
      else if strcaseeq s "optional" then ICAL_ROLE_OPTPARTICIPANT
      else if strcaseeq s "none" then ICAL_ROLE_NONPARTICIPANT
      else ICAL_ROLE_REQPARTICIPANT
  | None => ICAL_ROLE_REQPARTICIPANT
  end.

(* attendance *)
Definition participant_attendance (jpart : option json_t) (st : part_state)
  : part_state :=
  let attendance := json_object_get jpart "attendance" in
  if json_is_string attendance then
    let ical_role := attendance_role jpart in
    if negb (is_reqparticipant ical_role)
    then with_ps_prop st
           (icalproperty_add_parameter (ps_prop st) (param_role ical_role))
    else st
  else invalid_if_set st attendance "attendance".

(* roles *)
Definition participant_roles (is_orga : bool) (jpart : option json_t)
    (st : part_state) : part_state :=
  let roles := json_object_get jpart "roles" in
  if (0 <? json_object_size roles)%nat then
    let '(ctx, prop) :=
      participant_roles_to_ical (ps_ctx st) (ps_prop st) roles
        (attendance_role jpart) is_orga in
    mk_part_state ctx prop (ps_comp st)
  else if is_some roles
       then with_ps_ctx st (invalidprop (ps_ctx st) (Some "roles"))
       else st.

(* locationId *)
Definition participant_locationId (jpart : option json_t) (st : part_state)
  : part_state :=
  let locationId := json_object_get jpart "locationId" in
  match json_string_value locationId with
  | Some s =>
      with_ps_prop st (set_icalxparam (ps_prop st) JMAPICAL_XPARAM_LOCATIONID s true)
  | None => invalid_if_set st locationId "locationId"
  end.

(** The [ps] that the block of [participationStatus] computes. *)
Definition participant_partstat (L : library) (jpart : option json_t)
  : icalparameter_partstat :=
  match json_string_value (json_object_get jpart "participationStatus") with
  | Some s =>
      match icalparameter_string_to_enum L (ucase s) with
      | enum_partstat ICAL_PARTSTAT_NEEDSACTION => ICAL_PARTSTAT_NEEDSACTION
      | enum_partstat ICAL_PARTSTAT_ACCEPTED => ICAL_PARTSTAT_ACCEPTED
      | enum_partstat ICAL_PARTSTAT_DECLINED => ICAL_PARTSTAT_DECLINED
      | enum_partstat ICAL_PARTSTAT_TENTATIVE => ICAL_PARTSTAT_TENTATIVE
      | _ => ICAL_PARTSTAT_NONE
      end
  | None => ICAL_PARTSTAT_NONE
  end.

Definition is_partstat_none (ps : icalparameter_partstat) : bool :=
  match ps with ICAL_PARTSTAT_NONE => true | _ => false end.

(* participationStatus *)
Definition participant_participationStatus (L : library)
    (jpart : option json_t) (st : part_state) : part_state :=
  let participationStatus := json_object_get jpart "participationStatus" in
  let ps := participant_partstat L jpart in
  let st :=
    if json_is_string participationStatus then
      if is_partstat_none ps
      then with_ps_ctx st (invalidprop (ps_ctx st) (Some "participationStatus"))
      else st
    else invalid_if_set st participationStatus "participationStatus" in
  if negb (is_partstat_none ps)
  then with_ps_prop st (icalproperty_add_parameter (ps_prop st) (param_partstat ps))
  else st.

(* expectReply *)
Definition participant_expectReply (L : library) (jpart : option json_t)
    (st : part_state) : part_state :=
  let expectReply := json_object_get jpart "expectReply" in
  if json_is_boolean expectReply then
    let prop := ps_prop st in
    let prop :=
      if json_is_true expectReply then
        let prop :=
          if is_partstat_none (participant_partstat L jpart)
          then icalproperty_add_parameter prop
                 (param_partstat ICAL_PARTSTAT_NEEDSACTION)
          else prop in
        icalproperty_add_parameter prop (param_rsvp ICAL_RSVP_TRUE)
      else icalproperty_add_parameter prop (param_rsvp ICAL_RSVP_FALSE) in
    with_ps_prop st prop
  else invalid_if_set st expectReply "expectReply".

(** The blocks of [delegatedTo], [delegatedFrom] and [memberOf], which
    differ in the name of the member and in the parameter they add. *)
Definition participant_refs (name : string) (new_param : string -> icalparameter)
    (participants : option json_t) (table : gmap string string)
    (jpart : option json_t) (st : part_state) : part_state :=
  let refs := json_object_get jpart name in
  if (0 <? json_object_size refs)%nat then
    let '(ctx, prop) :=
      fold_left
        (fun cp kv =>
           let '(ctx, prop) := cp in
           let id := fst kv in
           if is_valid_jmapid (Some id)
              && is_some (json_object_get participants id)
              && json_is_true (Some (snd kv))
           then
             match table !! id with
             | Some uri => (ctx, icalproperty_add_parameter prop (new_param uri))
             | None => (ctx, prop)
             end
           else (endprop (invalidprop (beginprop_key ctx name id) None), prop))
        (members_of refs) (ps_ctx st, ps_prop st) in
    mk_part_state ctx prop (ps_comp st)
  else invalid_if_set st refs name.

(* linkIds *)
Definition participant_linkIds (links : option json_t) (jpart : option json_t)
    (st : part_state) : part_state :=
  let linkIds := json_object_get jpart "linkIds" in
  if (0 <? json_object_size linkIds)%nat then
    let '(ctx, prop) :=
      fold_left
        (fun cp kv =>
           let '(ctx, prop) := cp in
           let id := fst kv in
           if negb (is_valid_jmapid (Some id))
              || negb (is_some (json_object_get links id))
              || negb (json_is_true (Some (snd kv)))
           then (endprop (invalidprop (beginprop_key ctx "linkIds" id) None), prop)
           else (ctx, set_icalxparam prop JMAPICAL_XPARAM_LINKID id false))
        (members_of linkIds) (ps_ctx st, ps_prop st) in
    mk_part_state ctx prop (ps_comp st)
  else invalid_if_set st linkIds "linkIds".

(* scheduleSequence *)
Definition participant_scheduleSequence (jpart : option json_t)
    (st : part_state) : part_state :=
  let scheduleSequence := json_object_get jpart "scheduleSequence" in
  if json_is_integer scheduleSequence
     && (0 <=? json_integer_value scheduleSequence)
  then with_ps_prop st
         (set_icalxparam (ps_prop st) JMAPICAL_XPARAM_SEQUENCE
            (print_int (json_integer_value scheduleSequence)) false)
  else invalid_if_set st scheduleSequence "scheduleSequence".

(* scheduleUpdated; its errors are recorded under [scheduleSequence] *)
Definition participant_scheduleUpdated (L : library) (jpart : option json_t)
    (st : part_state) : part_state :=
  let scheduleUpdated := json_object_get jpart "scheduleUpdated" in
  match json_string_value scheduleUpdated with
  | Some s =>
      match utcdate_to_icaltime L s with
      | Some dtstamp =>
          with_ps_prop st
            (set_icalxparam (ps_prop st) JMAPICAL_XPARAM_DTSTAMP
               (icaltime_as_ical_string L dtstamp) false)
      | None => with_ps_ctx st (invalidprop (ps_ctx st) (Some "scheduleSequence"))
      end
  | None => invalid_if_set st scheduleUpdated "scheduleSequence"
  end.

(** The blocks in the order of the C function. *)
Definition participant_blocks (L : library) (is_orga : bool)
    (participants links : option json_t) (table : gmap string string)
  : list (option json_t -> part_state -> part_state) :=
  [ participant_name is_orga; participant_sendTo; participant_email L is_orga;
    participant_kind L; participant_attendance; participant_roles is_orga;
    participant_locationId; participant_participationStatus L;
    participant_expectReply L;
    participant_refs "delegatedTo" (fun uri => param_delegatedto (Some uri))
                     participants table;
    participant_refs "delegatedFrom" param_delegatedfrom participants table;
    participant_refs "memberOf" param_member participants table;
    participant_linkIds links; participant_scheduleSequence;
    participant_scheduleUpdated L ].

(** [participant_to_ical]; [None] when the call does not return:
    [match_uri] reads [caladdress] and [orga_uri], and for the organizer
    [participant_from_icalorganizer] reads the value of [orga]. *)
Definition participant_to_ical (L : library) (ctx : context_t)
    (comp : icalcomponent) (id : string) (jpart : json_t)
    (participants links : option json_t) (orga_uri : option string)
    (table : gmap string string) : option (context_t * icalcomponent) :=
  caladdress ← table !! id;
  let prop := icalproperty_new_value ICAL_ATTENDEE_PROPERTY (val_text caladdress) in
  let prop := set_icalxparam prop JMAPICAL_XPARAM_ID id true in
  orga_uri ← orga_uri;
  let is_orga := match_uri caladdress orga_uri in
  let comp :=
    if is_orga
    then on_organizer comp (fun orga => set_icalxparam orga JMAPICAL_XPARAM_ID id true)
    else comp in
  let st := fold_left (fun st block => block (Some jpart) st)
                      (participant_blocks L is_orga participants links table)
                      (mk_part_state ctx prop comp) in
  if is_orga then
    (* We might get away by not creating an ATTENDEE, if the participant is
       owner of the event and all its JSCalendar properties can be mapped
       to the ORGANIZER property. *)
    orga ← icalcomponent_get_first_property (ps_comp st) ICAL_ORGANIZER_PROPERTY;
    let jorga := participant_from_icalorganizer L orga in
    if participant_equals L jorga jpart then Some (ps_ctx st, ps_comp st)
    else Some (ps_ctx st, icalcomponent_add_property (ps_comp st) (ps_prop st))
  else Some (ps_ctx st, icalcomponent_add_property (ps_comp st) (ps_prop st)).

End Parts.

(** The sub-converters as [calendarevent_to_ical] calls them. *)
Definition source_to_ical_parts (L : library) : to_ical_parts :=
  mk_to_ical_parts
    (fun ctx comp relatedTo =>
       Some (Parts.relatedto_to_ical ctx comp (Some relatedTo)))
    (fun ctx comp desc content_type =>
       Some (Parts.description_to_ical ctx comp desc content_type))
    (fun ctx comp links propname =>
       Some (Parts.links_to_ical L ctx comp (Some links) propname))
    (fun ctx comp locations links =>
       Some (Parts.locations_to_ical L ctx comp (Some locations) links))
    (fun ctx comp locations =>
       Some (Parts.virtuallocations_to_ical L ctx comp (Some locations)))
    (fun ctx comp alerts => Parts.alerts_to_ical L ctx comp (Some alerts))
    (Parts.participant_to_ical L).

(* ===================================================================== *)
(** ** A sample instance of the collaborators *)
(* ===================================================================== *)

(** The concrete scenarios below need some instance of [library],
    [from_ical_parts] and [to_ical_parts]; these are the simplest ones.
    The general theorems do not depend on them. *)
Definition sample_time : icaltimetype :=
  mk_icaltime 2021 1 1 10 0 0 false (Some utc_timezone).

(** The sample library, for a given answer of libical on recurrence
    rules. *)
Definition sample_library_with (has_freq : string -> bool) : library :=
  {| sha1_hex := fun s => s;
     address_canonicalise := fun s => Some s;
     parsenum := fun _ => None;
     icalvalue_as_ical_string := fun _ => EmptyString;
     icalproperty_as_ical_string := fun _ => EmptyString;
     icalcomponent_as_ical_string := fun _ => EmptyString;
     icaltime_from_string := fun _ => sample_time;
     icaltime_as_timet := fun _ => 0;
     time_to_rfc3339 := fun _ => Some "1970-01-01T00:00:00Z";
     icaltime_is_valid_time := fun t => negb (icaltime_is_null_time t);
     icaltime_convert_to_zone := fun t z => with_zone t z;
     icaltime_subtract := fun _ _ => icaldurationtype_null_duration;
     icaltime_add := fun t _ => t;
     icaldurationtype_as_ical_string_r := fun _ => "PT0S";
     icaltime_as_ical_string := fun _ => EmptyString;
     icaldurationtype_from_string := fun _ => icaldurationtype_null_duration;
     icaltimezone_get_builtin_timezone := fun s => Some (builtin_timezone s);
     icaltimezone_get_location :=
       fun z => match z with
                | utc_timezone => "UTC"
                | builtin_timezone l => l
                end;
     icalcomponent_get_dtend := fun _ => icaltime_null_time;
     strptime_localdate :=
       fun s => if (strlen s =? 19)%nat then Some (mk_tm 0 0 9 15 2 121) else None;
     strftime_ical := fun _ => EmptyString;
     jmap_patchobject_apply := fun base patch => Some (json_object_update base patch);
     icalcomponent_add_required_timezones := fun c => c;
     icaltime_current_time_utc := sample_time;
     icaltime_from_time_now := sample_time;
     CYRUS_VERSION := "3";
     icalenum_string_to_method := fun s => ICAL_METHOD s;
     icalrecur_is_weekday := fun _ => true;
     icalrecur_has_freq := has_freq;
     sscanf_month := fun _ => (0, 0, zero);
     strcmpsafe :=
       fun a b => streq (match a with Some a => a | None => EmptyString end)
                        (match b with Some b => b | None => EmptyString end);
     icalparameter_string_to_enum :=
       fun s =>
         if streq s "INDIVIDUAL" then enum_cutype ICAL_CUTYPE_INDIVIDUAL
         else if streq s "GROUP" then enum_cutype ICAL_CUTYPE_GROUP
         else if streq s "RESOURCE" then enum_cutype ICAL_CUTYPE_RESOURCE
         else if streq s "ROOM" then enum_cutype ICAL_CUTYPE_ROOM
         else if streq s "NEEDS-ACTION" then enum_partstat ICAL_PARTSTAT_NEEDSACTION
         else if streq s "ACCEPTED" then enum_partstat ICAL_PARTSTAT_ACCEPTED
         else if streq s "DECLINED" then enum_partstat ICAL_PARTSTAT_DECLINED
         else if streq s "TENTATIVE" then enum_partstat ICAL_PARTSTAT_TENTATIVE
         else enum_other;
     icalvalue_new_from_string :=
       fun k s => Some match k with
                       | ICAL_TEXT_VALUE => val_text s
                       | ICAL_URI_VALUE => val_uri s
                       end;
     httpd_userid := Some "user";
     calendar_user_address_set := None |}.

(** libical accepts every recurrence rule. *)
Definition sample_library : library := sample_library_with (fun _ => true).

(** libical rejects every recurrence rule. *)
Definition strict_library : library := sample_library_with (fun _ => false).

Definition sample_from_ical_parts : from_ical_parts :=
  {| relatedto_from_ical := fun _ _ => json_null;
     keywords_from_ical := fun _ _ => json_null;
     links_from_ical := fun _ _ => json_null;
     locale_from_ical := fun _ _ => json_null;
     locations_from_ical := fun _ _ => (json_null, json_object []);
     virtuallocations_from_ical := fun _ _ => json_null;
     duration_from_ical := fun _ => json_string "PT0S";
     recurrence_from_ical := fun _ _ => json_null;
     overrides_from_ical := fun _ _ _ => json_null |}.

Definition sample_to_ical_parts : to_ical_parts :=
  {| relatedto_to_ical := fun ctx comp _ => Some (ctx, comp);
     description_to_ical := fun ctx comp _ _ => Some (ctx, comp);
     links_to_ical := fun ctx comp _ _ => Some (ctx, comp);
     locations_to_ical := fun ctx comp _ _ => Some (ctx, comp);
     virtuallocations_to_ical := fun ctx comp _ => Some (ctx, comp);
     alerts_to_ical := fun ctx comp _ => Some (ctx, comp);
     participant_to_ical :=
       fun ctx comp id _ _ _ _ table =>
         match table !! id with
         | Some caladdress =>
             Some (ctx, icalcomponent_add_property comp
                          (set_icalxparam
                             (icalproperty_new_value ICAL_ATTENDEE_PROPERTY
                                (val_text caladdress))
                             JMAPICAL_XPARAM_ID id true))
         | None => None
         end |}.

(* ===================================================================== *)
(** * Sample inputs and the vocabulary of the statements *)
(* ===================================================================== *)

(** The TRIGGER of the alarm has a RELATED parameter that is neither START
    nor END. *)
Definition trigger_related_unsupported (alarm : icalcomponent) : bool :=
  match icalcomponent_get_first_property alarm ICAL_TRIGGER_PROPERTY with
  | Some prop =>
      match icalproperty_get_first_parameter prop ICAL_RELATED_PARAMETER with
      | Some (param_related ICAL_RELATED_START)
      | Some (param_related ICAL_RELATED_END) => false
      | Some (param_related _) => true
      | _ => false
      end
  | None => false
  end.

(** The first loop of [alerts_from_ical] does not file the alarm as a
    snooze. *)
Definition not_a_snooze (L : library) (alarm : icalcomponent) : Prop :=
  classify_alarm L alarm = Some alarm_regular
  \/ classify_alarm L alarm = Some alarm_ignored.

(** A VEVENT with a display alarm at the start and an alarm whose TRIGGER
    is RELATED to something libical does not know. *)
Definition valarm_display : icalcomponent :=
  mk_icalcomponent ICAL_VALARM_COMPONENT
    [ mk_icalproperty ICAL_UID_PROPERTY EmptyString (val_text "a1") [];
      mk_icalproperty ICAL_ACTION_PROPERTY EmptyString (val_text "DISPLAY") [];
      mk_icalproperty ICAL_TRIGGER_PROPERTY EmptyString
        (val_trigger (mk_icaltrigger icaltime_null_time
                        (mk_icalduration 1 0 0 0 15 0)))
        [param_related ICAL_RELATED_START] ] [].

Definition valarm_related_x : icalcomponent :=
  mk_icalcomponent ICAL_VALARM_COMPONENT
    [ mk_icalproperty ICAL_UID_PROPERTY EmptyString (val_text "a2") [];
      mk_icalproperty ICAL_ACTION_PROPERTY EmptyString (val_text "DISPLAY") [];
      mk_icalproperty ICAL_TRIGGER_PROPERTY EmptyString
        (val_trigger (mk_icaltrigger icaltime_null_time
                        (mk_icalduration 1 0 0 0 5 0)))
        [param_related ICAL_RELATED_X] ] [].

(** [name], below the current path of [ctx], is recorded as invalid. *)
Definition invalid_at (ctx : context_t) (name : string) : bool :=
  match encodeprop ctx (Some name) with
  | Some path => is_some (members_get (invalid ctx) path)
  | None => false
  end.

(** Three attendees: A delegates to B, B delegates to C, C has accepted. *)
Definition attendee (uri id : string) (partstat : icalparameter_partstat)
    (delegated_to delegated_from : list string) : icalproperty :=
  mk_icalproperty ICAL_ATTENDEE_PROPERTY EmptyString (val_text uri)
    ([param_x JMAPICAL_XPARAM_ID id; param_partstat partstat]
     ++ map (fun t => param_delegatedto (Some t)) delegated_to
     ++ map param_delegatedfrom delegated_from).

Definition delegation_chain : icalcomponent :=
  mk_icalcomponent ICAL_VEVENT_COMPONENT
    [ mk_icalproperty ICAL_UID_PROPERTY EmptyString (val_text "u1") [];
      attendee "mailto:a@example.com" "A" ICAL_PARTSTAT_DELEGATED
               ["mailto:b@example.com"] [];
      attendee "mailto:b@example.com" "B" ICAL_PARTSTAT_DELEGATED
               ["mailto:c@example.com"] ["mailto:a@example.com"];
      attendee "mailto:c@example.com" "C" ICAL_PARTSTAT_ACCEPTED
               [] ["mailto:b@example.com"] ] [].

Definition participation_status (participants : json_t) (id : string)
  : option json_t :=
  json_object_get (json_object_get (Some participants) id) "participationStatus".

(** A VCALENDAR with two main VEVENTs. *)
Definition vevent_first : icalcomponent :=
  mk_icalcomponent ICAL_VEVENT_COMPONENT
    [ mk_icalproperty ICAL_UID_PROPERTY EmptyString (val_text "first") [] ] [].

Definition vevent_second : icalcomponent :=
  mk_icalcomponent ICAL_VEVENT_COMPONENT
    [ mk_icalproperty ICAL_UID_PROPERTY EmptyString (val_text "second") [] ] [].

Definition two_main_vevents : icalcomponent :=
  mk_icalcomponent ICAL_VCALENDAR_COMPONENT [] [vevent_first; vevent_second].

(** A participant that can only be reached by [sendTo.other]. *)
Definition sendTo_other (uri : string) : json_t :=
  json_object [("sendTo", json_object [("other", json_string uri)])].

(** An event with an organizer and that participant. *)
Definition event_sendTo_other (uri : string) : json_t :=
  json_object
    [ ("replyTo", json_object [("imip", json_string "mailto:o@example.com")]);
      ("participants", json_object [("p1", sendTo_other uri)]) ].

(** A rule whose third [bySetPosition] is out of range. *)
Definition rule_bySetPosition : json_t :=
  json_object [ ("frequency", json_string "daily");
                ("bySetPosition",
                 json_array [json_integer 1; json_integer 2; json_integer 99]) ].

(** The same for [byHour]. *)
Definition rule_byHour : json_t :=
  json_object [ ("frequency", json_string "daily");
                ("byHour",
                 json_array [json_integer 1; json_integer 2; json_integer 99]) ].

(** The element passes the check of [recurrence_byX_to_ical]: a JSON
    integer whose value as the C [int] that [json_unpack] stores (the
    64-bit value truncated to 32 bits, [int_of_json_int]) lies between the
    bounds and is not zero unless zero is allowed.  An integer outside the
    range of [int] is judged by its truncation. *)
Definition byX_accepts (lower upper : Z) (allowZero : bool) (j : json_t) : bool :=
  match j with
  | json_integer v =>
      let val := int_of_json_int v in
      (allowZero || negb (val =? 0)) && (lower <=? val) && (val <=? upper)
  | _ => false
  end.

(** The path recorded for the element at index [i] of the field. *)
Definition byX_path (ctx : context_t) (fieldName : string) (i : nat) : string :=
  join_path (propstr ctx ++ [encode_segment fieldName ++ "/" ++ print_size_t i]).

(** An event with the mandatory members, and [extra] ones. *)
Definition base_event (extra : list (string * json_t)) : json_t :=
  json_object
    ([ ("uid", json_string "u1");
       ("isAllDay", json_false);
       ("timeZone", json_null);
       ("start", json_string "2021-03-15T09:00:00");
       ("title", json_string "t") ] ++ extra)%list.

Definition event_priority (v : Z) : json_t :=
  base_event [("priority", json_integer v)].

(** An event that passes [created], [updated] and [sequence]. *)
Definition event_stamps : json_t :=
  base_event [ ("created", json_string "2001-02-03T04:05:06Z");
               ("updated", json_string "2002-03-04T05:06:07Z");
               ("sequence", json_integer 7) ].

(** An event that passes [created], [updated] and [sequence], with a
    recurrence override that passes a [sequence] as well. *)
Definition event_stamps_override : json_t :=
  base_event [ ("created", json_string "2001-02-03T04:05:06Z");
               ("updated", json_string "2002-03-04T05:06:07Z");
               ("sequence", json_integer 7);
               ("recurrenceOverrides",
                json_object [("2021-03-22T09:00:00",
                              json_object [("title", json_string "x");
                                           ("sequence", json_integer 9)])]) ].

(** An event with a recurrence rule. *)
Definition event_rule : json_t :=
  base_event [("recurrenceRule",
               json_object [("frequency", json_string "daily")])].

(** An event with one recurrence override. *)
Definition event_override (patch : json_t) : json_t :=
  base_event [("recurrenceOverrides",
               json_object [("2021-03-22T09:00:00", patch)])].

Definition patch_title : json_t := json_object [("title", json_string "x")].

Definition patch_title_uid : json_t :=
  json_object [("title", json_string "x"); ("uid", json_string "y")].

(** An event without the mandatory members, with two members that are
    refused. *)
Definition event_invalid : json_t :=
  json_object [ ("uid", json_string "u1"); ("excluded", json_true);
                ("@type", json_string "x") ].

(** A VCALENDAR whose VEVENT has an ORGANIZER and no ATTENDEE. *)
Definition organizer_only : icalcomponent :=
  mk_icalcomponent ICAL_VCALENDAR_COMPONENT []
    [ mk_icalcomponent ICAL_VEVENT_COMPONENT
        [ mk_icalproperty ICAL_UID_PROPERTY EmptyString (val_text "u1") [];
          mk_icalproperty ICAL_ORGANIZER_PROPERTY EmptyString
                          (val_text "mailto:o@example.com") [] ]
        [] ].

(** The SUMMARY values of the VEVENTs of a VCALENDAR. *)
Definition summaries (tree : icalcomponent) : list (list icalvalue) :=
  map (fun c => map prop_value (props_of_kind c ICAL_SUMMARY_PROPERTY))
      (comps_of_kind tree ICAL_VEVENT_COMPONENT).

(** The PRIORITY values of the VEVENTs of a VCALENDAR. *)
Definition priorities (tree : icalcomponent) : list (list icalvalue) :=
  map (fun c => map prop_value (props_of_kind c ICAL_PRIORITY_PROPERTY))
      (comps_of_kind tree ICAL_VEVENT_COMPONENT).


(** The patch has one of the keys that make [overrides_to_ical] ignore
    it. *)
Definition has_forbidden_key (override : json_t) : bool :=
  existsb (fun kv => is_forbidden_patch_key (fst kv)) (members_of (Some override)).

(** CREATED, DTSTAMP and SEQUENCE. *)
Definition is_stamp_kind (k : icalproperty_kind) : bool :=
  match k with
  | ICAL_CREATED_PROPERTY | ICAL_DTSTAMP_PROPERTY | ICAL_SEQUENCE_PROPERTY => true
  | _ => false
  end.

Definition stamps (c : icalcomponent) : list icalproperty :=
  List.filter (fun p => is_stamp_kind (prop_kind p)) (comp_props c).

(** The sub-converters leave CREATED, DTSTAMP and SEQUENCE alone. *)
Record keeps_stamps (S : to_ical_parts) : Prop := mk_keeps_stamps {
  ks_description : forall ctx comp desc ct ctx' comp',
    description_to_ical S ctx comp desc ct = Some (ctx', comp') ->
    stamps comp' = stamps comp;
  ks_links : forall ctx comp links name ctx' comp',
    links_to_ical S ctx comp links name = Some (ctx', comp') ->
    stamps comp' = stamps comp;
  ks_locations : forall ctx comp locations links ctx' comp',
    locations_to_ical S ctx comp locations links = Some (ctx', comp') ->
    stamps comp' = stamps comp;
  ks_virtuallocations : forall ctx comp locations ctx' comp',
    virtuallocations_to_ical S ctx comp locations = Some (ctx', comp') ->
    stamps comp' = stamps comp;
  ks_alerts : forall ctx comp alerts ctx' comp',
    alerts_to_ical S ctx comp alerts = Some (ctx', comp') ->
    stamps comp' = stamps comp;
  ks_participant : forall ctx comp id jpart participants links orga_uri table ctx' comp',
    participant_to_ical S ctx comp id jpart participants links orga_uri table
      = Some (ctx', comp') ->
    stamps comp' = stamps comp }.

(** A block leaves CREATED, DTSTAMP and SEQUENCE alone. *)
Definition block_keeps_stamps (b : json_t -> wstate -> option wstate) : Prop :=
  forall event st st', b event st = Some st' ->
                       stamps (w_comp st') = stamps (w_comp st).

(** The VEVENT carries one CREATED and one DTSTAMP, both with the current
    time in UTC, and its SEQUENCE is 0. *)
Definition stamped (L : library) (comp : icalcomponent) : Prop :=
  map prop_value (props_of_kind comp ICAL_CREATED_PROPERTY)
    = [val_datetime (icaltime_current_time_utc L)]
  /\ map prop_value (props_of_kind comp ICAL_DTSTAMP_PROPERTY)
     = [val_datetime (icaltime_current_time_utc L)]
  /\ icalcomponent_get_sequence comp = 0.

(** Every component of the parent VCALENDAR carries the three
    properties. *)
Definition exceptions_stamped (L : library) (ical : option icalcomponent) : Prop :=
  match ical with
  | Some i => Forall (stamped L) (comp_comps i)
  | None => True
  end.

(** The conversion that runs on exceptions returns VEVENTs that carry the
    three properties. *)
Definition stamps_converter (L : library)
    (convert : context_t -> icalcomponent -> json_t ->
               option (context_t * icalcomponent)) : Prop :=
  forall toctx excomp ex toctx' excomp',
    convert toctx excomp ex = Some (toctx', excomp') -> stamped L excomp'.

(** A block keeps this property of the parent VCALENDAR. *)
Definition block_keeps_exceptions (L : library)
    (b : json_t -> wstate -> option wstate) : Prop :=
  forall event st st', b event st = Some st' ->
                       exceptions_stamped L (w_ical st) ->
                       exceptions_stamped L (w_ical st').

Definition of_kind (k : icalproperty_kind) (o : option icalproperty) : Prop :=
  match o with Some p => prop_kind p = k | None => True end.

(** The state of the loop of [overrides_to_ical] before its first turn, for
    a VEVENT without exceptions. *)
Definition sample_overrides_state : overrides_state :=
  mk_overrides_state (context_new None None JMAPICAL_WRITE_MODE) None
                     (icalcomponent_new ICAL_VEVENT_COMPONENT) ∅.

(** ** Further sample inputs and vocabulary *)

(** The values of a [byX] array as [recurrence_byX_to_ical] prints them
    from index [k] on: with a comma before every element but the one at
    index 0. *)
Fixpoint byX_print (conv : string -> Z -> string) (k : nat) (items : list json_t)
    (buf : string) : string :=
  match items with
  | [] => buf
  | j :: r =>
      byX_print conv (Datatypes.S k) r
        (conv (if (0 <? k)%nat then buf ++ "," else buf)
              (int_of_json_int (json_integer_value (Some j))))
  end.

Definition sample_byHour : list json_t :=
  [json_integer 8; json_integer 12; json_integer 99; json_integer 17].


(** A VCALENDAR whose only VEVENT is an exception: it has a RECURRENCE-ID. *)
Definition vevent_exception : icalcomponent :=
  mk_icalcomponent ICAL_VEVENT_COMPONENT
    [ mk_icalproperty ICAL_UID_PROPERTY EmptyString (val_text "exc") [];
      mk_icalproperty ICAL_RECURRENCEID_PROPERTY EmptyString
        (val_datetime sample_time) [] ] [].

Definition only_exception : icalcomponent :=
  mk_icalcomponent ICAL_VCALENDAR_COMPONENT [] [vevent_exception].

(** An attendee that delegated to [to], which libical may give as [NULL]. *)
Definition delegator (to : option string) : icalproperty :=
  mk_icalproperty ICAL_ATTENDEE_PROPERTY EmptyString (val_text "mailto:a@example.com")
    [param_partstat ICAL_PARTSTAT_DELEGATED; param_delegatedto to].


(** The [relation] member for a list of relation types. *)
Definition relation_of (reltypes : list string) : json_t :=
  match reltypes with
  | [] => json_null
  | _ => json_object (map (fun r => (r, json_true)) reltypes)
  end.

(** The [relatedTo] object that relates the event to each uid by the
    relation types listed with it. *)
Definition relatedTo_of (entries : list (string * list string)) : json_t :=
  json_object
    (map (fun e => (fst e, json_object [("relation", relation_of (snd e))]))
         entries).

(** The keywords of an object: the members whose value is [true]. *)
Definition true_members (m : list (string * json_t)) : list (string * json_t) :=
  List.filter (fun kv => json_is_true (Some (snd kv))) m.

Definition has_text (s : string) : bool := (0 <? strlen s)%nat.


(** The RELATED-TO property that [relatedto_to_ical] writes for an entry. *)
Definition related_prop (e : string * list string) : icalproperty :=
  mk_icalproperty ICAL_RELATEDTO_PROPERTY EmptyString (val_text (fst e))
    (map (fun r => param_reltype (Some (ucase r))) (snd e)).

(** The path recorded for a keyword that is not [true]. *)
Definition keyword_path (ctx : context_t) (key : string) : string :=
  join_path (propstr ctx ++ [encode_segment "keywords"; encode_segment key]).

(* ===================================================================== *)
(** * Properties *)
(* ===================================================================== *)

(** ** The property-path tracker *)

Lemma strarray_pop_push (a : list string) (s : string) :
  strarray_pop (strarray_push a s) = a.
Proof. unfold strarray_pop, strarray_push. apply removelast_last. Qed.

Lemma endprop_beginprop_key (ctx : context_t) (name key : string) :
  endprop (beginprop_key ctx name key) = ctx.
Proof.
  destruct ctx. unfold endprop, beginprop_key, set_propstr. simpl.
  now rewrite strarray_pop_push.
Qed.

Lemma endprop_beginprop_idx (ctx : context_t) (name : string) (i : nat) :
  endprop (beginprop_idx ctx name i) = ctx.
Proof.
  destruct ctx. unfold endprop, beginprop_idx, set_propstr. simpl.
  now rewrite strarray_pop_push.
Qed.

Lemma endprop_beginprop (ctx : context_t) (name : string) :
  endprop (beginprop ctx name) = ctx.
Proof.
  destruct ctx. unfold endprop, beginprop, set_propstr. simpl.
  now rewrite strarray_pop_push.
Qed.

Lemma invalid_beginprop_key (ctx : context_t) (name key : string) :
  invalid (beginprop_key ctx name key) = invalid ctx.
Proof. reflexivity. Qed.

Lemma invalid_endprop (ctx : context_t) : invalid (endprop ctx) = invalid ctx.
Proof. reflexivity. Qed.

(** [ptrarray_pop] hands out the entries last to first: popping until the
    array is empty enumerates [rev a]. *)
Lemma ptrarray_pop_rev {A} (a : list A) :
  match ptrarray_pop a with
  | Some (x, a') => rev a = x :: rev a'
  | None => a = []
  end.
Proof.
  unfold ptrarray_pop. destruct (rev a) as [|x r] eqn:E.
  - apply (f_equal (@rev A)) in E. now rewrite rev_involutive in E.
  - now rewrite rev_involutive.
Qed.

(** ** Alerts (iCalendar to JSCalendar) *)

Section Alerts_properties.
Context (L : library).

(** The turn of the second loop for such an alarm changes nothing. *)
Lemma alert_from_alarm_unsupported comp snoozes st alarm :
  trigger_related_unsupported alarm = true ->
  alert_from_alarm L comp snoozes st alarm = st.
Proof.
  intros H. destruct st as [ctx alerts].
  unfold trigger_related_unsupported in H. unfold alert_from_alarm.
  destruct (icalcomponent_get_first_property alarm ICAL_TRIGGER_PROPERTY) as [prop|];
    [|discriminate].
  destruct (icalproperty_get_first_parameter prop ICAL_RELATED_PARAMETER) as [param|];
    [|discriminate].
  destruct param as [ | | | | | | | | |r| | | | | | | ]; try discriminate.
  destruct r; try discriminate; rewrite endprop_beginprop_key; reflexivity.
Qed.

(** No turn of the second loop touches the invalid-property map. *)
Lemma alert_from_alarm_invalid comp snoozes st alarm :
  invalid (fst (alert_from_alarm L comp snoozes st alarm)) = invalid (fst st).
Proof.
  destruct st as [ctx alerts]. unfold alert_from_alarm.
  match goal with
  | |- context [if ?b then (endprop _, _) else _] => destruct b
  end; reflexivity.
Qed.

Lemma alerts_of_alarms_invalid comp snoozes alarms : forall st,
  invalid (fst (fold_left (alert_from_alarm L comp snoozes) alarms st))
  = invalid (fst st).
Proof.
  induction alarms as [|a rest IH]; intros st; simpl; [reflexivity|].
  rewrite IH. apply alert_from_alarm_invalid.
Qed.

Lemma split_alarms_acc valarms : forall alarms snoozes,
  split_alarms L valarms alarms snoozes =
  (fun r : list icalcomponent * gmap string icalcomponent =>
     ((alarms ++ fst r)%list, snd r)) <$> split_alarms L valarms [] snoozes.
Proof.
  induction valarms as [|a rest IH]; intros alarms snoozes; simpl.
  - now rewrite app_nil_r.
  - destruct (classify_alarm L a) as [c|]; simpl; [|reflexivity].
    destruct c.
    + apply IH.
    + rewrite IH. rewrite (IH (ptrarray_push [] a)).
      destruct (split_alarms L rest [] snoozes) as [[x y]|]; simpl; [|reflexivity].
      unfold ptrarray_push. simpl. now rewrite <- app_assoc.
    + apply IH.
Qed.

Lemma split_alarms_app l1 : forall l2 alarms snoozes,
  split_alarms L (l1 ++ l2) alarms snoozes =
  split_alarms L l1 alarms snoozes ≫= (fun r => split_alarms L l2 (fst r) (snd r)).
Proof.
  induction l1 as [|a rest IH]; intros l2 alarms snoozes; simpl.
  - reflexivity.
  - destruct (classify_alarm L a) as [c|]; simpl; [|reflexivity].
    destruct c; apply IH.
Qed.

(** C10.  A VALARM that is not a snooze and whose TRIGGER has a RELATED
    parameter other than START and END is skipped silently:
    [alerts_from_ical] returns the same alerts, and leaves the same
    context, as for the VEVENT without that VALARM; and the call never
    changes the invalid-property map. *)
Theorem alerts_from_ical_skips_unsupported_related
    (ctx : context_t) (kind : icalcomponent_kind) (props : list icalproperty)
    (before after : list icalcomponent) (alarm : icalcomponent) :
  icalcomponent_isa alarm = ICAL_VALARM_COMPONENT ->
  not_a_snooze L alarm ->
  trigger_related_unsupported alarm = true ->
  alerts_from_ical L ctx (mk_icalcomponent kind props (before ++ alarm :: after)%list)
  = alerts_from_ical L ctx (mk_icalcomponent kind props (before ++ after)%list)
  /\ forall ctx' alerts,
       alerts_from_ical L ctx (mk_icalcomponent kind props (before ++ alarm :: after)%list)
       = Some (ctx', alerts) ->
       invalid ctx' = invalid ctx.
Proof.
  intros Hkind Hclass Hrel. split.
  - unfold alerts_from_ical, comps_of_kind. simpl comp_comps.
    rewrite !List.filter_app. simpl List.filter. rewrite Hkind. simpl.
    rewrite !split_alarms_app.
    destruct (split_alarms L _ [] ∅) as [[a1 s1]|]; simpl; [|reflexivity].
    destruct Hclass as [Hclass|Hclass]; rewrite Hclass; simpl; [|reflexivity].
    rewrite (split_alarms_acc _ (ptrarray_push a1 alarm)), (split_alarms_acc _ a1).
    destruct (split_alarms L _ [] s1) as [[a2 s2]|]; simpl; [|reflexivity].
    unfold alerts_of_alarms, ptrarray_push.
    rewrite <- app_assoc. simpl. rewrite !rev_app_distr. simpl.
    rewrite <- app_assoc. simpl. rewrite !fold_left_app. simpl.
    rewrite (alert_from_alarm_unsupported _ _ _ alarm Hrel).
    reflexivity.
  - intros ctx' alerts. unfold alerts_from_ical.
    destruct (split_alarms L _ [] ∅) as [[alarms snoozes]|]; simpl; [|discriminate].
    unfold alerts_of_alarms.
    pose proof (alerts_of_alarms_invalid
                  (mk_icalcomponent kind props (before ++ alarm :: after)%list)
                  snoozes (rev alarms) (ctx, [])) as Hinv.
    destruct (fold_left _ (rev alarms) (ctx, [])) as [c a]. simpl in Hinv.
    intros [= <- _]. exact Hinv.
Qed.

End Alerts_properties.

(** A use of C10: with [valarm_related_x] next to [valarm_display], the
    alerts are those of [valarm_display] alone. *)
Lemma alerts_from_ical_skips_unsupported_related_witness :
  (alerts_from_ical sample_library (context_new None None JMAPICAL_READ_MODE)
     (mk_icalcomponent ICAL_VEVENT_COMPONENT []
        ([valarm_display] ++ valarm_related_x :: [])%list)
   = alerts_from_ical sample_library (context_new None None JMAPICAL_READ_MODE)
       (mk_icalcomponent ICAL_VEVENT_COMPONENT [] ([valarm_display] ++ [])%list))
  /\ (forall ctx' alerts,
        alerts_from_ical sample_library (context_new None None JMAPICAL_READ_MODE)
          (mk_icalcomponent ICAL_VEVENT_COMPONENT []
             ([valarm_display] ++ valarm_related_x :: [])%list)
        = Some (ctx', alerts) ->
        invalid ctx' = invalid (context_new None None JMAPICAL_READ_MODE)).
Proof.
  apply (alerts_from_ical_skips_unsupported_related sample_library
           (context_new None None JMAPICAL_READ_MODE) ICAL_VEVENT_COMPONENT []
           [valarm_display] [] valarm_related_x).
  - reflexivity.
  - left. reflexivity.
  - reflexivity.
Defined.

(** ** JSON objects *)

Lemma members_get_set_eq m k v : members_get (members_set m k v) k = Some v.
Proof.
  induction m as [|[k' w] r IH]; simpl.
  - now rewrite String.eqb_refl.
  - destruct (String.eqb k' k) eqn:E; simpl; rewrite E; [reflexivity|exact IH].
Qed.

Lemma members_get_set_ne m k v k' :
  k <> k' -> members_get (members_set m k v) k' = members_get m k'.
Proof.
  intros Hne. induction m as [|[k0 w] r IH]; simpl.
  - destruct (String.eqb_spec k k'); [contradiction|reflexivity].
  - destruct (String.eqb_spec k0 k) as [->|Hk]; simpl.
    + destruct (String.eqb_spec k k'); [contradiction|reflexivity].
    + destruct (String.eqb k0 k'); [reflexivity|exact IH].
Qed.

Lemma members_set_not_nil m k v : members_set m k v <> [].
Proof.
  destruct m as [|[k' w] r]; simpl; [discriminate|].
  destruct (String.eqb k' k); discriminate.
Qed.

Lemma members_get_set_some m k v k' :
  is_some (members_get m k') = true ->
  is_some (members_get (members_set m k v) k') = true.
Proof.
  intros H. destruct (String.eqb_spec k k') as [->|Hne].
  - now rewrite members_get_set_eq.
  - now rewrite members_get_set_ne.
Qed.

(** The keys of an object after [members_set]: a new key goes last, a known
    key keeps its place. *)
Lemma members_set_keys m k v :
  map fst (members_set m k v)
  = if is_some (members_get m k) then map fst m else (map fst m ++ [k])%list.
Proof.
  induction m as [|[k' w] r IH]; simpl; [reflexivity|].
  destruct (String.eqb_spec k' k) as [->|Hne]; simpl; [reflexivity|].
  rewrite IH. now destruct (is_some (members_get r k)).
Qed.

Lemma invalid_at_invalidprop ctx name :
  invalid_at (invalidprop ctx (Some name)) name = true.
Proof.
  unfold invalid_at, invalidprop, encodeprop. simpl.
  now rewrite members_get_set_eq.
Qed.

Lemma invalid_at_invalidprop_keeps ctx name other :
  invalid_at ctx name = true ->
  invalid_at (invalidprop ctx other) name = true.
Proof.
  unfold invalid_at, invalidprop. intros H.
  destruct (encodeprop ctx other) as [p|]; [|exact H].
  unfold encodeprop in *. simpl in *. now apply members_get_set_some.
Qed.

(** ** Participants (iCalendar to JSCalendar) *)

Section Participants_properties.
Context (L : library).

(** Once the loop has followed one DELEGATED-TO, every further turn reads
    the DELEGATED-TO of the attendee it started from, not that of the
    delegate it arrived at: when the delegate's PARTSTAT is DELEGATED too,
    the loop comes back to the same delegate until [depth] exceeds 64. *)
Lemma partstat_loop_rereads_delegator
    (prop delegate : icalproperty) (attendee_by_uri : gmap string icalproperty)
    (to : string) (fuel : nat) : forall depth : Z,
  icalproperty_get_first_parameter prop ICAL_DELEGATEDTO_PARAMETER
    = Some (param_delegatedto (Some to)) ->
  attendee_by_uri !! normalized_uri to = Some delegate ->
  icalproperty_get_first_parameter delegate ICAL_PARTSTAT_PARAMETER
    = Some (param_partstat ICAL_PARTSTAT_DELEGATED) ->
  (Z.to_nat (65 - depth) <= fuel)%nat -> (depth <= 64)%Z ->
  partstat_loop fuel prop delegate attendee_by_uri depth = Some (Some "none").
Proof.
  induction fuel as [|fuel IH]; intros depth Hto Hlook Hps Hfuel Hdepth.
  - lia.
  - simpl. rewrite Hps, Hto, Hlook.
    destruct (depth + 1 >? 64)%Z eqn:E; [reflexivity|].
    apply IH; auto; lia.
Qed.

Lemma rsvpto_from_ical_not_null prop :
  JNOTNULL (Some (rsvpto_from_ical L prop)) = true.
Proof.
  unfold rsvpto_from_ical.
  set (rsvpTo := fold_left rsvpto_add_uri _ []).
  set (defined := existsb _ rsvpTo).
  destruct defined eqn:E.
  - destruct rsvpTo; [discriminate E|reflexivity].
  - destruct (strncaseeq _ _ _);
      match goal with
      | |- context [members_set ?m ?k ?v] =>
          pose proof (members_set_not_nil m k v);
          destruct (members_set m k v); [contradiction|reflexivity]
      end.
Qed.

Lemma participants_of_attendees_cons prop rest tbl ids orga acc :
  participants_of_attendees L (prop :: rest) tbl ids orga acc
  = participant_from_ical L prop tbl ids orga ≫= fun p =>
      participants_of_attendees L rest tbl ids orga
        match ids !! normalized_uri (icalproperty_get_value_as_string L prop) with
        | Some id => members_set acc id p
        | None => acc
        end.
Proof. reflexivity. Qed.

Lemma participants_of_attendees_grows todo : forall tbl ids orga acc m,
  participants_of_attendees L todo tbl ids orga acc = Some m ->
  (forall prop, In prop todo ->
     is_Some (ids !! normalized_uri (icalproperty_get_value_as_string L prop))) ->
  (todo <> [] \/ acc <> []) -> m <> [].
Proof.
  induction todo as [|prop rest IH]; intros tbl ids orga acc m Hrun Hids Hne.
  - injection Hrun as <-. destruct Hne as [Hne|Hne]; [contradiction|exact Hne].
  - rewrite participants_of_attendees_cons in Hrun.
    destruct (participant_from_ical L prop tbl ids orga) as [p|];
      cbn [mbind option_bind] in Hrun; [|discriminate].
    destruct (Hids prop (or_introl eq_refl)) as [id Hid]. rewrite Hid in Hrun.
    apply (IH _ _ _ _ _ Hrun).
    + intros q Hq. apply Hids. now right.
    + right. apply members_set_not_nil.
Qed.

Lemma ids_by_uri_fold attendees : forall (t : gmap string string) prop,
  (In prop attendees
   \/ is_Some (t !! normalized_uri (icalproperty_get_value_as_string L prop))) ->
  is_Some (fold_left (fun (t : gmap string string) prop =>
               let uri := normalized_uri (icalproperty_get_value_as_string L prop) in
               <[uri := participant_id L prop uri]> t) attendees t
           !! normalized_uri (icalproperty_get_value_as_string L prop)).
Proof.
  induction attendees as [|a rest IH]; intros t prop H; simpl.
  - destruct H as [[]|H]; exact H.
  - apply IH. destruct H as [[->|H]|H].
    + right. rewrite lookup_insert_eq. eauto.
    + now left.
    + right. rewrite lookup_insert. case_decide; eauto.
Qed.

Lemma ids_by_uri_total attendees prop :
  In prop attendees ->
  is_Some (ids_by_uri L attendees
           !! normalized_uri (icalproperty_get_value_as_string L prop)).
Proof. intros H. apply ids_by_uri_fold. now left. Qed.

Lemma organizer_roles orga :
  json_object_get (Some (participant_from_icalorganizer L orga)) "roles"
  = Some (json_object [("owner", json_true)]).
Proof.
  unfold participant_from_icalorganizer.
  destruct (strncaseeq _ _ _); [|reflexivity].
  destruct (mailaddr_from_uri L _); reflexivity.
Qed.

(** What [participants_from_ical] returns: [null] exactly when there is no
    ATTENDEE, whether or not there is an ORGANIZER; with an ATTENDEE, an
    ORGANIZER that is not one of the ATTENDEEs is added as the participant
    that [participant_from_icalorganizer] builds, with roles
    [{owner: true}]. *)
Lemma participants_from_ical_shape ctx comp :
  (props_of_kind comp ICAL_ATTENDEE_PROPERTY = [] ->
   participants_from_ical L ctx comp = Some json_null)
  /\ (forall participants,
        props_of_kind comp ICAL_ATTENDEE_PROPERTY <> [] ->
        participants_from_ical L ctx comp = Some participants ->
        JNOTNULL (Some participants) = true
        /\ forall orga,
             icalcomponent_get_first_property comp ICAL_ORGANIZER_PROPERTY = Some orga ->
             attendees_by_uri L (props_of_kind comp ICAL_ATTENDEE_PROPERTY)
               !! normalized_uri (icalproperty_get_value_as_string L orga) = None ->
             json_object_get (Some participants)
               (participant_id L orga
                  (normalized_uri (icalproperty_get_value_as_string L orga)))
             = Some (participant_from_icalorganizer L orga)).
Proof.
  split.
  - intros H. unfold participants_from_ical. now rewrite H.
  - intros participants Hne Hrun. unfold participants_from_ical in Hrun.
    destruct (props_of_kind comp ICAL_ATTENDEE_PROPERTY) as [|a rest] eqn:Hatt;
      [contradiction|].
    destruct (participants_of_attendees L (a :: rest) _ _ _ []) as [m|] eqn:Hloop;
      simpl in Hrun; [|discriminate].
    assert (Hm : m <> []).
    { apply (participants_of_attendees_grows _ _ _ _ _ _ Hloop).
      - intros prop Hin. now apply ids_by_uri_total.
      - left. discriminate. }
    destruct (icalcomponent_get_first_property comp ICAL_ORGANIZER_PROPERTY)
      as [og|] eqn:Horga.
    + destruct (attendees_by_uri L (a :: rest) !! _) as [x|] eqn:Hlook.
      * injection Hrun as <-. split.
        -- destruct m; [contradiction|reflexivity].
        -- intros orga [= <-] Hnone. congruence.
      * injection Hrun as <-.
        pose proof (members_set_not_nil m
                      (participant_id L og
                         (normalized_uri (icalproperty_get_value_as_string L og)))
                      (participant_from_icalorganizer L og)) as Hset.
        destruct (members_set m _ _) as [|kv r] eqn:Eset; [contradiction|].
        split; [reflexivity|].
        intros orga [= <-] _. unfold json_object_get. simpl members_of.
        rewrite <- Eset. apply members_get_set_eq.
    + injection Hrun as <-. split.
      * destruct m; [contradiction|reflexivity].
      * intros orga Hsome. discriminate.
Qed.

End Participants_properties.

(** C2.  On the delegation chain A, B, C (A delegates to B, B to C) with C
    ACCEPTED, [participants_from_ical] returns and reports "accepted" for B
    and for C, but no participationStatus at all for A: the walk from A
    reads A's own DELEGATED-TO in every turn, so it never gets past B and
    gives up after 64 turns with "none". *)
Theorem participants_from_ical_delegation_chain (L : library) (ctx : context_t) :
  exists participants,
    participants_from_ical L ctx delegation_chain = Some participants
    /\ participation_status participants "A" = None
    /\ participation_status participants "B" = Some (json_string "accepted")
    /\ participation_status participants "C" = Some (json_string "accepted").
Proof.
  eexists. split.
  - vm_compute. reflexivity.
  - vm_compute. auto.
Qed.

(** ** [jmapical_tojmap] *)

Section Tojmap_properties.
Context (L : library) (P : from_ical_parts).

Lemma todo_is_filter vevents : forall todo,
  fold_left (fun todo comp =>
               if is_main_vevent L comp then ptrarray_push todo comp else todo)
            vevents todo
  = (todo ++ List.filter (is_main_vevent L) vevents)%list.
Proof.
  induction vevents as [|c rest IH]; intros todo; simpl.
  - now rewrite app_nil_r.
  - rewrite IH. destruct (is_main_vevent L c); [|reflexivity].
    unfold ptrarray_push. now rewrite <- app_assoc.
Qed.

Lemma convert_todo_cons ical props err comp rest events :
  convert_todo L P ical props err (comp :: rest) events
  = calendarevent_from_ical L P (context_new props err JMAPICAL_READ_MODE)
      (Some ical) comp ≫= fun r =>
    convert_todo L P ical props err rest (events ++ [snd r]).
Proof.
  simpl convert_todo.
  destruct (calendarevent_from_ical L P _ (Some ical) comp) as [[c o]|]; reflexivity.
Qed.

(** The first event appended stays the first of the array. *)
Lemma convert_todo_keeps_head ical props err popped : forall x events,
  convert_todo L P ical props err popped (x :: events)
    ≫= (fun evs => Some (head evs))
  = convert_todo L P ical props err popped (x :: events)
    ≫= (fun _ => Some (Some x)).
Proof.
  induction popped as [|c rest IH]; intros x events.
  - reflexivity.
  - rewrite convert_todo_cons.
    destruct (calendarevent_from_ical L P _ (Some ical) c) as [[c' o]|];
      cbn [mbind option_bind]; [|reflexivity].
    apply (IH x (events ++ [snd (c', o)])%list).
Qed.

(** C1.  When the main VEVENTs of the tree (those with a UID and without a
    RECURRENCE-ID) are [earlier ++ [last_main]] in component order,
    [jmapical_tojmap] converts [last_main] first, then the earlier ones, and
    returns the conversion of [last_main]: with several main VEVENTs it is
    the last one that is returned, not the first. *)
Theorem jmapical_tojmap_returns_last_main
    (ical : icalcomponent) (props : option json_t) (err : option jmapical_err_t)
    (earlier : list icalcomponent) (last_main : icalcomponent) :
  List.filter (is_main_vevent L) (comps_of_kind ical ICAL_VEVENT_COMPONENT)
    = (earlier ++ [last_main])%list ->
  jmapical_tojmap L P ical props err
  = calendarevent_from_ical L P (context_new props err JMAPICAL_READ_MODE)
      (Some ical) last_main ≫= fun r =>
    convert_todo L P ical props err (rev earlier) [snd r] ≫= fun _ =>
    Some (Some (snd r)).
Proof.
  intros Hmain. unfold jmapical_tojmap, jmapical_tojmap_all.
  rewrite todo_is_filter, Hmain. simpl app.
  assert (Htodo : match head (comps_of_kind ical ICAL_VEVENT_COMPONENT),
                        (earlier ++ [last_main])%list with
                  | Some firstcomp, [] => ptrarray_push (earlier ++ [last_main])%list firstcomp
                  | _, _ => (earlier ++ [last_main])%list
                  end = (earlier ++ [last_main])%list).
  { destruct (head _); destruct earlier; reflexivity. }
  rewrite Htodo. clear Htodo Hmain.
  destruct (earlier ++ [last_main])%list as [|c0 t0] eqn:E.
  { destruct earlier; discriminate. }
  rewrite <- E. clear E c0 t0.
  rewrite rev_app_distr. simpl rev. simpl app.
  rewrite convert_todo_cons.
  destruct (calendarevent_from_ical L P _ (Some ical) last_main) as [[c o]|];
    cbn [mbind option_bind]; [|reflexivity].
  simpl app. cbn [snd].
  pose proof (convert_todo_keeps_head ical props err (rev earlier) o []) as Hhead.
  destruct (convert_todo L P ical props err (rev earlier) [o]) as [evs|];
    cbn [mbind option_bind] in *; [|reflexivity].
  injection Hhead as Hhead.
  unfold json_array_size, json_array_get. simpl items_of.
  destruct evs as [|e evs']; [discriminate|]. simpl in *. congruence.
Qed.

End Tojmap_properties.

(** A use of C1, on [two_main_vevents]. *)
Lemma jmapical_tojmap_returns_last_main_witness :
  List.filter (is_main_vevent sample_library)
              (comps_of_kind two_main_vevents ICAL_VEVENT_COMPONENT)
    = ([vevent_first] ++ [vevent_second])%list
  /\ jmapical_tojmap sample_library sample_from_ical_parts two_main_vevents None None
     = calendarevent_from_ical sample_library sample_from_ical_parts
         (context_new None None JMAPICAL_READ_MODE)
         (Some two_main_vevents) vevent_second ≫= fun r =>
       convert_todo sample_library sample_from_ical_parts two_main_vevents None None
         (rev [vevent_first]) [snd r] ≫= fun _ =>
       Some (Some (snd r)).
Proof.
  split; [reflexivity|].
  apply (jmapical_tojmap_returns_last_main sample_library sample_from_ical_parts
           two_main_vevents None None [vevent_first] vevent_second).
  reflexivity.
Defined.

(** Against C1 as the specification states it, on [two_main_vevents]: with
    the sample collaborators, the first main VEVENT converts to an event
    with uid ["first"], and the event that [jmapical_tojmap] returns is the
    one with uid ["second"]. *)
Example jmapical_tojmap_two_main_vevents :
  exists event first_event ctx,
    jmapical_tojmap sample_library sample_from_ical_parts two_main_vevents None None
      = Some (Some event)
    /\ calendarevent_from_ical sample_library sample_from_ical_parts
         (context_new None None JMAPICAL_READ_MODE) (Some two_main_vevents)
         vevent_first = Some (ctx, first_event)
    /\ json_object_get (Some first_event) "uid" = Some (json_string "first")
    /\ json_object_get (Some event) "uid" = Some (json_string "second").
Proof.
  do 3 eexists. split; [vm_compute; reflexivity|].
  split; [vm_compute; reflexivity|]. split; vm_compute; reflexivity.
Qed.

(* ===================================================================== *)
(** ** Participants (JSCalendar to iCalendar) *)
(* ===================================================================== *)

(** The branches of the CALADDRESS choice that do what the order
    [imip], [other], any method, [email] asks for. *)
Lemma caladdress_of_participant_imip (jval : json_t) (uri : string) :
  json_object_get (json_object_get (Some jval) "sendTo") "imip"
    = Some (json_string uri) ->
  caladdress_of_participant jval = Some (Some uri).
Proof.
  intros H. unfold caladdress_of_participant. rewrite H. reflexivity.
Qed.

Lemma caladdress_of_participant_anymethod (jval : json_t)
    (method uri : string) (rest : list (string * json_t)) :
  json_object_get (Some jval) "sendTo"
    = Some (json_object ((method, json_string uri) :: rest)) ->
  json_object_get (json_object_get (Some jval) "sendTo") "imip" = None ->
  json_object_get (json_object_get (Some jval) "sendTo") "other" = None ->
  caladdress_of_participant jval = Some (Some uri).
Proof.
  intros Hs Himip Hother. unfold caladdress_of_participant.
  rewrite Himip, Hother, Hs. cbn [is_some].
  unfold json_object_size, json_object_iter_key_first, json_object_get.
  cbn [members_of length Nat.ltb Nat.leb mbind option_bind members_get].
  rewrite String.eqb_refl. reflexivity.
Qed.

Lemma caladdress_of_participant_email (jval : json_t) (addr : string) :
  json_object_size (json_object_get (Some jval) "sendTo") = 0%nat ->
  json_object_get (Some jval) "email" = Some (json_string addr) ->
  caladdress_of_participant jval = Some (Some ("mailto:" ++ addr)).
Proof.
  intros Hsize Hemail. unfold caladdress_of_participant.
  assert (Hnone : forall k,
             json_object_get (json_object_get (Some jval) "sendTo") k = None).
  { intros k. unfold json_object_size in Hsize. unfold json_object_get at 1.
    destruct (members_of (json_object_get (Some jval) "sendTo"));
      [reflexivity|discriminate]. }
  rewrite !Hnone, Hsize, Hemail. reflexivity.
Qed.

(** C3.  The branch for [sendTo.other] does not use the URI of [other]:
    when a participant has no [sendTo.imip] but a [sendTo.other], the
    string that is duplicated as CALADDRESS is the value of [sendTo.imip],
    which is absent, so [xstrdup] is handed [NULL] and the call does not
    return.  The URI of [other] is never the CALADDRESS. *)
Theorem caladdress_of_participant_other_reads_imip (jval : json_t) :
  json_object_get (json_object_get (Some jval) "sendTo") "imip" = None ->
  is_some (json_object_get (json_object_get (Some jval) "sendTo") "other") = true ->
  caladdress_of_participant jval = None.
Proof.
  intros Himip Hother. unfold caladdress_of_participant.
  rewrite Himip, Hother. reflexivity.
Qed.

(** A use of C3, on a participant with [sendTo = {other: uri}] only. *)
Lemma caladdress_of_participant_other_reads_imip_witness :
  json_object_get (json_object_get (Some (sendTo_other "tel:+1-555-0100")) "sendTo")
                  "imip" = None
  /\ is_some (json_object_get
                (json_object_get (Some (sendTo_other "tel:+1-555-0100")) "sendTo")
                "other") = true
  /\ caladdress_of_participant (sendTo_other "tel:+1-555-0100") = None.
Proof.
  split; [reflexivity|]. split; [reflexivity|].
  apply (caladdress_of_participant_other_reads_imip
           (sendTo_other "tel:+1-555-0100")); reflexivity.
Defined.

(** [participants_to_ical] does not return on an event with an organizer
    and such a participant, whatever the context, the VEVENT and the
    conversion of single participants are. *)
Example participants_to_ical_sendTo_other
    (S : to_ical_parts) (ctx : context_t) (comp : icalcomponent) (uri : string) :
  participants_to_ical S ctx comp (event_sendTo_other uri) = None.
Proof. vm_compute. reflexivity. Qed.

(* ===================================================================== *)
(** ** Recurrence rules (JSCalendar to iCalendar) *)
(* ===================================================================== *)

Section ByX.
Context (lower upper : Z) (allowZero : bool) (fieldName : string)
        (conv : string -> Z -> string).

Lemma invalid_here (ctx : context_t) (i : nat) :
  endprop (invalidprop (beginprop_idx ctx fieldName i) None)
  = set_invalid ctx (members_set (invalid ctx) (byX_path ctx fieldName i) json_null).
Proof.
  unfold byX_path, invalidprop, encodeprop, beginprop_idx.
  destruct ctx as [e eo m inv segs w ma tz ad u tso ts teo te].
  cbn [propstr set_propstr invalid].
  set (seg := encode_segment fieldName ++ "/" ++ print_size_t i).
  destruct (strarray_push segs seg) eqn:E.
  - unfold strarray_push in E. destruct segs; discriminate E.
  - rewrite <- E. unfold endprop, set_invalid, set_propstr.
    cbn [propstr invalid err err_owned mode wantprops master tzid_start
         is_allday uid tzstart_old tzstart tzend_old tzend].
    rewrite strarray_pop_push. reflexivity.
Qed.

Lemma recurrence_byX_element_rejects ctx buf i j :
  byX_accepts lower upper allowZero j = false ->
  recurrence_byX_element (Some lower) (Some upper) allowZero fieldName conv
    (ctx, buf) i j
  = (set_invalid ctx (members_set (invalid ctx) (byX_path ctx fieldName i) json_null),
     buf).
Proof.
  intros H. unfold recurrence_byX_element. rewrite <- invalid_here.
  destruct j; try reflexivity.
  cbn [byX_accepts] in H. cbn [json_unpack_ok json_is_integer json_integer_value].
  cbn [Z.eqb andb negb].
  set (val := int_of_json_int v) in *.
  destruct allowZero; cbn [negb andb orb] in *.
  - destruct (lower <=? val) eqn:E1; [destruct (val <=? upper) eqn:E2|];
      try discriminate H.
    + replace (val <? lower) with false by (symmetry; apply Z.ltb_ge; lia).
      replace (val >? upper) with true by (symmetry; apply Z.gtb_lt; lia).
      reflexivity.
    + replace (val <? lower) with true by (symmetry; apply Z.ltb_lt; lia).
      reflexivity.
  - destruct (val =? 0) eqn:E0; cbn [negb andb] in *; [reflexivity|].
    destruct (lower <=? val) eqn:E1; [destruct (val <=? upper) eqn:E2|];
      try discriminate H.
    + replace (val <? lower) with false by (symmetry; apply Z.ltb_ge; lia).
      replace (val >? upper) with true by (symmetry; apply Z.gtb_lt; lia).
      reflexivity.
    + replace (val <? lower) with true by (symmetry; apply Z.ltb_lt; lia).
      reflexivity.
Qed.

Lemma recurrence_byX_element_accepts ctx buf i j :
  byX_accepts lower upper allowZero j = true ->
  recurrence_byX_element (Some lower) (Some upper) allowZero fieldName conv
    (ctx, buf) i j
  = (ctx, conv (if (0 <? i)%nat then buf ++ "," else buf)
               (int_of_json_int (json_integer_value (Some j)))).
Proof.
  intros H. unfold recurrence_byX_element.
  destruct j; try discriminate H.
  cbn [byX_accepts] in H. cbn [json_unpack_ok json_is_integer json_integer_value].
  cbn [Z.eqb andb negb].
  set (val := int_of_json_int v) in *.
  apply andb_true_iff in H as [H H2]. apply andb_true_iff in H as [H0 H1].
  replace (negb allowZero && (val =? 0)) with false
    by (destruct allowZero; cbn in *; [reflexivity|now destruct (val =? 0)]).
  cbn [Z.eqb andb].
  replace (val <? lower) with false by (symmetry; apply Z.ltb_ge; lia).
  replace (val >? upper) with false
    by (symmetry; rewrite Z.gtb_ltb; apply Z.ltb_ge; lia).
  reflexivity.
Qed.

(** The loop over the array records the path of every element that does
    not pass, under [fieldName] and the index of the element, and leaves
    the path of the context as it is. *)
Lemma recurrence_byX_loop_records (items : list json_t) :
  forall (k : nat) (ctx : context_t) (buf : string),
    let st := fold_indexed
                (recurrence_byX_element (Some lower) (Some upper) allowZero
                                        fieldName conv)
                k items (ctx, buf) in
    propstr (fst st) = propstr ctx
    /\ (forall p, is_some (members_get (invalid ctx) p) = true ->
                  is_some (members_get (invalid (fst st)) p) = true)
    /\ (forall i j,
          nth_error items i = Some j ->
          byX_accepts lower upper allowZero j = false ->
          is_some (members_get (invalid (fst st))
                               (byX_path ctx fieldName (k + i))) = true).
Proof.
  induction items as [|x rest IH]; intros k ctx buf; cbn [fold_indexed].
  - split; [reflexivity|]. split; [auto|]. intros [|i] j H; discriminate H.
  - destruct (byX_accepts lower upper allowZero x) eqn:Hx.
    + rewrite (recurrence_byX_element_accepts _ _ _ _ Hx).
      destruct (IH (Datatypes.S k) ctx
                   (conv (if (0 <? k)%nat then buf ++ "," else buf)
                         (int_of_json_int (json_integer_value (Some x)))))
        as (Hp & Hk & Hr).
      split; [exact Hp|]. split; [exact Hk|].
      intros [|i] j Hn Hj.
      * injection Hn as <-. congruence.
      * replace (k + Datatypes.S i)%nat with (Datatypes.S k + i)%nat by lia.
        now apply (Hr i j).
    + rewrite (recurrence_byX_element_rejects _ _ _ _ Hx).
      set (ctx1 := set_invalid ctx _).
      destruct (IH (Datatypes.S k) ctx1 buf) as (Hp & Hk & Hr).
      split; [exact Hp|]. split.
      * intros p Hin. apply Hk. unfold ctx1. cbn [invalid set_invalid].
        now apply members_get_set_some.
      * intros [|i] j Hn Hj.
        -- apply Hk. unfold ctx1. cbn [invalid set_invalid].
           rewrite Nat.add_0_r. now rewrite members_get_set_eq.
        -- replace (k + Datatypes.S i)%nat with (Datatypes.S k + i)%nat by lia.
           apply (Hr i j Hn Hj).
Qed.

(** X16.  [recurrence_byX_to_ical] records the path of the field and the
    index of every element of the array that is not a JSON integer, or
    whose value as the C [int] that [json_unpack] stores (the 64-bit value
    truncated to 32 bits) is below the lower or above the upper bound, or
    is zero where zero is not allowed.  The test is on the truncated
    value: an integer outside the range of [int] whose truncation passes
    is not recorded. *)
Lemma recurrence_byX_to_ical_records ctx items buf tag i j :
  nth_error items i = Some j ->
  byX_accepts lower upper allowZero j = false ->
  is_some (members_get
             (invalid (fst (recurrence_byX_to_ical ctx (Some (json_array items))
                              buf tag (Some lower) (Some upper) allowZero
                              fieldName conv)))
             (byX_path ctx fieldName i)) = true.
Proof.
  intros Hn Hj. unfold recurrence_byX_to_ical, json_array_size.
  cbn [items_of].
  destruct items as [|x rest]; [destruct i; discriminate Hn|].
  cbn [length Nat.eqb].
  exact (proj2 (proj2 (recurrence_byX_loop_records (x :: rest) 0 ctx _)) i j Hn Hj).
Qed.

End ByX.

(** C6.  For a rule whose third [bySetPosition] element is 99, the one path
    that [recurrence_to_ical] records is ["recurrenceRule/bySetPos/2"]: the
    element is rejected, but under the name [bySetPos], not under the
    member's name [bySetPosition]. *)
Theorem recurrence_to_ical_bySetPosition_path
    (L : library) (comp : icalcomponent) :
  invalid (fst (recurrence_to_ical L (context_new None None JMAPICAL_WRITE_MODE)
                  comp (Some rule_bySetPosition)))
  = [("recurrenceRule/bySetPos/2", json_null)].
Proof. vm_compute. reflexivity. Qed.

(** The other fields are reported under their own name, as here
    [byHour]. *)
Example recurrence_to_ical_byHour_path (L : library) (comp : icalcomponent) :
  invalid (fst (recurrence_to_ical L (context_new None None JMAPICAL_WRITE_MODE)
                  comp (Some rule_byHour)))
  = [("recurrenceRule/byHour/2", json_null)].
Proof. vm_compute. reflexivity. Qed.

(* ===================================================================== *)
(** ** The event as a whole (JSCalendar to iCalendar) *)
(* ===================================================================== *)

(** *** Priority *)

(** C8.  The priority block of [calendarevent_to_ical] adds a PRIORITY
    property with the integer value of the member for every event, and
    records nothing: its condition [>= 0 || <= 9] holds for every integer,
    so the branch that would record ["priority"] as invalid is never taken.
    In particular 10 and -1 are written as PRIORITY. *)
Theorem to_ical_priority_accepts_every_integer (event : json_t) (st : wstate) :
  to_ical_priority event st
  = Some (with_comp st
            (icalcomponent_add_property (w_comp st)
               (icalproperty_new_value ICAL_PRIORITY_PROPERTY
                  (val_integer
                     (int_of_json_int
                        (json_integer_value
                           (json_object_get (Some event) "priority"))))))).
Proof.
  unfold to_ical_priority.
  replace (_ || _) with true; [reflexivity|].
  symmetry. apply orb_true_iff. rewrite Z.geb_le, Z.leb_le. lia.
Qed.

(** With the sample collaborators, events with priority 10 and -1 are
    converted without an error, and the VEVENT has that PRIORITY. *)
Example jmapical_toical_priority_out_of_range :
  exists tree tree',
    jmapical_toical sample_library sample_from_ical_parts sample_to_ical_parts
      (event_priority 10) (Some err_zero) = Some (Some tree, Some err_zero)
    /\ priorities tree = [[val_integer 10]]
    /\ jmapical_toical sample_library sample_from_ical_parts sample_to_ical_parts
         (event_priority (-1)) (Some err_zero) = Some (Some tree', Some err_zero)
    /\ priorities tree' = [[val_integer (-1)]].
Proof.
  eexists. eexists. split; [vm_compute; reflexivity|].
  split; [vm_compute; reflexivity|].
  split; [vm_compute; reflexivity|]. vm_compute; reflexivity.
Qed.

(** *** replyTo and participants *)

Section Co_presence.
Context (L : library) (S : to_ical_parts).

(** [participants_to_ical] on an event where one of [replyTo] and
    [participants] is null and the other is not: both are recorded as
    invalid, and the VEVENT is left without ORGANIZER and ATTENDEEs. *)
Lemma participants_to_ical_mismatch ctx comp event :
  JNOTNULL (json_object_get (Some event) "replyTo")
    <> JNOTNULL (json_object_get (Some event) "participants") ->
  exists ctx',
    participants_to_ical S ctx comp event
    = Some (ctx', remove_icalprop (remove_icalprop comp ICAL_ATTENDEE_PROPERTY)
                                  ICAL_ORGANIZER_PROPERTY)
    /\ invalid_at ctx' "replyTo" = true
    /\ invalid_at ctx' "participants" = true.
Proof.
  intros Hne. unfold participants_to_ical.
  set (replyTo := json_object_get (Some event) "replyTo") in *.
  set (participants := json_object_get (Some event) "participants") in *.
  assert (Heq : Bool.eqb (JNOTNULL replyTo) (JNOTNULL participants) = false).
  { destruct (JNOTNULL replyTo), (JNOTNULL participants); auto; contradiction. }
  rewrite Heq. cbn [negb]. eexists. split; [reflexivity|]. split.
  - apply invalid_at_invalidprop_keeps, invalid_at_invalidprop.
  - apply invalid_at_invalidprop.
Qed.

(** C5, as the code has it.  Reading: the [replyTo] built from an ORGANIZER
    is never null; [participants] is null when the VEVENT has no ATTENDEE,
    whether or not it has an ORGANIZER; with at least one ATTENDEE it is not
    null, and an ORGANIZER that is not among the ATTENDEEs is added as a
    participant with roles [{owner: true}].  Writing: when one of [replyTo]
    and [participants] is null and the other is not, both are recorded as
    invalid. *)
Theorem replyTo_and_participants_co_presence
    (ctx : context_t) (comp : icalcomponent) (orga : icalproperty)
    (wctx : context_t) (wcomp : icalcomponent) (event : json_t) :
  JNOTNULL (Some (rsvpto_from_ical L orga)) = true
  /\ (props_of_kind comp ICAL_ATTENDEE_PROPERTY = [] ->
      participants_from_ical L ctx comp = Some json_null)
  /\ (forall participants,
        props_of_kind comp ICAL_ATTENDEE_PROPERTY <> [] ->
        participants_from_ical L ctx comp = Some participants ->
        JNOTNULL (Some participants) = true
        /\ (icalcomponent_get_first_property comp ICAL_ORGANIZER_PROPERTY = Some orga ->
            attendees_by_uri L (props_of_kind comp ICAL_ATTENDEE_PROPERTY)
              !! normalized_uri (icalproperty_get_value_as_string L orga) = None ->
            exists p,
              json_object_get (Some participants)
                (participant_id L orga
                   (normalized_uri (icalproperty_get_value_as_string L orga)))
              = Some p
              /\ json_object_get (Some p) "roles"
                 = Some (json_object [("owner", json_true)])))
  /\ (JNOTNULL (json_object_get (Some event) "replyTo")
        <> JNOTNULL (json_object_get (Some event) "participants") ->
      exists ctx',
        participants_to_ical S wctx wcomp event
        = Some (ctx', remove_icalprop (remove_icalprop wcomp ICAL_ATTENDEE_PROPERTY)
                                      ICAL_ORGANIZER_PROPERTY)
        /\ invalid_at ctx' "replyTo" = true
        /\ invalid_at ctx' "participants" = true).
Proof.
  destruct (participants_from_ical_shape L ctx comp) as [Hnull Hsome].
  split; [apply rsvpto_from_ical_not_null|].
  split; [exact Hnull|]. split.
  - intros participants Hne Hrun.
    destruct (Hsome participants Hne Hrun) as [Hnn Horga].
    split; [exact Hnn|]. intros Hfirst Hnot.
    eexists. split; [apply Horga; assumption|]. apply organizer_roles.
  - apply participants_to_ical_mismatch.
Qed.

End Co_presence.

(** Against C5 as the specification states it: a VEVENT with an ORGANIZER
    and no ATTENDEE.  With the sample collaborators, the event that
    [jmapical_tojmap] returns for it has a [replyTo] and no
    [participants]. *)
Lemma organizer_without_attendee_has_replyTo_only :
  exists event,
    jmapical_tojmap sample_library sample_from_ical_parts organizer_only None None
      = Some (Some event)
    /\ JNOTNULL (json_object_get (Some event) "replyTo") = true
    /\ JNOTNULL (json_object_get (Some event) "participants") = false.
Proof. eexists. split; [vm_compute; reflexivity|]. split; reflexivity. Qed.

(** *** Errors of [jmapical_toical] *)


Section Toical_errors.
Context (L : library) (P : from_ical_parts) (S : to_ical_parts).


(** For a caller that passes no error struct, the tree is returned although
    properties were invalid. *)
Example jmapical_toical_without_err :
  exists tree, jmapical_toical L P S event_invalid None = Some (Some tree, None).
Proof. eexists. vm_compute. reflexivity. Qed.

End Toical_errors.

(** For a caller that passes no error struct, no tree is returned when
    libical rejects the recurrence rule: [recurrence_to_ical] sets the code
    of the error struct of the context. *)
Example jmapical_toical_without_err_rejected_rule
    (P : from_ical_parts) (S : to_ical_parts) :
  jmapical_toical strict_library P S event_rule None = Some (None, None)
  /\ exists tree,
       jmapical_toical sample_library P S event_rule None = Some (Some tree, None).
Proof. split; [vm_compute; reflexivity|]. eexists. vm_compute. reflexivity. Qed.


(** *** Patches with a forbidden key *)

Section Forbidden_keys.
Context (L : library).

(** C4, as the code has it.  For a patch whose key is a LocalDate, which
    has no [excluded] member and which has a forbidden key, the turn of the
    loop of [overrides_to_ical] ends at [continue]: nothing is recorded as
    invalid, the main VEVENT, the VCALENDAR and the cache of exceptions stay
    as they are, and no other key of the patch is applied.  The context
    keeps the path segment of this override, since [endprop] is skipped. *)
Theorem override_to_ical_ignores_forbidden_patch
    (convert : context_t -> icalcomponent -> json_t ->
               option (context_t * icalcomponent))
    (master : json_t) (st : overrides_state) (id : string) (override : json_t) :
  is_some (localdate_to_icaltime L id (tzstart (os_ctx st))
                                 (is_allday (os_ctx st))) = true ->
  json_object_get (Some override) "excluded" = None ->
  has_forbidden_key override = true ->
  override_to_ical L convert master st id override
  = Some (mk_overrides_state (beginprop_key (os_ctx st) "recurrenceOverrides" id)
            (os_ical st) (os_comp st) (os_recurs st))
  /\ invalid (beginprop_key (os_ctx st) "recurrenceOverrides" id)
     = invalid (os_ctx st).
Proof.
  intros Hstart Hexcl Hforb. split; [|reflexivity].
  unfold override_to_ical.
  change (tzstart (beginprop_key (os_ctx st) "recurrenceOverrides" id))
    with (tzstart (os_ctx st)).
  change (is_allday (beginprop_key (os_ctx st) "recurrenceOverrides" id))
    with (is_allday (os_ctx st)).
  destruct (localdate_to_icaltime L id _ _) as [start|]; [|discriminate].
  rewrite Hexcl.
  unfold has_forbidden_key in Hforb. rewrite Hforb.
  unfold json_object_size.
  destruct (members_of (Some override)); [discriminate|reflexivity].
Qed.

End Forbidden_keys.

(** A use of C4, on the patch [{title, uid}]. *)
Lemma override_to_ical_ignores_forbidden_patch_witness :
  is_some (localdate_to_icaltime sample_library "2021-03-22T09:00:00"
             (tzstart (os_ctx sample_overrides_state))
             (is_allday (os_ctx sample_overrides_state))) = true
  /\ json_object_get (Some patch_title_uid) "excluded" = None
  /\ has_forbidden_key patch_title_uid = true
  /\ (override_to_ical sample_library (fun _ _ _ => None) json_null
        sample_overrides_state "2021-03-22T09:00:00" patch_title_uid
      = Some (mk_overrides_state
                (beginprop_key (os_ctx sample_overrides_state)
                               "recurrenceOverrides" "2021-03-22T09:00:00")
                (os_ical sample_overrides_state) (os_comp sample_overrides_state)
                (os_recurs sample_overrides_state))
      /\ invalid (beginprop_key (os_ctx sample_overrides_state)
                                "recurrenceOverrides" "2021-03-22T09:00:00")
         = invalid (os_ctx sample_overrides_state)).
Proof.
  split; [reflexivity|]. split; [reflexivity|]. split; [reflexivity|].
  apply (override_to_ical_ignores_forbidden_patch sample_library
           (fun _ _ _ => None) json_null sample_overrides_state
           "2021-03-22T09:00:00" patch_title_uid); reflexivity.
Defined.

(** Against C4 as the specification states it, on the patch
    [{title, uid}]: with the sample collaborators, the patch [{title}] gives
    an exception VEVENT with the new title, and the patch [{title, uid}]
    gives no exception VEVENT at all. *)
Lemma forbidden_key_patch_is_not_applied :
  exists tree tree',
    jmapical_toical sample_library sample_from_ical_parts sample_to_ical_parts
      (event_override patch_title) (Some err_zero)
      = Some (Some tree, Some err_zero)
    /\ summaries tree = [[val_text "t"]; [val_text "x"]]
    /\ jmapical_toical sample_library sample_from_ical_parts sample_to_ical_parts
         (event_override patch_title_uid) (Some err_zero)
         = Some (Some tree', Some err_zero)
    /\ summaries tree' = [[val_text "t"]].
Proof.
  eexists. eexists. split; [vm_compute; reflexivity|].
  split; [vm_compute; reflexivity|].
  split; [vm_compute; reflexivity|]. vm_compute; reflexivity.
Qed.

(** *** created, updated and sequence *)

Lemma icalproperty_kind_eqb_eq a b :
  icalproperty_kind_eqb a b = true <-> a = b.
Proof. split; [destruct a, b; (reflexivity || discriminate)| intros ->; now destruct b]. Qed.

Lemma props_of_kind_stamps c k :
  is_stamp_kind k = true ->
  props_of_kind c k
  = List.filter (fun p => icalproperty_kind_eqb (prop_kind p) k) (stamps c).
Proof.
  intros Hk. unfold props_of_kind, stamps.
  induction (comp_props c) as [|p r IH]; [reflexivity|]. simpl.
  destruct (icalproperty_kind_eqb (prop_kind p) k) eqn:E.
  - rewrite (proj1 (icalproperty_kind_eqb_eq _ _) E), Hk. simpl.
    rewrite E. now f_equal.
  - destruct (is_stamp_kind (prop_kind p)); simpl; [rewrite E|]; exact IH.
Qed.

Lemma stamps_add_property c p :
  is_stamp_kind (prop_kind p) = false ->
  stamps (icalcomponent_add_property c p) = stamps c.
Proof.
  intros H. unfold stamps, icalcomponent_add_property. simpl.
  rewrite List.filter_app. simpl. rewrite H. apply app_nil_r.
Qed.

Lemma stamps_remove_icalprop c k :
  is_stamp_kind k = false ->
  stamps (remove_icalprop c k) = stamps c.
Proof.
  intros H. unfold stamps, remove_icalprop. simpl.
  induction (comp_props c) as [|p r IH]; [reflexivity|]. simpl.
  destruct (icalproperty_kind_eqb (prop_kind p) k) eqn:E; simpl.
  - apply icalproperty_kind_eqb_eq in E. rewrite E, H. exact IH.
  - now rewrite IH.
Qed.

Lemma stamps_remove_icalxprop c name :
  stamps (remove_icalxprop c name) = stamps c.
Proof.
  unfold stamps, remove_icalxprop. simpl.
  induction (comp_props c) as [|p r IH]; [reflexivity|]. simpl.
  destruct (icalproperty_kind_eqb (prop_kind p) ICAL_X_PROPERTY) eqn:E; simpl.
  - apply icalproperty_kind_eqb_eq in E.
    destruct (strcaseeq (prop_x_name p) name); simpl; rewrite ?E; simpl; [exact IH|].
    now rewrite IH.
  - now rewrite IH.
Qed.

Lemma stamps_set_value c k v :
  is_stamp_kind k = false ->
  stamps (icalcomponent_set_value c k v) = stamps c.
Proof.
  intros H. unfold stamps, icalcomponent_set_value. simpl.
  induction (comp_props c) as [|p r IH]; simpl; [now rewrite H|].
  destruct (icalproperty_kind_eqb (prop_kind p) k) eqn:E; simpl.
  - now rewrite (proj1 (icalproperty_kind_eqb_eq _ _) E), H.
  - now rewrite IH.
Qed.

Lemma stamps_set_language c k lang :
  is_stamp_kind k = false ->
  stamps (set_language_icalprop c k lang) = stamps c.
Proof.
  intros H. unfold stamps, set_language_icalprop. simpl.
  induction (comp_props c) as [|p r IH]; simpl; [reflexivity|].
  destruct (icalproperty_kind_eqb (prop_kind p) k) eqn:E; simpl.
  - now rewrite (proj1 (icalproperty_kind_eqb_eq _ _) E), H.
  - now rewrite IH.
Qed.

Lemma stamps_dtprop_to_ical L c dt tz purge k :
  is_stamp_kind k = false ->
  stamps (dtprop_to_ical L c dt tz purge k) = stamps c.
Proof.
  intros H. unfold dtprop_to_ical, dtprop_to_ical_then.
  rewrite stamps_add_property.
  2:{ unfold dtprop_new. destruct tz; [destruct (negb _)|]; exact H. }
  assert (Hp : stamps (if purge then remove_icalprop c k else c) = stamps c).
  { destruct purge; [now apply stamps_remove_icalprop|reflexivity]. }
  destruct k; try exact Hp; rewrite stamps_remove_icalprop; auto.
Qed.

Lemma stamps_recurrence_to_ical L ctx c recur :
  stamps (snd (recurrence_to_ical L ctx c recur)) = stamps c.
Proof.
  unfold recurrence_to_ical.
  destruct recur as [recur|]; [|now apply stamps_remove_icalprop].
  destruct recur; try (now apply stamps_remove_icalprop).
  all: destruct (recurrence_rule_to_ical L _ _) as [ctx' buf];
    destruct (negb (have_invalid_props ctx')); [destruct (icalrecur_has_freq L buf)|];
    cbn [snd]; rewrite ?stamps_add_property, ?stamps_remove_icalprop; reflexivity.
Qed.

Lemma stamps_keywords_to_ical ctx c keywords :
  stamps (snd (keywords_to_ical ctx c keywords)) = stamps c.
Proof.
  unfold keywords_to_ical.
  rewrite <- (stamps_remove_icalprop c ICAL_CATEGORIES_PROPERTY eq_refl).
  generalize (remove_icalprop c ICAL_CATEGORIES_PROPERTY) as c0.
  generalize ctx.
  induction (members_of (Some keywords)) as [|kv r IH]; intros ctx0 c0;
    [reflexivity|].
  cbn [fold_left].
  destruct (snd kv); rewrite IH; try reflexivity.
  now apply stamps_add_property.
Qed.

Lemma props_of_kind_add_property c p k :
  props_of_kind (icalcomponent_add_property c p) k
  = (props_of_kind c k
     ++ if icalproperty_kind_eqb (prop_kind p) k then [p] else [])%list.
Proof.
  unfold props_of_kind, icalcomponent_add_property. simpl.
  rewrite List.filter_app. simpl.
  now destruct (icalproperty_kind_eqb (prop_kind p) k).
Qed.

Lemma props_of_kind_remove_icalprop c k' k :
  props_of_kind (remove_icalprop c k') k
  = if icalproperty_kind_eqb k' k then [] else props_of_kind c k.
Proof.
  unfold props_of_kind, remove_icalprop. simpl.
  induction (comp_props c) as [|p r IH]; simpl.
  - now destruct (icalproperty_kind_eqb k' k).
  - destruct (icalproperty_kind_eqb (prop_kind p) k') eqn:E; simpl.
    + apply icalproperty_kind_eqb_eq in E. rewrite E.
      now destruct (icalproperty_kind_eqb k' k).
    + rewrite IH. destruct (icalproperty_kind_eqb k' k) eqn:E'; [|reflexivity].
      apply icalproperty_kind_eqb_eq in E'. subst k'. now rewrite E.
Qed.

Lemma props_of_kind_set_value_other c k' v k :
  icalproperty_kind_eqb k' k = false ->
  props_of_kind (icalcomponent_set_value c k' v) k = props_of_kind c k.
Proof.
  intros H. unfold props_of_kind, icalcomponent_set_value. simpl.
  induction (comp_props c) as [|p r IH]; simpl; [now rewrite H|].
  destruct (icalproperty_kind_eqb (prop_kind p) k') eqn:E; simpl.
  - now rewrite (proj1 (icalproperty_kind_eqb_eq _ _) E), H.
  - now rewrite IH.
Qed.

Lemma head_set_first_value props k v :
  exists p r,
    List.filter (fun p => icalproperty_kind_eqb (prop_kind p) k)
                (set_first_value props k v) = p :: r
    /\ prop_value p = v.
Proof.
  induction props as [|q rest IH]; simpl.
  - rewrite (proj2 (icalproperty_kind_eqb_eq k k) eq_refl). eauto.
  - destruct (icalproperty_kind_eqb (prop_kind q) k) eqn:E; simpl; rewrite E; eauto.
Qed.

Section Frames.
Context (L : library) (P : from_ical_parts) (S : to_ical_parts).
Hypothesis HS : keeps_stamps S.

Lemma stamps_participants_loop todo : forall participants links orga_uri table ctx comp ctx' comp',
  participants_loop S todo participants links orga_uri table ctx comp = Some (ctx', comp') ->
  stamps comp' = stamps comp.
Proof.
  induction todo as [|[key jval] rest IH]; intros participants links orga_uri table ctx comp ctx' comp' H.
  - injection H as _ <-. reflexivity.
  - cbn [participants_loop] in H.
    destruct (negb (is_valid_jmapid (Some key))); [now apply IH in H|].
    destruct (table !! key); [|now apply IH in H].
    destruct (participant_to_ical S _ comp key jval participants links orga_uri table)
      as [[c1 comp1]|] eqn:E; cbn [mbind option_bind] in H; [|discriminate].
    apply IH in H. rewrite H. eapply ks_participant; eauto.
Qed.

Lemma rsvp_uris_keep_kind (k : icalproperty_kind) (l : list (string * json_t)) :
  forall acc r,
    (forall x, acc = Some x -> of_kind k x) ->
    fold_left (fun (orga : option (option icalproperty)) (kv : string * json_t) =>
                 orga ← orga;
                 uri ← json_string_value (Some (snd kv));
                 Some (match orga with
                       | Some o =>
                           Some (set_icalxparam o JMAPICAL_XPARAM_RSVP_URI
                                   (fst kv ++ ":" ++ uri) false)
                       | None => None
                       end)) l acc = Some r ->
    of_kind k r.
Proof.
  induction l as [|kv rest IH]; intros acc r Hacc H.
  - now apply Hacc.
  - cbn [fold_left] in H. apply IH in H; [exact H|].
    intros x Hx. destruct acc as [[o|]|]; cbn [mbind option_bind] in Hx.
    + destruct (json_string_value (Some (snd kv))); cbn in Hx; [|discriminate].
      injection Hx as <-. exact (Hacc _ eq_refl).
    + destruct (json_string_value (Some (snd kv))); cbn in Hx; [|discriminate].
      now injection Hx as <-.
    + discriminate.
Qed.

Lemma stamps_participants_to_ical ctx comp event ctx' comp' :
  participants_to_ical S ctx comp event = Some (ctx', comp') ->
  stamps comp' = stamps comp.
Proof.
  unfold participants_to_ical. intros H.
  assert (Hpurge : stamps (remove_icalprop (remove_icalprop comp ICAL_ATTENDEE_PROPERTY)
                                           ICAL_ORGANIZER_PROPERTY) = stamps comp).
  { now rewrite !stamps_remove_icalprop. }
  destruct (negb (Bool.eqb _ _)); [injection H as _ <-; exact Hpurge|].
  destruct (negb (JNOTNULL _)); [injection H as _ <-; exact Hpurge|].
  destruct (caladdress_table _ _) as [table|]; cbn [mbind option_bind] in H;
    [|discriminate].
  match type of H with
  | (?k ≫= _) = _ => destruct k as [keep|]; cbn [mbind option_bind] in H; [|discriminate]
  end.
  match type of H with
  | (?o ≫= _) = _ =>
      destruct o as [orga|] eqn:Eorga; cbn [mbind option_bind] in H; [|discriminate]
  end.
  apply stamps_participants_loop in H. rewrite H.
  assert (Hkind : of_kind ICAL_ORGANIZER_PROPERTY orga).
  { destruct keep.
    - eapply rsvp_uris_keep_kind; [|exact Eorga].
      intros x [= <-].
      match goal with
      | |- of_kind _ (match ?u with Some _ => _ | None => _ end) =>
          now destruct u
      end.
    - injection Eorga as <-.
      match goal with
      | |- of_kind _ (match ?u with Some _ => _ | None => _ end) =>
          now destruct u
      end. }
  destruct orga as [o|]; [|exact Hpurge].
  rewrite stamps_add_property; [exact Hpurge|].
  cbn in Hkind. now rewrite Hkind.
Qed.

Lemma stamps_override_to_ical convert master st id override st' :
  override_to_ical L convert master st id override = Some st' ->
  stamps (os_comp st') = stamps (os_comp st).
Proof.
  unfold override_to_ical. intros H.
  destruct (localdate_to_icaltime L id _ _) as [start|];
    [|injection H as <-; reflexivity].
  destruct (json_object_get (Some override) "excluded") as [excluded|].
  - destruct (_ && _); injection H as <-; cbn [os_comp];
      [now apply stamps_dtprop_to_ical|reflexivity].
  - destruct (_ =? _)%nat;
      [injection H as <-; cbn [os_comp]; now apply stamps_dtprop_to_ical|].
    destruct (existsb _ _); [injection H as <-; reflexivity|].
    destruct (jmap_patchobject_apply L master _) as [ex|];
      [|injection H as <-; reflexivity].
    destruct (convert _ _ ex) as [[toctx excomp]|]; cbn [mbind option_bind] in H;
      [|discriminate].
    destruct (if have_invalid_props toctx then _ else _) as [c|];
      cbn [mbind option_bind] in H; [|discriminate].
    injection H as <-. reflexivity.
Qed.

Lemma stamps_overrides_loop convert master todo : forall st st',
  overrides_loop L convert master todo st = Some st' ->
  stamps (os_comp st') = stamps (os_comp st).
Proof.
  induction todo as [|[id override] rest IH]; intros st st' H.
  - now injection H as <-.
  - cbn [overrides_loop] in H.
    destruct (override_to_ical L convert master st id override) as [st1|] eqn:E;
      cbn [mbind option_bind] in H; [|discriminate].
    apply IH in H. rewrite H. eapply stamps_override_to_ical; eauto.
Qed.

Lemma stamps_overrides_to_ical convert ctx ical comp overrides ctx' ical' comp' :
  overrides_to_ical L P convert ctx ical comp overrides = Some (ctx', ical', comp') ->
  stamps comp' = stamps comp.
Proof.
  unfold overrides_to_ical. intros H.
  assert (Hpurge : stamps (remove_icalprop (remove_icalprop comp ICAL_RDATE_PROPERTY)
                                           ICAL_EXDATE_PROPERTY) = stamps comp).
  { now rewrite !stamps_remove_icalprop. }
  destruct (index_exceptions L _ _) as [recurs|]; cbn [mbind option_bind] in H;
    [|discriminate].
  destruct (json_is_null (Some overrides)); [injection H as _ _ <-; exact Hpurge|].
  destruct (calendarevent_from_ical L P _ _ _) as [[c master]|];
    cbn [mbind option_bind] in H; [|discriminate].
  destruct (overrides_loop L convert _ _ _) as [st|] eqn:E;
    cbn [mbind option_bind] in H; [|discriminate].
  injection H as _ _ <-. apply stamps_overrides_loop in E. now rewrite E.
Qed.

Lemma convert_member_keeps_stamps event name accept f :
  (forall ctx comp j ctx' comp',
      f ctx comp j = Some (ctx', comp') -> stamps comp' = stamps comp) ->
  forall st st', convert_member event name accept f st = Some st' ->
                 stamps (w_comp st') = stamps (w_comp st).
Proof.
  intros Hf st st' H. unfold convert_member in H.
  destruct (readprop _ _ _ _ _) as [pe ctx].
  destruct (pe >? 0); [|now injection H as <-].
  destruct (json_object_get (Some event) name) as [j|]; [|now injection H as <-].
  destruct (_ || _); [|now injection H as <-].
  destruct (f ctx (w_comp st) j) as [[c1 comp1]|] eqn:E; [|discriminate].
  injection H as <-. cbn. eapply Hf; eauto.
Qed.

Ltac block_done H :=
  repeat match type of H with
         | context [let '(_, _) := ?x in _] => destruct x
         | context [if ?b then _ else _] => destruct b
         | context [match ?x with _ => _ end] => destruct x
         end;
  injection H as <-; unfold with_comp, with_ctx, with_ctx_comp; cbn [w_comp fst snd]; rewrite ?stamps_add_property, ?stamps_set_value, ?stamps_remove_icalprop,
         ?stamps_remove_icalxprop, ?stamps_set_language by reflexivity;
  try reflexivity.

Lemma to_ical_priority_keeps : block_keeps_stamps to_ical_priority.
Proof. intros event st st' H. unfold to_ical_priority in H. block_done H. Qed.

Lemma to_ical_title_keeps : block_keeps_stamps to_ical_title.
Proof. intros event st st' H. unfold to_ical_title in H. block_done H. Qed.

Lemma to_ical_description_keeps : block_keeps_stamps (to_ical_description S).
Proof.
  intros event st st' H. unfold to_ical_description in H.
  destruct (readprop _ _ _ _ _) as [pe ctx].
  destruct (readprop ctx _ _ _ _) as [pe' ctx1].
  destruct (pe' >? 0); [|now injection H as <-].
  destruct (json_string_value _) as [desc|]; [|now injection H as <-].
  destruct (_ <? _)%nat; [|now injection H as <-].
  destruct (description_to_ical S _ _ _ _) as [[c1 comp1]|] eqn:E; [|discriminate].
  injection H as <-. cbn. eapply ks_description; eauto.
Qed.

Lemma to_ical_method_keeps : block_keeps_stamps (to_ical_method L).
Proof. intros event st st' H. unfold to_ical_method in H. block_done H. Qed.

Lemma to_ical_color_keeps : block_keeps_stamps to_ical_color.
Proof. intros event st st' H. unfold to_ical_color in H. block_done H. Qed.

Lemma to_ical_keywords_keeps : block_keeps_stamps to_ical_keywords.
Proof.
  intros event st st' H. unfold to_ical_keywords in H.
  eapply convert_member_keeps_stamps; [|exact H].
  intros ctx comp j ctx' comp' [= E].
  rewrite <- (stamps_keywords_to_ical ctx comp j). now rewrite E.
Qed.

Lemma to_ical_links_keeps : block_keeps_stamps (to_ical_links S).
Proof.
  intros event st st' H. eapply convert_member_keeps_stamps; [|exact H].
  intros ? ? ? ? ? E; cbv beta in E; eapply ks_links; eauto.
Qed.

Lemma to_ical_locale_keeps : block_keeps_stamps to_ical_locale.
Proof. intros event st st' H. unfold to_ical_locale in H. block_done H. Qed.

Lemma to_ical_locations_keeps : block_keeps_stamps (to_ical_locations S).
Proof.
  intros event st st' H. eapply convert_member_keeps_stamps; [|exact H].
  intros ? ? ? ? ? E; cbv beta in E; eapply ks_locations; eauto.
Qed.

Lemma to_ical_virtualLocations_keeps :
  block_keeps_stamps (to_ical_virtualLocations S).
Proof.
  intros event st st' H. eapply convert_member_keeps_stamps; [|exact H].
  intros ? ? ? ? ? E; cbv beta in E; eapply ks_virtuallocations; eauto.
Qed.

Lemma to_ical_recurrenceRule_keeps is_exc :
  block_keeps_stamps (to_ical_recurrenceRule L is_exc).
Proof.
  intros event st st' H. unfold to_ical_recurrenceRule in H.
  destruct (readprop _ _ _ _ _) as [pe ctx].
  destruct (_ && _); injection H as <-; [|reflexivity].
  cbn. apply stamps_recurrence_to_ical.
Qed.

Lemma to_ical_status_keeps : block_keeps_stamps to_ical_status.
Proof. intros event st st' H. unfold to_ical_status in H. block_done H. Qed.

Lemma to_ical_freeBusyStatus_keeps : block_keeps_stamps to_ical_freeBusyStatus.
Proof. intros event st st' H. unfold to_ical_freeBusyStatus in H. block_done H. Qed.

Lemma to_ical_privacy_keeps : block_keeps_stamps to_ical_privacy.
Proof. intros event st st' H. unfold to_ical_privacy in H. block_done H. Qed.

Lemma to_ical_participants_keeps : block_keeps_stamps (to_ical_participants S).
Proof.
  intros event st st' H. unfold to_ical_participants in H.
  destruct (participants_to_ical S _ _ _) as [[c1 comp1]|] eqn:E; [|discriminate].
  injection H as <-. cbn. eapply stamps_participants_to_ical; eauto.
Qed.

Lemma to_ical_useDefaultAlerts_keeps : block_keeps_stamps to_ical_useDefaultAlerts.
Proof. intros event st st' H. unfold to_ical_useDefaultAlerts in H. block_done H. Qed.

Lemma to_ical_alerts_keeps : block_keeps_stamps (to_ical_alerts S).
Proof.
  intros event st st' H. eapply convert_member_keeps_stamps; [|exact H].
  intros ? ? ? ? ? E; cbv beta in E; eapply ks_alerts; eauto.
Qed.

Lemma to_ical_recurrenceOverrides_keeps convert is_exc :
  block_keeps_stamps (to_ical_recurrenceOverrides L P convert is_exc).
Proof.
  intros event st st' H. unfold to_ical_recurrenceOverrides in H.
  destruct (readprop _ _ _ _ _) as [pe ctx].
  destruct (_ && _); [|now injection H as <-].
  destruct (json_object_get _ _) as [overrides|]; [|now injection H as <-].
  destruct (overrides_to_ical L P convert _ _ _ _) as [[[c1 i1] comp1]|] eqn:E;
    [|discriminate].
  injection H as <-. cbn. eapply stamps_overrides_to_ical; eauto.
Qed.

Lemma to_ical_sanity_keeps : block_keeps_stamps to_ical_sanity.
Proof. intros event st st' H. unfold to_ical_sanity in H. block_done H. Qed.

Lemma run_blocks_keeps_stamps blocks :
  Forall block_keeps_stamps blocks ->
  block_keeps_stamps (run_blocks blocks).
Proof.
  induction 1 as [|b rest Hb _ IH]; intros event st st' H.
  - now injection H as <-.
  - cbn [run_blocks] in H.
    destruct (b event st) as [st1|] eqn:E; cbn [mbind option_bind] in H;
      [|discriminate].
    apply IH in H. rewrite H. eapply Hb; eauto.
Qed.

Lemma blocks_after_sequence_keep convert is_exc :
  Forall block_keeps_stamps (blocks_after_sequence L P S convert is_exc).
Proof.
  unfold blocks_after_sequence.
  repeat constructor;
    auto using to_ical_priority_keeps, to_ical_title_keeps,
      to_ical_description_keeps, to_ical_method_keeps, to_ical_color_keeps,
      to_ical_keywords_keeps, to_ical_links_keeps, to_ical_locale_keeps,
      to_ical_locations_keeps, to_ical_virtualLocations_keeps,
      to_ical_recurrenceRule_keeps, to_ical_status_keeps,
      to_ical_freeBusyStatus_keeps, to_ical_privacy_keeps,
      to_ical_participants_keeps, to_ical_useDefaultAlerts_keeps,
      to_ical_alerts_keeps, to_ical_recurrenceOverrides_keeps,
      to_ical_sanity_keeps.
Qed.

End Frames.

Section Stamps.
Context (L : library) (P : from_ical_parts) (S : to_ical_parts).

Lemma stamped_stamps c c' : stamps c' = stamps c -> stamped L c -> stamped L c'.
Proof.
  intros H. unfold stamped, icalcomponent_get_sequence,
    icalcomponent_get_first_property.
  rewrite !(props_of_kind_stamps c') by reflexivity.
  rewrite !(props_of_kind_stamps c) by reflexivity.
  now rewrite H.
Qed.

Lemma prop_value_dtprop_new dt tz k :
  prop_value (dtprop_new L dt tz k) = val_datetime dt
  /\ prop_kind (dtprop_new L dt tz k) = k.
Proof. unfold dtprop_new. destruct tz; [destruct (negb _)|]; now split. Qed.

Lemma stamped_after_sequence (c : icalcomponent) :
  stamped L
    (icalcomponent_set_value
       (dtprop_to_ical L
          (dtprop_to_ical L c (icaltime_current_time_utc L) (Some utc_timezone)
             true ICAL_CREATED_PROPERTY)
          (icaltime_current_time_utc L) (Some utc_timezone) true
          ICAL_DTSTAMP_PROPERTY)
       ICAL_SEQUENCE_PROPERTY (val_integer 0)).
Proof.
  set (now := icaltime_current_time_utc L).
  unfold stamped. fold now.
  rewrite !props_of_kind_set_value_other by reflexivity.
  unfold dtprop_to_ical, dtprop_to_ical_then. cbv beta iota.
  destruct (prop_value_dtprop_new now (Some utc_timezone) ICAL_CREATED_PROPERTY)
    as [Hv1 Hk1].
  destruct (prop_value_dtprop_new now (Some utc_timezone) ICAL_DTSTAMP_PROPERTY)
    as [Hv2 Hk2].
  repeat (rewrite ?props_of_kind_add_property, ?props_of_kind_remove_icalprop,
            ?Hk1, ?Hk2;
          cbn [icalproperty_kind_eqb app map]).
  rewrite Hv1, Hv2. split; [reflexivity|]. split; [reflexivity|].
  unfold icalcomponent_get_sequence, icalcomponent_get_first_property,
    props_of_kind, icalcomponent_set_value. cbn [comp_props].
  match goal with
  | |- context [set_first_value ?props ?k ?v] =>
      destruct (head_set_first_value props k v) as (p & r & -> & Hp)
  end.
  cbn [head]. now rewrite Hp.
Qed.

Lemma run_blocks_app a b event st :
  run_blocks (a ++ b) event st = run_blocks a event st ≫= run_blocks b event.
Proof.
  revert st. induction a as [|x a IH]; intros st; cbn [run_blocks app].
  - reflexivity.
  - destruct (x event st) as [st1|]; cbn [mbind option_bind]; [apply IH|reflexivity].
Qed.

Lemma run_blocks_cons b rest event st :
  run_blocks (b :: rest) event st = b event st ≫= run_blocks rest event.
Proof. reflexivity. Qed.

Lemma run_blocks_nil event st : run_blocks [] event st = Some st.
Proof. reflexivity. Qed.

Lemma run_stamp_blocks event st :
  run_blocks [to_ical_created L; to_ical_updated L; to_ical_sequence] event st
  = Some (with_comp st
            (icalcomponent_set_value
               (dtprop_to_ical L
                  (dtprop_to_ical L (w_comp st) (icaltime_current_time_utc L)
                     (Some utc_timezone) true ICAL_CREATED_PROPERTY)
                  (icaltime_current_time_utc L) (Some utc_timezone) true
                  ICAL_DTSTAMP_PROPERTY)
               ICAL_SEQUENCE_PROPERTY (val_integer 0))).
Proof.
  rewrite run_blocks_cons. unfold to_ical_created at 1. cbn [mbind option_bind].
  rewrite run_blocks_cons. unfold to_ical_updated at 1. cbn [mbind option_bind].
  rewrite run_blocks_cons. unfold to_ical_sequence at 1. cbn [mbind option_bind].
  rewrite run_blocks_nil. unfold with_comp. reflexivity.
Qed.

Lemma blocks_to_sequence_split is_exc :
  blocks_to_sequence L S is_exc
  = ([to_ical_excluded; to_ical_uid; to_ical_type; to_ical_isAllDay;
      to_ical_startend L; to_ical_relatedTo S; to_ical_prodId L is_exc]
     ++ [to_ical_created L; to_ical_updated L; to_ical_sequence])%list.
Proof. reflexivity. Qed.

Lemma option_bind_Some {A B} (x : A) (f : A -> option B) : Some x ≫= f = f x.
Proof. reflexivity. Qed.

Lemma option_bind_None {A B} (f : A -> option B) : None ≫= f = None.
Proof. reflexivity. Qed.

Lemma calendarevent_to_ical_with_eq :
  calendarevent_to_ical_with L P S
  = fun convert ctx ical comp event =>
      run_blocks (blocks_to_sequence L S (is_exc_mode ctx)
                  ++ blocks_after_sequence L P S convert (is_exc_mode ctx))
        event (mk_wstate ctx ical comp) ≫= fun st =>
      Some (w_ctx st, w_ical st, w_comp st).
Proof. reflexivity. Qed.

Lemma calendarevent_to_ical_eq :
  calendarevent_to_ical L P S
  = calendarevent_to_ical_with L P S (calendarevent_to_ical_exception L P S).
Proof. reflexivity. Qed.

End Stamps.

(** *** The sub-converters of the source leave the three properties alone *)

Lemma fold_left_keeps_stamps {A} (f : context_t * icalcomponent -> A ->
                                      context_t * icalcomponent) (l : list A) :
  (forall st a, stamps (snd (f st a)) = stamps (snd st)) ->
  forall st, stamps (snd (fold_left f l st)) = stamps (snd st).
Proof.
  intros Hf. induction l as [|a r IH]; intros st; cbn [fold_left]; [reflexivity|].
  now rewrite IH, Hf.
Qed.

Lemma prop_kind_set_icalxparam p name v purge :
  prop_kind (set_icalxparam p name v purge) = prop_kind p.
Proof. now destruct purge. Qed.

Lemma prop_kind_add_parameter p a :
  prop_kind (icalproperty_add_parameter p a) = prop_kind p.
Proof. reflexivity. Qed.

Lemma prop_kind_set_value p v :
  prop_kind (icalproperty_set_value p v) = prop_kind p.
Proof. now destruct v. Qed.

Lemma prop_kind_fold_left {A} (f : icalproperty -> A -> icalproperty) (l : list A) :
  (forall p a, prop_kind (f p a) = prop_kind p) ->
  forall p, prop_kind (fold_left f l p) = prop_kind p.
Proof.
  intros Hf. induction l as [|a r IH]; intros p; cbn [fold_left]; [reflexivity|].
  now rewrite IH, Hf.
Qed.

Lemma stamps_description_to_ical ctx comp desc content_type :
  stamps (snd (Parts.description_to_ical ctx comp desc content_type)) = stamps comp.
Proof.
  unfold Parts.description_to_ical. cbn [snd].
  now rewrite stamps_set_value, stamps_remove_icalprop.
Qed.

Lemma stamps_link_to_ical L propname ctx comp id link :
  stamps (snd (Parts.link_to_ical L propname ctx comp id link)) = stamps comp.
Proof.
  unfold Parts.link_to_ical.
  repeat match goal with
         | |- context [let '(_, _) := ?x in _] => destruct x
         | |- context [if ?b then _ else _] => destruct b
         | |- context [match ?x with Some _ => _ | None => _ end] => destruct x
         end;
    cbn [snd]; try reflexivity;
    apply stamps_add_property;
    rewrite ?prop_kind_set_icalxparam, ?prop_kind_add_parameter; reflexivity.
Qed.

Lemma stamps_links_to_ical L ctx comp links propname :
  stamps (snd (Parts.links_to_ical L ctx comp links propname)) = stamps comp.
Proof.
  unfold Parts.links_to_ical.
  rewrite fold_left_keeps_stamps.
  - cbn [snd]. now rewrite !stamps_remove_icalprop.
  - intros st a. apply stamps_link_to_ical.
Qed.

Lemma stamps_add_component c s :
  stamps (icalcomponent_add_component c s) = stamps c.
Proof. reflexivity. Qed.

Lemma stamps_alert_to_ical L ctx comp id alert ctx' comp' :
  Parts.alert_to_ical L ctx comp id alert = Some (ctx', comp') ->
  stamps comp' = stamps comp.
Proof.
  unfold Parts.alert_to_ical.
  destruct (negb (is_valid_jmapid (Some id))); [now intros [= _ <-]|].
  destruct (Parts.readprop_string _ alert "offset" true) as [ctx1 s1].
  destruct (Parts.readprop_string _ alert "relativeTo" false) as [ctx2 s2].
  match goal with
  | |- context [match ?x with (_, _) => _ end] =>
      destruct x as [[ctx3 rel] is_neg]
  end.
  destruct (Parts.readprop_string _ alert "snoozed" false) as [ctx4 s4].
  match goal with
  | |- context [let '(_, _) := ?x in _] =>
      assert (Hc : stamps (snd x) = stamps comp)
        by (destruct s4 as [s4|]; [destruct (utcdate_to_icaltime L s4)|];
            reflexivity);
      destruct x as [ctx5 comp5]
  end.
  cbn [snd] in Hc.
  destruct (Parts.readprop_string _ alert "acknowledged" false) as [ctx6 s6].
  match goal with
  | |- context [let '(_, _) := ?x in _] => destruct x as [ctx7 alarm7]
  end.
  destruct (Parts.readprop_string _ alert "action" false) as [ctx8 s8].
  match goal with
  | |- context [let '(_, _) := ?x in _] => destruct x as [ctx9 is_email]
  end.
  match goal with
  | |- (?x ≫= _) = Some _ -> _ => destruct x; cbn [mbind option_bind]
  end; [|discriminate].
  match goal with
  | |- (?x ≫= _) = Some _ -> _ => destruct x; cbn [mbind option_bind]
  end; [|discriminate].
  intros [= _ <-]. exact Hc.
Qed.

Lemma stamps_alerts_to_ical L ctx comp alerts ctx' comp' :
  Parts.alerts_to_ical L ctx comp alerts = Some (ctx', comp') ->
  stamps comp' = stamps comp.
Proof.
  unfold Parts.alerts_to_ical.
  set (comp0 := mk_icalcomponent _ _ _).
  change (stamps comp) with (stamps comp0).
  destruct (negb (JNOTNULL alerts)); [now intros [= _ <-]|].
  generalize ctx comp0. clear ctx comp comp0.
  induction (members_of alerts) as [|kv r IH]; intros ctx comp; cbn [fold_left].
  - now intros [= _ <-].
  - cbn [mbind option_bind fst snd].
    destruct (Parts.alert_to_ical L ctx comp (fst kv) (Some (snd kv)))
      as [[ctx1 comp1]|] eqn:E.
    + intros H. apply IH in H. rewrite H. eapply stamps_alert_to_ical; eauto.
    + intros H. exfalso. clear -H.
      induction r as [|x r IHr]; [discriminate H|]. cbn [fold_left] in H.
      now apply IHr.
Qed.

Lemma stamps_location_to_ical L comp id loc :
  stamps (Parts.location_to_ical L comp id loc) = stamps comp.
Proof.
  unfold Parts.location_to_ical. apply stamps_add_property.
  rewrite prop_kind_fold_left by (intros; apply prop_kind_set_icalxparam).
  unfold Parts.set_icalxparam_if.
  repeat match goal with
         | |- context [match ?x with Some _ => _ | None => _ end] => destruct x
         | |- context [if ?b then _ else _] => destruct b
         end;
    rewrite ?prop_kind_set_icalxparam, ?prop_kind_set_value; reflexivity.
Qed.

Lemma stamps_locations_to_ical L ctx comp locations links :
  stamps (snd (Parts.locations_to_ical L ctx comp locations links)) = stamps comp.
Proof.
  unfold Parts.locations_to_ical.
  assert (Hpurge :
    stamps (remove_icalxprop
              (remove_icalxprop
                 (remove_icalprop (remove_icalprop comp ICAL_LOCATION_PROPERTY)
                                  ICAL_GEO_PROPERTY)
                 JMAPICAL_XPROP_LOCATION)
              "X-APPLE-STRUCTURED-LOCATION") = stamps comp).
  { now rewrite !stamps_remove_icalxprop, !stamps_remove_icalprop. }
  destruct (negb (JNOTNULL locations)); [exact Hpurge|].
  rewrite fold_left_keeps_stamps; [exact Hpurge|].
  intros [c k] kv. cbv beta iota.
  repeat match goal with
         | |- context [let '(_, _) := ?x in _] => destruct x
         | |- context [if ?b then _ else _] => destruct b
         end; cbn [snd]; try reflexivity.
  apply stamps_location_to_ical.
Qed.

Ltac pair_kind k :=
  match goal with
  | |- context [let '(_, _) := ?x in _] =>
      let H := fresh "Hk" in
      assert (H : prop_kind (snd x) = k)
        by (repeat match goal with
                   | |- context [match ?y with Some _ => _ | None => _ end] =>
                       destruct y
                   | |- context [if ?b then _ else _] => destruct b
                   end;
            cbn [snd];
            rewrite ?prop_kind_set_icalxparam, ?prop_kind_add_parameter,
              ?prop_kind_set_value;
            (assumption || reflexivity));
      destruct x as [? ?]; cbn [snd] in H
  end.

Lemma stamps_virtuallocations_to_ical L ctx comp locations :
  stamps (snd (Parts.virtuallocations_to_ical L ctx comp locations)) = stamps comp.
Proof.
  unfold Parts.virtuallocations_to_ical.
  assert (Hpurge : stamps (remove_icalprop comp ICAL_CONFERENCE_PROPERTY)
                   = stamps comp) by now rewrite stamps_remove_icalprop.
  destruct (negb (JNOTNULL locations)); [exact Hpurge|].
  rewrite fold_left_keeps_stamps; [exact Hpurge|].
  intros [c k] kv. cbv beta iota.
  destruct (negb (is_valid_jmapid (Some (fst kv)))); [reflexivity|].
  cbv zeta.
  do 3 pair_kind ICAL_CONFERENCE_PROPERTY.
  cbn [snd]. apply stamps_add_property. now rewrite Hk1.
Qed.

Lemma stamps_on_organizer comp f :
  (forall p, prop_kind (f p) = prop_kind p) ->
  stamps (Parts.on_organizer comp f) = stamps comp.
Proof.
  intros Hf. unfold stamps, Parts.on_organizer. cbn [comp_props].
  induction (comp_props comp) as [|p r IH]; [reflexivity|]. cbn [update_first].
  destruct (icalproperty_kind_eqb (prop_kind p) ICAL_ORGANIZER_PROPERTY) eqn:E.
  - cbn [List.filter]. rewrite Hf.
    apply icalproperty_kind_eqb_eq in E. rewrite E. reflexivity.
  - cbn [List.filter]. now rewrite IH.
Qed.

Lemma stamps_add_parameter_both is_orga st param :
  stamps (Parts.ps_comp (Parts.add_parameter_both is_orga st param))
  = stamps (Parts.ps_comp st).
Proof.
  unfold Parts.add_parameter_both. cbn [Parts.ps_comp].
  destruct is_orga; [|reflexivity]. now apply stamps_on_organizer.
Qed.

Lemma ps_comp_invalid_if_set st j name :
  Parts.ps_comp (Parts.invalid_if_set st j name) = Parts.ps_comp st.
Proof. unfold Parts.invalid_if_set. now destruct (JNOTNULL j). Qed.

Ltac part_done :=
  repeat match goal with
         | |- context [let '(_, _) := ?x in _] => destruct x
         | |- context [if ?b then _ else _] => destruct b
         | |- context [match ?x with _ => _ end] => destruct x
         end;
  unfold Parts.with_ps_prop, Parts.with_ps_ctx;
  repeat (progress (cbn [Parts.ps_comp];
                    rewrite ?ps_comp_invalid_if_set, ?stamps_add_parameter_both));
  reflexivity.

Lemma participant_blocks_keep_stamps L is_orga participants links table :
  Forall (fun block => forall jpart st,
              stamps (Parts.ps_comp (block jpart st)) = stamps (Parts.ps_comp st))
         (Parts.participant_blocks L is_orga participants links table).
Proof.
  unfold Parts.participant_blocks.
  repeat constructor; intros jpart st.
  - unfold Parts.participant_name. part_done.
  - unfold Parts.participant_sendTo. part_done.
  - unfold Parts.participant_email. part_done.
  - unfold Parts.participant_kind. part_done.
  - unfold Parts.participant_attendance. part_done.
  - unfold Parts.participant_roles. part_done.
  - unfold Parts.participant_locationId. part_done.
  - unfold Parts.participant_participationStatus. part_done.
  - unfold Parts.participant_expectReply. part_done.
  - unfold Parts.participant_refs. part_done.
  - unfold Parts.participant_refs. part_done.
  - unfold Parts.participant_refs. part_done.
  - unfold Parts.participant_linkIds. part_done.
  - unfold Parts.participant_scheduleSequence. part_done.
  - unfold Parts.participant_scheduleUpdated. part_done.
Qed.

Lemma fold_left_keeps_kind {A} (f : context_t * icalproperty -> A ->
                                    context_t * icalproperty) (l : list A) :
  (forall cp a, prop_kind (snd (f cp a)) = prop_kind (snd cp)) ->
  forall cp, prop_kind (snd (fold_left f l cp)) = prop_kind (snd cp).
Proof.
  intros Hf. induction l as [|a r IH]; intros cp; cbn [fold_left]; [reflexivity|].
  now rewrite IH, Hf.
Qed.

Lemma prop_kind_participant_roles_to_ical ctx prop roles ical_role is_replyto :
  prop_kind (snd (Parts.participant_roles_to_ical ctx prop roles ical_role
                    is_replyto)) = prop_kind prop.
Proof.
  unfold Parts.participant_roles_to_ical.
  destruct (_ =? _)%nat; [reflexivity|]. cbv zeta.
  destruct (_ =? 0); cbn [snd].
  - now destruct (json_is_true _).
  - apply prop_kind_fold_left. intros p kv.
    destruct (_ && _); [reflexivity|apply prop_kind_set_icalxparam].
Qed.

Lemma ps_prop_invalid_if_set st j name :
  Parts.ps_prop (Parts.invalid_if_set st j name) = Parts.ps_prop st.
Proof. unfold Parts.invalid_if_set. now destruct (JNOTNULL j). Qed.

Ltac kind_fold :=
  match goal with
  | |- context [let '(_, _) := fold_left ?f ?l ?cp in _] =>
      let H := fresh "Hk" in
      assert (H : prop_kind (snd (fold_left f l cp)) = prop_kind (snd cp))
        by (apply fold_left_keeps_kind; intros [? ?] ?;
            repeat match goal with
                   | |- context [match ?y with Some _ => _ | None => _ end] =>
                       destruct y
                   | |- context [if ?b then _ else _] => destruct b
                   end;
            cbn [snd]; rewrite ?prop_kind_set_icalxparam; reflexivity);
      destruct (fold_left f l cp) as [? ?]; cbn [snd] in H;
      cbn [Parts.ps_prop]; exact H
  end.

Ltac kind_done :=
  repeat match goal with
         | |- context [if ?b then _ else _] => destruct b
         | |- context [match ?x with Some _ => _ | None => _ end] => destruct x
         end;
  unfold Parts.with_ps_prop, Parts.with_ps_ctx, Parts.add_parameter_both;
  repeat (progress (cbn [Parts.ps_prop];
                    rewrite ?ps_prop_invalid_if_set, ?prop_kind_set_icalxparam,
                      ?prop_kind_add_parameter));
  try reflexivity.

Lemma participant_blocks_keep_kind L is_orga participants links table :
  Forall (fun block => forall jpart st,
              prop_kind (Parts.ps_prop (block jpart st))
              = prop_kind (Parts.ps_prop st))
         (Parts.participant_blocks L is_orga participants links table).
Proof.
  unfold Parts.participant_blocks.
  repeat constructor; intros jpart st.
  - unfold Parts.participant_name. kind_done.
  - unfold Parts.participant_sendTo.
    destruct (_ <? _)%nat; [|now rewrite ps_prop_invalid_if_set].
    cbv zeta. kind_fold.
  - unfold Parts.participant_email. kind_done.
  - unfold Parts.participant_kind.
    destruct (json_string_value _); [|now rewrite ps_prop_invalid_if_set].
    cbv zeta. destruct (if streq _ _ then _ else _) as [cu| |]; try reflexivity.
    now destruct cu.
  - unfold Parts.participant_attendance. kind_done.
  - unfold Parts.participant_roles.
    destruct (_ <? _)%nat.
    + pose proof (prop_kind_participant_roles_to_ical (Parts.ps_ctx st)
                    (Parts.ps_prop st) (json_object_get jpart "roles")
                    (Parts.attendance_role jpart) is_orga) as H.
      destruct (Parts.participant_roles_to_ical _ _ _ _ _). exact H.
    + now destruct (is_some _).
  - unfold Parts.participant_locationId. kind_done.
  - unfold Parts.participant_participationStatus. kind_done.
  - unfold Parts.participant_expectReply. kind_done.
  - unfold Parts.participant_refs.
    destruct (_ <? _)%nat; [|now rewrite ps_prop_invalid_if_set]. kind_fold.
  - unfold Parts.participant_refs.
    destruct (_ <? _)%nat; [|now rewrite ps_prop_invalid_if_set]. kind_fold.
  - unfold Parts.participant_refs.
    destruct (_ <? _)%nat; [|now rewrite ps_prop_invalid_if_set]. kind_fold.
  - unfold Parts.participant_linkIds.
    destruct (_ <? _)%nat; [|now rewrite ps_prop_invalid_if_set]. kind_fold.
  - unfold Parts.participant_scheduleSequence. kind_done.
  - unfold Parts.participant_scheduleUpdated. kind_done.
Qed.

Lemma fold_participant_blocks {T} (get : Parts.part_state -> T)
    (blocks : list (option json_t -> Parts.part_state -> Parts.part_state)) jpart :
  Forall (fun block => forall jpart st, get (block jpart st) = get st) blocks ->
  forall st, get (fold_left (fun st block => block jpart st) blocks st) = get st.
Proof.
  induction 1 as [|b r Hb _ IH]; intros st; cbn [fold_left]; [reflexivity|].
  now rewrite IH, Hb.
Qed.

Lemma stamps_participant_to_ical L ctx comp id jpart participants links orga_uri
    table ctx' comp' :
  Parts.participant_to_ical L ctx comp id jpart participants links orga_uri table
    = Some (ctx', comp') ->
  stamps comp' = stamps comp.
Proof.
  unfold Parts.participant_to_ical.
  destruct (table !! id) as [caladdress|]; cbn [mbind option_bind]; [|discriminate].
  destruct orga_uri as [orga_uri|]; cbn [mbind option_bind]; [|discriminate].
  set (is_orga := match_uri caladdress orga_uri).
  set (comp0 := if is_orga then _ else comp).
  assert (H0 : stamps comp0 = stamps comp).
  { unfold comp0. destruct is_orga; [|reflexivity].
    apply stamps_on_organizer. intros p. apply prop_kind_set_icalxparam. }
  set (st := fold_left _ _ _).
  assert (Hst : stamps (Parts.ps_comp st) = stamps comp).
  { unfold st.
    rewrite (fold_participant_blocks (fun st => stamps (Parts.ps_comp st)))
      by apply participant_blocks_keep_stamps.
    exact H0. }
  assert (Hadd : stamps (icalcomponent_add_property (Parts.ps_comp st)
                           (Parts.ps_prop st)) = stamps comp).
  { rewrite stamps_add_property; [exact Hst|].
    unfold st.
    rewrite (fold_participant_blocks (fun st => prop_kind (Parts.ps_prop st)))
      by apply participant_blocks_keep_kind.
    reflexivity. }
  destruct is_orga.
  - destruct (icalcomponent_get_first_property _ _) as [orga|];
      cbn [mbind option_bind]; [|discriminate].
    destruct (Parts.participant_equals L _ jpart); intros [= _ <-]; assumption.
  - intros [= _ <-]; assumption.
Qed.

(** The sub-converters of the source leave CREATED, DTSTAMP and SEQUENCE
    alone. *)
Lemma keeps_stamps_source L : keeps_stamps (source_to_ical_parts L).
Proof.
  constructor; cbn [source_to_ical_parts description_to_ical links_to_ical
                    locations_to_ical virtuallocations_to_ical alerts_to_ical
                    participant_to_ical].
  - intros ctx comp desc ct ctx' comp' H.
    rewrite <- (stamps_description_to_ical ctx comp desc ct).
    now replace (Parts.description_to_ical ctx comp desc ct) with (ctx', comp')
      by congruence.
  - intros ctx comp links name ctx' comp' H.
    rewrite <- (stamps_links_to_ical L ctx comp (Some links) name).
    now replace (Parts.links_to_ical L ctx comp (Some links) name)
      with (ctx', comp') by congruence.
  - intros ctx comp locations links ctx' comp' H.
    rewrite <- (stamps_locations_to_ical L ctx comp (Some locations) links).
    now replace (Parts.locations_to_ical L ctx comp (Some locations) links)
      with (ctx', comp') by congruence.
  - intros ctx comp locations ctx' comp' H.
    rewrite <- (stamps_virtuallocations_to_ical L ctx comp (Some locations)).
    now replace (Parts.virtuallocations_to_ical L ctx comp (Some locations))
      with (ctx', comp') by congruence.
  - intros ctx comp alerts ctx' comp'. apply stamps_alerts_to_ical.
  - intros ctx comp id jpart participants links orga_uri table ctx' comp'.
    apply stamps_participant_to_ical.
Qed.

(** *** The VEVENTs of the recurrence overrides *)

Section Exceptions.
Context (L : library) (P : from_ical_parts) (S : to_ical_parts).

Lemma exceptions_stamped_on_parent ical f :
  (forall i, comp_comps (f i) = comp_comps i) ->
  exceptions_stamped L ical -> exceptions_stamped L (on_parent ical f).
Proof.
  intros Hf. destruct ical as [i|]; [|exact id]. cbn [on_parent exceptions_stamped].
  now rewrite Hf.
Qed.

Lemma convert_member_keeps_parent event name accept f st st' :
  convert_member event name accept f st = Some st' -> w_ical st' = w_ical st.
Proof.
  intros H. unfold convert_member in H.
  destruct (readprop _ _ _ _ _) as [pe ctx].
  destruct (pe >? 0); [|now injection H as <-].
  destruct (json_object_get (Some event) name) as [j|]; [|now injection H as <-].
  destruct (_ || _); [|now injection H as <-].
  destruct (f ctx (w_comp st) j) as [[c1 comp1]|]; [|discriminate].
  now injection H as <-.
Qed.

Ltac parent_done H :=
  repeat match type of H with
         | context [let '(_, _) := ?x in _] => destruct x
         | context [if ?b then _ else _] => destruct b
         | context [match ?x with _ => _ end] => destruct x
         end;
  try discriminate H;
  injection H as <-; unfold with_comp, with_ctx, with_ctx_comp; cbn [w_ical];
  first [assumption
        | apply exceptions_stamped_on_parent; [reflexivity|assumption]].

Lemma same_parent_keeps_exceptions b :
  (forall event st st', b event st = Some st' -> w_ical st' = w_ical st) ->
  block_keeps_exceptions L b.
Proof. intros Hb event st st' H. now rewrite (Hb _ _ _ H). Qed.

Lemma exceptions_override_to_ical convert master st id override st' :
  stamps_converter L convert ->
  override_to_ical L convert master st id override = Some st' ->
  exceptions_stamped L (os_ical st) -> exceptions_stamped L (os_ical st').
Proof.
  intros Hc H Hok. unfold override_to_ical in H.
  destruct (localdate_to_icaltime L id _ _) as [start|];
    [|now injection H as <-].
  destruct (json_object_get (Some override) "excluded") as [excluded|].
  - destruct (_ && _); now injection H as <-.
  - destruct (_ =? _)%nat; [now injection H as <-|].
    destruct (existsb _ _); [now injection H as <-|].
    destruct (jmap_patchobject_apply L master _) as [ex|];
      [|now injection H as <-].
    destruct (convert _ _ ex) as [[toctx excomp]|] eqn:E;
      cbn [mbind option_bind] in H; [|discriminate].
    destruct (if have_invalid_props toctx then _ else _) as [c|];
      cbn [mbind option_bind] in H; [|discriminate].
    injection H as <-. cbn [os_ical].
    destruct (os_ical st) as [i|]; [|exact I].
    cbn [exceptions_stamped] in Hok |- *.
    unfold icalcomponent_add_component. cbn [comp_comps].
    apply Forall_app. split; [exact Hok|].
    apply List.Forall_cons; [|apply List.Forall_nil]. eapply Hc; eauto.
Qed.

Lemma exceptions_overrides_loop convert master todo : forall st st',
  stamps_converter L convert ->
  overrides_loop L convert master todo st = Some st' ->
  exceptions_stamped L (os_ical st) -> exceptions_stamped L (os_ical st').
Proof.
  induction todo as [|[id override] rest IH]; intros st st' Hc H Hok.
  - now injection H as <-.
  - cbn [overrides_loop] in H.
    destruct (override_to_ical L convert master st id override) as [st1|] eqn:E;
      cbn [mbind option_bind] in H; [|discriminate].
    eapply IH; eauto. eapply exceptions_override_to_ical; eauto.
Qed.

Lemma exceptions_stamped_without_vevents i :
  exceptions_stamped L (Some i) ->
  exceptions_stamped L (Some (without_vevents i)).
Proof.
  unfold exceptions_stamped, without_vevents. cbn [comp_comps].
  induction 1 as [|c r Hc _ IH]; cbn [List.filter]; [apply List.Forall_nil|].
  destruct (negb _); [apply List.Forall_cons; [exact Hc|exact IH]|exact IH].
Qed.

Lemma exceptions_overrides_to_ical convert ctx ical comp overrides ctx' ical' comp' :
  stamps_converter L convert ->
  overrides_to_ical L P convert ctx ical comp overrides = Some (ctx', ical', comp') ->
  exceptions_stamped L ical -> exceptions_stamped L ical'.
Proof.
  intros Hc H Hok. unfold overrides_to_ical in H.
  destruct (index_exceptions L _ _) as [recurs|]; cbn [mbind option_bind] in H;
    [|discriminate].
  set (ical0 := match ical with Some i => Some (without_vevents i) | None => None end)
    in H.
  assert (H0 : exceptions_stamped L ical0).
  { unfold ical0. destruct ical as [i|]; [|exact I].
    now apply exceptions_stamped_without_vevents. }
  destruct (json_is_null (Some overrides)); [now injection H as _ <- _|].
  destruct (calendarevent_from_ical L P _ _ _) as [[c master]|];
    cbn [mbind option_bind] in H; [|discriminate].
  destruct (overrides_loop L convert _ _ _) as [st|] eqn:E;
    cbn [mbind option_bind] in H; [|discriminate].
  injection H as _ <- _.
  eapply exceptions_overrides_loop in E; eauto.
Qed.

Lemma to_ical_recurrenceOverrides_keeps_exceptions convert is_exc :
  stamps_converter L convert ->
  block_keeps_exceptions L (to_ical_recurrenceOverrides L P convert is_exc).
Proof.
  intros Hc event st st' H Hok. unfold to_ical_recurrenceOverrides in H.
  destruct (readprop _ _ _ _ _) as [pe ctx].
  destruct (_ && _); [|now injection H as <-].
  destruct (json_object_get _ _) as [overrides|]; [|now injection H as <-].
  destruct (overrides_to_ical L P convert _ _ _ _) as [[[c1 i1] comp1]|] eqn:E;
    [|discriminate].
  injection H as <-. cbn [w_ical]. eapply exceptions_overrides_to_ical; eauto.
Qed.

Lemma run_blocks_keeps_exceptions blocks :
  Forall (block_keeps_exceptions L) blocks ->
  block_keeps_exceptions L (run_blocks blocks).
Proof.
  induction 1 as [|b rest Hb _ IH]; intros event st st' H Hok.
  - now injection H as <-.
  - cbn [run_blocks] in H.
    destruct (b event st) as [st1|] eqn:E; cbn [mbind option_bind] in H;
      [|discriminate].
    eapply IH; eauto.
Qed.

Ltac member_done :=
  apply same_parent_keeps_exceptions;
  let H := fresh in
  intros ? ? ? H; exact (convert_member_keeps_parent _ _ _ _ _ _ H).

Lemma to_ical_excluded_keeps_exceptions :
  block_keeps_exceptions L (to_ical_excluded).
Proof.
  intros event st st'. unfold to_ical_excluded. intros H Hok. parent_done H.
Qed.

Lemma to_ical_uid_keeps_exceptions :
  block_keeps_exceptions L (to_ical_uid).
Proof.
  intros event st st'. unfold to_ical_uid. intros H Hok. parent_done H.
Qed.

Lemma to_ical_type_keeps_exceptions :
  block_keeps_exceptions L (to_ical_type).
Proof.
  intros event st st'. unfold to_ical_type. intros H Hok. parent_done H.
Qed.

Lemma to_ical_isAllDay_keeps_exceptions :
  block_keeps_exceptions L (to_ical_isAllDay).
Proof.
  intros event st st'. unfold to_ical_isAllDay. intros H Hok. parent_done H.
Qed.

Lemma to_ical_startend_keeps_exceptions :
  block_keeps_exceptions L (to_ical_startend L).
Proof.
  intros event st st'. unfold to_ical_startend.
  destruct (startend_to_ical L _ _ _) as [[c1 comp1]|]; [|discriminate].
  intros H Hok. now injection H as <-.
Qed.

Lemma to_ical_relatedTo_keeps_exceptions :
  block_keeps_exceptions L (to_ical_relatedTo S).
Proof. member_done. Qed.

Lemma to_ical_prodId_keeps_exceptions is_exc :
  block_keeps_exceptions L (to_ical_prodId L is_exc).
Proof.
  intros event st st'. unfold to_ical_prodId. intros H Hok. parent_done H.
Qed.

Lemma to_ical_created_keeps_exceptions :
  block_keeps_exceptions L (to_ical_created L).
Proof.
  intros event st st'. unfold to_ical_created. intros H Hok. parent_done H.
Qed.

Lemma to_ical_updated_keeps_exceptions :
  block_keeps_exceptions L (to_ical_updated L).
Proof.
  intros event st st'. unfold to_ical_updated. intros H Hok. parent_done H.
Qed.

Lemma to_ical_sequence_keeps_exceptions :
  block_keeps_exceptions L (to_ical_sequence).
Proof.
  intros event st st'. unfold to_ical_sequence. intros H Hok. parent_done H.
Qed.

Lemma to_ical_priority_keeps_exceptions :
  block_keeps_exceptions L (to_ical_priority).
Proof.
  intros event st st'. unfold to_ical_priority. intros H Hok. parent_done H.
Qed.

Lemma to_ical_title_keeps_exceptions :
  block_keeps_exceptions L (to_ical_title).
Proof.
  intros event st st'. unfold to_ical_title. intros H Hok. parent_done H.
Qed.

Lemma to_ical_description_keeps_exceptions :
  block_keeps_exceptions L (to_ical_description S).
Proof.
  intros event st st'. unfold to_ical_description.
  destruct (readprop _ _ _ _ _) as [pe0 ctx0].
  destruct (readprop _ _ _ _ _) as [pe ctx].
  destruct (pe >? 0); [|now intros [= <-]].
  destruct (json_string_value _) as [desc|]; [|now intros [= <-]].
  destruct (_ <? _)%nat; [|now intros [= <-]].
  destruct (description_to_ical S _ _ _ _) as [[c1 comp1]|]; [|discriminate].
  now intros [= <-].
Qed.

Lemma to_ical_method_keeps_exceptions :
  block_keeps_exceptions L (to_ical_method L).
Proof.
  intros event st st'. unfold to_ical_method. intros H Hok. parent_done H.
Qed.

Lemma to_ical_color_keeps_exceptions :
  block_keeps_exceptions L (to_ical_color).
Proof.
  intros event st st'. unfold to_ical_color. intros H Hok. parent_done H.
Qed.

Lemma to_ical_keywords_keeps_exceptions :
  block_keeps_exceptions L to_ical_keywords.
Proof. member_done. Qed.

Lemma to_ical_links_keeps_exceptions :
  block_keeps_exceptions L (to_ical_links S).
Proof. member_done. Qed.

Lemma to_ical_locale_keeps_exceptions :
  block_keeps_exceptions L (to_ical_locale).
Proof.
  intros event st st'. unfold to_ical_locale. intros H Hok. parent_done H.
Qed.

Lemma to_ical_locations_keeps_exceptions :
  block_keeps_exceptions L (to_ical_locations S).
Proof. member_done. Qed.

Lemma to_ical_virtualLocations_keeps_exceptions :
  block_keeps_exceptions L (to_ical_virtualLocations S).
Proof. member_done. Qed.

Lemma to_ical_recurrenceRule_keeps_exceptions is_exc :
  block_keeps_exceptions L (to_ical_recurrenceRule L is_exc).
Proof.
  intros event st st'. unfold to_ical_recurrenceRule.
  destruct (readprop _ _ _ _ _) as [pe ctx].
  destruct (_ && _); now intros [= <-].
Qed.

Lemma to_ical_status_keeps_exceptions :
  block_keeps_exceptions L (to_ical_status).
Proof.
  intros event st st'. unfold to_ical_status. intros H Hok. parent_done H.
Qed.

Lemma to_ical_freeBusyStatus_keeps_exceptions :
  block_keeps_exceptions L (to_ical_freeBusyStatus).
Proof.
  intros event st st'. unfold to_ical_freeBusyStatus. intros H Hok. parent_done H.
Qed.

Lemma to_ical_privacy_keeps_exceptions :
  block_keeps_exceptions L (to_ical_privacy).
Proof.
  intros event st st'. unfold to_ical_privacy. intros H Hok. parent_done H.
Qed.

Lemma to_ical_participants_keeps_exceptions :
  block_keeps_exceptions L (to_ical_participants S).
Proof.
  intros event st st'. unfold to_ical_participants.
  destruct (participants_to_ical S _ _ _) as [[c1 comp1]|]; [|discriminate].
  now intros [= <-].
Qed.

Lemma to_ical_useDefaultAlerts_keeps_exceptions :
  block_keeps_exceptions L (to_ical_useDefaultAlerts).
Proof.
  intros event st st'. unfold to_ical_useDefaultAlerts. intros H Hok. parent_done H.
Qed.

Lemma to_ical_alerts_keeps_exceptions :
  block_keeps_exceptions L (to_ical_alerts S).
Proof. member_done. Qed.

Lemma to_ical_sanity_keeps_exceptions :
  block_keeps_exceptions L (to_ical_sanity).
Proof.
  intros event st st'. unfold to_ical_sanity. intros H Hok. parent_done H.
Qed.

Lemma blocks_keep_exceptions convert is_exc :
  stamps_converter L convert ->
  Forall (block_keeps_exceptions L)
         (blocks_to_sequence L S is_exc
          ++ blocks_after_sequence L P S convert is_exc).
Proof.
  intros Hc. unfold blocks_to_sequence, blocks_after_sequence. cbn [app].
  repeat constructor;
    auto using to_ical_excluded_keeps_exceptions, to_ical_uid_keeps_exceptions,
      to_ical_type_keeps_exceptions, to_ical_isAllDay_keeps_exceptions,
      to_ical_startend_keeps_exceptions, to_ical_relatedTo_keeps_exceptions,
      to_ical_prodId_keeps_exceptions, to_ical_created_keeps_exceptions,
      to_ical_updated_keeps_exceptions, to_ical_sequence_keeps_exceptions,
      to_ical_priority_keeps_exceptions, to_ical_title_keeps_exceptions,
      to_ical_description_keeps_exceptions, to_ical_method_keeps_exceptions,
      to_ical_color_keeps_exceptions, to_ical_keywords_keeps_exceptions,
      to_ical_links_keeps_exceptions, to_ical_locale_keeps_exceptions,
      to_ical_locations_keeps_exceptions,
      to_ical_virtualLocations_keeps_exceptions,
      to_ical_recurrenceRule_keeps_exceptions, to_ical_status_keeps_exceptions,
      to_ical_freeBusyStatus_keeps_exceptions, to_ical_privacy_keeps_exceptions,
      to_ical_participants_keeps_exceptions,
      to_ical_useDefaultAlerts_keeps_exceptions, to_ical_alerts_keeps_exceptions,
      to_ical_recurrenceOverrides_keeps_exceptions, to_ical_sanity_keeps_exceptions.
Qed.

End Exceptions.

Section Stamped.
Context (L : library) (P : from_ical_parts) (S : to_ical_parts).
Hypothesis HS : keeps_stamps S.

(** The VEVENT that a conversion returns has the three properties as the
    blocks of [created], [updated] and [sequence] set them: these blocks
    always run, and no block after them touches these properties. *)
Lemma calendarevent_to_ical_with_stamped convert ctx ical comp event
    ctx' ical' comp' :
  calendarevent_to_ical_with L P S convert ctx ical comp event
    = Some (ctx', ical', comp') ->
  stamped L comp'.
Proof.
  intros H. rewrite calendarevent_to_ical_with_eq in H.
  rewrite run_blocks_app, blocks_to_sequence_split, run_blocks_app in H.
  destruct (run_blocks _ event (mk_wstate ctx ical comp)) as [st0|].
  2:{ rewrite !option_bind_None in H. discriminate H. }
  rewrite option_bind_Some, run_stamp_blocks, option_bind_Some in H.
  match type of H with
  | context [run_blocks (blocks_after_sequence L P S ?convert ?e) event ?s] =>
      destruct (run_blocks (blocks_after_sequence L P S convert e) event s)
        as [st'|] eqn:Etail
  end.
  2:{ rewrite option_bind_None in H. discriminate H. }
  rewrite option_bind_Some in H.
  injection H as _ _ <-.
  apply (run_blocks_keeps_stamps _ (blocks_after_sequence_keep L P S HS _ _)) in Etail.
  apply (stamped_stamps _ _ _ Etail).
  apply stamped_after_sequence.
Qed.

Lemma calendarevent_to_ical_exception_eq :
  calendarevent_to_ical_exception L P S
  = fun ctx comp event =>
      '(ctx, _, comp) ← calendarevent_to_ical_with L P S (fun _ _ _ => None)
                           ctx None comp event;
      Some (ctx, comp).
Proof. reflexivity. Qed.

(** So has every exception VEVENT. *)
Lemma calendarevent_to_ical_exception_stamped :
  stamps_converter L (calendarevent_to_ical_exception L P S).
Proof.
  intros toctx excomp ex toctx' excomp' H.
  rewrite calendarevent_to_ical_exception_eq in H.
  destruct (calendarevent_to_ical_with L P S _ toctx None excomp ex)
    as [[[c i] k]|] eqn:E.
  2:{ rewrite option_bind_None in H. discriminate H. }
  rewrite option_bind_Some in H. injection H as _ <-.
  eapply calendarevent_to_ical_with_stamped; eauto.
Qed.

Lemma calendarevent_to_ical_exceptions ctx ical comp event ctx' ical' comp' :
  calendarevent_to_ical L P S ctx ical comp event = Some (ctx', ical', comp') ->
  exceptions_stamped L ical -> exceptions_stamped L ical'.
Proof.
  intros H Hok.
  rewrite calendarevent_to_ical_eq, calendarevent_to_ical_with_eq in H.
  destruct (run_blocks _ event (mk_wstate ctx ical comp)) as [st|] eqn:E.
  2:{ rewrite option_bind_None in H. discriminate H. }
  rewrite option_bind_Some in H. injection H as _ <- _.
  eapply (run_blocks_keeps_exceptions L) in E; [exact (E Hok)|].
  apply blocks_keep_exceptions. apply calendarevent_to_ical_exception_stamped.
Qed.

End Stamped.

Lemma jmapical_toical_eq L P S :
  jmapical_toical L P S
  = fun obj err =>
      match uid (toical_context obj err) with
      | None =>
          Some (None,
                match err with
                | Some e => Some (mk_err JMAPICAL_ERROR_UID (props e))
                | None => None
                end)
      | Some _ =>
          '(ctx, ical, comp) ← calendarevent_to_ical L P S (toical_context obj err)
                                  (Some new_vcalendar) (new_vevent L) obj;
          let ical :=
            match ical with
            | Some i => Some (icalcomponent_add_required_timezones L
                                (attach_first i comp))
            | None => None
            end in
          let '(ctx, ical) :=
            if have_invalid_props ctx && is_some err
            then (set_err ctx (mk_err JMAPICAL_ERROR_PROPS (get_invalid_props ctx)),
                  None)
            else (ctx, ical) in
          let ical := if errcode_is_set (code (Ctx.err ctx)) then None else ical in
          Some (ical, match err with
                      | Some _ => Some (Ctx.err ctx)
                      | None => None
                      end)
      end.
Proof. reflexivity. Qed.

(** C9.  Whatever the event says about [created], [updated] and
    [sequence], in its recurrence overrides as well: a tree that
    [jmapical_toical] returns is what [icalcomponent_add_required_timezones]
    makes of a VCALENDAR whose components are the VEVENT of the event,
    [comp], and after it the VEVENTs of the recurrence overrides,
    [exceptions]; each of these components carries exactly one CREATED and
    one DTSTAMP, both with the current time in UTC, and SEQUENCE 0.  The
    converters of descriptions, links, locations, alerts and participants
    are those of the source. *)
Theorem jmapical_toical_stamps (L : library) (P : from_ical_parts)
    (obj : json_t) (err : option jmapical_err_t)
    (tree : icalcomponent) (e : option jmapical_err_t) :
  jmapical_toical L P (source_to_ical_parts L) obj err = Some (Some tree, e) ->
  exists vcalendar comp exceptions,
    tree = icalcomponent_add_required_timezones L vcalendar
    /\ comp_comps vcalendar = comp :: exceptions
    /\ Forall (stamped L) (comp :: exceptions).
Proof.
  intros H. rewrite jmapical_toical_eq in H.
  destruct (uid (toical_context obj err)); [|discriminate H].
  destruct (calendarevent_to_ical L P _ _ _ _ obj) as [[[ctx ical] comp]|] eqn:E.
  2:{ rewrite option_bind_None in H. discriminate H. }
  rewrite option_bind_Some in H. cbv beta iota zeta in H.
  assert (Hcomp : stamped L comp).
  { rewrite calendarevent_to_ical_eq in E.
    eapply calendarevent_to_ical_with_stamped; [apply keeps_stamps_source|exact E]. }
  assert (Hexc : exceptions_stamped L ical).
  { eapply calendarevent_to_ical_exceptions;
      [apply keeps_stamps_source|exact E|].
    apply List.Forall_nil. }
  destruct ical as [i|].
  - exists (attach_first i comp), comp, (comp_comps i).
    split; [|split; [reflexivity|]].
    + destruct (have_invalid_props ctx && is_some err); cbv beta iota in H.
      * destruct (errcode_is_set _); discriminate H.
      * destruct (errcode_is_set _); [discriminate H|]. now injection H as <- _.
    + apply List.Forall_cons; [exact Hcomp|exact Hexc].
  - exfalso.
    destruct (have_invalid_props ctx && is_some err); cbv beta iota in H;
      destruct (errcode_is_set _); discriminate H.
Qed.

(** A use of C9, on an event that passes [created], [updated] and
    [sequence] and whose recurrence override passes [sequence]. *)
Lemma jmapical_toical_stamps_witness :
  exists tree e,
    jmapical_toical sample_library sample_from_ical_parts
      (source_to_ical_parts sample_library) event_stamps_override None
    = Some (Some tree, e)
    /\ exists vcalendar comp exceptions,
         tree = icalcomponent_add_required_timezones sample_library vcalendar
         /\ comp_comps vcalendar = comp :: exceptions
         /\ Forall (stamped sample_library) (comp :: exceptions).
Proof.
  do 2 eexists. split; [vm_compute; reflexivity|].
  eapply (jmapical_toical_stamps sample_library sample_from_ical_parts
            event_stamps_override None).
  vm_compute. reflexivity.
Defined.

(** On this event the tree has two VEVENTs, the one of the event and the
    one of the override, and none of the values that the event passes. *)
Example event_stamps_override_tree :
  exists tree,
    jmapical_toical sample_library sample_from_ical_parts
      (source_to_ical_parts sample_library) event_stamps_override None
    = Some (Some tree, None)
    /\ map icalcomponent_isa (comp_comps tree)
       = [ICAL_VEVENT_COMPONENT; ICAL_VEVENT_COMPONENT]
    /\ map icalcomponent_get_sequence (comp_comps tree) = [0; 0]
    /\ map (fun c => map prop_value (props_of_kind c ICAL_CREATED_PROPERTY))
           (comp_comps tree)
       = [[val_datetime sample_time]; [val_datetime sample_time]].
Proof.
  eexists. split; [vm_compute; reflexivity|].
  split; [|split]; vm_compute; reflexivity.
Qed.

(* ===================================================================== *)
(** ** What the context records *)
(* ===================================================================== *)

Lemma members_set_idem m k v : members_set (members_set m k v) k v = members_set m k v.
Proof.
  induction m as [|[k' w] r IH]; simpl.
  - now rewrite String.eqb_refl.
  - destruct (String.eqb k' k) eqn:E; simpl; rewrite E; [reflexivity|now rewrite IH].
Qed.

Lemma members_set_NoDup m k v :
  NoDup (map fst m) -> NoDup (map fst (members_set m k v)).
Proof.
  rewrite members_set_keys. intros H.
  destruct (is_some (members_get m k)) eqn:E; [exact H|].
  apply NoDup_app. split; [exact H|]. split; [|repeat constructor; easy].
  intros x Hx Hk. apply list_elem_of_singleton in Hk. subst x.
  clear H. induction m as [|[k' w] r IH]; [easy|]. simpl in *.
  destruct (String.eqb_spec k' k) as [->|Hne]; [discriminate E|].
  apply elem_of_cons in Hx as [Hx|Hx]; [congruence|]. now apply IH.
Qed.

Lemma members_set_length m k v :
  length (members_set m k v)
  = if is_some (members_get m k) then length m else Datatypes.S (length m).
Proof.
  induction m as [|[k' w] r IH]; simpl; [reflexivity|].
  destruct (String.eqb k' k); simpl; [reflexivity|].
  rewrite IH. now destruct (is_some (members_get r k)).
Qed.

(** X1.  [invalidprop] reports a path once: recording the same name again
    changes nothing, a map without repeated paths stays without, the
    number of entries grows by one exactly when the path is new, and no
    entry is ever lost. *)
Theorem invalidprop_once_per_path (ctx : context_t) (name : option string) :
  invalidprop (invalidprop ctx name) name = invalidprop ctx name
  /\ (NoDup (map fst (invalid ctx)) ->
      NoDup (map fst (invalid (invalidprop ctx name))))
  /\ (forall p, encodeprop ctx name = Some p ->
        invalid_prop_count (invalidprop ctx name)
        = if is_some (members_get (invalid ctx) p)
          then invalid_prop_count ctx
          else Datatypes.S (invalid_prop_count ctx))
  /\ (forall p, is_some (members_get (invalid ctx) p) = true ->
        is_some (members_get (invalid (invalidprop ctx name)) p) = true).
Proof.
  unfold invalidprop.
  destruct (encodeprop ctx name) as [p|] eqn:E.
  - assert (E' : encodeprop (set_invalid ctx (members_set (invalid ctx) p json_null))
                            name = Some p) by exact E.
    rewrite E'. split; [|split; [|split]].
    + destruct ctx; unfold set_invalid; cbn. now rewrite members_set_idem.
    + intros H. cbn. now apply members_set_NoDup.
    + intros q [= <-]. unfold invalid_prop_count, json_object_size. cbn.
      apply members_set_length.
    + intros q H. cbn. now apply members_get_set_some.
  - rewrite E. split; [reflexivity|]. split; [auto|]. split; [discriminate|auto].
Qed.

(** X2.  What was recorded can be told from either accessor:
    [get_invalid_props] returns [NULL], not an empty array, exactly when
    [have_invalid_props] is false, and its array has [invalid_prop_count]
    entries.  After [invalidprop] with a name there is always something to
    report; with a [NULL] name and an empty path nothing is recorded. *)
Theorem get_invalid_props_agrees (ctx : context_t) (name : string) :
  is_some (get_invalid_props ctx) = have_invalid_props ctx
  /\ json_array_size (get_invalid_props ctx) = invalid_prop_count ctx
  /\ get_invalid_props ctx
     = (if have_invalid_props ctx
        then Some (json_array (map json_string (map fst (invalid ctx))))
        else None)
  /\ have_invalid_props (invalidprop ctx (Some name)) = true
  /\ (propstr ctx = [] -> invalidprop ctx None = ctx).
Proof.
  split; [|split; [|split; [|split]]].
  - unfold get_invalid_props, have_invalid_props, json_object_size.
    cbn [members_of]. now destruct (invalid ctx).
  - unfold get_invalid_props, invalid_prop_count, json_object_size, json_array_size.
    cbn [members_of]. destruct (invalid ctx) as [|kv r]; [reflexivity|].
    cbn [map items_of length]. now rewrite length_map.
  - unfold get_invalid_props, have_invalid_props, json_object_size.
    cbn [members_of]. destruct (invalid ctx) as [|kv r]; [reflexivity|].
    cbn [length Nat.ltb Nat.leb]. now rewrite map_map.
  - unfold invalidprop, encodeprop, have_invalid_props, json_object_size.
    cbn [members_of invalid set_invalid].
    pose proof (members_set_not_nil (invalid ctx)
                  (join_path (propstr (beginprop ctx name))) json_null) as Hne.
    destruct (members_set _ _ _); [contradiction|reflexivity].
  - intros Hp. unfold invalidprop, encodeprop. now rewrite Hp.
Qed.

(* ===================================================================== *)
(** ** URIs and x-parameters *)
(* ===================================================================== *)

(** *** Strings *)

Lemma append_String (c : ascii) (a b : string) :
  String c a ++ b = String c (a ++ b).
Proof. reflexivity. Qed.

Lemma append_Empty (b : string) : EmptyString ++ b = b.
Proof. reflexivity. Qed.

Lemma strprefix_strdrop (n : nat) (s : string) :
  strprefix n s ++ strdrop n s = s.
Proof.
  revert s. induction n as [|n IH]; intros [|c r]; cbn [strprefix strdrop];
    rewrite ?append_String, ?append_Empty; try reflexivity.
  f_equal. apply IH.
Qed.

Lemma strchr_split (s : string) (c : ascii) (n : nat) :
  strchr s c = Some n ->
  strchr (strprefix n s) c = None
  /\ String.length (strprefix n s) = n
  /\ exists r, strdrop n s = String c r.
Proof.
  revert n. induction s as [|d r IH]; intros n H; simpl in H; [discriminate|].
  destruct (Ascii.eqb_spec d c) as [->|Hne].
  - injection H as <-. simpl. eauto.
  - destruct (strchr r c) as [i|] eqn:E; [|discriminate].
    injection H as <-. destruct (IH i eq_refl) as (H1 & H2 & H3).
    simpl. rewrite (proj2 (Ascii.eqb_neq d c) Hne), H1, H2. auto.
Qed.

Lemma strchr_app_none (a b : string) (c : ascii) :
  strchr a c = None ->
  strchr (a ++ String c b) c = Some (String.length a).
Proof.
  induction a as [|d r IH]; rewrite ?append_String, ?append_Empty; simpl; intros H.
  - now rewrite Ascii.eqb_refl.
  - destruct (Ascii.eqb d c); [discriminate|].
    destruct (strchr r c); [discriminate|]. now rewrite IH.
Qed.

Lemma tolower_colon (c : ascii) :
  Ascii.eqb (tolower c) ":"%char = Ascii.eqb c ":"%char.
Proof.
  unfold tolower, isupper.
  destruct c as [[] [] [] [] [] [] [] []]; reflexivity.
Qed.

Lemma strchr_lcase_colon (s : string) :
  strchr (lcase s) ":"%char = strchr s ":"%char.
Proof.
  unfold lcase. induction s as [|d r IH]; simpl; [reflexivity|].
  now rewrite tolower_colon, IH.
Qed.

Lemma lcase_length (s : string) : String.length (lcase s) = String.length s.
Proof. unfold lcase. induction s; simpl; congruence. Qed.

Lemma lcase_app (a b : string) : lcase (a ++ b) = lcase a ++ lcase b.
Proof.
  unfold lcase. induction a as [|c a IH]; [reflexivity|].
  rewrite append_String. simpl. rewrite append_String. now rewrite IH.
Qed.

Lemma strprefix_app_length (a b : string) :
  strprefix (String.length a) (a ++ b) = a.
Proof.
  induction a as [|c a IH]; [now destruct b|].
  rewrite append_String. simpl. now rewrite IH.
Qed.

Lemma strdrop_app_length (a b : string) :
  strdrop (String.length a) (a ++ b) = b.
Proof.
  induction a as [|c a IH]; [now destruct b|].
  rewrite append_String. simpl. exact IH.
Qed.

(** The normal form of a URI that has a colon. *)
Lemma normalized_uri_colon (uri : string) (col : nat) :
  strchr uri ":"%char = Some col ->
  exists r,
    strdrop col uri = String ":"%char r
    /\ normalized_uri uri = lcase (strprefix col uri) ++ String ":"%char r
    /\ strchr (lcase (strprefix col uri)) ":"%char = None
    /\ String.length (lcase (strprefix col uri)) = col.
Proof.
  intros H. destruct (strchr_split _ _ _ H) as (H1 & H2 & r & H3).
  exists r. unfold normalized_uri. rewrite H, H3.
  rewrite strchr_lcase_colon, lcase_length. auto.
Qed.

(** X3.  [match_uri] holds exactly when the two URIs have the same
    [normalized_uri]: the scheme, up to the first colon, is compared without
    regard to case, and the rest byte by byte. *)
Theorem match_uri_iff_same_normalized_uri (uri1 uri2 : string) :
  match_uri uri1 uri2 = String.eqb (normalized_uri uri1) (normalized_uri uri2).
Proof.
  unfold match_uri.
  destruct (strchr uri1 ":"%char) as [col1|] eqn:E1;
    destruct (strchr uri2 ":"%char) as [col2|] eqn:E2.
  - destruct (normalized_uri_colon _ _ E1) as (r1 & D1 & N1 & C1 & L1).
    destruct (normalized_uri_colon _ _ E2) as (r2 & D2 & N2 & C2 & L2).
    rewrite N1, N2.
    destruct (Nat.eqb_spec col1 col2) as [->|Hne].
    + unfold strncaseeq, strcaseeq, streq. rewrite D1, D2.
      destruct (String.eqb_spec (lcase (strprefix col2 uri1))
                                (lcase (strprefix col2 uri2))) as [->|Hp].
      * destruct (String.eqb_spec (String ":"%char r1) (String ":"%char r2))
          as [->|Hr]; cbn [andb].
        -- symmetry. apply String.eqb_refl.
        -- symmetry. apply String.eqb_neq. intros H.
           apply (f_equal (strdrop (String.length (lcase (strprefix col2 uri2))))) in H.
           rewrite !strdrop_app_length in H. contradiction.
      * cbn [andb]. symmetry. apply String.eqb_neq. intros H.
        set (A := lcase (strprefix col2 uri1)) in *.
        set (B := lcase (strprefix col2 uri2)) in *.
        pose proof (strprefix_app_length A (String ":"%char r1)) as HA.
        pose proof (strprefix_app_length B (String ":"%char r2)) as HB.
        rewrite L1 in HA. rewrite L2 in HB. rewrite H in HA. congruence.
    + symmetry. apply String.eqb_neq. intros H.
      apply (f_equal (fun s => strchr s ":"%char)) in H.
      rewrite !strchr_app_none in H by assumption.
      injection H as H. congruence.
  - unfold normalized_uri at 2. rewrite E2.
    destruct (normalized_uri_colon _ _ E1) as (r1 & D1 & N1 & C1 & L1).
    rewrite N1. symmetry. apply String.eqb_neq. intros H.
    apply (f_equal (fun s => strchr s ":"%char)) in H.
    rewrite strchr_app_none in H by assumption. congruence.
  - unfold normalized_uri at 1. rewrite E1.
    destruct (normalized_uri_colon _ _ E2) as (r2 & D2 & N2 & C2 & L2).
    rewrite N2. symmetry. apply String.eqb_neq. intros H.
    apply (f_equal (fun s => strchr s ":"%char)) in H.
    rewrite strchr_app_none in H by assumption. congruence.
  - unfold normalized_uri. rewrite E1, E2. reflexivity.
Qed.

(** X4.  [mailaddr_from_uri] undoes [mailaddr_to_uri] up to
    [address_canonicalise], whatever the address is: a query part is not cut
    off before the address is canonicalised.  A URI that is [NULL] or does
    not start with [mailto:] in any case gives [NULL]. *)
Theorem mailaddr_from_uri_to_uri (L : library) (addr : string) :
  mailaddr_from_uri L (Some (mailaddr_to_uri addr)) = address_canonicalise L addr
  /\ mailaddr_from_uri L (Some ("MAILTO:" ++ addr)) = address_canonicalise L addr
  /\ mailaddr_from_uri L None = None
  /\ (forall uri, strncaseeq uri "mailto:" 7 = false ->
                  mailaddr_from_uri L (Some uri) = None).
Proof.
  split; [reflexivity|]. split; [reflexivity|]. split; [reflexivity|].
  intros uri H. unfold mailaddr_from_uri. now rewrite H.
Qed.

Lemma strcaseeq_refl (s : string) : strcaseeq s s = true.
Proof. apply String.eqb_refl. Qed.

Lemma xparams_add (p : icalproperty) (a : icalparameter) :
  xparams (icalproperty_add_parameter p a)
  = (xparams p ++ match a with param_x n v => [(n, v)] | _ => [] end)%list.
Proof.
  unfold xparams, icalproperty_add_parameter. cbn [prop_params].
  rewrite omap_app. now destruct a.
Qed.

Lemma xparams_remove (p : icalproperty) (name : string) :
  xparams (remove_icalxparam p name)
  = List.filter (fun nv => negb (strcaseeq (fst nv) name)) (xparams p).
Proof.
  unfold xparams, remove_icalxparam. cbn [prop_params].
  induction (prop_params p) as [|a r IH]; [reflexivity|]. cbn [List.filter omap list_omap].
  destruct a; cbn [List.filter omap list_omap]; rewrite ?IH; try reflexivity.
  cbn [fst]. destruct (strcaseeq xname name); cbn; now rewrite ?IH.
Qed.

Lemma filter_filter_negb {A} (f : A -> bool) (l : list A) :
  List.filter f (List.filter (fun x => negb (f x)) l) = [].
Proof.
  induction l as [|x r IH]; [reflexivity|]. simpl.
  destruct (f x) eqn:E; simpl; [exact IH|]. now rewrite E.
Qed.

(** X5.  Reading an x-parameter back after [set_icalxparam]: with [purge],
    the value read is the one set; without [purge], a value that was there
    before under the same name (in any case) is still the one read, and the
    new one is read only when there was none.  [remove_icalxparam] leaves no
    value to read, and neither of them changes what is read for a name that
    differs in more than case. *)
Theorem get_icalxparam_value_after_set
    (p : icalproperty) (name val : string) (purge : bool) :
  get_icalxparam_value (set_icalxparam p name val purge) name
  = (if purge then Some val
     else match get_icalxparam_value p name with
          | Some old => Some old
          | None => Some val
          end)
  /\ get_icalxparam_value (remove_icalxparam p name) name = None
  /\ (forall other,
        strcaseeq name other = false ->
        get_icalxparam_value (set_icalxparam p name val purge) other
        = get_icalxparam_value p other
        /\ get_icalxparam_value (remove_icalxparam p name) other
           = get_icalxparam_value p other).
Proof.
  unfold get_icalxparam_value, set_icalxparam.
  assert (Hrm : List.filter (fun nv : string * string => strcaseeq (fst nv) name)
                  (xparams (remove_icalxparam p name)) = []).
  { rewrite xparams_remove. apply filter_filter_negb. }
  split; [|split].
  - rewrite xparams_add, List.filter_app. cbn [List.filter fst].
    rewrite strcaseeq_refl.
    destruct purge.
    + now rewrite Hrm.
    + destruct (List.filter _ (xparams p)) as [|[n v] r]; reflexivity.
  - now rewrite Hrm.
  - intros other Hne.
    assert (Hother : List.filter (fun nv : string * string => strcaseeq (fst nv) other)
                       (xparams (remove_icalxparam p name))
                     = List.filter (fun nv => strcaseeq (fst nv) other) (xparams p)).
    { rewrite xparams_remove.
      induction (xparams p) as [|[n v] r IH]; [reflexivity|]. cbn [List.filter fst].
      destruct (strcaseeq n name) eqn:E1; cbn [negb List.filter fst].
      - destruct (strcaseeq n other) eqn:E2; [|exact IH].
        unfold strcaseeq in *. apply String.eqb_eq in E1, E2.
        rewrite <- E1, E2, String.eqb_refl in Hne. discriminate.
      - now rewrite IH. }
    split.
    + rewrite xparams_add, List.filter_app. cbn [List.filter fst]. rewrite Hne.
      rewrite app_nil_r. destruct purge; [now rewrite Hother|reflexivity].
    + now rewrite Hother.
Qed.

(* ===================================================================== *)
(** ** The organizer's replyTo; keywords without [true] *)
(* ===================================================================== *)

(* ------------------------------------------------------------------- *)
(** *** replyTo of the ORGANIZER *)

Lemma match_uri_refl (uri : string) : match_uri uri uri = true.
Proof.
  unfold match_uri, strncaseeq, strcaseeq, streq.
  destruct (strchr uri ":"%char) as [col|]; [|apply String.eqb_refl].
  now rewrite Nat.eqb_refl, !String.eqb_refl.
Qed.

Lemma members_get_In (m : list (string * json_t)) (k : string) (v : json_t) :
  NoDup (map fst m) -> In (k, v) m -> members_get m k = Some v.
Proof.
  induction m as [|[k' w] r IH]; intros Hnd Hin; [contradiction|].
  cbn [map fst] in Hnd. apply NoDup_cons in Hnd as [Hk Hnd].
  cbn [members_get]. destruct Hin as [[= -> ->]|Hin].
  - now rewrite String.eqb_refl.
  - destruct (String.eqb_spec k' k) as [->|]; [|now apply IH].
    exfalso. apply Hk. apply list_elem_of_In.
    change k with (fst (k, v)). now apply in_map.
Qed.

Lemma rsvpto_add_uri_NoDup (uris : list string) :
  forall rsvpTo,
    NoDup (map fst rsvpTo) ->
    NoDup (map fst (fold_left rsvpto_add_uri uris rsvpTo)).
Proof.
  induction uris as [|u uris IH]; intros rsvpTo H; [exact H|].
  cbn [fold_left]. apply IH. unfold rsvpto_add_uri.
  destruct (strchr u ":"%char) as [col1|]; [|now apply members_set_NoDup].
  destruct (strchr (strdrop (Datatypes.S col1) u) ":"%char);
    now apply members_set_NoDup.
Qed.

(** X6.  The [replyTo] object of an ORGANIZER always offers the
    organizer's calendar address: one of its methods has a URI that matches
    the value of the property, either because an RSVP-URI parameter gave
    it, or because it was added as [imip] or [other]. *)
Theorem rsvpto_from_ical_offers_caladdress (L : library) (prop : icalproperty) :
  exists method uri,
    json_object_get (Some (rsvpto_from_ical L prop)) method = Some (json_string uri)
    /\ match_uri (icalproperty_get_value_as_string L prop) uri = true.
Proof.
  unfold rsvpto_from_ical.
  set (uris := map snd _).
  assert (Hnd : NoDup (map fst (fold_left rsvpto_add_uri uris []))).
  { apply rsvpto_add_uri_NoDup. constructor. }
  set (rsvpTo := fold_left rsvpto_add_uri uris []) in *.
  set (caladdress := icalproperty_get_value_as_string L prop).
  destruct (existsb _ rsvpTo) eqn:E.
  - apply existsb_exists in E as ([k v] & Hin & Hm). cbn [snd] in Hm.
    destruct v; try discriminate Hm. cbn [json_string_value] in Hm.
    exists k. eexists. split; [|exact Hm].
    destruct rsvpTo as [|kv r] eqn:Er; [contradiction|].
    unfold json_object_get. cbn [members_of]. now apply members_get_In.
  - destruct (strncaseeq caladdress "mailto:" 7);
      [exists "imip" | exists "other"]; exists caladdress;
      (split; [|apply match_uri_refl]);
      match goal with
      | |- context [members_set ?m ?k ?v] =>
          pose proof (members_set_not_nil m k v) as Hne;
          pose proof (members_get_set_eq m k v) as Hget;
          destruct (members_set m k v); [contradiction|exact Hget]
      end.
Qed.

(* ------------------------------------------------------------------- *)
(** *** Keywords that are not [true] *)

Lemma keywords_to_ical_invalid kws : forall ctx comp key,
  existsb (fun kv => String.eqb (fst kv) key && negb (json_is_true (Some (snd kv))))
          kws = true
  \/ is_some (members_get (invalid ctx) (keyword_path ctx key)) = true ->
  let r := fold_left
             (fun st kv =>
                let '(ctx, comp) := st in
                match snd kv with
                | json_true =>
                    (ctx, icalcomponent_add_property comp
                            (icalproperty_new_value ICAL_CATEGORIES_PROPERTY
                               (val_text (fst kv))))
                | _ =>
                    (endprop (invalidprop (beginprop ctx "keywords") (Some (fst kv))),
                     comp)
                end) kws (ctx, comp) in
  is_some (members_get (invalid (fst r)) (keyword_path ctx key)) = true
  /\ propstr (fst r) = propstr ctx.
Proof.
  induction kws as [|[k v] kws IH]; intros ctx comp key H; cbn [fold_left].
  - cbn [fst]. destruct H as [H|H]; [discriminate H|]. now split.
  - cbn [fst snd existsb] in *.
    set (ctx1 := endprop (invalidprop (beginprop ctx "keywords") (Some k))).
    assert (Hp : propstr ctx1 = propstr ctx).
    { subst ctx1. unfold endprop, invalidprop, encodeprop. cbn.
      apply strarray_pop_push. }
    assert (Hpath : forall key', keyword_path ctx1 key' = keyword_path ctx key').
    { intros key'. unfold keyword_path. now rewrite Hp. }
    assert (Hk : is_some (members_get (invalid ctx1) (keyword_path ctx k)) = true).
    { subst ctx1. unfold endprop, invalidprop, encodeprop, keyword_path.
      cbn. unfold strarray_push. rewrite <- app_assoc. cbn [app].
      now rewrite members_get_set_eq. }
    assert (Hkeep : forall p, is_some (members_get (invalid ctx) p) = true ->
                              is_some (members_get (invalid ctx1) p) = true).
    { intros p Hp'. subst ctx1. unfold endprop, invalidprop, encodeprop. cbn.
      now apply members_get_set_some. }
    destruct v;
      try (specialize (IH ctx1 comp key); rewrite Hpath, Hp in IH; apply IH;
           cbn [json_is_true negb] in H; rewrite andb_true_r in H;
           destruct H as [H|H];
           [apply orb_true_iff in H as [H|H];
            [right; apply String.eqb_eq in H; subst key; exact Hk|now left]
           |right; now apply Hkeep]).
    apply IH. cbn [json_is_true negb] in H. rewrite andb_false_r in H.
    exact H.
Qed.

(** X7.  [keywords_to_ical] records every keyword whose value is not
    [true] under [keywords/keyword], below the path of the context, keeps
    what was recorded before, and leaves the path as it was. *)
Theorem keywords_to_ical_records
    (ctx : context_t) (comp : icalcomponent) (kws : list (string * json_t))
    (key : string) (v : json_t) :
  In (key, v) kws ->
  v <> json_true ->
  is_some (members_get (invalid (fst (keywords_to_ical ctx comp (json_object kws))))
                       (keyword_path ctx key)) = true
  /\ propstr (fst (keywords_to_ical ctx comp (json_object kws))) = propstr ctx.
Proof.
  intros Hin Hv. unfold keywords_to_ical. cbn [members_of].
  apply keywords_to_ical_invalid. left.
  apply existsb_exists. exists (key, v). split; [exact Hin|].
  cbn [fst snd]. rewrite String.eqb_refl. now destruct v.
Qed.

(** A use of X7, on the keyword [draft], which is [false]. *)
Lemma keywords_to_ical_records_witness :
  In ("draft", json_false)
     [("work", json_true); ("draft", json_false); ("home", json_true)]
  /\ json_false <> json_true
  /\ is_some (members_get
                (invalid (fst (keywords_to_ical
                                 (context_new None None JMAPICAL_WRITE_MODE)
                                 vevent_first
                                 (json_object [("work", json_true);
                                               ("draft", json_false);
                                               ("home", json_true)]))))
                (keyword_path (context_new None None JMAPICAL_WRITE_MODE) "draft"))
     = true
  /\ propstr (fst (keywords_to_ical (context_new None None JMAPICAL_WRITE_MODE)
                     vevent_first
                     (json_object [("work", json_true); ("draft", json_false);
                                   ("home", json_true)])))
     = propstr (context_new None None JMAPICAL_WRITE_MODE).
Proof.
  assert (Hin : In ("draft", json_false)
                   [("work", json_true); ("draft", json_false);
                    ("home", json_true)]) by (simpl; auto).
  assert (Hv : json_false <> json_true) by discriminate.
  split; [exact Hin|]. split; [exact Hv|].
  apply (keywords_to_ical_records (context_new None None JMAPICAL_WRITE_MODE)
           vevent_first
           [("work", json_true); ("draft", json_false); ("home", json_true)]
           "draft" json_false Hin Hv).
Defined.

Example keyword_path_sample :
  keyword_path (context_new None None JMAPICAL_WRITE_MODE) "draft"
  = "keywords/draft".
Proof. reflexivity. Qed.

(* ===================================================================== *)
(** ** The events of a calendar; the participation status *)
(* ===================================================================== *)

Section Tojmap_more.
Context (L : library) (P : from_ical_parts).

Lemma convert_todo_app ical props err popped : forall events,
  convert_todo L P ical props err popped events
  = evs ← mapM (fun comp =>
                  snd <$> calendarevent_from_ical L P
                            (context_new props err JMAPICAL_READ_MODE)
                            (Some ical) comp) popped;
    Some (events ++ evs)%list.
Proof.
  induction popped as [|c rest IH]; intros events.
  - cbn. now rewrite app_nil_r.
  - rewrite convert_todo_cons. cbn [mapM].
    destruct (calendarevent_from_ical L P _ (Some ical) c) as [[c' o]|];
      [|reflexivity].
    rewrite option_bind_Some, IH. cbn [fmap option_fmap option_map snd].
    rewrite option_bind_Some.
    destruct (mapM _ rest) as [evs|]; [|reflexivity].
    cbn. now rewrite <- app_assoc.
Qed.

(** X8.  [jmapical_tojmap_all] converts the main VEVENTs (those with a UID
    and without a RECURRENCE-ID) from the last to the first, each in a fresh
    context, and the array holds their events in that order.  When no VEVENT
    is a main one, the first VEVENT of the calendar is converted in their
    place; a calendar without a VEVENT gives the empty array. *)
Theorem jmapical_tojmap_all_events
    (ical : icalcomponent) (props : option json_t) (err : option jmapical_err_t) :
  jmapical_tojmap_all L P ical props err
  = let vevents := comps_of_kind ical ICAL_VEVENT_COMPONENT in
    let mains := List.filter (is_main_vevent L) vevents in
    let todo := match mains, head vevents with
                | [], Some firstcomp => [firstcomp]
                | _, _ => mains
                end in
    json_array <$> mapM (fun comp =>
                           snd <$> calendarevent_from_ical L P
                                     (context_new props err JMAPICAL_READ_MODE)
                                     (Some ical) comp) (rev todo).
Proof.
  cbv zeta.
  set (vevents := comps_of_kind ical ICAL_VEVENT_COMPONENT).
  set (mains := List.filter (is_main_vevent L) vevents).
  set (todo := match mains, head vevents with
               | [], Some firstcomp => [firstcomp]
               | _, _ => mains
               end).
  unfold jmapical_tojmap_all.
  fold vevents. rewrite todo_is_filter. cbn [app]. fold mains.
  assert (Htodo : match head vevents, mains with
                  | Some firstcomp, [] => ptrarray_push mains firstcomp
                  | _, _ => mains
                  end = todo).
  { subst todo. destruct (head vevents), mains; reflexivity. }
  rewrite Htodo. clear Htodo.
  destruct todo as [|c rest] eqn:E; [reflexivity|].
  rewrite <- E. rewrite convert_todo_app.
  destruct (mapM _ (rev todo)) as [evs|]; reflexivity.
Qed.

(** X9.  Without a main VEVENT, [jmapical_tojmap] returns [NULL] for a
    calendar that has no VEVENT at all, and otherwise the conversion of the
    calendar's first VEVENT, whatever it is. *)
Theorem jmapical_tojmap_without_main_vevent
    (ical : icalcomponent) (props : option json_t) (err : option jmapical_err_t) :
  List.filter (is_main_vevent L) (comps_of_kind ical ICAL_VEVENT_COMPONENT) = [] ->
  jmapical_tojmap L P ical props err
  = match head (comps_of_kind ical ICAL_VEVENT_COMPONENT) with
    | None => Some None
    | Some firstcomp =>
        r ← calendarevent_from_ical L P (context_new props err JMAPICAL_READ_MODE)
              (Some ical) firstcomp;
        Some (Some (snd r))
    end.
Proof.
  intros Hmain. unfold jmapical_tojmap, jmapical_tojmap_all.
  rewrite todo_is_filter, Hmain. cbn [app].
  destruct (head (comps_of_kind ical ICAL_VEVENT_COMPONENT)) as [firstcomp|];
    [|reflexivity].
  unfold ptrarray_push. cbn [app rev]. rewrite convert_todo_cons.
  destruct (calendarevent_from_ical L P _ (Some ical) firstcomp) as [[c o]|];
    reflexivity.
Qed.

End Tojmap_more.

(** A use of X9, on [only_exception]. *)
Lemma jmapical_tojmap_without_main_vevent_witness :
  List.filter (is_main_vevent sample_library)
              (comps_of_kind only_exception ICAL_VEVENT_COMPONENT) = []
  /\ jmapical_tojmap sample_library sample_from_ical_parts only_exception None None
     = match head (comps_of_kind only_exception ICAL_VEVENT_COMPONENT) with
       | None => Some None
       | Some firstcomp =>
           r ← calendarevent_from_ical sample_library sample_from_ical_parts
                 (context_new None None JMAPICAL_READ_MODE)
                 (Some only_exception) firstcomp;
           Some (Some (snd r))
       end.
Proof.
  split; [reflexivity|].
  apply (jmapical_tojmap_without_main_vevent sample_library sample_from_ical_parts
           only_exception None None).
  reflexivity.
Defined.

(** The exception of [only_exception] is returned as an event of its own,
    with its uid. *)
Example jmapical_tojmap_only_exception :
  exists event,
    jmapical_tojmap sample_library sample_from_ical_parts only_exception None None
      = Some (Some event)
    /\ json_object_get (Some event) "uid" = Some (json_string "exc").
Proof. eexists. split; vm_compute; reflexivity. Qed.

Section Partstat_more.
Context (L : library).

(** X10.  The [participationStatus] loop of [participant_from_ical] is left
    after at most [65 - depth] iterations when the DELEGATED-TO parameter of
    the attendee has a value or is missing. *)
Theorem partstat_loop_is_left
    (prop : icalproperty) (attendee_by_uri : gmap string icalproperty)
    (fuel : nat) : forall (partstat_prop : icalproperty) (depth : Z),
  icalproperty_get_first_parameter prop ICAL_DELEGATEDTO_PARAMETER
    <> Some (param_delegatedto None) ->
  (depth <= 64)%Z -> (Z.to_nat (65 - depth) <= fuel)%nat ->
  exists partstat,
    partstat_loop fuel prop partstat_prop attendee_by_uri depth = Some partstat.
Proof.
  induction fuel as [|fuel IH]; intros pp depth Hto Hdepth Hfuel; [lia|].
  cbn [partstat_loop].
  destruct (icalproperty_get_first_parameter pp ICAL_PARTSTAT_PARAMETER)
    as [[]|]; eauto.
  match goal with v : icalparameter_partstat |- _ => destruct v end; eauto.
  destruct (icalproperty_get_first_parameter prop ICAL_DELEGATEDTO_PARAMETER)
    as [[]|]; eauto.
  match goal with v : option string |- _ => destruct v as [to|] end;
    [|congruence].
  destruct (attendee_by_uri !! normalized_uri to) as [next|]; eauto.
  destruct (depth + 1 >? 64)%Z eqn:E; eauto.
  apply IH; [congruence|lia|lia].
Qed.

(** X11.  When the attendee's PARTSTAT is DELEGATED and libical gives [NULL]
    for its DELEGATED-TO parameter, the loop is never left: no number of
    iterations gives a result. *)
Theorem partstat_loop_null_delegate_never_left
    (prop : icalproperty) (attendee_by_uri : gmap string icalproperty)
    (depth : Z) (fuel : nat) :
  icalproperty_get_first_parameter prop ICAL_PARTSTAT_PARAMETER
    = Some (param_partstat ICAL_PARTSTAT_DELEGATED) ->
  icalproperty_get_first_parameter prop ICAL_DELEGATEDTO_PARAMETER
    = Some (param_delegatedto None) ->
  partstat_loop fuel prop prop attendee_by_uri depth = None.
Proof.
  intros Hps Hto. destruct fuel as [|fuel]; [reflexivity|].
  cbn [partstat_loop]. now rewrite Hps, Hto.
Qed.

End Partstat_more.

(** A use of X10, on a delegator whose delegate is not an attendee. *)
Lemma partstat_loop_is_left_witness :
  exists partstat,
    partstat_loop 65 (delegator (Some "mailto:b@example.com"))
      (delegator (Some "mailto:b@example.com")) ∅ 0 = Some partstat.
Proof.
  apply (partstat_loop_is_left (delegator (Some "mailto:b@example.com")) ∅ 65
           (delegator (Some "mailto:b@example.com")) 0).
  - discriminate.
  - lia.
  - simpl. lia.
Defined.

(** A use of X11, with a thousand iterations. *)
Lemma partstat_loop_null_delegate_never_left_witness :
  partstat_loop 1000 (delegator None) (delegator None) ∅ 0 = None.
Proof.
  apply (partstat_loop_null_delegate_never_left (delegator None) ∅ 0 1000);
    reflexivity.
Defined.

(* ===================================================================== *)
(** ** The properties asked for *)
(* ===================================================================== *)

Lemma members_get_set m k v k' :
  members_get (members_set m k v) k'
  = if String.eqb k k' then Some v else members_get m k'.
Proof.
  destruct (String.eqb_spec k k') as [<-|Hne].
  - apply members_get_set_eq.
  - now apply members_get_set_ne.
Qed.

(** The members of [filter_wanted w event]: those of [event] that [w]
    names. *)
Lemma filter_wanted_get (w event : json_t) (k : string) :
  json_object_get (Some (filter_wanted w event)) k
  = if is_some (json_object_get (Some w) k)
    then json_object_get (Some event) k
    else None.
Proof.
  unfold filter_wanted.
  change (json_object_get (Some w) k) with (members_get (members_of (Some w)) k).
  generalize (members_of (Some w)). intros m.
  assert (H : forall acc,
             json_object_get
               (Some (fold_left
                        (fun tmp kv =>
                           json_object_set_new_opt tmp (fst kv)
                             (json_object_get (Some event) (fst kv)))
                        m (json_object acc))) k
             = if is_some (members_get m k)
               then match json_object_get (Some event) k with
                    | Some x => Some x
                    | None => members_get acc k
                    end
               else members_get acc k).
  { induction m as [|[k' v] m IH]; intros acc; [reflexivity|].
    cbn [fold_left fst members_get].
    destruct (json_object_get (Some event) k') as [x|] eqn:Ex;
      cbn [json_object_set_new_opt json_object_set_new]; rewrite IH.
    - rewrite members_get_set.
      destruct (String.eqb_spec k' k) as [->|].
      + rewrite Ex. now destruct (is_some (members_get m k)).
      + reflexivity.
    - destruct (String.eqb_spec k' k) as [->|]; [|reflexivity].
      rewrite Ex. now destruct (is_some (members_get m k)). }
  rewrite H. cbn [members_get].
  destruct (is_some (members_get m k)); [|reflexivity].
  now destruct (json_object_get (Some event) k).
Qed.

Section Wanted.
Context (L : library) (P : from_ical_parts).

(** X12.  When the caller asks for [recurrenceOverrides] among other
    properties of a main VEVENT, the event that [calendarevent_from_ical]
    returns has no member that was not asked for, not even [@type] or
    [uid]. *)
Theorem calendarevent_from_ical_only_wanted
    (ctx ctx' : context_t) (ical : option icalcomponent) (comp : icalcomponent)
    (w event : json_t) (k : string) :
  wantprops ctx = Some w ->
  json_object_get (Some w) "recurrenceOverrides" <> None ->
  master ctx = None ->
  calendarevent_from_ical L P ctx ical comp = Some (ctx', event) ->
  json_object_get (Some w) k = None ->
  json_object_get (Some event) k = None /\ wantprops ctx' = Some w.
Proof.
  intros Hw Hro Hmaster H Hk.
  assert (Hro' : wantprop ctx "recurrenceOverrides" = true).
  { unfold wantprop. rewrite Hw.
    now destruct (json_object_get (Some w) "recurrenceOverrides"). }
  assert (Hshape : exists full c, event = filter_wanted w full
                                  /\ ctx' = set_wantprops c (Some w)).
  { revert H. unfold calendarevent_from_ical.
    repeat lazymatch goal with
           | |- (?x ≫= _) = Some _ -> _ =>
               destruct x as [?|]; [|discriminate];
               rewrite option_bind_Some; cbv beta
           | |- (let '(c, e) := ?p in _) = _ -> _ =>
               destruct p as [? ?]
           end.
    intros [= <- <-].
    rewrite Hw, Hmaster, !Hro'. cbn [negb andb]. eauto. }
  destruct Hshape as (full & c & -> & ->).
  split; [|reflexivity]. rewrite filter_wanted_get, Hk. reflexivity.
Qed.

End Wanted.

(** A use of X12, on [vevent_first], asked for title and recurrenceOverrides. *)
Lemma calendarevent_from_ical_only_wanted_witness :
  exists ctx' event,
    calendarevent_from_ical sample_library sample_from_ical_parts
      (context_new (Some (json_object [("title", json_true);
                                       ("recurrenceOverrides", json_true)]))
                   None JMAPICAL_READ_MODE)
      (Some two_main_vevents) vevent_first = Some (ctx', event)
    /\ json_object_get (Some event) "uid" = None
    /\ wantprops ctx' = Some (json_object [("title", json_true);
                                           ("recurrenceOverrides", json_true)]).
Proof.
  eexists. eexists. split; [vm_compute; reflexivity|].
  apply (calendarevent_from_ical_only_wanted sample_library sample_from_ical_parts
           (context_new (Some (json_object [("title", json_true);
                                            ("recurrenceOverrides", json_true)]))
                        None JMAPICAL_READ_MODE)
           _ (Some two_main_vevents) vevent_first
           (json_object [("title", json_true); ("recurrenceOverrides", json_true)])
           _ "uid");
    [reflexivity|discriminate|reflexivity|vm_compute; reflexivity|reflexivity].
Defined.

(** Without [recurrenceOverrides] among the properties asked for, the same
    VEVENT gives an event with [@type] and [uid]. *)
Example calendarevent_from_ical_title_only :
  exists ctx' event,
    calendarevent_from_ical sample_library sample_from_ical_parts
      (context_new (Some (json_object [("title", json_true)]))
                   None JMAPICAL_READ_MODE)
      (Some two_main_vevents) vevent_first = Some (ctx', event)
    /\ json_object_get (Some event) "uid" = Some (json_string "first")
    /\ json_object_get (Some event) "@type" = Some (json_string "jsevent")
    /\ wantprops ctx' = None.
Proof.
  eexists. eexists. split; [vm_compute; reflexivity|].
  split; [reflexivity|]. split; reflexivity.
Qed.

(* ===================================================================== *)
(** ** Dates *)
(* ===================================================================== *)

Lemma icalproperty_kind_eqb_refl k : icalproperty_kind_eqb k k = true.
Proof. now apply icalproperty_kind_eqb_eq. Qed.

Lemma dtprop_new_kind L dt tz k : prop_kind (dtprop_new L dt tz k) = k.
Proof. unfold dtprop_new. destruct tz; [destruct (negb _)|]; reflexivity. Qed.

(** X13.  [dtprop_to_ical] adds the new property after the ones that are
    there; with [purge] it is then the only one of its kind.  Writing a
    DTEND removes every DURATION and writing a DURATION removes every DTEND,
    so the two never stay side by side; the properties of all other kinds
    are as before. *)
Theorem dtprop_to_ical_properties
    (L : library) (comp : icalcomponent) (dt : icaltimetype)
    (tz : option icaltimezone) (purge : bool) (kind : icalproperty_kind) :
  props_of_kind (dtprop_to_ical L comp dt tz purge kind) kind
  = ((if purge then [] else props_of_kind comp kind)
     ++ [dtprop_new L dt tz kind])%list
  /\ (kind = ICAL_DTEND_PROPERTY ->
      props_of_kind (dtprop_to_ical L comp dt tz purge kind)
                    ICAL_DURATION_PROPERTY = [])
  /\ (kind = ICAL_DURATION_PROPERTY ->
      props_of_kind (dtprop_to_ical L comp dt tz purge kind)
                    ICAL_DTEND_PROPERTY = [])
  /\ (forall other,
        other <> kind ->
        (kind = ICAL_DTEND_PROPERTY -> other <> ICAL_DURATION_PROPERTY) ->
        (kind = ICAL_DURATION_PROPERTY -> other <> ICAL_DTEND_PROPERTY) ->
        props_of_kind (dtprop_to_ical L comp dt tz purge kind) other
        = props_of_kind comp other).
Proof.
  assert (Hne : forall a b, a <> b -> icalproperty_kind_eqb a b = false).
  { intros a b H. destruct (icalproperty_kind_eqb a b) eqn:E; [|reflexivity].
    now apply icalproperty_kind_eqb_eq in E. }
  assert (Hpurge : forall k',
             props_of_kind (if purge then remove_icalprop comp kind else comp) k'
             = if purge && icalproperty_kind_eqb kind k' then []
               else props_of_kind comp k').
  { intros k'. destruct purge; [|reflexivity].
    rewrite props_of_kind_remove_icalprop. reflexivity. }
  unfold dtprop_to_ical, dtprop_to_ical_then.
  split; [|split; [|split]].
  - rewrite props_of_kind_add_property, dtprop_new_kind,
      icalproperty_kind_eqb_refl.
    f_equal.
    destruct kind; rewrite ?props_of_kind_remove_icalprop; cbn [icalproperty_kind_eqb];
      rewrite Hpurge; rewrite ?icalproperty_kind_eqb_refl; destruct purge; reflexivity.
  - intros ->. rewrite props_of_kind_add_property, dtprop_new_kind.
    cbn [icalproperty_kind_eqb]. rewrite app_nil_r.
    rewrite props_of_kind_remove_icalprop. reflexivity.
  - intros ->. rewrite props_of_kind_add_property, dtprop_new_kind.
    cbn [icalproperty_kind_eqb]. rewrite app_nil_r.
    rewrite props_of_kind_remove_icalprop. reflexivity.
  - intros other Hother Hend Hdur.
    rewrite props_of_kind_add_property, dtprop_new_kind.
    rewrite (Hne kind other) by congruence. rewrite app_nil_r.
    destruct kind; rewrite ?props_of_kind_remove_icalprop, ?Hpurge;
      rewrite ?Hne by (first [congruence | now apply not_eq_sym, Hend
                                         | now apply not_eq_sym, Hdur]);
      rewrite ?andb_false_r; reflexivity.
Qed.

Lemma localdate_to_icaltime_zone L buf tz is_allday dt :
  localdate_to_icaltime L buf tz is_allday = Some dt ->
  zone dt = tz
  /\ is_date dt = (negb (is_allday =? 0)
                   && match tz with None => true | Some _ => false end).
Proof.
  unfold localdate_to_icaltime. intros H.
  destruct (strptime_localdate L buf) as [tm|]; [|discriminate].
  destruct (negb (is_allday =? 0) && _); [discriminate|].
  destruct (icaltime_is_null_time _); [discriminate|].
  injection H as <-. split; reflexivity.
Qed.

(** X14.  What [localdate_to_icaltime] accepts and returns.  A time that it
    returns carries the zone it was given and is a date exactly when the
    event is all-day and the zone is floating; for an all-day event a
    LocalDate with a time of day other than midnight is refused; and so is
    every string that [strptime] does not read to its end. *)
Theorem localdate_to_icaltime_result
    (L : library) (buf : string) (tz : option icaltimezone) (is_allday : Z) :
  (forall dt,
      localdate_to_icaltime L buf tz is_allday = Some dt ->
      zone dt = tz
      /\ is_date dt = (negb (is_allday =? 0)
                       && match tz with None => true | Some _ => false end)
      /\ exists tm,
           strptime_localdate L buf = Some tm
           /\ (is_allday <> 0 ->
               tm_sec tm = 0 /\ tm_min tm = 0 /\ tm_hour tm = 0))
  /\ (strptime_localdate L buf = None ->
      localdate_to_icaltime L buf tz is_allday = None).
Proof.
  unfold localdate_to_icaltime. split.
  - intros dt H.
    destruct (strptime_localdate L buf) as [tm|]; [|discriminate].
    destruct (negb (is_allday =? 0) && _) eqn:E; [discriminate|].
    destruct (icaltime_is_null_time _); [discriminate|].
    injection H as <-. cbn [zone is_date]. split; [reflexivity|].
    split; [reflexivity|]. exists tm. split; [reflexivity|].
    intros Hall. apply Z.eqb_neq in Hall. rewrite Hall in E. cbn in E.
    apply orb_false_iff in E as [E E3]. apply orb_false_iff in E as [E1 E2].
    apply negb_false_iff, Z.eqb_eq in E1, E2, E3. auto.
  - intros ->. reflexivity.
Qed.

(** X15.  [utcdate_to_icaltime] only reads strings that end in [Z]: the
    empty string and a string with another last byte are refused, and a
    time that it returns is in UTC and is not a date. *)
Theorem utcdate_to_icaltime_result (L : library) (src : string) :
  (forall dt,
      utcdate_to_icaltime L src = Some dt ->
      zone dt = Some utc_timezone
      /\ is_date dt = false
      /\ strdrop (strlen src - 1) src = "Z")
  /\ utcdate_to_icaltime L EmptyString = None
  /\ (strdrop (strlen src - 1) src <> "Z" -> utcdate_to_icaltime L src = None).
Proof.
  unfold utcdate_to_icaltime. split; [|split].
  - intros dt H.
    destruct (strlen src =? 0)%nat; [discriminate|].
    destruct (streq (strdrop (strlen src - 1) src) "Z") eqn:E; [|discriminate].
    cbn [negb] in H.
    destruct (localdate_to_icaltime_zone L _ _ _ dt H) as (Hz & Hd).
    split; [exact Hz|]. split; [exact Hd|]. now apply String.eqb_eq in E.
  - reflexivity.
  - intros Hne. destruct (strlen src =? 0)%nat; [reflexivity|].
    unfold streq. apply String.eqb_neq in Hne. now rewrite Hne.
Qed.

(* ===================================================================== *)
(** ** The byX members of a recurrence rule *)
(* ===================================================================== *)

Section ByX_more.
Context (lower upper : Z) (allowZero : bool) (fieldName : string)
        (conv : string -> Z -> string).

Lemma recurrence_byX_loop_accepts (items : list json_t) :
  forall (k : nat) (ctx : context_t) (buf : string),
    forallb (byX_accepts lower upper allowZero) items = true ->
    fold_indexed
      (recurrence_byX_element (Some lower) (Some upper) allowZero fieldName conv)
      k items (ctx, buf)
    = (ctx, byX_print conv k items buf).
Proof.
  induction items as [|x rest IH]; intros k ctx buf H; [reflexivity|].
  cbn [forallb] in H. apply andb_true_iff in H as [Hx Hrest].
  cbn [fold_indexed byX_print].
  rewrite (recurrence_byX_element_accepts _ _ _ _ _ _ _ _ _ Hx).
  now apply IH.
Qed.

(** X17.  When every element of a non-empty [byX] array is an integer
    within the bounds, [recurrence_byX_to_ical] records nothing and appends
    [;TAG=] and the values, separated by commas, to the buffer. *)
Theorem recurrence_byX_to_ical_accepts
    (ctx : context_t) (items : list json_t) (buf tag : string) :
  items <> [] ->
  forallb (byX_accepts lower upper allowZero) items = true ->
  recurrence_byX_to_ical ctx (Some (json_array items)) buf tag
    (Some lower) (Some upper) allowZero fieldName conv
  = (ctx, byX_print conv 0 items (buf ++ ";" ++ tag ++ "=")).
Proof.
  intros Hne Hall. unfold recurrence_byX_to_ical, json_array_size.
  cbn [items_of]. destruct items as [|x rest]; [contradiction|].
  cbn [length Nat.eqb]. now apply recurrence_byX_loop_accepts.
Qed.

End ByX_more.

(** The check is on the C [int]: the hour 4294967301 is taken as 5. *)
Example recurrence_byX_to_ical_truncates :
  byX_accepts 0 23 true (json_integer 4294967301) = true
  /\ recurrence_byX_to_ical (context_new None None JMAPICAL_WRITE_MODE)
       (Some (json_array [json_integer 4294967301])) "FREQ=DAILY" "BYHOUR"
       (Some 0) (Some 23) true "byHour" int_to_ical
     = (context_new None None JMAPICAL_WRITE_MODE, "FREQ=DAILY;BYHOUR=5").
Proof. split; vm_compute; reflexivity. Qed.

(** A use of X16, on [sample_byHour], whose element at index 2 is 99. *)
Lemma recurrence_byX_to_ical_records_witness :
  nth_error sample_byHour 2 = Some (json_integer 99)
  /\ byX_accepts 0 23 true (json_integer 99) = false
  /\ is_some (members_get
                (invalid (fst (recurrence_byX_to_ical
                                 (beginprop (context_new None None JMAPICAL_WRITE_MODE)
                                            "recurrenceRule")
                                 (Some (json_array sample_byHour))
                                 "FREQ=DAILY" "BYHOUR" (Some 0) (Some 23) true
                                 "byHour" int_to_ical)))
                (byX_path (beginprop (context_new None None JMAPICAL_WRITE_MODE)
                                     "recurrenceRule") "byHour" 2)) = true.
Proof.
  split; [reflexivity|]. split; [reflexivity|].
  apply (recurrence_byX_to_ical_records 0 23 true "byHour" int_to_ical
           (beginprop (context_new None None JMAPICAL_WRITE_MODE) "recurrenceRule")
           sample_byHour "FREQ=DAILY" "BYHOUR" 2 (json_integer 99)); reflexivity.
Defined.

(** A use of X17, on the hours 8 and 17. *)
Lemma recurrence_byX_to_ical_accepts_witness :
  [json_integer 8; json_integer 17] <> []
  /\ forallb (byX_accepts 0 23 true) [json_integer 8; json_integer 17] = true
  /\ recurrence_byX_to_ical (context_new None None JMAPICAL_WRITE_MODE)
       (Some (json_array [json_integer 8; json_integer 17])) "FREQ=DAILY" "BYHOUR"
       (Some 0) (Some 23) true "byHour" int_to_ical
     = (context_new None None JMAPICAL_WRITE_MODE,
        byX_print int_to_ical 0 [json_integer 8; json_integer 17]
                  ("FREQ=DAILY" ++ ";" ++ "BYHOUR" ++ "=")).
Proof.
  split; [discriminate|]. split; [reflexivity|].
  apply (recurrence_byX_to_ical_accepts 0 23 true "byHour" int_to_ical
           (context_new None None JMAPICAL_WRITE_MODE)
           [json_integer 8; json_integer 17] "FREQ=DAILY" "BYHOUR");
    [discriminate|reflexivity].
Defined.

Example byX_print_sample :
  byX_print int_to_ical 0 [json_integer 8; json_integer 17] "FREQ=DAILY;BYHOUR="
  = "FREQ=DAILY;BYHOUR=8,17".
Proof. vm_compute. reflexivity. Qed.

(* ===================================================================== *)
(** ** The RRULE; overrides that are dates *)
(* ===================================================================== *)

(** X18.  [recurrence_to_ical] replaces the RRULE: whatever RRULEs the
    VEVENT had, it has at most one afterwards, none when the rule is absent
    or [null], and none when an invalid property is on record at the end of
    the call. *)
Theorem recurrence_to_ical_at_most_one_rrule
    (L : library) (ctx : context_t) (comp : icalcomponent)
    (recur : option json_t) :
  (length (props_of_kind (snd (recurrence_to_ical L ctx comp recur))
                         ICAL_RRULE_PROPERTY) <= 1)%nat
  /\ (JNOTNULL recur
      || (0 <? length (props_of_kind (snd (recurrence_to_ical L ctx comp recur))
                                     ICAL_RRULE_PROPERTY))%nat) = JNOTNULL recur
  /\ (have_invalid_props (fst (recurrence_to_ical L ctx comp recur))
      && (0 <? length (props_of_kind (snd (recurrence_to_ical L ctx comp recur))
                                     ICAL_RRULE_PROPERTY))%nat) = false.
Proof.
  assert (Hnone : props_of_kind (remove_icalprop comp ICAL_RRULE_PROPERTY)
                                ICAL_RRULE_PROPERTY = []).
  { now rewrite props_of_kind_remove_icalprop. }
  assert (Hadd : forall buf,
             props_of_kind
               (icalcomponent_add_property
                  (remove_icalprop comp ICAL_RRULE_PROPERTY)
                  (icalproperty_new_value ICAL_RRULE_PROPERTY (val_recur buf)))
               ICAL_RRULE_PROPERTY
             = [icalproperty_new_value ICAL_RRULE_PROPERTY (val_recur buf)]).
  { intros buf. rewrite props_of_kind_add_property, Hnone. reflexivity. }
  unfold recurrence_to_ical.
  destruct recur as [recur|];
    [|cbn [snd fst]; rewrite Hnone; cbn; rewrite andb_false_r; auto].
  destruct recur;
    try (cbn [snd fst]; rewrite Hnone; cbn; rewrite andb_false_r; auto).
  all: destruct (recurrence_rule_to_ical L _ _) as [ctx1 buf];
    destruct (have_invalid_props ctx1) eqn:Hinv; cbn [negb];
    [|destruct (icalrecur_has_freq L buf)]; cbn [snd fst JNOTNULL];
    rewrite ?Hadd, ?Hnone;
    change (have_invalid_props (endprop ctx1)) with (have_invalid_props ctx1);
    rewrite ?Hinv; cbn [length Nat.ltb Nat.leb andb orb];
    rewrite ?andb_false_r; auto.
Qed.

(** A scope opened by [beginprop_key] that records one path and is closed
    again: the path is as before, and there is something to report. *)
Lemma propstr_scope_key (ctx : context_t) (name key : string) (n : option string) :
  propstr (endprop (invalidprop (beginprop_key ctx name key) n)) = propstr ctx.
Proof.
  transitivity (propstr (endprop (beginprop_key ctx name key))).
  - unfold endprop, invalidprop. now destruct (encodeprop _ n).
  - now rewrite endprop_beginprop_key.
Qed.

Lemma have_invalid_props_scope_key (ctx : context_t) (name key : string)
    (n : option string) :
  have_invalid_props (endprop (invalidprop (beginprop_key ctx name key) n)) = true.
Proof.
  change (have_invalid_props (endprop (invalidprop (beginprop_key ctx name key) n)))
    with (have_invalid_props (invalidprop (beginprop_key ctx name key) n)).
  unfold invalidprop.
  destruct (encodeprop (beginprop_key ctx name key) n) as [p|] eqn:E.
  - unfold have_invalid_props, json_object_size. cbn [members_of invalid set_invalid].
    pose proof (members_set_not_nil (invalid (beginprop_key ctx name key)) p json_null).
    destruct (members_set _ _ _); [contradiction|reflexivity].
  - exfalso. unfold encodeprop in E.
    destruct n; [discriminate E|].
    destruct (propstr (beginprop_key ctx name key)) eqn:Ep; [|discriminate E].
    unfold beginprop_key in Ep. cbn in Ep.
    revert Ep. unfold strarray_push. now destruct (propstr ctx).
Qed.

Section Overrides_more.
Context (L : library).

(** X19.  An override whose key is a LocalDate and whose patch is exactly
    [{excluded: true}] adds an EXDATE for that date, and one whose patch is
    [{}] adds an RDATE; in both cases nothing is recorded, the path of the
    context is as before, and the VCALENDAR and the cache of exceptions are
    untouched. *)
Theorem override_to_ical_exdate_rdate
    (convert : context_t -> icalcomponent -> json_t ->
               option (context_t * icalcomponent))
    (master : json_t) (st : overrides_state) (id : string) (start : icaltimetype) :
  localdate_to_icaltime L id (tzstart (os_ctx st)) (is_allday (os_ctx st))
    = Some start ->
  override_to_ical L convert master st id (json_object [("excluded", json_true)])
  = Some (mk_overrides_state (os_ctx st) (os_ical st)
            (dtprop_to_ical L (os_comp st) start (tzstart (os_ctx st)) false
                            ICAL_EXDATE_PROPERTY)
            (os_recurs st))
  /\ override_to_ical L convert master st id (json_object [])
     = Some (mk_overrides_state (os_ctx st) (os_ical st)
               (dtprop_to_ical L (os_comp st) start (tzstart (os_ctx st)) false
                               ICAL_RDATE_PROPERTY)
               (os_recurs st)).
Proof.
  intros Hstart. unfold override_to_ical.
  change (tzstart (beginprop_key (os_ctx st) "recurrenceOverrides" id))
    with (tzstart (os_ctx st)).
  change (is_allday (beginprop_key (os_ctx st) "recurrenceOverrides" id))
    with (is_allday (os_ctx st)).
  rewrite Hstart. cbn. rewrite endprop_beginprop_key. split; reflexivity.
Qed.

(** X20.  An override whose key is not a LocalDate is refused: the path
    [recurrenceOverrides/key] is recorded, the main VEVENT and the VCALENDAR
    are left as they are, and the path of the context is as before. *)
Theorem override_to_ical_key_not_a_date
    (convert : context_t -> icalcomponent -> json_t ->
               option (context_t * icalcomponent))
    (master : json_t) (st : overrides_state) (id : string) (override : json_t) :
  localdate_to_icaltime L id (tzstart (os_ctx st)) (is_allday (os_ctx st)) = None ->
  override_to_ical L convert master st id override
  = Some (mk_overrides_state
            (endprop (invalidprop
                        (beginprop_key (os_ctx st) "recurrenceOverrides" id) None))
            (os_ical st) (os_comp st) (os_recurs st))
  /\ propstr (endprop (invalidprop
                         (beginprop_key (os_ctx st) "recurrenceOverrides" id) None))
     = propstr (os_ctx st)
  /\ have_invalid_props
       (endprop (invalidprop
                   (beginprop_key (os_ctx st) "recurrenceOverrides" id) None))
     = true.
Proof.
  intros Hstart. split; [|split].
  - unfold override_to_ical.
    change (tzstart (beginprop_key (os_ctx st) "recurrenceOverrides" id))
      with (tzstart (os_ctx st)).
    change (is_allday (beginprop_key (os_ctx st) "recurrenceOverrides" id))
      with (is_allday (os_ctx st)).
    now rewrite Hstart.
  - apply propstr_scope_key.
  - apply have_invalid_props_scope_key.
Qed.

(** X21.  An override with an [excluded] member that is not [true], or that
    comes with other members, is refused: its key is recorded once more
    below [recurrenceOverrides/key], and no EXDATE is written. *)
Theorem override_to_ical_bad_excluded
    (convert : context_t -> icalcomponent -> json_t ->
               option (context_t * icalcomponent))
    (master : json_t) (st : overrides_state) (id : string) (override : json_t)
    (start : icaltimetype) (excluded : json_t) :
  localdate_to_icaltime L id (tzstart (os_ctx st)) (is_allday (os_ctx st))
    = Some start ->
  json_object_get (Some override) "excluded" = Some excluded ->
  (json_object_size (Some override) =? 1)%nat && json_is_true (Some excluded)
    = false ->
  override_to_ical L convert master st id override
  = Some (mk_overrides_state
            (endprop (invalidprop
                        (beginprop_key (os_ctx st) "recurrenceOverrides" id)
                        (Some id)))
            (os_ical st) (os_comp st) (os_recurs st))
  /\ propstr (endprop (invalidprop
                         (beginprop_key (os_ctx st) "recurrenceOverrides" id)
                         (Some id)))
     = propstr (os_ctx st)
  /\ have_invalid_props
       (endprop (invalidprop
                   (beginprop_key (os_ctx st) "recurrenceOverrides" id) (Some id)))
     = true.
Proof.
  intros Hstart Hex Hbad. split; [|split].
  - unfold override_to_ical.
    change (tzstart (beginprop_key (os_ctx st) "recurrenceOverrides" id))
      with (tzstart (os_ctx st)).
    change (is_allday (beginprop_key (os_ctx st) "recurrenceOverrides" id))
      with (is_allday (os_ctx st)).
    now rewrite Hstart, Hex, Hbad.
  - apply propstr_scope_key.
  - apply have_invalid_props_scope_key.
Qed.

End Overrides_more.

(** A use of X19, on the key [2021-03-22T09:00:00]. *)
Lemma override_to_ical_exdate_rdate_witness :
  exists start,
    localdate_to_icaltime sample_library "2021-03-22T09:00:00"
      (tzstart (os_ctx sample_overrides_state))
      (is_allday (os_ctx sample_overrides_state)) = Some start
    /\ (override_to_ical sample_library (fun _ _ _ => None) json_null
          sample_overrides_state "2021-03-22T09:00:00"
          (json_object [("excluded", json_true)])
        = Some (mk_overrides_state (os_ctx sample_overrides_state)
                  (os_ical sample_overrides_state)
                  (dtprop_to_ical sample_library (os_comp sample_overrides_state)
                     start (tzstart (os_ctx sample_overrides_state)) false
                     ICAL_EXDATE_PROPERTY)
                  (os_recurs sample_overrides_state))
        /\ override_to_ical sample_library (fun _ _ _ => None) json_null
             sample_overrides_state "2021-03-22T09:00:00" (json_object [])
           = Some (mk_overrides_state (os_ctx sample_overrides_state)
                     (os_ical sample_overrides_state)
                     (dtprop_to_ical sample_library (os_comp sample_overrides_state)
                        start (tzstart (os_ctx sample_overrides_state)) false
                        ICAL_RDATE_PROPERTY)
                     (os_recurs sample_overrides_state))).
Proof.
  eexists. split; [vm_compute; reflexivity|].
  apply (override_to_ical_exdate_rdate sample_library (fun _ _ _ => None)
           json_null sample_overrides_state "2021-03-22T09:00:00").
  vm_compute; reflexivity.
Defined.

(** A use of X20, on the key [tomorrow]. *)
Lemma override_to_ical_key_not_a_date_witness :
  override_to_ical sample_library (fun _ _ _ => None) json_null
    sample_overrides_state "tomorrow" (json_object [])
  = Some (mk_overrides_state
            (endprop (invalidprop
                        (beginprop_key (os_ctx sample_overrides_state)
                                       "recurrenceOverrides" "tomorrow") None))
            (os_ical sample_overrides_state) (os_comp sample_overrides_state)
            (os_recurs sample_overrides_state))
  /\ propstr (endprop (invalidprop
                         (beginprop_key (os_ctx sample_overrides_state)
                                        "recurrenceOverrides" "tomorrow") None))
     = propstr (os_ctx sample_overrides_state)
  /\ have_invalid_props
       (endprop (invalidprop
                   (beginprop_key (os_ctx sample_overrides_state)
                                  "recurrenceOverrides" "tomorrow") None))
     = true.
Proof.
  apply (override_to_ical_key_not_a_date sample_library (fun _ _ _ => None)
           json_null sample_overrides_state "tomorrow" (json_object [])).
  reflexivity.
Defined.

(** A use of X21, on the patch [{excluded: true, title}]. *)
Lemma override_to_ical_bad_excluded_witness :
  override_to_ical sample_library (fun _ _ _ => None) json_null
    sample_overrides_state "2021-03-22T09:00:00"
    (json_object [("excluded", json_true); ("title", json_string "x")])
  = Some (mk_overrides_state
            (endprop (invalidprop
                        (beginprop_key (os_ctx sample_overrides_state)
                                       "recurrenceOverrides" "2021-03-22T09:00:00")
                        (Some "2021-03-22T09:00:00")))
            (os_ical sample_overrides_state) (os_comp sample_overrides_state)
            (os_recurs sample_overrides_state))
  /\ propstr (endprop (invalidprop
                         (beginprop_key (os_ctx sample_overrides_state)
                                        "recurrenceOverrides" "2021-03-22T09:00:00")
                         (Some "2021-03-22T09:00:00")))
     = propstr (os_ctx sample_overrides_state)
  /\ have_invalid_props
       (endprop (invalidprop
                   (beginprop_key (os_ctx sample_overrides_state)
                                  "recurrenceOverrides" "2021-03-22T09:00:00")
                   (Some "2021-03-22T09:00:00")))
     = true.
Proof.
  apply (override_to_ical_bad_excluded sample_library (fun _ _ _ => None)
           json_null sample_overrides_state "2021-03-22T09:00:00"
           (json_object [("excluded", json_true); ("title", json_string "x")])
           (mk_icaltime 2021 1 1 10 0 0 false None) json_true);
    reflexivity.
Defined.

(** The path recorded for that patch. *)
Example override_to_ical_bad_excluded_path :
  exists st,
    override_to_ical sample_library (fun _ _ _ => None) json_null
      sample_overrides_state "2021-03-22T09:00:00"
      (json_object [("excluded", json_true); ("title", json_string "x")])
    = Some st
    /\ map fst (invalid (os_ctx st))
       = ["recurrenceOverrides/2021-03-22T09:00:00/2021-03-22T09:00:00"].
Proof. eexists. split; vm_compute; reflexivity. Qed.

(* ===================================================================== *)
(** ** Reading back what was written: keywords and relatedTo *)
(* ===================================================================== *)

Lemma members_set_fresh m k v :
  members_get m k = None -> members_set m k v = (m ++ [(k, v)])%list.
Proof.
  induction m as [|[k' w] r IH]; cbn; [reflexivity|].
  destruct (String.eqb k' k); [discriminate|]. intros H. now rewrite IH.
Qed.

Lemma members_get_app m1 m2 k :
  members_get (m1 ++ m2) k
  = match members_get m1 k with Some v => Some v | None => members_get m2 k end.
Proof.
  induction m1 as [|[k' w] r IH]; cbn; [reflexivity|].
  now destruct (String.eqb k' k).
Qed.

(** Setting distinct keys one after the other appends them in order. *)
Lemma members_set_fold {A} (key : A -> string) (val : A -> json_t) (l : list A) :
  forall acc,
    NoDup (map key l) ->
    (forall x, x ∈ l -> members_get acc (key x) = None) ->
    fold_left (fun m x => members_set m (key x) (val x)) l acc
    = (acc ++ map (fun x => (key x, val x)) l)%list.
Proof.
  induction l as [|x l IH]; intros acc Hnd Hfresh; cbn [fold_left map] in *.
  - now rewrite app_nil_r.
  - apply NoDup_cons in Hnd as [Hx Hnd].
    rewrite members_set_fresh by (apply Hfresh; left).
    rewrite IH; [now rewrite <- app_assoc|assumption|].
    intros y Hy. rewrite members_get_app, Hfresh by now right.
    cbn [members_get].
    destruct (String.eqb (key x) (key y)) eqn:E; [|reflexivity].
    apply String.eqb_eq in E. exfalso. apply Hx. rewrite E.
    apply list_elem_of_In, in_map. now apply list_elem_of_In.
Qed.

Lemma tolower_toupper c : tolower (toupper c) = tolower c.
Proof.
  destruct c as [[] [] [] [] [] [] [] []]; reflexivity.
Qed.

Lemma lcase_ucase s : lcase (ucase s) = lcase s.
Proof.
  induction s as [|c s IH]; [reflexivity|].
  unfold lcase, ucase in *. cbn. now rewrite tolower_toupper, IH.
Qed.

Lemma strlen_ucase s : strlen (ucase s) = strlen s.
Proof.
  induction s as [|c s IH]; [reflexivity|].
  unfold ucase, strlen in *. cbn. now rewrite IH.
Qed.

(* ------------------------------------------------------------------- *)
(** *** Keywords *)

Lemma keywords_to_ical_fold kws : forall ctx comp,
  props_of_kind
    (snd (fold_left
            (fun st kv =>
               let '(ctx, comp) := st in
               match snd kv with
               | json_true =>
                   (ctx, icalcomponent_add_property comp
                           (icalproperty_new_value ICAL_CATEGORIES_PROPERTY
                              (val_text (fst kv))))
               | _ =>
                   (endprop (invalidprop (beginprop ctx "keywords") (Some (fst kv))),
                    comp)
               end) kws (ctx, comp)))
    ICAL_CATEGORIES_PROPERTY
  = (props_of_kind comp ICAL_CATEGORIES_PROPERTY
     ++ map (fun kv => icalproperty_new_value ICAL_CATEGORIES_PROPERTY
                         (val_text (fst kv)))
            (true_members kws))%list.
Proof.
  induction kws as [|[k v] kws IH]; intros ctx comp; cbn [fold_left].
  - cbn. now rewrite app_nil_r.
  - cbn [snd fst]. unfold true_members. cbn [List.filter snd json_is_true].
    destruct v; rewrite IH; try reflexivity.
    rewrite props_of_kind_add_property. cbn. now rewrite <- app_assoc.
Qed.

(** X22.  Keywords written by [keywords_to_ical] are read back by
    [keywords_from_ical]: the object read back has the members of the
    object written whose value is [true], in the same order, whatever
    CATEGORIES the VEVENT had before; it is [null] when there is none. *)
Theorem keywords_round_trip
    (ctx ctx' : context_t) (comp : icalcomponent) (kws : list (string * json_t)) :
  NoDup (map fst kws) ->
  Parts.keywords_from_ical ctx'
    (snd (keywords_to_ical ctx comp (json_object kws)))
  = Some match true_members kws with
         | [] => json_null
         | kept => json_object kept
         end.
Proof.
  intros Hnd. unfold Parts.keywords_from_ical, keywords_to_ical.
  cbn [members_of]. rewrite keywords_to_ical_fold.
  rewrite props_of_kind_remove_icalprop. cbn [icalproperty_kind_eqb app].
  assert (Hkept : NoDup (map fst (true_members kws))).
  { unfold true_members. clear -Hnd.
    induction kws as [|[k v] kws IH]; [constructor|].
    cbn [map fst List.filter snd] in *. apply NoDup_cons in Hnd as [Hk Hnd].
    destruct (json_is_true (Some v)); [|now apply IH].
    cbn [map fst]. apply NoDup_cons. split; [|now apply IH].
    intros Hin. apply Hk.
    apply list_elem_of_In, in_map_iff in Hin as (y & <- & Hy).
    apply list_elem_of_In, in_map. now apply filter_In in Hy as [Hy _]. }
  assert (Htrue : map (fun kv : string * json_t => (fst kv, json_true))
                      (true_members kws) = true_members kws).
  { unfold true_members. clear.
    induction kws as [|[k v] kws IH]; [reflexivity|].
    destruct v; cbn [List.filter snd json_is_true map fst]; try exact IH.
    f_equal. exact IH. }
  assert (Hfold : forall (l : list (string * json_t)) acc,
             fold_left (fun ret prop =>
                          ret ← ret;
                          keyword ← Parts.icalproperty_get_categories prop;
                          Some (members_set ret keyword json_true))
                       (map (fun kv => icalproperty_new_value ICAL_CATEGORIES_PROPERTY
                                         (val_text (fst kv))) l)
                       (Some acc)
             = Some (fold_left (fun m kv => members_set m (fst kv) json_true) l acc)).
  { induction l as [|x l IH]; intros acc; [reflexivity|]. cbn. apply IH. }
  rewrite Hfold, (members_set_fold fst (fun _ => json_true)); auto.
  cbn [app]. rewrite Htrue. rewrite option_bind_Some.
  unfold json_object_size. cbn [members_of].
  now destruct (true_members kws).
Qed.

(* ------------------------------------------------------------------- *)
(** *** relatedTo *)

Section RelatedTo_properties.
Context (L : library).

Lemma relation_to_ical_true ctx rs : forall prop,
  Parts.relation_to_ical ctx prop
    (Some (json_object (map (fun r => (r, json_true)) rs)))
  = (ctx, mk_icalproperty (prop_kind prop) (prop_x_name prop) (prop_value prop)
            (prop_params prop
             ++ map (fun r => param_reltype (Some (ucase r))) rs)%list).
Proof.
  unfold Parts.relation_to_ical. cbn [members_of].
  induction rs as [|r rs IH]; intros prop; cbn [map fold_left].
  - rewrite app_nil_r. now destruct prop.
  - cbn [snd fst]. rewrite IH. cbn. now rewrite <- app_assoc.
Qed.

Lemma relatedto_to_ical_fold entries : forall ctx comp,
  fold_left
    (fun st kv =>
       let '(ctx, comp) := st in
       let uid := fst kv in
       let relationObj := Some (snd kv) in
       let relation := json_object_get relationObj "relation" in
       let ctx := beginprop_key ctx "relatedTo" uid in
       let '(ctx, comp) :=
         if (0 <? json_object_size relation)%nat then
           let prop := icalproperty_new_value ICAL_RELATEDTO_PROPERTY
                         (val_text uid) in
           let '(ctx, prop) := Parts.relation_to_ical ctx prop relation in
           (ctx, icalcomponent_add_property comp prop)
         else if negb (JNOTNULL relation) then
           (ctx, icalcomponent_add_property comp
                   (icalproperty_new_value ICAL_RELATEDTO_PROPERTY
                      (val_text uid)))
         else if negb (json_is_object relation) then
           (invalidprop ctx (Some "relation"), comp)
         else if (json_object_size relationObj =? 0)%nat then
           (invalidprop ctx None, comp)
         else (ctx, comp) in
       (endprop ctx, comp))
    (map (fun e => (fst e, json_object [("relation", relation_of (snd e))]))
         entries)
    (ctx, comp)
  = (ctx, mk_icalcomponent (icalcomponent_isa comp)
            (comp_props comp ++ map related_prop entries)%list
            (comp_comps comp)).
Proof.
  match goal with
  | |- forall ctx comp, fold_left ?f _ _ = _ => set (step := f)
  end.
  assert (Hget : forall x,
             json_object_get (Some (json_object [("relation", x)])) "relation"
             = Some x) by reflexivity.
  assert (Hstep : forall ctx comp uid rs,
             step (ctx, comp) (uid, json_object [("relation", relation_of rs)])
             = (ctx, icalcomponent_add_property comp (related_prop (uid, rs)))).
  { intros ctx comp uid rs. subst step. cbv beta iota zeta. cbn [fst snd].
    rewrite !Hget. destruct rs as [|r rs].
    - cbn [relation_of json_object_size members_of length Nat.ltb Nat.leb
           JNOTNULL negb].
      now rewrite endprop_beginprop_key.
    - assert (Hsize : (0 <? json_object_size (Some (relation_of (r :: rs))))%nat
                      = true) by reflexivity.
      rewrite Hsize.
      change (relation_of (r :: rs))
        with (json_object (map (fun r => (r, json_true)) (r :: rs))).
      rewrite relation_to_ical_true, endprop_beginprop_key. reflexivity. }
  clearbody step.
  induction entries as [|e entries IH]; intros ctx comp; cbn [map fold_left].
  - rewrite app_nil_r. now destruct comp.
  - destruct e as [uid rs]. cbn [fst snd]. rewrite Hstep, IH.
    cbn [icalcomponent_add_property icalcomponent_isa comp_props comp_comps].
    now rewrite <- app_assoc.
Qed.

Lemma relatedto_to_ical_entries ctx comp entries :
  Parts.relatedto_to_ical ctx comp (Some (relatedTo_of entries))
  = (ctx, mk_icalcomponent (icalcomponent_isa comp)
            (comp_props (remove_icalprop comp ICAL_RELATEDTO_PROPERTY)
             ++ map related_prop entries)%list
            (comp_comps comp)).
Proof.
  unfold Parts.relatedto_to_ical, relatedTo_of.
  cbn [JNOTNULL negb members_of]. now rewrite relatedto_to_ical_fold.
Qed.

Lemma relation_from_ical_related_prop uid rs :
  NoDup (map lcase rs) -> forallb has_text rs = true ->
  Parts.relation_from_ical (related_prop (uid, rs))
  = map (fun r => (lcase r, json_true)) rs.
Proof.
  intros Hnd Htext. unfold Parts.relation_from_ical, params_of_kind, related_prop.
  cbn [prop_params snd].
  assert (Hfilter : List.filter
                      (fun a => icalparameter_kind_eqb (icalparameter_isa a)
                                                       ICAL_RELTYPE_PARAMETER)
                      (map (fun r => param_reltype (Some (ucase r))) rs)
                    = map (fun r => param_reltype (Some (ucase r))) rs).
  { clear. induction rs as [|r rs IH]; [reflexivity|]. cbn. now rewrite IH. }
  rewrite Hfilter. clear Hfilter.
  rewrite <- (app_nil_l (map (fun r => (lcase r, json_true)) rs)).
  rewrite <- (members_set_fold lcase (fun _ => json_true) rs []); auto.
  generalize (@nil (string * json_t)).
  induction rs as [|r rs IH]; intros acc; [reflexivity|].
  cbn [map fold_left].
  cbn [forallb] in Htext. apply andb_prop in Htext as [Hr Htext].
  apply NoDup_cons in Hnd as [_ Hnd].
  unfold has_text in Hr. rewrite strlen_ucase, Hr, lcase_ucase.
  now apply IH.
Qed.

(** X23.  A [relatedTo] object written by [relatedto_to_ical] and read back
    by [relatedto_from_ical] relates the event to the same uids, in the same
    order, by the same relation types in lower case: the types are written
    in upper case and read in lower case.  Nothing is recorded as invalid. *)
Theorem relatedto_round_trip
    (ctx ctx' : context_t) (comp : icalcomponent)
    (entries : list (string * list string)) :
  entries <> [] ->
  NoDup (map fst entries) ->
  forallb (fun e => has_text (fst e) && forallb has_text (snd e)) entries = true ->
  Forall (fun e => NoDup (map lcase (snd e))) entries ->
  fst (Parts.relatedto_to_ical ctx comp (Some (relatedTo_of entries))) = ctx
  /\ Parts.relatedto_from_ical L ctx'
       (snd (Parts.relatedto_to_ical ctx comp (Some (relatedTo_of entries))))
     = relatedTo_of (map (fun e => (fst e, map lcase (snd e))) entries).
Proof.
  intros Hne Hnd Htext Hrel.
  rewrite relatedto_to_ical_entries.
  split; [reflexivity|]. cbn [snd].
  unfold Parts.relatedto_from_ical, props_of_kind, remove_icalprop.
  cbn [comp_props].
  rewrite List.filter_app.
  assert (Hold : List.filter
                   (fun p => icalproperty_kind_eqb (prop_kind p) ICAL_RELATEDTO_PROPERTY)
                   (List.filter
                      (fun p => negb (icalproperty_kind_eqb (prop_kind p)
                                                            ICAL_RELATEDTO_PROPERTY))
                      (comp_props comp)) = []).
  { induction (comp_props comp) as [|p ps IH]; [reflexivity|]. cbn.
    destruct (icalproperty_kind_eqb (prop_kind p) ICAL_RELATEDTO_PROPERTY) eqn:E;
      cbn; [assumption|]. now rewrite E. }
  rewrite Hold. clear Hold. cbn [app].
  assert (Hnew : List.filter
                   (fun p => icalproperty_kind_eqb (prop_kind p) ICAL_RELATEDTO_PROPERTY)
                   (map related_prop entries) = map related_prop entries).
  { clear. induction entries as [|e es IH]; [reflexivity|]. cbn. now rewrite IH. }
  rewrite Hnew. clear Hnew.
  assert (Hfold : forall acc,
             fold_left
               (fun ret prop =>
                  let uid := icalproperty_get_value_as_string L prop in
                  if (strlen uid =? 0)%nat then ret
                  else
                    let relation := Parts.relation_from_ical prop in
                    let relation :=
                      if (json_object_size (Some (json_object relation)) =? 0)%nat
                      then json_null
                      else json_object relation in
                    members_set ret uid (json_object [("relation", relation)]))
               (map related_prop entries) acc
             = fold_left
                 (fun m e =>
                    members_set m (fst e)
                      (json_object [("relation", relation_of (map lcase (snd e)))]))
                 entries acc).
  { clear Hne Hnd. induction entries as [|[uid rs] es IH]; intros acc; [reflexivity|].
    cbn [map fold_left].
    cbn [forallb fst snd] in Htext.
    apply andb_prop in Htext as [Hu Htext]. apply andb_prop in Hu as [Hu Hrs].
    apply Forall_cons in Hrel as [Hr Hrel]. cbn [snd] in Hr.
    rewrite IH by assumption. f_equal.
    change (icalproperty_get_value_as_string L (related_prop (uid, rs))) with uid.
    unfold has_text in Hu.
    destruct (strlen uid) eqn:El; [discriminate Hu|]. cbn [Nat.eqb].
    rewrite relation_from_ical_related_prop by assumption.
    cbn [fst snd]. f_equal. f_equal. f_equal. f_equal.
    destruct rs as [|r rs]; [reflexivity|].
    cbn [map json_object_size members_of length Nat.eqb relation_of].
    now rewrite map_map. }
  rewrite Hfold.
  rewrite (members_set_fold fst
             (fun e => json_object [("relation", relation_of (map lcase (snd e)))]));
    auto.
  cbn [app]. unfold relatedTo_of. rewrite map_map. cbn [fst snd].
  unfold json_object_size. cbn [members_of]. rewrite length_map.
  destruct entries; [contradiction|reflexivity].
Qed.

(** X24.  An entry of [relatedTo] whose [relation] is an empty object is
    passed over: no RELATED-TO is written for it and nothing is recorded
    as invalid, so the relation is lost without an error. *)
Theorem relatedto_to_ical_drops_empty_relation
    (ctx : context_t) (comp : icalcomponent) (relatedTo : list (string * json_t)) :
  Forall (fun kv => json_object_get (Some (snd kv)) "relation"
                    = Some (json_object [])) relatedTo ->
  Parts.relatedto_to_ical ctx comp (Some (json_object relatedTo))
  = (ctx, remove_icalprop comp ICAL_RELATEDTO_PROPERTY).
Proof.
  intros Hall. unfold Parts.relatedto_to_ical. cbn [JNOTNULL negb members_of].
  generalize (remove_icalprop comp ICAL_RELATEDTO_PROPERTY). intros c.
  induction Hall as [|[uid obj] rest Hrel _ IH]; [reflexivity|].
  cbn [fold_left fst snd] in *. rewrite Hrel.
  change (0 <? json_object_size (Some (json_object [])))%nat with false.
  change (negb (JNOTNULL (Some (json_object [])))) with false.
  change (negb (json_is_object (Some (json_object [])))) with false.
  assert (Hsize : (json_object_size (Some obj) =? 0)%nat = false).
  { unfold json_object_get, json_object_size in *.
    destruct (members_of (Some obj)); [discriminate Hrel|reflexivity]. }
  rewrite Hsize. cbv iota. rewrite endprop_beginprop_key. apply IH.
Qed.

End RelatedTo_properties.

(** A use of X22, on three keywords, one of them [false]. *)
Lemma keywords_round_trip_witness :
  NoDup (map fst [("work", json_true); ("draft", json_false); ("home", json_true)])
  /\ Parts.keywords_from_ical (context_new None None JMAPICAL_READ_MODE)
       (snd (keywords_to_ical (context_new None None JMAPICAL_WRITE_MODE)
               vevent_first
               (json_object [("work", json_true); ("draft", json_false);
                             ("home", json_true)])))
     = Some match true_members [("work", json_true); ("draft", json_false);
                                ("home", json_true)] with
            | [] => json_null
            | kept => json_object kept
            end.
Proof.
  assert (H : NoDup (map fst [("work", json_true); ("draft", json_false);
                              ("home", json_true)])).
  { apply (bool_decide_unpack _). vm_compute. reflexivity. }
  split; [exact H|].
  apply (keywords_round_trip (context_new None None JMAPICAL_WRITE_MODE)
           (context_new None None JMAPICAL_READ_MODE) vevent_first
           [("work", json_true); ("draft", json_false); ("home", json_true)] H).
Defined.

(** A use of X23, on two uids, one with the types [Parent] and [x-other]. *)
Lemma relatedto_round_trip_witness :
  fst (Parts.relatedto_to_ical (context_new None None JMAPICAL_WRITE_MODE)
         vevent_first
         (Some (relatedTo_of [("uid1", ["Parent"; "x-other"]); ("uid2", [])])))
  = context_new None None JMAPICAL_WRITE_MODE
  /\ Parts.relatedto_from_ical sample_library
       (context_new None None JMAPICAL_READ_MODE)
       (snd (Parts.relatedto_to_ical (context_new None None JMAPICAL_WRITE_MODE)
               vevent_first
               (Some (relatedTo_of [("uid1", ["Parent"; "x-other"]); ("uid2", [])]))))
     = relatedTo_of (map (fun e => (fst e, map lcase (snd e)))
                         [("uid1", ["Parent"; "x-other"]); ("uid2", [])]).
Proof.
  apply (relatedto_round_trip sample_library
           (context_new None None JMAPICAL_WRITE_MODE)
           (context_new None None JMAPICAL_READ_MODE) vevent_first
           [("uid1", ["Parent"; "x-other"]); ("uid2", [])]).
  - discriminate.
  - apply (bool_decide_unpack _). vm_compute. reflexivity.
  - vm_compute. reflexivity.
  - repeat constructor; apply (bool_decide_unpack _); vm_compute; reflexivity.
Defined.

(** A use of X24, on one uid. *)
Lemma relatedto_to_ical_drops_empty_relation_witness :
  Parts.relatedto_to_ical (context_new None None JMAPICAL_WRITE_MODE) vevent_first
    (Some (json_object [("uid1", json_object [("relation", json_object [])])]))
  = (context_new None None JMAPICAL_WRITE_MODE,
     remove_icalprop vevent_first ICAL_RELATEDTO_PROPERTY).
Proof.
  apply (relatedto_to_ical_drops_empty_relation
           (context_new None None JMAPICAL_WRITE_MODE) vevent_first
           [("uid1", json_object [("relation", json_object [])])]).
  repeat constructor.
Defined.

(** The relation types of those two uids come back in lower case. *)
Example relatedto_round_trip_lower_case :
  Parts.relatedto_from_ical sample_library
    (context_new None None JMAPICAL_READ_MODE)
    (snd (Parts.relatedto_to_ical (context_new None None JMAPICAL_WRITE_MODE)
            vevent_first
            (Some (relatedTo_of [("uid1", ["Parent"; "x-other"]); ("uid2", [])]))))
  = json_object
      [ ("uid1", json_object
                   [("relation", json_object [("parent", json_true);
                                              ("x-other", json_true)])]);
        ("uid2", json_object [("relation", json_null)]) ].
Proof. vm_compute. reflexivity. Qed.

(* ------------------------------------------------------------------- *)
(** *** Locale *)

Lemma head_update_first props k f :
  (forall p, prop_kind (f p) = prop_kind p) ->
  head (List.filter (fun p => icalproperty_kind_eqb (prop_kind p) k)
                    (update_first props k f))
  = f <$> head (List.filter (fun p => icalproperty_kind_eqb (prop_kind p) k) props).
Proof.
  intros Hf. induction props as [|p r IH]; [reflexivity|].
  cbn [update_first List.filter].
  destruct (icalproperty_kind_eqb (prop_kind p) k) eqn:E.
  - cbn [List.filter]. now rewrite Hf, E.
  - cbn [List.filter]. now rewrite E.
Qed.

Lemma filter_update_first_other props k k' f :
  (forall p, prop_kind (f p) = prop_kind p) ->
  icalproperty_kind_eqb k k' = false ->
  List.filter (fun p => icalproperty_kind_eqb (prop_kind p) k')
              (update_first props k f)
  = List.filter (fun p => icalproperty_kind_eqb (prop_kind p) k') props.
Proof.
  intros Hf Hk. induction props as [|p r IH]; [reflexivity|].
  cbn [update_first List.filter].
  destruct (icalproperty_kind_eqb (prop_kind p) k) eqn:E.
  - apply icalproperty_kind_eqb_eq in E.
    cbn [List.filter]. now rewrite Hf, E, Hk.
  - cbn [List.filter]. now rewrite IH.
Qed.

(** The first property of a kind after [set_language_icalprop]. *)
Lemma first_property_set_language comp kind lang k :
  icalcomponent_get_first_property (set_language_icalprop comp kind lang) k
  = if icalproperty_kind_eqb kind k
    then (fun prop =>
            mk_icalproperty (prop_kind prop) (prop_x_name prop) (prop_value prop)
              (List.filter (fun a => negb (icalparameter_kind_eqb
                                             (icalparameter_isa a)
                                             ICAL_LANGUAGE_PARAMETER))
                           (prop_params prop)
               ++ match lang with
                  | Some l => [param_language l]
                  | None => []
                  end)%list)
         <$> icalcomponent_get_first_property comp k
    else icalcomponent_get_first_property comp k.
Proof.
  unfold icalcomponent_get_first_property, props_of_kind, set_language_icalprop.
  cbn [comp_props].
  destruct (icalproperty_kind_eqb kind k) eqn:E.
  - apply icalproperty_kind_eqb_eq in E. subst k.
    rewrite head_update_first by reflexivity.
    destruct (head _) as [p|]; [|reflexivity]. cbn [fmap option_fmap option_map].
    f_equal. f_equal. destruct lang; [reflexivity|now rewrite app_nil_r].
  - now rewrite filter_update_first_other.
Qed.

Lemma first_language_after_set k x v params lang :
  icalproperty_get_first_parameter
    (mk_icalproperty k x v
       (List.filter (fun a => negb (icalparameter_kind_eqb
                                      (icalparameter_isa a)
                                      ICAL_LANGUAGE_PARAMETER)) params
        ++ match lang with
           | Some l => [param_language l]
           | None => []
           end)%list)
    ICAL_LANGUAGE_PARAMETER
  = param_language <$> lang.
Proof.
  unfold icalproperty_get_first_parameter, params_of_kind. cbn [prop_params].
  rewrite List.filter_app.
  assert (H : List.filter
                (fun a => icalparameter_kind_eqb (icalparameter_isa a)
                                                 ICAL_LANGUAGE_PARAMETER)
                (List.filter (fun a => negb (icalparameter_kind_eqb
                                               (icalparameter_isa a)
                                               ICAL_LANGUAGE_PARAMETER)) params)
              = []).
  { induction params as [|a r IH]; [reflexivity|]. cbn [List.filter].
    destruct (icalparameter_kind_eqb (icalparameter_isa a) ICAL_LANGUAGE_PARAMETER)
      eqn:E; cbn [negb List.filter]; [assumption|]. now rewrite E. }
  rewrite H. now destruct lang.
Qed.

(** What [locale_from_ical] reads after [set_language_icalprop] on the
    SUMMARY. *)
Lemma locale_from_ical_set_summary ctx comp sum lang :
  icalcomponent_get_first_property comp ICAL_SUMMARY_PROPERTY = Some sum ->
  Parts.locale_from_ical ctx
    (set_language_icalprop comp ICAL_SUMMARY_PROPERTY (Some lang))
  = json_string lang.
Proof.
  intros Hsum. unfold Parts.locale_from_ical.
  rewrite !first_property_set_language, Hsum.
  cbn [icalproperty_kind_eqb fmap option_fmap option_map].
  rewrite !(first_language_after_set _ _ _ _ (Some lang)).
  reflexivity.
Qed.

(** What it reads after the LANGUAGE of both the SUMMARY and the
    DESCRIPTION was removed. *)
Lemma locale_from_ical_cleared ctx comp :
  Parts.locale_from_ical ctx
    (set_language_icalprop
       (set_language_icalprop comp ICAL_SUMMARY_PROPERTY None)
       ICAL_DESCRIPTION_PROPERTY None)
  = json_null.
Proof.
  unfold Parts.locale_from_ical.
  rewrite !first_property_set_language.
  cbn [icalproperty_kind_eqb].
  destruct (icalcomponent_get_first_property comp ICAL_SUMMARY_PROPERTY) as [s|];
    destruct (icalcomponent_get_first_property comp ICAL_DESCRIPTION_PROPERTY)
      as [d|];
    cbn [fmap option_fmap option_map];
    rewrite ?(first_language_after_set _ _ _ _ None); reflexivity.
Qed.

(** X25.  The locale written by [calendarevent_to_ical] is the one that
    [locale_from_ical] reads back, provided the VEVENT has a SUMMARY to
    carry it: a non-empty [locale] becomes the LANGUAGE of the first
    SUMMARY, whatever LANGUAGE the SUMMARY and the DESCRIPTION had. *)
Theorem locale_round_trip
    (ctx' : context_t) (event : json_t) (st : wstate)
    (lang : string) (sum : icalproperty) :
  json_object_get (Some event) "locale" = Some (json_string lang) ->
  has_text lang = true ->
  icalcomponent_get_first_property (w_comp st) ICAL_SUMMARY_PROPERTY = Some sum ->
  exists comp,
    to_ical_locale event st = Some (mk_wstate (w_ctx st) (w_ical st) comp)
    /\ Parts.locale_from_ical ctx' comp = json_string lang.
Proof.
  intros Hloc Htext Hsum. unfold to_ical_locale, readprop.
  rewrite Hloc. cbn [json_is_null negb json_unpack_ok json_is_string].
  cbn [Z.ltb Z.gtb Z.compare json_string_value].
  unfold has_text in Htext. rewrite Htext.
  eexists. split; [reflexivity|].
  apply (locale_from_ical_set_summary _ _
           (mk_icalproperty (prop_kind sum) (prop_x_name sum) (prop_value sum)
              (List.filter (fun a => negb (icalparameter_kind_eqb
                                             (icalparameter_isa a)
                                             ICAL_LANGUAGE_PARAMETER))
                           (prop_params sum) ++ []))).
  rewrite !first_property_set_language, Hsum. reflexivity.
Qed.

(** X26.  A [locale] that is [null] or the empty string removes the
    LANGUAGE of the first SUMMARY and of the first DESCRIPTION, so that no
    locale is read back. *)
Theorem to_ical_locale_without_language
    (ctx' : context_t) (event : json_t) (st : wstate) (locale : json_t) :
  json_object_get (Some event) "locale" = Some locale ->
  locale = json_null \/ locale = json_string EmptyString ->
  exists comp,
    to_ical_locale event st = Some (mk_wstate (w_ctx st) (w_ical st) comp)
    /\ Parts.locale_from_ical ctx' comp = json_null.
Proof.
  intros Hloc Hnone. unfold to_ical_locale, readprop. rewrite Hloc.
  destruct Hnone as [-> | ->].
  - cbn [json_is_null negb]. eexists. split; [reflexivity|].
    apply locale_from_ical_cleared.
  - cbn [json_is_null negb json_unpack_ok json_is_string].
    cbn [Z.ltb Z.gtb Z.compare json_string_value strlen String.length Nat.ltb
         Nat.leb].
    eexists. split; [reflexivity|]. apply locale_from_ical_cleared.
Qed.

(** A use of X25, on a SUMMARY in English and the locale [de]. *)
Lemma locale_round_trip_witness :
  exists comp,
    to_ical_locale (json_object [("locale", json_string "de")])
      (mk_wstate (context_new None None JMAPICAL_WRITE_MODE) None
         (mk_icalcomponent ICAL_VEVENT_COMPONENT
            [ mk_icalproperty ICAL_SUMMARY_PROPERTY EmptyString (val_text "Titel")
                [param_language "en"] ] []))
    = Some (mk_wstate (context_new None None JMAPICAL_WRITE_MODE) None comp)
    /\ Parts.locale_from_ical (context_new None None JMAPICAL_READ_MODE) comp
       = json_string "de".
Proof.
  apply (locale_round_trip (context_new None None JMAPICAL_READ_MODE)
           (json_object [("locale", json_string "de")])
           (mk_wstate (context_new None None JMAPICAL_WRITE_MODE) None
              (mk_icalcomponent ICAL_VEVENT_COMPONENT
                 [ mk_icalproperty ICAL_SUMMARY_PROPERTY EmptyString
                     (val_text "Titel") [param_language "en"] ] []))
           "de"
           (mk_icalproperty ICAL_SUMMARY_PROPERTY EmptyString (val_text "Titel")
              [param_language "en"])); reflexivity.
Defined.

(** A use of X26, on a SUMMARY in English and the locale [null]. *)
Lemma to_ical_locale_without_language_witness :
  exists comp,
    to_ical_locale (json_object [("locale", json_null)])
      (mk_wstate (context_new None None JMAPICAL_WRITE_MODE) None
         (mk_icalcomponent ICAL_VEVENT_COMPONENT
            [ mk_icalproperty ICAL_SUMMARY_PROPERTY EmptyString (val_text "Titel")
                [param_language "en"] ] []))
    = Some (mk_wstate (context_new None None JMAPICAL_WRITE_MODE) None comp)
    /\ Parts.locale_from_ical (context_new None None JMAPICAL_READ_MODE) comp
       = json_null.
Proof.
  apply (to_ical_locale_without_language
           (context_new None None JMAPICAL_READ_MODE)
           (json_object [("locale", json_null)])
           (mk_wstate (context_new None None JMAPICAL_WRITE_MODE) None
              (mk_icalcomponent ICAL_VEVENT_COMPONENT
                 [ mk_icalproperty ICAL_SUMMARY_PROPERTY EmptyString
                     (val_text "Titel") [param_language "en"] ] []))
           json_null); [reflexivity|left; reflexivity].
Defined.
